(* ===== verification/_CoqProject ===== *)
-Q . S2P
Prelude.v
GoLib.v
GoFloat.v
Domain.v
State.v
StateFacts.v
Rules.v
RulesFacts.v
Regexp.v
Schema.v
Normalize.v
Inventory.v
IngestThms.v
Store.v
MemStore.v
MemStoreFacts.v
AutoStore.v
AutoStoreFacts.v
Pipeline.v
PipelineFacts.v
PipelineThms.v
Worker.v
WorkerThms.v
Policy.v
PolicyFacts.v
Engine.v
EngineFacts.v
AuditFacts.v
EngineThms.v
Secrets.v
Profile.v
ProfileFacts.v
Session.v
Poller.v
PollerFacts.v
PollerThms.v
Scheduler.v
SchedulerThms.v
ScriptModule.v
ScriptRegistry.v
ScriptRegistryFacts.v
ScriptPool.v
ScriptPoolThms.v
ScriptApi.v
ScriptApiThms.v
Scripting.v
ScriptingFacts.v
ScriptingThms.v
ScriptReloadThms.v
ScriptStack.v
Adapters.v
AdaptersThms.v
Health.v
Api.v
ApiThms.v
Messaging.v
MessagingThms.v
MessagingExample.v
GoParse.v
SimWorld.v
SimAgent.v
SimThms.v
SimLoop.v
Config.v
ConfigThms.v
App.v
AppThms.v
AppExample.v
ScriptTest.v
ScriptTestThms.v
Migrate.v
PgDB.v
PgStore.v
PgAgree.v
PgThms.v
PgAuto.v
PgAutoThms.v
PgReader.v
PgExample.v
StoreTest.v
