(* ===== verification/Prelude.v ===== *)
(** * A verification library for infra-observer

    infra-observer watches network devices: collectors poll devices over SNMP and publish raw
    observations to a message broker; a processor validates, normalizes and enriches them, runs
    each through state definitions and rules, and stores observations, states, events and alerts
    in one transaction together with outbox messages; a relay publishes the outbox; an automation
    engine turns alert-opening events into requests and, behind a series of gates, executes them
    through device adapters. Scripts extend the pipeline at fixed points, an HTTP API shows the
    store and takes approvals, and a simulator stands in for the devices. This library models the
    packages that carry that logic, under src/internal, as executable Rocq definitions, and proves
    what they promise to each other and to the operator.

    ** Layers and files

    Foundations.
    - [Prelude]: results ([result]), the state-and-error monad [ST] of transaction bodies and
      engine operations with its rules ([wp]), record update, tactics, list lemmas.
    - [GoLib]: the Go language and standard library as far as used: 64-bit integers with wrap
      around, times and durations (nanoseconds since year 1), strings as byte strings, nil-able
      maps ([smap]), map iteration order ([RangeOrder]), sorting, formatting. [GoParse]: splitting
      and the parsers of booleans, integers and durations.
    - [GoFloat]: float64 as IEEE 754 binary64 (the Standard Library's [SpecFloat]), with Go's
      formatting of floats and the order facts the rules need.
    - [Regexp]: anchored regular expressions and a matcher by derivatives, proved to decide the
      language of the expression.

    Data and ingestion.
    - [Domain] (domain/*.go): the records, error categories and how they are found through
      wrapping, label rendering, stable ids over SHA-256 (a parameter).
    - [Schema] (schema/schema.go): limits, validation, encoding and decoding. JSON is a parameter.
    - [Normalize] (normalize/normalize.go): mapping tables. The order in which Go ranges over a map
      is a parameter ([MapOrder]).
    - [Inventory] (inventory/inventory.go, enrich/enrich.go): the device registry and enrichment.
    - [IngestThms]: their theorems.

    Evaluation.
    - [State], [StateFacts] (state/definition.go, engine.go): definitions, the debouncing health
      machine, events, synthetic samples of silent devices. The specification of the machine is a
      function of the whole history of verdicts ([spec_state]); the machine refines it.
    - [Rules], [RulesFacts] (rules/rules.go): windowed conditions and their activations.

    Storage.
    - [Store] (persistence/persistence.go): the interfaces [TxOps] and [Store], an abstract store
      [AStore] with the meaning of each operation, and the laws [TxSpec] and [StoreSpec].
    - [MemStore], [MemStoreFacts] (persistence/memory.go): the in-memory store with its undo log;
      it satisfies the laws, rolls back exactly, and keeps its invariant.
    - [AutoStore], [AutoStoreFacts] (persistence/memory.go, automation.go, reader.go): automation
      requests, claims and results, listings with cursors.
    - [PgDB], [PgStore] (persistence/postgres.go, migrations/*.sql): the PostgreSQL store: tables and
      columns, statements, transactions with retries, devices, outbox. What the server decides is a
      parameter: scan order and collation ([PgServer]) and, per round trip, whether it is answered
      and what other sessions committed before ([trip]). [PgAgree]: encodings, the tables as
      an [AStore] ([pg_view]), their invariant ([pg_ok]), transactions as data ([tx_op]), run on
      either store; [PgThms]: atomicity, errors, agreement, the outbox.
    - [PgAuto], [PgAutoThms] (persistence/postgres_automation.go): automation requests, with the
      variables that closures capture across retries ([do_capture]); calls as data ([auto_op]).
    - [PgReader] (persistence/postgres_reader.go): listings and metrics with the server's filters,
      order and limits; the agreement of devices and states. [PgExample]: concrete runs.
    - [StoreTest] (persistence/storetest/*.go): the contract suite of the
      repository as programs over any store.
    - [Migrate] (persistence/migrate.go): schema migrations over a connection with the laws of
      transactions and of a primary key ([Postgres]).

    Processing.
    - [Pipeline] (pipeline/pipeline.go, relay.go): stage A ([NormalizeMessage]), stage B
      ([Process]), the sweep, the relay; generic in the store.
    - [PipelineFacts], [PipelineThms]: on the in-memory store, over every state reachable by
      processing (sweeps included: a sweep processes synthetic samples), registering devices,
      publishing and outages ([reachable]). Events that scripts persist directly are outside these
      invariants, and the ids of the events of a new observation are assumed not to collide with
      stored ones.
    - [Worker], [WorkerThms] (messaging/worker.go): routing to shards, retries, settlement of a
      delivery, dead letters; the shards as a step relation.
    - [Messaging], [MessagingThms], [MessagingExample] (messaging/client.go, deadletter.go,
      subjects.go): streams, publishing, listing and replaying dead letters, stream replay. The
      NATS library is an interface ([Broker]) and what the client relies on its laws
      ([JetStream]); the example server satisfies them.

    Collection.
    - [Secrets] (secrets/secrets.go): credential references and their resolution.
    - [Profile], [ProfileFacts] (collector/snmp/profile.go): SNMP profiles, their includes and
      their selection.
    - [Session] (collector/snmp/session.go): session parameters, conversion of answers, errors.
    - [Poller], [PollerFacts], [PollerThms] (collector/snmp/poller.go): one poll of a device.
    - [Scheduler], [SchedulerThms] (collector/scheduler.go, natssink.go): when devices are polled,
      as a step relation of the loop and its workers, and where the results go.

    Automation.
    - [Policy], [PolicyFacts] (automation/actions.go, policy.go): the action catalog, proposal
      validation, policies, maintenance windows.
    - [Engine] (automation/engine.go, worker.go): requests, gates, execution, approvals; generic in
      the automation store. Its world is the store with the log of adapter calls.
    - [EngineFacts], [AuditFacts], [EngineThms]: the engine on the in-memory store, one call at a
      time and over any interleaving of events, ticks and approvals ([auto_run]).
    - [Adapters], [AdaptersThms] (automation/adapters/*.go): the adapters of the device types, and
      the engine with them in place.

    Scripting.
    - [ScriptModule] (scripting/runtime/module.go): exports and the rewriting of modules.
    - [ScriptRegistry], [ScriptRegistryFacts] (scripting/registry/registry.go): loading, reload,
      failures and quarantine.
    - [ScriptPool], [ScriptPoolThms] (scripting/runtime/pool.go): calls on interpreters, limits and
      failures. The interpreter is an arbitrary parameter.
    - [ScriptApi], [ScriptApiThms] (scripting/api/*.go): the host functions, permissions, budgets.
    - [Scripting], [ScriptingFacts], [ScriptingThms], [ScriptReloadThms], [ScriptStack]
      (scripting/service.go, contracts.go, proposer.go): the service and its extension points; the
      pool implements the interface the service uses.
    - [ScriptTest], [ScriptTestThms] (scripting/scripttest/scripttest.go): test cases for scripts.

    Operation.
    - [Health] (health/health.go): checks and the probe endpoints.
    - [Api], [ApiThms] (api/*.go): routing, authentication, handlers, errors.
    - [Config], [ConfigThms] (config/config.go): settings, defaults, environment, validation.
    - [App], [AppThms], [AppExample] (app/*.go, cmd/infra-observer): the roles put together, and the
      stages composed through the broker and the store.

    Simulation.
    - [SimWorld] (sim/world.go, scenario.go), [SimAgent] (sim/mib.go, agent.go, control.go):
      simulated devices, scenarios, their MIB view and SNMP answers, the remote control; [SimThms] their theorems,
      [SimLoop] the simulator under the automation adapters.

    ** What the theorems show

    - Evaluation: the health machine computes exactly the specified function of the history, noise
      raises nothing, alerts and recoveries alternate, validated configuration never panics, rules
      open and clear with their conditions.
    - Storage: a failed transaction leaves no trace, transactions keep the store's invariant, the
      in-memory store implements the abstract store, pages of a listing are complete and
      disjoint, claims are exclusive; migrations are applied once and in order. The PostgreSQL
      store is atomic under failures, retries and lost answers, refines the abstract store, and
      gives the answers of the in-memory store to the same transactions, automation calls and
      listings, for arguments its columns hold exactly (times in whole microseconds, no empty
      non-nil maps, counters in 32 bits); its outbox loses nothing; both stores pass the
      repository's contract suite.
    - Processing: a redelivered observation changes nothing; in every reachable state an alert
      fires exactly for the entities that are down, and every recorded event is announced exactly
      once; the relay delivers the outbox in order; stage A lets only valid observations through;
      end to end, a raw message has the effect of one delivery whatever is redelivered between
      the stages.
    - Messaging: a delivery is settled exactly once and no message disappears; messages of one key
      are handled in order, one at a time; held work and retry delays are bounded; a publication
      is stored once; replays end and lose nothing.
    - Collection: a poll reads what the profile says, as a reference definition computes it, with
      typed values; includes resolve; polls of a device never overlap.
    - Automation: nothing is executed past a gate, and no adapter sends a command but through the
      gates; a dry run only reads; accepted proposals cannot carry anything but plain catalog
      parameters; parsed policies are always guarded; cooldowns separate executions and the audit
      trail is consistent over any run; redelivered events act once.
    - Scripting: only offered scripts run, failures are isolated and failing scripts shut off,
      transforms keep the identity of observations, effects are bounded and requests stay on
      their endpoint; a script test passes for the stated reasons only.
    - Operation: approvals need a known token and do what the engine does; credentials and
      internal errors stay inside; the environment overrides exactly what it names, automation is
      live only when someone said so, and a configuration that loads is the one in force.
    - Simulation: an agent shows its device and nothing else; port actions show in telemetry;
      timed scenarios revert and flaps end.
    - Some theorems state where the code falls short of its documentation: silence and threshold
      definitions, commas in label values, merged labels, the dry-run flag of results, prefixes
      across arcs, shadowed index labels, operator switches and reloads, replay headers, flaps
      that replace each other, an answer that survives a retry, unclassified errors of list
      queries, alerts reopened by one event.

    ** Conventions

    Identifiers keep the names of the source; record fields carry a short prefix of their record.
    A Go function that can panic returns [Err (EPanic _)] where it would; a nil pointer or map is
    [None]. Loops that the language bounds are structural; the others take fuel that is proved to
    be enough: [Drain] more than there are pending messages, the resolution of includes ([flatten])
    the number of profiles, stream replay ([replay_loop]) the number of messages plus one, the
    binary search of a view its length. Third-party code is a parameter: YAML and JSON decoding,
    SHA-256, time zones, base64 cursors, the JavaScript interpreter, the broker, SNMP sessions, the
    database server, random numbers; what is assumed of it is stated where it is used, and
    examples show that it can hold. Mutexes are not modelled: the operations they protect are
    single steps. Clocks are read once per call.

    ** Not modelled

    The interleaving of statements of concurrent PostgreSQL transactions (a transaction runs on the
    database as it is when it begins; the isolation of the server is not derived from its locks),
    the connection pool, metrics, logging, sockets and packet encodings, process start-up and flags: network,
    database and operating system access, or glue around the packages above. *)

From stdpp Require Export prelude gmap strings pretty sorting.
From Stdlib Require Export Ascii.
From stdpp Require Export options.

#[export] Set Default Proof Using "Type".
#[export] Set Warnings "-clear-no-such-hyp".

(** ** Results: a value or an error, the way a Go function returns a pair *)

Inductive result (E A : Type) : Type :=
| Ok (a : A)
| Err (e : E).
Arguments Ok {E A} a.
Arguments Err {E A} e.

#[export] Instance result_ret E : MRet (result E) := λ A a, Ok a.
#[export] Instance result_bind E : MBind (result E) := λ A B f m,
  match m with Ok a => f a | Err e => Err e end.
#[export] Instance result_fmap E : FMap (result E) := λ A B f m,
  match m with Ok a => Ok (f a) | Err e => Err e end.

Definition is_ok {E A} (r : result E A) : bool :=
  match r with Ok _ => true | Err _ => false end.

(** ** The state-and-error monad of a transaction body: an operation runs on a
    state and leaves a state behind even when it fails. *)

Definition ST (S E A : Type) : Type := S → result E A * S.

#[export] Instance ST_ret S E : MRet (ST S E) := λ A a s, (Ok a, s).
#[export] Instance ST_bind S E : MBind (ST S E) := λ A B f m s,
  match m s with
  | (Ok a, s') => f a s'
  | (Err e, s') => (Err e, s')
  end.

Definition ST_fail {S E A} (e : E) : ST S E A := λ s, (Err e, s).
Definition ST_lift {S E A} (r : result E A) : ST S E A := λ s, (r, s).

(** Run [f] on every element in order, threading an accumulator; stop at the first error. *)
Fixpoint ST_foldl {S E A B} (f : B → A → ST S E B) (b : B) (l : list A) : ST S E B :=
  match l with
  | [] => mret b
  | x :: l => f b x ≫= λ b', ST_foldl f b' l
  end.

(** ** A small program logic for that monad

    [wp m Q s]: running [m] from [s], if it succeeds with [a] in state [s'] then [Q a s'].
    Failure is unconstrained: the caller of a failed transaction body rolls it back. *)

Definition wp {S E A} (m : ST S E A) (Q : A → S → Prop) (s : S) : Prop :=
  match m s with (Ok a, s') => Q a s' | (Err _, _) => True end.

Lemma ST_bind_Ok {S E A B} (m : ST S E A) (f : A → ST S E B) s a s' : m s = (Ok a, s') → (m ≫= f) s = f a s'.
Proof. intros Hm. unfold mbind, ST_bind. by rewrite Hm. Qed.
Lemma ST_bind_inv {S E A B} (m : ST S E A) (f : A → ST S E B) s b s2 :
  (m ≫= f) s = (Ok b, s2) → ∃ a s1, m s = (Ok a, s1) ∧ f a s1 = (Ok b, s2).
Proof. unfold mbind, ST_bind. destruct (m s) as [[a|e] s1]; [by eauto|done]. Qed.

Section wp_rules.
Context {S E : Type}.

Lemma wp_ret {A} (a : A) (Q : A → S → Prop) s : Q a s → wp (E:=E) (mret a) Q s.
Proof. done. Qed.

Lemma wp_bind {A B} (m : ST S E A) (f : A → ST S E B) Q s :
  wp m (λ a, wp (f a) Q) s → wp (m ≫= f) Q s.
Proof. unfold wp, mbind, ST_bind. destruct (m s) as [[a|e] s']; done. Qed.

Lemma wp_mono {A} (m : ST S E A) (Q Q' : A → S → Prop) s :
  (∀ a s', Q a s' → Q' a s') → wp m Q s → wp m Q' s.
Proof. unfold wp. destruct (m s) as [[a|e] s']; auto. Qed.

Lemma wp_foldl {A B} (f : B → A → ST S E B) (I : list A → B → S → Prop) l b s :
  I l b s →
  (∀ x l' b' s', I (x :: l') b' s' → wp (f b' x) (λ b'' s'', I l' b'' s'') s') →
  wp (ST_foldl f b l) (λ b' s', I [] b' s') s.
Proof.
  intros HI Hstep. revert b s HI. induction l as [|x l IH]; intros b s HI; simpl.
  - by apply wp_ret.
  - apply wp_bind. eapply wp_mono; [|by apply Hstep]. intros b' s' HI'. by apply IH.
Qed.

Lemma wp_elim {A} (m : ST S E A) (Q : A → S → Prop) s a s' :
  wp m Q s → m s = (Ok a, s') → Q a s'.
Proof. unfold wp. intros H Hrun. by rewrite Hrun in H. Qed.
End wp_rules.

(** ** Record update [r <| field := v |>]

    A record declares its eta expansion; the updater of a field is found by abstracting the
    field's projection in it. *)

Class Eta (R : Type) := eta : R → R.
Class Updater {R F : Type} (proj : R → F) := update_field : (F → F) → R → R.
#[global] Arguments update_field {R F} proj {_} _ _ /.

Ltac derive_updater proj :=
  lazymatch type of proj with
  | ?R → ?F =>
      let g := fresh "g" in
      let r := fresh "r" in
      intros g r;
      let inst := constr:(_ : Eta R) in
      let whole := eval hnf in (inst r) in
      lazymatch eval pattern (proj r) in whole with
      | ?ctx _ => let out := eval cbv beta in (ctx (g (proj r))) in exact out
      end
  end.

#[global] Hint Extern 1 (Updater ?p) => (unfold Updater; derive_updater p) : typeclass_instances.

Declare Scope record_scope.
Notation "r <| f := v |>" := (update_field f (λ _, v) r)
  (at level 1, left associativity, v at level 200, format "r  <|  f  :=  v  |>") : record_scope.
#[global] Open Scope record_scope.

(** ** Proof automation *)

(** Split one [match]/[if] of the goal or of the context, remembering the equation. *)
Ltac case_match_in_goal :=
  match goal with
  | |- context [ match ?x with _ => _ end ] => lazymatch x with context [ match _ with _ => _ end ] => fail | _ => destruct x eqn:? end
  end.

Ltac case_match_in_hyp :=
  match goal with
  | H : context [ match ?x with _ => _ end ] |- _ => lazymatch x with context [ match _ with _ => _ end ] => fail | _ => destruct x eqn:? end
  end.

(** Turn boolean facts into propositions. *)
Ltac bool_to_prop :=
  repeat match goal with
  | H : (_ && _) = true |- _ => apply andb_true_iff in H as [? ?]
  | H : (_ || _) = false |- _ => apply orb_false_iff in H as [? ?]
  | H : negb _ = true |- _ => apply negb_true_iff in H
  | H : negb _ = false |- _ => apply negb_false_iff in H
  | H : bool_decide _ = true |- _ => apply bool_decide_eq_true_1 in H
  | H : bool_decide _ = false |- _ => apply bool_decide_eq_false_1 in H
  | H : (_ <? _)%Z = true |- _ => apply Z.ltb_lt in H
  | H : (_ <? _)%Z = false |- _ => apply Z.ltb_ge in H
  | H : (_ <=? _)%Z = true |- _ => apply Z.leb_le in H
  | H : (_ <=? _)%Z = false |- _ => apply Z.leb_gt in H
  | H : (_ =? _)%Z = true |- _ => apply Z.eqb_eq in H
  | H : (_ =? _)%Z = false |- _ => apply Z.eqb_neq in H
  end.

Create HintDb infra.
Create Rewrite HintDb infra_rw.
#[export] Hint Resolve wp_ret : infra.

(** ** Lists *)

Lemma filter_none {A} (P : A → Prop) `{∀ x, Decision (P x)} (l : list A) : (∀ x, x ∈ l → ¬ P x) → filter P l = [].
Proof.
  induction l as [|x l IH]; [done|]. intros Hn. rewrite filter_cons, decide_False by (apply Hn; left).
  apply IH. intros y Hy. apply Hn. by right.
Qed.

Lemma filter_all {A} (P : A → Prop) `{∀ x, Decision (P x)} (l : list A) : (∀ x, x ∈ l → P x) → filter P l = l.
Proof.
  induction l as [|x l IH]; [done|]. intros Ha. rewrite filter_cons, decide_True by (apply Ha; left).
  f_equal. apply IH. intros y Hy. apply Ha. by right.
Qed.
