(* ===== verification/GoLib.v ===== *)
(** * The part of Go and of its standard library that the platform uses

    Machine integers, instants and durations, strings, nil-able maps, sorting, number
    formatting. Everything computes, so the models built on top of it run in the kernel.

    - [int] and [int64] are [Z] with the wrap-around of two's complement written out ([wrap64]).
    - [time.Time] is the number of nanoseconds since Go's zero time (1 January of year 1, UTC);
      the location and the monotonic reading of a [time.Time] never influence a decision of the
      platform and are not represented. [time.Duration] is a number of nanoseconds.
    - [map[string]string] is [smap]: [None] is the nil map, which reads as empty.
    - Text handling ([Quote], [ToLower], [TrimSpace]) follows Go on ASCII; bytes above 127 are
      passed through. *)

From S2P Require Import Prelude.

(** ** Machine integers *)

Definition int_max : Z := 9223372036854775807.
Definition int_min : Z := -9223372036854775808.

(** Two's complement wrap-around at 64 bits, and reduction modulo 2^64 for [uint64]. *)
Definition wrap64 (z : Z) : Z := (z - int_min) mod 18446744073709551616 + int_min.
Definition wrapu64 (z : Z) : Z := z mod 18446744073709551616.

(** [n++] on an [int]. *)
Definition int_incr (n : Z) : Z := wrap64 (n + 1).

Lemma wrap64_small z : (int_min ≤ z ≤ int_max)%Z → wrap64 z = z.
Proof. unfold wrap64, int_min, int_max. intros ?. rewrite Z.mod_small; lia. Qed.

Lemma wrap64_range z : (int_min ≤ wrap64 z ≤ int_max)%Z.
Proof.
  unfold wrap64, int_min, int_max.
  pose proof (Z.mod_pos_bound (z - -9223372036854775808) 18446744073709551616). lia.
Qed.

Lemma int_incr_small n : (int_min ≤ n < int_max)%Z → int_incr n = (n + 1)%Z.
Proof. intros ?. apply wrap64_small. lia. Qed.

(** ** Instants and durations *)

Abbreviation Time := Z (only parsing).
Abbreviation Duration := Z (only parsing).

Definition time_zero : Time := 0.
Definition IsZero (t : Time) : bool := (t =? 0)%Z.
Definition After (t u : Time) : bool := (u <? t)%Z.
Definition Before (t u : Time) : bool := (t <? u)%Z.
Definition time_Add (t : Time) (d : Duration) : Time := (t + d)%Z.

(** [t.Sub(u)] saturates at the range of a [Duration]. *)
Definition time_Sub (t u : Time) : Duration := Z.max int_min (Z.min int_max (t - u)).

(** [t.Truncate(d)]: the multiple of [d] since the zero time at or before [t]. *)
Definition Truncate (t : Time) (d : Duration) : Time := if (d <=? 0)%Z then t else (t - t mod d)%Z.

Definition Microsecond : Duration := 1000.
Definition Millisecond : Duration := 1000000.
Definition Second : Duration := 1000000000.
Definition Minute : Duration := 60000000000.
Definition Hour : Duration := 3600000000000.

(** Seconds since the Unix epoch. *)
Definition Unix (t : Time) : Z := (t / Second - 62135596800)%Z.

Definition day_of (t : Time) : Z := (t / (24 * Hour))%Z.
Definition sec_of_day (t : Time) : Z := ((t mod (24 * Hour)) / Second)%Z.
Definition time_Hour (t : Time) : Z := (sec_of_day t / 3600)%Z.
Definition time_Minute (t : Time) : Z := (sec_of_day t / 60 mod 60)%Z.
Definition time_Second (t : Time) : Z := (sec_of_day t mod 60)%Z.

(** [time.Weekday]: Sunday is 0; the zero time is a Monday. *)
Definition Weekday (t : Time) : Z := ((day_of t + 1) mod 7)%Z.

(** Year, month and day of month in the proleptic Gregorian calendar, counting 400-year eras
    that start on 1 March. *)
Definition civil (t : Time) : Z * Z * Z :=
  (let z := day_of t + 306 in
   let era := z / 146097 in
   let doe := z mod 146097 in
   let yoe := (doe - doe / 1460 + doe / 36524 - doe / 146096) / 365 in
   let doy := doe - (365 * yoe + yoe / 4 - yoe / 100) in
   let mp := (5 * doy + 2) / 153 in
   let d := doy - (153 * mp + 2) / 5 + 1 in
   let m := if mp <? 10 then mp + 3 else mp - 9 in
   (yoe + era * 400 + (if m <=? 2 then 1 else 0), m, d))%Z.

(** ** Strings *)

Definition byte_of (c : ascii) : N := N_of_ascii c.
Definition chr (n : N) : ascii := ascii_of_N n.
Definition str1 (c : ascii) : string := String c "".

Definition slen (s : string) : Z := Z.of_nat (String.length s).

Fixpoint Join (l : list string) (sep : string) : string :=
  match l with
  | [] => ""
  | [s] => s
  | s :: l => s +:+ sep +:+ Join l sep
  end.

Fixpoint HasPrefix (s pre : string) : bool :=
  match pre, s with
  | "", _ => true
  | String c pre', String d s' => bool_decide (c = d) && HasPrefix s' pre'
  | _, _ => false
  end.

Fixpoint drop_str (n : nat) (s : string) : string :=
  match n, s with
  | S n, String _ s' => drop_str n s'
  | _, _ => s
  end.

Fixpoint take_str (n : nat) (s : string) : string :=
  match n, s with
  | S n, String c s' => String c (take_str n s')
  | _, _ => ""
  end.

Definition HasSuffix (s suf : string) : bool :=
  (String.length suf <=? String.length s)%nat &&
  bool_decide (drop_str (String.length s - String.length suf) s = suf).

Definition TrimPrefix (s pre : string) : string :=
  if HasPrefix s pre then drop_str (String.length pre) s else s.

Definition TrimSuffix (s suf : string) : string :=
  if HasSuffix s suf then take_str (String.length s - String.length suf) s else s.

Fixpoint Contains (s sub : string) : bool :=
  HasPrefix s sub || match s with "" => false | String _ s' => Contains s' sub end.

Fixpoint mem_char (c : ascii) (s : string) : bool :=
  match s with "" => false | String d s' => bool_decide (c = d) || mem_char c s' end.

Fixpoint ContainsAny (s chars : string) : bool :=
  match s with "" => false | String c s' => mem_char c chars || ContainsAny s' chars end.

Fixpoint map_str (f : ascii → ascii) (s : string) : string :=
  match s with "" => "" | String c s' => String (f c) (map_str f s') end.

Definition lower_char (c : ascii) : ascii :=
  let n := byte_of c in if ((65 <=? n) && (n <=? 90))%N then chr (n + 32) else c.
Definition ToLower : string → string := map_str lower_char.

Definition upper_char (c : ascii) : ascii :=
  let n := byte_of c in if ((97 <=? n) && (n <=? 122))%N then chr (n - 32) else c.
Definition ToUpper : string → string := map_str upper_char.

Definition is_space (c : ascii) : bool :=
  let n := byte_of c in ((9 <=? n) && (n <=? 13) || (n =? 32))%N.
Fixpoint trim_left (s : string) : string :=
  match s with "" => "" | String c s' => if is_space c then trim_left s' else s end.
Definition TrimSpace (s : string) : string := String.rev (trim_left (String.rev (trim_left s))).

(** [strings.NewReplacer(pairs...).Replace(s)]: at each position the first pair, in argument
    order, whose old string is a prefix of the rest is replaced; matches do not overlap. [skip]
    counts the bytes of the current match still to drop. *)
Fixpoint replacer_go (pairs : list (string * string)) (skip : nat) (s : string) : string :=
  match s with
  | "" => ""
  | String c s' =>
      match skip with
      | S k => replacer_go pairs k s'
      | O =>
          match list_find (λ p, Is_true (HasPrefix s p.1)) pairs with
          | Some (_, (old, new)) => new +:+ replacer_go pairs (String.length old - 1) s'
          | None => String c (replacer_go pairs 0 s')
          end
      end
  end.
Definition Replace (pairs : list (string * string)) (s : string) : string := replacer_go pairs 0 s.

(** [strconv.Quote] and the [%q] verb. *)
Definition hex_digit (n : N) : ascii := chr (if (n <? 10)%N then 48 + n else 87 + n).
Definition quote_char (c : ascii) : string :=
  let n := byte_of c in
  let esc (k : N) : string := String (chr 92) (str1 (chr k)) in
  match n with
  | 7 => esc 97 | 8 => esc 98 | 9 => esc 116 | 10 => esc 110 | 11 => esc 118
  | 12 => esc 102 | 13 => esc 114 | 34 => esc 34 | 92 => esc 92
  | _ => if ((n <? 32) || (n =? 127))%N
         then String (chr 92) (String (chr 120) (String (hex_digit (n / 16)) (str1 (hex_digit (n mod 16)))))
         else str1 c
  end%N.
Fixpoint quote_body (s : string) : string :=
  match s with "" => "" | String c s' => quote_char c +:+ quote_body s' end.
Definition Quote (s : string) : string := String (chr 34) (quote_body s +:+ str1 (chr 34)).

(** [encoding/hex.EncodeToString] on a byte string. *)
Fixpoint hex_encode (s : string) : string :=
  match s with
  | "" => ""
  | String c s' => String (hex_digit (byte_of c / 16)) (String (hex_digit (byte_of c mod 16)) (hex_encode s'))
  end.

(** ** Number formatting *)

(** [strconv.FormatInt(n, 10)]. *)
Definition FormatInt (n : Z) : string := pretty n.
Definition FormatBool (b : bool) : string := if b then "true" else "false".

Fixpoint zeros (n : nat) : string := match n with O => "" | S n => String "0" (zeros n) end.
Definition pad (width : nat) (n : Z) : string :=
  let s := pretty (Z.abs n) in
  (if (n <? 0)%Z then "-" else "") +:+ zeros (width - String.length s) +:+ s.

(** [t.UTC().Format(time.RFC3339)]. *)
Definition FormatRFC3339 (t : Time) : string :=
  let '(y, m, d) := civil t in
  pad 4 y +:+ "-" +:+ pad 2 m +:+ "-" +:+ pad 2 d +:+ "T" +:+
  pad 2 (time_Hour t) +:+ ":" +:+ pad 2 (time_Minute t) +:+ ":" +:+ pad 2 (time_Second t) +:+ "Z".

(** [Duration.String]: the fraction [v / 10^prec] without trailing zeros. *)
Fixpoint frac_digits (prec : nat) (v : Z) : string :=
  match prec with
  | O => ""
  | S p => if (v =? 0)%Z then "" else pretty (v / 10 ^ Z.of_nat p)%Z +:+ frac_digits p (v mod 10 ^ Z.of_nat p)%Z
  end.
Definition fmt_frac (v : Z) (prec : nat) : string :=
  let f := frac_digits prec (v mod 10 ^ Z.of_nat prec)%Z in
  pretty (v / 10 ^ Z.of_nat prec)%Z +:+ (if bool_decide (f = "") then "" else "." +:+ f).
Definition DurationString (d : Duration) : string :=
  (let u := Z.abs d in
   let secs := u / Second in
   let frac := fmt_frac (secs mod 60 * Second + u mod Second) 9 in
   (if d <? 0 then "-" else "") +:+
   (if u =? 0 then "0s"
    else if u <? Microsecond then fmt_frac u 0 +:+ "ns"
    else if u <? Millisecond then fmt_frac u 3 +:+ String (chr 194) (str1 (chr 181)) +:+ "s"
    else if u <? Second then fmt_frac u 6 +:+ "ms"
    else if secs <? 60 then frac +:+ "s"
    else if secs <? 3600 then pretty (secs / 60)%Z +:+ "m" +:+ frac +:+ "s"
    else pretty (secs / 3600)%Z +:+ "h" +:+ pretty (secs / 60 mod 60)%Z +:+ "m" +:+ frac +:+ "s"))%Z.

(** ** Nil-able string maps *)

Abbreviation smap := (option (gmap string string)).

Definition entries (m : smap) : gmap string string := default ∅ m.
Definition mget (m : smap) (k : string) : option string := entries m !! k.
(** Reading a missing key gives the zero value, the empty string. *)
Definition mread (m : smap) (k : string) : string := default "" (mget m k).
Definition mlen (m : smap) : Z := Z.of_nat (size (entries m)).
Definition mlist (m : smap) : list (string * string) := map_to_list (entries m).

(** Ranging over a Go map visits every entry once, in an order the language leaves open. *)
Class RangeOrder := {
  range_order {V} : gmap string V → list (string * V);
  range_order_perm {V} (m : gmap string V) : range_order m ≡ₚ map_to_list m;
}.

(** One such order, for examples; theorems hold for every order. *)
Definition stored_order : RangeOrder :=
  {| range_order V m := map_to_list m; range_order_perm V m := Permutation_refl _ |}.

Lemma elem_of_range_order `{RangeOrder} {V} (m : gmap string V) k v : (k, v) ∈ range_order m ↔ m !! k = Some v.
Proof. by rewrite range_order_perm, elem_of_map_to_list. Qed.

(** ** Sorting *)

Definition sort_strings (l : list string) : list string := merge_sort String.le l.

(** [sort.SliceStable(l, less)]; with keys that are pairwise distinct also [sort.Slice]. *)
Definition not_after {A} (less : A → A → bool) (x y : A) : Prop := less y x = false.
#[export] Instance not_after_dec {A} (less : A → A → bool) : RelDecision (not_after less).
Proof. intros x y. unfold not_after. apply _. Defined.

Definition sort_stable {A} (less : A → A → bool) (l : list A) : list A :=
  merge_sort (not_after less) l.

Lemma sort_stable_perm {A} (less : A → A → bool) l : sort_stable less l ≡ₚ l.
Proof. apply merge_sort_Permutation. Qed.

(** The result is ordered when [less] is irreflexive on swapped pairs, as every strict order is. *)
Lemma sort_stable_sorted {A} (less : A → A → bool) (R : A → A → Prop) l :
  (∀ x y, less x y = true → less y x = false) → (∀ x y, less y x = false → R x y) → Sorted R (sort_stable less l).
Proof.
  intros Hasym HR. assert (Total (not_after less)) as Htot.
  { intros x y. unfold not_after. destruct (less y x) eqn:Hxy; [right; by apply Hasym|by left]. }
  pose proof (Sorted_merge_sort (not_after less) l) as Hs. unfold sort_stable.
  induction Hs as [|x l' _ IH Hd]; constructor; [done|]. inversion Hd; constructor. by apply HR.
Qed.

(** With distinct keys the result is strictly ordered. *)
Lemma sort_stable_strict {A K} (key : A → K) (less : A → A → bool) l :
  (∀ x y, less x y = true → less y x = false) → (∀ x y z, less x y = true → less y z = true → less x z = true) →
  (∀ x y, less x y = false → less y x = false → key x = key y) → NoDup (key <$> l) →
  StronglySorted (λ x y, less x y = true) (sort_stable less l).
Proof.
  intros Hasym Htrans Htotal Hnd. rewrite <-(sort_stable_perm less l) in Hnd.
  pose proof (sort_stable_sorted less (λ x y, less y x = false) l Hasym ltac:(done)) as Hs.
  apply Sorted_StronglySorted; [intros x y z; apply Htrans|].
  induction Hs as [|x l' _ IH Hd]; [constructor|]. simpl in Hnd. apply NoDup_cons in Hnd as [Hx Hnd]. constructor; [auto|].
  inversion Hd as [|y l'' Hy]; constructor. subst. destruct (less x y) eqn:Hxy; [done|].
  destruct Hx. rewrite (Htotal _ _ Hxy Hy). by left.
Qed.

Lemma elem_of_sort_stable {A} (less : A → A → bool) l x : x ∈ sort_stable less l ↔ x ∈ l.
Proof. by rewrite sort_stable_perm. Qed.

(** ** String lemmas shared by the components *)

Lemma append_nil_l s : "" +:+ s = s.
Proof. done. Qed.
Lemma append_cons c s t : String c s +:+ t = String c (s +:+ t).
Proof. done. Qed.
Lemma append_nil_r s : s +:+ "" = s.
Proof. induction s as [|c s IH]; [done|]. by rewrite append_cons, IH. Qed.
Lemma append_assoc s t u : (s +:+ t) +:+ u = s +:+ (t +:+ u).
Proof. induction s as [|c s IH]; [done|]. by rewrite !append_cons, IH. Qed.
Lemma length_append s t : String.length (s +:+ t) = String.length s + String.length t.
Proof. induction s as [|c s IH]; [done|]. rewrite append_cons. simpl. by rewrite IH. Qed.

Create Rewrite HintDb strings.
#[export] Hint Rewrite append_nil_l append_nil_r append_cons append_assoc length_append : strings.

Lemma HasPrefix_spec s pre : HasPrefix s pre = true ↔ ∃ r, s = pre +:+ r.
Proof.
  revert s. induction pre as [|c pre IH]; intros s; [split; [by exists s|by destruct s]|].
  destruct s as [|d s]; simpl; [split; [done|by intros [r ?]]|].
  rewrite andb_true_iff, bool_decide_eq_true, IH. split.
  - intros [-> [r ->]]. by exists r.
  - intros [r Hr]. rewrite append_cons in Hr. by simplify_eq; eauto.
Qed.

Lemma drop_str_append s t : drop_str (String.length s) (s +:+ t) = t.
Proof. induction s as [|c s IH]; [done|]. by rewrite append_cons. Qed.

Lemma TrimPrefix_append pre r : TrimPrefix (pre +:+ r) pre = r.
Proof.
  unfold TrimPrefix. rewrite (proj2 (HasPrefix_spec (pre +:+ r) pre)) by by exists r.
  apply drop_str_append.
Qed.

(** Two prefixes of one string that have the same length are the same. *)
Lemma HasPrefix_same_length s p q :
  HasPrefix s p = true → HasPrefix s q = true → String.length p = String.length q → p = q.
Proof.
  revert s q. induction p as [|c p IH]; intros s [|d q]; try done. destruct s as [|e s]; [done|]. simpl.
  intros [->%bool_decide_eq_true_1 Hp]%andb_true_iff [->%bool_decide_eq_true_1 Hq]%andb_true_iff Hlen.
  f_equal. eapply IH; eauto.
Qed.

Lemma mem_char_append c s t : mem_char c (s +:+ t) = mem_char c s || mem_char c t.
Proof. induction s as [|d s IH]; [done|]. rewrite append_cons. simpl. by rewrite IH, orb_assoc. Qed.

(** A separator that occurs in neither of two prefixes splits a string in one way. *)
Lemma append_sep_inj c s1 s2 r1 r2 :
  mem_char c s1 = false → mem_char c s2 = false →
  s1 +:+ String c r1 = s2 +:+ String c r2 → s1 = s2 ∧ r1 = r2.
Proof.
  revert s2. induction s1 as [|d s1 IH]; intros [|d2 s2]; rewrite ?append_cons; simpl; intros H1 H2 Heq.
  - by simplify_eq/=.
  - injection Heq as -> _. by rewrite bool_decide_eq_true_2 in H2.
  - injection Heq as -> _. by rewrite bool_decide_eq_true_2 in H1.
  - apply orb_false_iff in H1 as [_ H1]. apply orb_false_iff in H2 as [_ H2].
    injection Heq as -> Heq. destruct (IH s2 H1 H2 Heq) as [-> ->]. done.
Qed.

(** A string without the separator is not one with it. *)
Lemma no_sep c s1 s2 r : mem_char c s1 = false → s1 ≠ s2 +:+ String c r.
Proof.
  intros H ->. rewrite mem_char_append in H. apply orb_false_iff in H as [_ H].
  simpl in H. by rewrite bool_decide_eq_true_2 in H.
Qed.

(** Strings joined by a separator none of them contains, none of them empty, can be split again. *)
Lemma Join_inj c l1 l2 :
  Forall (λ s, mem_char c s = false ∧ s ≠ "") l1 → Forall (λ s, mem_char c s = false ∧ s ≠ "") l2 →
  Join l1 (str1 c) = Join l2 (str1 c) → l1 = l2.
Proof.
  revert l2. induction l1 as [|s1 l1 IH]; intros [|s2 l2] H1 H2 Heq; try done.
  - apply Forall_cons in H2 as [[_ ?] _]. destruct l2; simpl in Heq; [done|]. by destruct s2.
  - apply Forall_cons in H1 as [[_ ?] _]. destruct l1; simpl in Heq; [done|]. by destruct s1.
  - apply Forall_cons in H1 as [[H1 _] H1']. apply Forall_cons in H2 as [[H2 _] H2'].
    destruct l1 as [|t1 l1], l2 as [|t2 l2].
    + simpl in Heq. by subst.
    + by destruct (no_sep c s1 s2 (Join (t2 :: l2) (str1 c)) H1).
    + by destruct (no_sep c s2 s1 (Join (t1 :: l1) (str1 c)) H2).
    + destruct (append_sep_inj c s1 s2 (Join (t1 :: l1) (str1 c)) (Join (t2 :: l2) (str1 c)) H1 H2 Heq) as [-> Heq'].
      f_equal. by apply IH.
Qed.

(** Writing a separator before every element but the first is joining. *)
Lemma concat_tail {A} (f : nat → A → string) (g : A → string) sep l :
  (∀ i x, f (S i) x = sep +:+ g x) →
  ∀ n, String.concat "" (imap (λ i, f (S n + i)) l) = String.concat "" ((λ x, sep +:+ g x) <$> l).
Proof.
  intros Hf. induction l as [|x l IH]; intros n; [done|].
  rewrite imap_cons. replace (S n + 0) with (S n) by lia. rewrite Hf, fmap_cons.
  rewrite (imap_ext _ (λ i, f (S (S n) + i))) by (intros i y _; simpl; do 2 f_equal; lia).
  specialize (IH (S n)).
  destruct l as [|y l]; [done|]. simpl in *. by rewrite IH.
Qed.

Lemma concat_sep_tail {A} (g : A → string) sep x l :
  g x +:+ String.concat "" ((λ y, sep +:+ g y) <$> l) = Join (g <$> x :: l) sep.
Proof.
  revert x. induction l as [|y l IH]; intros x.
  - simpl. by rewrite append_nil_r.
  - change (Join (g <$> x :: y :: l) sep) with (g x +:+ sep +:+ Join (g <$> y :: l) sep).
    rewrite <-IH. destruct l; simpl; autorewrite with strings; done.
Qed.

Lemma concat_imap_Join {A} (g : A → string) sep (l : list A) :
  String.concat "" (imap (λ i x, (if (0 <? i)%nat then sep else "") +:+ g x) l) = Join (g <$> l) sep.
Proof.
  destruct l as [|x l]; [done|]. rewrite <-concat_sep_tail, imap_cons.
  set (f := λ (i : nat) (y : A), (if (0 <? i)%nat then sep else "") +:+ g y).
  assert (imap (f ∘ S) l = imap (λ i, f (S 0 + i)) l) as -> by done.
  destruct l as [|y l]; [simpl; by autorewrite with strings|].
  rewrite <-(concat_tail f g sep (y :: l)) with (n := 0) by done. done.
Qed.

Lemma sort_strings_perm l : sort_strings l ≡ₚ l.
Proof. apply merge_sort_Permutation. Qed.

