(* ===== verification/GoFloat.v ===== *)
(** * [float64]

    IEEE 754 binary64 as the Standard Library's [spec_float]: signed zeros, infinities, one NaN
    and finite numbers, with correctly rounded operations. Every comparison with a NaN is false,
    as in Go. The formatting functions compute the same digits as [strconv.FormatFloat]: the
    shortest decimal that reads back as the same number, or a fixed count of significant digits
    of the exact value. *)

From Stdlib Require Export SpecFloat.
From S2P Require Import Prelude GoLib.

Abbreviation float64 := spec_float.

#[export] Instance float64_eq_dec : EqDecision float64.
Proof. solve_decision. Defined.

Definition f_add : float64 → float64 → float64 := SFadd 53 1024.
Definition f_mul : float64 → float64 → float64 := SFmul 53 1024.
Definition f_div : float64 → float64 → float64 := SFdiv 53 1024.

(** Go's [<], [>] and [==] on [float64]. *)
Definition f_lt (x y : float64) : bool := SFltb x y.
Definition f_gt (x y : float64) : bool := SFltb y x.
Definition f_eq (x y : float64) : bool := SFeqb x y.

(** [float64(n)] for an integer [n], rounded to nearest even; [m * 2^e] in general. *)
Definition f_dyadic (m e : Z) : float64 := binary_normalize 53 1024 m e false.
Definition f_of_int (n : Z) : float64 := f_dyadic n 0.

(** Conversion to an integer drops the fraction (what it does with values that are not finite or
    out of range is left open by the language). *)
Definition f_to_int (x : float64) : Z :=
  match x with
  | S754_finite s m e =>
      let n := if (0 <=? e)%Z then (Zpos m * 2 ^ e)%Z else (Zpos m / 2 ^ (- e))%Z in
      if s then (- n)%Z else n
  | _ => 0%Z
  end.

Definition f_zero : float64 := S754_zero false.
Definition f_one : float64 := f_of_int 1.

Definition IsNaN (x : float64) : bool := match x with S754_nan => true | _ => false end.
Definition IsInf (x : float64) : bool := match x with S754_infinity _ => true | _ => false end.

(** The built-in [max] and [min]: a NaN operand gives NaN, and +0 is above -0. *)
Definition f_max (x y : float64) : float64 :=
  match x, y with
  | S754_nan, _ | _, S754_nan => S754_nan
  | S754_zero s, S754_zero t => S754_zero (s && t)
  | _, _ => if f_lt x y then y else x
  end.
Definition f_min (x y : float64) : float64 :=
  match x, y with
  | S754_nan, _ | _, S754_nan => S754_nan
  | S754_zero s, S754_zero t => S754_zero (s || t)
  | _, _ => if f_lt y x then y else x
  end.

(** ** Decimal digits

    A decimal is [D * 10^k]; [decimal_digits] lists the digits of [D] and the position of the
    decimal point counted from the first digit. *)

Definition decimal_digits (D k : Z) : string * Z :=
  if (D =? 0)%Z then ("", 0%Z)
  else let s := pretty D in (s, (slen s + k)%Z).

(** One position of the shortest-digits search: the exact value is [xn/den], the open interval
    that rounds to it is [(ln/den, un/den)], closed when [incl]. *)
Definition shortest_at (xn ln un den : Z) (incl : bool) (k : Z) : option Z :=
  (let P := 10 ^ Z.max 0 (- k) in
   let Q := 10 ^ Z.max 0 k * den in
   let down := xn * P / Q in
   let okdown := (ln * P <? down * Q) || (incl && (ln * P =? down * Q)) in
   let okup := ((down + 1) * Q <? un * P) || (incl && ((down + 1) * Q =? un * P)) in
   let rem := 2 * (xn * P mod Q) in
   match okdown, okup with
   | true, true => Some (if (Q <? rem) || ((Q =? rem) && Z.odd down) then down + 1 else down)
   | true, false => Some down
   | false, true => Some (down + 1)
   | false, false => None
   end)%Z.

Fixpoint shortest_go (fuel : nat) (xn ln un den : Z) (incl : bool) (k : Z) : Z * Z :=
  match fuel with
  | O => (0, 0)%Z
  | S fuel =>
      match shortest_at xn ln un den incl k with
      | Some D => (D, k)
      | None => shortest_go fuel xn ln un den incl (k - 1)
      end
  end.

(** The value [m * 2^e] scaled by four over a power of two. *)
Definition scaled (n e : Z) : Z * Z :=
  (if 0 <=? e - 2 then (n * 2 ^ (e - 2), 1) else (n, 2 ^ (2 - e)))%Z.

(** An upper bound for the position of the leading digit; 17 digits always suffice. *)
Definition lead_position (n den : Z) : Z := ((Z.log2 n - Z.log2 den + 1) * 30103 / 100000 + 1)%Z.

Definition shortest_digits (m : positive) (e : Z) : string * Z :=
  (let M := Zpos m in
   let lo := if (M =? 2 ^ 52) && negb (e =? -1074) then 4 * M - 1 else 4 * M - 2 in
   let '(xn, den) := scaled (4 * M) e in
   let '(ln, _) := scaled lo e in
   let '(un, _) := scaled (4 * M + 2) e in
   let '(D, k) := shortest_go 24 xn ln un den (Z.even M) (lead_position un den) in
   decimal_digits D k)%Z.

Definition round_half_even (n d : Z) : Z :=
  (let q := n / d in
   let r := 2 * (n mod d) in
   if (d <? r) || ((d =? r) && Z.odd q) then q + 1 else q)%Z.

Fixpoint find_lead (fuel : nat) (n den k : Z) : Z :=
  match fuel with
  | O => k
  | S fuel => if (10 ^ Z.max 0 k * den <=? n * 10 ^ Z.max 0 (- k))%Z then k else find_lead fuel n den (k - 1)
  end.

Fixpoint trim_zeros (fuel : nat) (D k : Z) : Z * Z :=
  match fuel with
  | O => (D, k)
  | S fuel => if ((D mod 10 =? 0) && negb (D =? 0))%Z then trim_zeros fuel (D / 10) (k + 1) else (D, k)
  end%Z.

(** [prec] significant digits of the exact value, trailing zeros removed. *)
Definition rounded_digits (prec : nat) (m : positive) (e : Z) : string * Z :=
  (let '(n, den) := scaled (4 * Zpos m) e in
   let k := find_lead 8 n den (lead_position n den) - Z.of_nat prec + 1 in
   let D := round_half_even (n * 10 ^ Z.max 0 (- k)) (10 ^ Z.max 0 k * den) in
   let '(D, k) := trim_zeros (S prec) D k in
   decimal_digits D k)%Z.

(** ** Layout *)

(** [digits dp] laid out as [%f] with [prec] digits after the point. *)
Definition digit_at (digits : string) (j : Z) : string :=
  if ((0 <=? j) && (j <? slen digits))%Z then take_str 1 (drop_str (Z.to_nat j) digits) else "0".
Definition fmtF (digits : string) (dp prec : Z) : string :=
  (if (0 <? dp)%Z
   then take_str (Z.to_nat dp) digits +:+ zeros (Z.to_nat (dp - slen digits))
   else "0") +:+
  (if (0 <? prec)%Z
   then "." +:+ String.concat "" ((λ i, digit_at digits (dp + Z.of_nat i)) <$> seq 0 (Z.to_nat prec))
   else "").

(** The [%e] layout with [prec] digits after the first. *)
Definition fmtE (digits : string) (dp prec : Z) : string :=
  (let exp := if slen digits =? 0 then 0 else dp - 1 in
   digit_at digits 0 +:+
   (if 0 <? prec
    then "." +:+ String.concat "" ((λ i, digit_at digits (1 + Z.of_nat i)) <$> seq 0 (Z.to_nat prec))
    else "") +:+
   "e" +:+ (if exp <? 0 then "-" else "+") +:+ pad 2 (Z.abs exp))%Z.

Definition fmtG (digits : string) (dp prec : Z) (shortest : bool) : string :=
  (let nd := slen digits in
   let eprec := if shortest then 6 else if (nd <? prec) && (dp <=? nd) then nd else prec in
   let prec := if shortest then nd else prec in
   let exp := dp - 1 in
   if (exp <? -4) || (eprec <=? exp) then fmtE digits dp (Z.min prec nd - 1)
   else fmtF digits dp (Z.max ((if dp <? prec then nd else prec) - dp) 0))%Z.

Definition with_sign (s : bool) (body : string) : string := (if s then "-" else "") +:+ body.

(** [strconv.FormatFloat(x, 'f', -1, 64)]. *)
Definition FormatFloat_f (x : float64) : string :=
  match x with
  | S754_nan => "NaN"
  | S754_infinity s => if s then "-Inf" else "+Inf"
  | S754_zero s => with_sign s "0"
  | S754_finite s m e =>
      let '(ds, dp) := shortest_digits m e in
      with_sign s (fmtF ds dp (Z.max (slen ds - dp) 0))
  end.

(** [strconv.FormatFloat(x, 'g', prec, 64)]; [None] is the shortest precision, [-1]. *)
Definition FormatFloat_g (prec : option nat) (x : float64) : string :=
  match x with
  | S754_nan => "NaN"
  | S754_infinity s => if s then "-Inf" else "+Inf"
  | S754_zero s => with_sign s "0"
  | S754_finite s m e =>
      match prec with
      | Some p => let '(ds, dp) := rounded_digits p m e in with_sign s (fmtG ds dp (Z.of_nat p) false)
      | None => let '(ds, dp) := shortest_digits m e in with_sign s (fmtG ds dp 0 true)
      end
  end.

(** ** Facts used by the components *)

(** [<] on numbers other than NaN is the order of these keys: the class (infinite, finite or zero,
    with sign), the exponent, the mantissa. *)
Definition f_key (x : float64) : Z * Z * Z :=
  match x with
  | S754_infinity true => (-2, 0, 0)
  | S754_finite true m e => (-1, - e, Z.neg m)
  | S754_zero _ | S754_nan => (0, 0, 0)
  | S754_finite false m e => (1, e, Z.pos m)
  | S754_infinity false => (2, 0, 0)
  end%Z.

Definition key_lt (k1 k2 : Z * Z * Z) : Prop :=
  let '(a1, b1, c1) := k1 in
  let '(a2, b2, c2) := k2 in
  (a1 < a2 ∨ (a1 = a2 ∧ (b1 < b2 ∨ (b1 = b2 ∧ c1 < c2))))%Z.

Lemma f_lt_key x y : IsNaN x = false → IsNaN y = false → f_lt x y = true ↔ key_lt (f_key x) (f_key y).
Proof.
  intros Hx Hy. unfold f_lt, SFltb, SFcompare, key_lt.
  destruct x as [[]|[]| |[] m1 e1], y as [[]|[]| |[] m2 e2]; try done; cbn -[Z.lt Z.opp Z.compare Pos.compare_cont];
    try (change (Pos.compare_cont Eq m1 m2) with (Pos.compare m1 m2);
         destruct (Z.compare_spec e1 e2) as [->|?|?], (Pos.compare_spec m1 m2) as [->|?|?]; simpl);
    split; intros; try done; lia.
Qed.

Lemma f_lt_false_key x y : IsNaN x = false → IsNaN y = false → f_lt x y = false ↔ ¬ key_lt (f_key x) (f_key y).
Proof. intros Hx Hy. rewrite <-f_lt_key by done. by destruct (f_lt x y). Qed.

(** Away from two zeros, [max] and [min] pick one operand by [<]. *)
Lemma f_max_pick x y : IsNaN x = false → IsNaN y = false →
  f_max x y = (if f_lt x y then y else x) ∨ (f_key x = (0, 0, 0)%Z ∧ f_key y = (0, 0, 0)%Z ∧ ∃ s, f_max x y = S754_zero s).
Proof. destruct x, y; simpl; intros; try done; eauto. Qed.

Lemma f_min_pick x y : IsNaN x = false → IsNaN y = false →
  f_min x y = (if f_lt y x then y else x) ∨ (f_key x = (0, 0, 0)%Z ∧ f_key y = (0, 0, 0)%Z ∧ ∃ s, f_min x y = S754_zero s).
Proof. destruct x, y; simpl; intros; try done; eauto. Qed.

Ltac key_order :=
  repeat match goal with
  | k : (Z * Z * Z)%type |- _ => let a := fresh "a" in let b := fresh "b" in let c := fresh "c" in destruct k as [[a b] c]
  end; unfold key_lt in *; lia.

(** The larger of two numbers exceeds a limit exactly when one of them does, and the smaller is
    below a limit exactly when one of them is; dually for both. *)
Lemma f_max_key x y l : IsNaN x = false → IsNaN y = false →
  IsNaN (f_max x y) = false ∧ (key_lt l (f_key (f_max x y)) ↔ key_lt l (f_key x) ∨ key_lt l (f_key y)) ∧
  (key_lt (f_key (f_max x y)) l ↔ key_lt (f_key x) l ∧ key_lt (f_key y) l).
Proof.
  intros Hx Hy. destruct (f_max_pick x y Hx Hy) as [->|(Hkx & Hky & s & ->)].
  - destruct (f_lt x y) eqn:Hlt; (split; [done|]).
    + apply f_lt_key in Hlt; [|done..]. generalize dependent (f_key x). generalize (f_key y). intros. key_order.
    + apply f_lt_false_key in Hlt; [|done..]. generalize dependent (f_key x). generalize (f_key y). intros. key_order.
  - split; [done|]. rewrite Hkx, Hky. simpl. tauto.
Qed.

Lemma f_min_key x y l : IsNaN x = false → IsNaN y = false →
  IsNaN (f_min x y) = false ∧ (key_lt (f_key (f_min x y)) l ↔ key_lt (f_key x) l ∨ key_lt (f_key y) l) ∧
  (key_lt l (f_key (f_min x y)) ↔ key_lt l (f_key x) ∧ key_lt l (f_key y)).
Proof.
  intros Hx Hy. destruct (f_min_pick x y Hx Hy) as [->|(Hkx & Hky & s & ->)].
  - destruct (f_lt y x) eqn:Hlt; (split; [done|]).
    + apply f_lt_key in Hlt; [|done..]. generalize dependent (f_key x). generalize (f_key y). intros. key_order.
    + apply f_lt_false_key in Hlt; [|done..]. generalize dependent (f_key x). generalize (f_key y). intros. key_order.
  - split; [done|]. rewrite Hkx, Hky. simpl. tauto.
Qed.

Example format_f_2 : FormatFloat_f (f_of_int 2) = "2".
Proof. reflexivity. Qed.
Example format_f_tenth : FormatFloat_f (f_div (f_of_int 1) (f_of_int 10)) = "0.1".
Proof. reflexivity. Qed.
Example format_f_large : FormatFloat_f (f_of_int 123456789012) = "123456789012".
Proof. reflexivity. Qed.
Example format_g_thirds : FormatFloat_g (Some 6) (f_div (f_of_int 200) (f_of_int 3)) = "66.6667".
Proof. reflexivity. Qed.
Example format_g_exp : FormatFloat_g (Some 6) (f_of_int 12345678) = "1.23457e+07".
Proof. reflexivity. Qed.
Example format_g_shortest : FormatFloat_g None (f_of_int 1000000) = "1e+06".
Proof. reflexivity. Qed.
