(* ===== verification/Domain.v ===== *)
(** * Package [domain]: the shared data model

    Devices, observations, health states, events, alerts, automation requests and the typed
    error with its retry classification (src/internal/domain). Enumerations that only the
    platform writes are inductive types; [Severity] and [DeviceType], which operators and
    messages supply as free text, stay strings with their [Valid] check. *)

From S2P Require Import Prelude GoLib GoFloat.

(** ** Errors (errors.go) *)

Inductive Category :=
| CategoryNone            (* the empty string: no error *)
| CategoryTransient
| CategoryPermanent
| CategoryValidation
| CategoryAuthentication
| CategoryUnsupported
| CategoryTimeout
| CategoryDependency
| CategoryScript.

#[export] Instance Category_eq_dec : EqDecision Category.
Proof. solve_decision. Defined.

Definition Category_string (c : Category) : string :=
  match c with
  | CategoryNone => ""
  | CategoryTransient => "transient"
  | CategoryPermanent => "permanent"
  | CategoryValidation => "validation"
  | CategoryAuthentication => "authentication"
  | CategoryUnsupported => "unsupported"
  | CategoryTimeout => "timeout"
  | CategoryDependency => "dependency"
  | CategoryScript => "script"
  end.

Definition Retryable (c : Category) : bool :=
  match c with
  | CategoryTransient | CategoryTimeout | CategoryDependency => true
  | _ => false
  end.

(** The errors that circulate: [*domain.Error]; the script runtime's [*runtime.Error], which
    reports its category through the [Categorized] interface; the two context errors; the
    sentinels of the packages; the database server's [*pgconn.PgError] with its SQLSTATE; an
    error wrapped with [%w]; any other error, with its text.
    [EPanic] is not an error value but a panic that unwinds the goroutine; it travels the same
    way until something recovers it. *)
Inductive error :=
| EDomain (cat : Category) (op : string) (inner : error)
| EScript (scriptID kind message : string)
| EDeadlineExceeded
| ECanceled
| EDeviceDisabled
| ENotActive
| EPg (code text : string)
| EPanic (text : string)
| EWrapped (text : string) (inner : error)
| EText (text : string).

#[export] Instance error_eq_dec : EqDecision error.
Proof. solve_decision. Defined.

Fixpoint error_text (e : error) : string :=
  match e with
  | EDomain cat op inner =>
      if bool_decide (op = "") then Category_string cat +:+ ": " +:+ error_text inner
      else Category_string cat +:+ ": " +:+ op +:+ ": " +:+ error_text inner
  | EScript id kind msg => "script " +:+ id +:+ ": " +:+ kind +:+ ": " +:+ msg
  | EDeadlineExceeded => "context deadline exceeded"
  | ECanceled => "context canceled"
  | EDeviceDisabled => "device disabled"
  | ENotActive => "script not active"
  | EPg _ text => text
  | EPanic text => text
  | EWrapped text _ => text
  | EText text => text
  end.

Definition Unwrap (e : error) : option error :=
  match e with
  | EDomain _ _ inner | EWrapped _ inner => Some inner
  | _ => None
  end.

(** A nil error is [None]. *)
Definition Wrap (cat : Category) (op : string) (err : option error) : option error :=
  match err with None => None | Some e => Some (EDomain cat op e) end.

(** [Errorf] with its format already rendered. *)
Definition Errorf (cat : Category) (text : string) : error := EDomain cat "" (EText text).

(** [errors.As(err, &de)] for a [*domain.Error], then for a [Categorized]. *)
Fixpoint as_domain (e : error) : option Category :=
  match e with
  | EDomain cat _ _ => Some cat
  | EWrapped _ inner => as_domain inner
  | _ => None
  end.
Fixpoint as_categorized (e : error) : option Category :=
  match e with
  | EScript _ _ _ => Some CategoryScript
  | EDomain _ _ inner | EWrapped _ inner => as_categorized inner
  | _ => None
  end.

(** [errors.Is(err, target)] for a sentinel. *)
Fixpoint error_is (target e : error) : bool :=
  bool_decide (e = target) ||
  match e with EDomain _ _ inner | EWrapped _ inner => error_is target inner | _ => false end.

Definition CategoryOf (err : option error) : Category :=
  match err with
  | None => CategoryNone
  | Some e =>
      match as_domain e with
      | Some cat => cat
      | None =>
          match as_categorized e with
          | Some cat => cat
          | None =>
              if error_is EDeadlineExceeded e then CategoryTimeout
              else if error_is ECanceled e then CategoryTransient
              else CategoryPermanent
          end
      end
  end.

Definition IsRetryable (err : option error) : bool := Retryable (CategoryOf err).

Abbreviation res A := (result error A).

(** Dereferencing a nil pointer panics. *)
Definition deref {A} (p : option A) : res A :=
  match p with
  | Some x => Ok x
  | None => Err (EPanic "invalid memory address or nil pointer dereference")
  end.

(** ** Identifiers (ids.go) *)

(** The SHA-256 digest, 32 bytes for any input, is a parameter. *)
Class Sha256 := sha256 : string → string.

Definition NUL : ascii := chr 0.

Fixpoint hash_input (parts : list string) : string :=
  match parts with
  | [] => ""
  | p :: parts => p +:+ String NUL (hash_input parts)
  end.

Definition StableID `{Sha256} (parts : list string) : string :=
  hex_encode (take_str 16 (sha256 (hash_input parts))).

(** The ["k=v"] pairs of a label map in key order. *)
Definition sorted_keys (labels : smap) : list string := sort_strings (mlist labels).*1.

Definition LabelsKey (labels : smap) : string :=
  if (mlen labels =? 0)%Z then ""
  else
    String.concat ""
      (imap (λ i k, (if (0 <? i)%nat then "," else "") +:+ k +:+ "=" +:+ mread labels k)
            (sorted_keys labels)).

(** ** Devices (device.go) *)

Abbreviation DeviceType := string (only parsing).
Definition DeviceSwitch : DeviceType := "switch".
Definition DeviceAccessPoint : DeviceType := "access_point".
Definition DeviceRouter : DeviceType := "router".
Definition DeviceServer : DeviceType := "server".
Definition DeviceWorkstation : DeviceType := "workstation".
Definition DevicePrinter : DeviceType := "printer".
Definition DeviceUPS : DeviceType := "ups".
Definition DeviceGeneric : DeviceType := "generic".

Definition deviceTypes : list DeviceType :=
  [DeviceSwitch; DeviceAccessPoint; DeviceRouter; DeviceServer;
   DeviceWorkstation; DevicePrinter; DeviceUPS; DeviceGeneric].

Definition DeviceType_Valid (t : DeviceType) : bool := bool_decide (t ∈ deviceTypes).

Record CollectionSpec := MkCollectionSpec {
  cs_Protocol : string;
  cs_Profile : string;
  cs_Interval : Duration;
}.

Record Device := MkDevice {
  d_ID : string;
  d_Hostname : string;
  d_ManagementAddress : string;
  d_DeviceType : DeviceType;
  d_Vendor : string;
  d_Model : string;
  d_SerialNumber : string;
  d_Site : string;
  d_Tags : list string;
  d_Capabilities : list string;
  d_CredentialsRef : string;
  d_Enabled : bool;
  d_LastSeen : Time;
  d_Collection : CollectionSpec;
  d_Attributes : smap;
}.
#[export] Instance eta_Device : Eta Device := λ d,
  MkDevice (d_ID d) (d_Hostname d) (d_ManagementAddress d) (d_DeviceType d) (d_Vendor d) (d_Model d)
    (d_SerialNumber d) (d_Site d) (d_Tags d) (d_Capabilities d) (d_CredentialsRef d) (d_Enabled d)
    (d_LastSeen d) (d_Collection d) (d_Attributes d).

Definition HasTag (d : Device) (tag : string) : bool := bool_decide (tag ∈ d_Tags d).
Definition HasCapability (d : Device) (c : string) : bool := bool_decide (c ∈ d_Capabilities d).

(** A list of problems with the condition under which each is reported, in source order. *)
Fixpoint problems_of (l : list (bool * string)) : list string :=
  match l with
  | [] => []
  | (b, p) :: l => if b then p :: problems_of l else problems_of l
  end.

Definition id_forbidden : string := " " +:+ str1 (chr 9) +:+ str1 (chr 10) +:+ "/.*>".

Definition Device_problems (d : Device) : list string :=
  problems_of
    [(bool_decide (d_ID d = ""), "id is required");
     (bool_decide (d_ID d ≠ "") && ContainsAny (d_ID d) id_forbidden,
      "id must not contain whitespace, '/', '.', '*' or '>' (it is used in NATS subjects and URLs)");
     (bool_decide (d_Hostname d = ""), "hostname is required");
     (bool_decide (d_ManagementAddress d = ""), "management_address is required");
     (negb (DeviceType_Valid (d_DeviceType d)),
      "device_type " +:+ Quote (d_DeviceType d) +:+ " is not one of [" +:+ Join deviceTypes " " +:+ "]");
     (bool_decide (cs_Protocol (d_Collection d) ≠ "") && bool_decide (cs_Protocol (d_Collection d) ≠ "snmp")
        && bool_decide (cs_Protocol (d_Collection d) ≠ "script"),
      "collection.protocol " +:+ Quote (cs_Protocol (d_Collection d)) +:+ " is not supported");
     ((cs_Interval (d_Collection d) <? 0)%Z, "collection.interval must not be negative")].

Definition Device_Validate (d : Device) : option error :=
  match Device_problems d with
  | [] => None
  | ps => Some (Errorf CategoryValidation ("device " +:+ Quote (d_ID d) +:+ ": " +:+ Join ps "; "))
  end.

(** ** Observations (observation.go) *)

(** The dynamic value of an [any]: the Go types the platform produces or accepts; [VOther]
    is any other type, with its name. *)
Inductive value :=
| VNil
| VFloat64 (f : float64)
| VFloat32 (f : float64)
| VInt (n : Z)
| VInt32 (n : Z)
| VInt64 (n : Z)
| VUint32 (n : Z)
| VUint64 (n : Z)
| VBool (b : bool)
| VString (s : string)
| VOther (typ : string).

#[export] Instance value_eq_dec : EqDecision value.
Proof. solve_decision. Defined.

Record Observation := MkObservation {
  o_ObservationID : string;
  o_CorrelationID : string;
  o_DeviceID : string;
  o_Source : string;
  o_Metric : string;
  o_Value : value;
  o_Labels : smap;
  o_ObservedAt : Time;
  o_ReceivedAt : Time;
  o_Metadata : smap;
}.
#[export] Instance eta_Observation : Eta Observation := λ o,
  MkObservation (o_ObservationID o) (o_CorrelationID o) (o_DeviceID o) (o_Source o) (o_Metric o)
    (o_Value o) (o_Labels o) (o_ObservedAt o) (o_ReceivedAt o) (o_Metadata o).
#[export] Instance Observation_eq_dec : EqDecision Observation.
Proof. solve_decision. Defined.

Definition NewObservationID `{Sha256} (cycleID deviceID metric : string) (labels : smap) : string :=
  StableID ["obs"; cycleID; deviceID; metric; LabelsKey labels].

Definition Observation_Float (o : Observation) : option float64 :=
  match o_Value o with
  | VFloat64 f => Some f
  | VInt n | VInt64 n => Some (f_of_int n)
  | VBool b => Some (if b then f_one else f_zero)
  | _ => None
  end.

Definition Observation_Bool (o : Observation) : option bool :=
  match o_Value o with VBool b => Some b | _ => None end.

(** A copy of a map is the same value; the nil map stays nil. *)
Definition cloneMap (m : smap) : smap :=
  match m with None => None | Some e => Some (list_to_map (map_to_list e)) end.

Definition Observation_Clone (o : Observation) : Observation :=
  o <| o_Labels := cloneMap (o_Labels o) |> <| o_Metadata := cloneMap (o_Metadata o) |>.

Record Sample := MkSample {
  sm_At : Time;
  sm_Num : float64;
  sm_Bool : option bool;
}.

(** ** Health states (state.go) *)

Inductive HealthState :=
| StateUnset                  (* the zero value: the entity has not been seen *)
| StateUp
| StateSuspect
| StateDown
| StateRecovering
| StateOther (text : string). (* any other text a stored row may hold *)

#[export] Instance HealthState_eq_dec : EqDecision HealthState.
Proof. solve_decision. Defined.

Record StateRecord := MkStateRecord {
  sr_Key : string;
  sr_DeviceID : string;
  sr_DefinitionID : string;
  sr_Labels : smap;
  sr_State : HealthState;
  sr_Failures : Z;
  sr_Successes : Z;
  sr_Breached : bool;
  sr_BadSince : Time;
  sr_GoodSince : Time;
  sr_LastObservedAt : Time;
  sr_LastSeenAt : Time;
  sr_LastObservationID : string;
  sr_LastTransitionAt : Time;
  sr_LastValue : string;
}.
#[export] Instance eta_StateRecord : Eta StateRecord := λ r,
  MkStateRecord (sr_Key r) (sr_DeviceID r) (sr_DefinitionID r) (sr_Labels r) (sr_State r) (sr_Failures r)
    (sr_Successes r) (sr_Breached r) (sr_BadSince r) (sr_GoodSince r) (sr_LastObservedAt r)
    (sr_LastSeenAt r) (sr_LastObservationID r) (sr_LastTransitionAt r) (sr_LastValue r).
#[export] Instance StateRecord_eq_dec : EqDecision StateRecord.
Proof. solve_decision. Defined.

(** The zero [StateRecord]. *)
Definition StateRecord0 : StateRecord :=
  MkStateRecord "" "" "" None StateUnset 0 0 false time_zero time_zero time_zero time_zero "" time_zero "".

Record Transition := MkTransition {
  tr_TransitionID : string;
  tr_Key : string;
  tr_DeviceID : string;
  tr_DefinitionID : string;
  tr_Labels : smap;
  tr_From : HealthState;
  tr_To : HealthState;
  tr_At : Time;
  tr_ObservationID : string;
  tr_CorrelationID : string;
}.

(** ** Events and alerts (event.go) *)

Abbreviation Severity := string (only parsing).
Definition SeverityInfo : Severity := "info".
Definition SeverityWarning : Severity := "warning".
Definition SeverityCritical : Severity := "critical".

Definition Rank (s : Severity) : Z :=
  if bool_decide (s = SeverityInfo) then 1
  else if bool_decide (s = SeverityWarning) then 2
  else if bool_decide (s = SeverityCritical) then 3
  else 0.

Definition Severity_Valid (s : Severity) : bool := (0 <? Rank s)%Z.

Record Event := MkEvent {
  ev_EventID : string;
  ev_CorrelationID : string;
  ev_DeviceID : string;
  ev_Type : string;
  ev_Severity : Severity;
  ev_Message : string;
  ev_Labels : smap;
  ev_OccurredAt : Time;
  ev_ObservationID : string;
  ev_Source : string;
  ev_AlertKey : string;
  ev_Resolves : bool;
}.

Inductive AlertStatus := AlertFiring | AlertResolved.
#[export] Instance AlertStatus_eq_dec : EqDecision AlertStatus.
Proof. solve_decision. Defined.

Record Alert := MkAlert {
  al_AlertKey : string;
  al_DeviceID : string;
  al_Source : string;
  al_Severity : Severity;
  al_Status : AlertStatus;
  al_Summary : string;
  al_Labels : smap;
  al_OpenEventID : string;
  al_OpenedAt : Time;
  al_ResolvedAt : Time;
}.
#[export] Instance eta_Alert : Eta Alert := λ a,
  MkAlert (al_AlertKey a) (al_DeviceID a) (al_Source a) (al_Severity a) (al_Status a) (al_Summary a)
    (al_Labels a) (al_OpenEventID a) (al_OpenedAt a) (al_ResolvedAt a).

(** ** Automation (automation.go) *)

Inductive AutomationStatus :=
| AutomationPending
| AutomationAwaitingApproval
| AutomationApproved
| AutomationExecuting
| AutomationSucceeded
| AutomationFailed
| AutomationDryRun
| AutomationDenied
| AutomationExpired.
#[export] Instance AutomationStatus_eq_dec : EqDecision AutomationStatus.
Proof. solve_decision. Defined.

Definition Terminal (s : AutomationStatus) : bool :=
  match s with
  | AutomationSucceeded | AutomationFailed | AutomationDryRun | AutomationDenied | AutomationExpired => true
  | _ => false
  end.

Record AutomationRequest := MkAutomationRequest {
  rq_RequestID : string;
  rq_CorrelationID : string;
  rq_PolicyID : string;
  rq_EventID : string;
  rq_AlertKey : string;
  rq_DeviceID : string;
  rq_Action : string;
  rq_Target : string;
  rq_Params : smap;
  rq_Reason : string;
  rq_Proposer : string;
  rq_DryRun : bool;
  rq_Status : AutomationStatus;
  rq_NotBefore : Time;
  rq_CreatedAt : Time;
  rq_ApprovedBy : string;
}.
#[export] Instance eta_AutomationRequest : Eta AutomationRequest := λ r,
  MkAutomationRequest (rq_RequestID r) (rq_CorrelationID r) (rq_PolicyID r) (rq_EventID r) (rq_AlertKey r)
    (rq_DeviceID r) (rq_Action r) (rq_Target r) (rq_Params r) (rq_Reason r) (rq_Proposer r) (rq_DryRun r)
    (rq_Status r) (rq_NotBefore r) (rq_CreatedAt r) (rq_ApprovedBy r).

Record AutomationResult := MkAutomationResult {
  rs_RequestID : string;
  rs_CorrelationID : string;
  rs_Status : AutomationStatus;
  rs_DryRun : bool;
  rs_Message : string;
  rs_Details : smap;
  rs_StartedAt : Time;
  rs_FinishedAt : Time;
}.

(** ** Properties *)

Lemma cloneMap_id m : cloneMap m = m.
Proof. destruct m as [e|]; [|done]. simpl. by rewrite list_to_map_to_list. Qed.
#[export] Hint Rewrite cloneMap_id : infra_rw.

Lemma Observation_Clone_id o : Observation_Clone o = o.
Proof. destruct o. unfold Observation_Clone. simpl. by rewrite !cloneMap_id. Qed.

Lemma problems_of_nil l : problems_of l = [] ↔ Forall (λ p, p.1 = false) l.
Proof.
  induction l as [|[[] p] l IH]; simpl.
  - split; [constructor|done].
  - split; [done|]. intros H. by apply Forall_cons in H as [? _].
  - rewrite Forall_cons, IH. simpl. tauto.
Qed.

(** The bytes that are hashed determine the parts, as long as no part contains a NUL byte. *)
Lemma hash_input_inj ps qs :
  Forall (λ p, mem_char NUL p = false) ps → Forall (λ p, mem_char NUL p = false) qs →
  hash_input ps = hash_input qs → ps = qs.
Proof.
  revert qs. induction ps as [|p ps IH]; intros [|q qs] Hp Hq Heq; simpl in *; try done.
  - by destruct q.
  - by destruct p.
  - apply Forall_cons in Hp as [Hp Hps]. apply Forall_cons in Hq as [Hq Hqs].
    apply append_sep_inj in Heq as [-> Heq]; [|done..]. f_equal. by apply IH.
Qed.

(** *** The canonical rendering of labels *)

Definition label_pair (m : gmap string string) (k : string) : string := k +:+ "=" +:+ default "" (m !! k).

(** What lets the rendering be read back: no comma anywhere, no equals sign in a key. *)
Definition plain_labels (labels : smap) : Prop :=
  map_Forall (λ k v, mem_char "," k = false ∧ mem_char "=" k = false ∧ mem_char "," v = false) (entries labels).

Lemma LabelsKey_Join labels :
  LabelsKey labels = Join (label_pair (entries labels) <$> sorted_keys labels) (str1 ",").
Proof.
  unfold LabelsKey. rewrite concat_imap_Join.
  case_match eqn:Hlen; [|done].
  assert (entries labels = ∅) as Hempty.
  { apply map_size_empty_inv. unfold mlen in Hlen. lia. }
  unfold sorted_keys, mlist. rewrite Hempty. by rewrite map_to_list_empty.
Qed.

Lemma elem_of_sorted_keys labels k : k ∈ sorted_keys labels ↔ is_Some (entries labels !! k).
Proof.
  unfold sorted_keys. rewrite sort_strings_perm. unfold mlist. rewrite list_elem_of_fmap. split.
  - intros ([k' v] & -> & Hin). apply elem_of_map_to_list in Hin. eauto.
  - intros [v Hv]. exists (k, v). split; [done|]. by apply elem_of_map_to_list.
Qed.

Lemma label_pair_plain labels k :
  plain_labels labels → k ∈ sorted_keys labels →
  mem_char "," (label_pair (entries labels) k) = false ∧ label_pair (entries labels) k ≠ "".
Proof.
  intros Hp Hk. apply elem_of_sorted_keys in Hk as [v Hv]. destruct (Hp k v Hv) as (Hk & _ & Hv').
  unfold label_pair. rewrite Hv. simpl. split.
  - by rewrite !mem_char_append, Hk, Hv'.
  - by destruct k.
Qed.

Lemma labels_of_pairs (m1 m2 : smap) ks :
  plain_labels m1 → plain_labels m2 →
  (∀ k, k ∈ ks ↔ is_Some (entries m1 !! k)) →
  ks = sorted_keys m1 →
  label_pair (entries m1) <$> ks = label_pair (entries m2) <$> sorted_keys m2 →
  entries m1 = entries m2.
Proof.
  intros Hp1 Hp2 Hks Hsorted Hpairs.
  assert (Forall2 (λ k1 k2, k1 = k2 ∧ entries m1 !! k1 = entries m2 !! k2) ks (sorted_keys m2)) as Hall.
  { apply list_eq_Forall2 in Hpairs. rewrite Forall2_fmap in Hpairs.
    apply Forall2_same_length_lookup in Hpairs as [Hlen Hpairs].
    apply Forall2_same_length_lookup. split; [done|]. intros i k1 k2 Hk1 Hk2.
    specialize (Hpairs i k1 k2 Hk1 Hk2). unfold label_pair in Hpairs.
    apply list_elem_of_lookup_2, Hks in Hk1 as [v1 Hv1].
    apply list_elem_of_lookup_2, elem_of_sorted_keys in Hk2 as [v2 Hv2].
    destruct (Hp1 k1 v1 Hv1) as (_ & He1 & _), (Hp2 k2 v2 Hv2) as (_ & He2 & _).
    rewrite Hv1, Hv2 in Hpairs. simpl in Hpairs.
    destruct (append_sep_inj "=" k1 k2 v1 v2 He1 He2 Hpairs) as [-> ->]. by rewrite Hv1, Hv2. }
  assert (ks = sorted_keys m2) as Heq.
  { apply list_eq_Forall2. eapply Forall2_impl; [done|]. by intros ?? [-> _]. }
  apply map_eq. intros k. destruct (decide (k ∈ ks)) as [Hin|Hnin].
  - apply list_elem_of_lookup in Hin as [i Hi]. pose proof Hi as Hi2. rewrite Heq in Hi2.
    by destruct (Forall2_lookup_lr _ _ _ i k k Hall Hi Hi2) as [_ ?].
  - transitivity (@None string).
    + apply eq_None_not_Some. by rewrite <-Hks.
    + symmetry. apply eq_None_not_Some. rewrite <-elem_of_sorted_keys. by rewrite <-Heq.
Qed.

Lemma LabelsKey_entries m1 m2 :
  plain_labels m1 → plain_labels m2 → LabelsKey m1 = LabelsKey m2 → entries m1 = entries m2.
Proof.
  intros Hp1 Hp2. rewrite !LabelsKey_Join. intros Heq.
  eapply (labels_of_pairs m1 m2 (sorted_keys m1)); try done.
  - apply elem_of_sorted_keys.
  - eapply Join_inj; [..|exact Heq]; apply Forall_fmap, Forall_forall; intros k Hk;
      by apply label_pair_plain.
Qed.
