(* ===== verification/State.v ===== *)
(** * Package [state]: deriving health from observations

    Definitions and their validation (src/internal/state/definition.go) and the pure engine that
    applies one observation to one tracked entity (src/internal/state/engine.go). *)

From S2P Require Import Prelude GoLib GoFloat Domain.

(** ** Definitions (definition.go) *)

Record EventSpec := MkEventSpec {
  es_Event : string;
  es_Severity : Severity;
  es_Message : string;
}.

(** [GoodWhen] holds a pointer to a boolean. *)
Record GoodWhen := MkGoodWhen { gw_Equals : option bool }.

Record Threshold := MkThreshold {
  th_BreachAbove : option float64;
  th_ClearBelow : option float64;
  th_BreachBelow : option float64;
  th_ClearAbove : option float64;
}.

Record StateDefinition := MkStateDefinition {
  df_ID : string;
  df_Description : string;
  df_Metric : string;
  df_KeyLabels : list string;
  df_DeviceTypes : list string;
  df_GoodWhen : option GoodWhen;
  df_Threshold : option Threshold;
  df_FailAfter : Z;
  df_FailFor : Duration;
  df_RecoverAfter : Z;
  df_RecoverFor : Duration;
  df_Stale : bool;
  df_Alert : EventSpec;
  df_Recovery : EventSpec;
}.

Definition isnil {A} (p : option A) : bool := match p with None => true | Some _ => false end.

(** The [switch] over the four threshold pointers; [None] when no case applies. *)
Definition threshold_problem (t : Threshold) : option string :=
  let above := negb (isnil (th_BreachAbove t)) || negb (isnil (th_ClearBelow t)) in
  let below := negb (isnil (th_BreachBelow t)) || negb (isnil (th_ClearAbove t)) in
  if Bool.eqb above below then Some "threshold needs either breach_above+clear_below or breach_below+clear_above"
  else if above then
    match th_BreachAbove t, th_ClearBelow t with
    | Some ba, Some cb => if f_gt cb ba then Some "clear_below must not exceed breach_above" else None
    | _, _ => Some "threshold needs both breach_above and clear_below"
    end
  else
    match th_BreachBelow t, th_ClearAbove t with
    | Some bb, Some ca => if f_lt ca bb then Some "clear_above must not be less than breach_below" else None
    | _, _ => Some "threshold needs both breach_below and clear_above"
    end.

Definition validate_problems (d : StateDefinition) : list string :=
  problems_of
    [(bool_decide (df_ID d = ""), "id is required");
     (bool_decide (df_Metric d = ""), "metric is required");
     (Bool.eqb (isnil (df_GoodWhen d)) (isnil (df_Threshold d)), "exactly one of good_when or threshold is required");
     (match df_GoodWhen d with Some g => isnil (gw_Equals g) | None => false end, "good_when.equals is required")]
  ++ match df_Threshold d with Some t => option_list (threshold_problem t) | None => [] end
  ++ problems_of
    [((df_FailAfter d <? 1)%Z || (df_RecoverAfter d <? 1)%Z, "fail_after and recover_after must be at least 1");
     ((df_FailFor d <? 0)%Z || (df_RecoverFor d <? 0)%Z, "fail_for and recover_for must not be negative");
     (bool_decide (es_Event (df_Alert d) = "") || negb (Severity_Valid (es_Severity (df_Alert d))),
      "alert.event and a valid alert.severity are required");
     (bool_decide (es_Event (df_Recovery d) = "") || negb (Severity_Valid (es_Severity (df_Recovery d))),
      "recovery.event and a valid recovery.severity are required")]
  ++ ((λ t, "unknown device type " +:+ Quote t) <$> filter (λ t, DeviceType_Valid t = false) (df_DeviceTypes d)).

Definition validate (d : StateDefinition) : option error :=
  match validate_problems d with
  | [] => None
  | p => Some (Errorf CategoryValidation ("state definition " +:+ Quote (df_ID d) +:+ ": " +:+ Join p "; "))
  end.

Definition appliesTo (d : StateDefinition) (t : DeviceType) : bool :=
  match df_DeviceTypes d with
  | [] => true
  | ts => existsb (λ x, bool_decide (x = t)) ts
  end.

Record Definitions := MkDefinitions {
  dfs_all : list StateDefinition;
  dfs_byMetric : gmap string (list StateDefinition);
}.

(** The loop of [Parse] over the decoded document: [ds] is the set under construction and
    [seen] the ids met so far. *)
Fixpoint Parse_loop (ds : Definitions) (seen : gset string) (l : list StateDefinition) : res Definitions :=
  match l with
  | [] => Ok ds
  | d :: l =>
      match validate d with
      | Some err => Err err
      | None =>
          if bool_decide (df_ID d ∈ seen)
          then Err (Errorf CategoryValidation ("duplicate state definition " +:+ Quote (df_ID d)))
          else Parse_loop
                 (MkDefinitions (dfs_all ds ++ [d])
                    (<[df_Metric d := default [] (dfs_byMetric ds !! df_Metric d) ++ [d]]> (dfs_byMetric ds)))
                 ({[df_ID d]} ∪ seen) l
      end
  end.

(** [Parse]; the strict YAML decoder is a parameter. *)
Definition Parse (yaml : string → res (list StateDefinition)) (raw : string) : res Definitions :=
  doc ← yaml raw; Parse_loop (MkDefinitions [] ∅) ∅ doc.

Definition All (ds : Definitions) : list StateDefinition := dfs_all ds.

Definition For (ds : Definitions) (metric : string) (t : DeviceType) : list StateDefinition :=
  filter (λ d, appliesTo d t = true) (default [] (dfs_byMetric ds !! metric)).

Definition Get (ds : Definitions) (id : string) : option StateDefinition :=
  List.find (λ d, bool_decide (df_ID d = id)) (dfs_all ds).

(** ** The engine (engine.go) *)

Inductive IgnoreReason := NotIgnored | Duplicate | Stale | WrongType | NotTracked.
#[export] Instance IgnoreReason_eq_dec : EqDecision IgnoreReason.
Proof. solve_decision. Defined.

Record Update := MkUpdate {
  up_Record : StateRecord;
  up_Transitions : list Transition;
  up_Events : list Event;
  up_Ignored : IgnoreReason;
}.

(** The key labels a definition selects; nil when it selects none. *)
Definition key_labels (def : StateDefinition) (labels : smap) : smap :=
  match df_KeyLabels def with
  | [] => None
  | ks => Some (foldl (λ kl k, match mget labels k with Some v => <[k := v]> kl | None => kl end) ∅ ks)
  end.

Definition KeyFor (def : StateDefinition) (deviceID : string) (labels : smap) : string * smap :=
  let kl := key_labels def labels in
  (df_ID def +:+ "/" +:+ deviceID +:+ "/" +:+ LabelsKey kl, kl).

Definition fmtValue (v : value) : string :=
  match v with
  | VFloat64 x => FormatFloat_f x
  | VBool b => FormatBool b
  | VString s => s
  | _ => ""
  end.

(** Booleans are deliberately not numbers here. *)
Definition numeric (v : value) : option float64 :=
  match v with
  | VFloat64 x | VFloat32 x => Some x
  | VInt n | VInt64 n => Some (f_of_int n)
  | _ => None
  end.

(** [judge]: the record with its hysteresis memory, and the verdict; [None] is a value of the
    wrong type. A nil threshold or bound panics. *)
Definition judge (def : StateDefinition) (rec : StateRecord) (o : Observation) : res (StateRecord * option bool) :=
  match df_GoodWhen def with
  | Some g =>
      match o_Value o with
      | VBool b => eq_ ← deref (gw_Equals g); Ok (rec, Some (Bool.eqb b eq_))
      | _ => Ok (rec, None)
      end
  | None =>
      match numeric (o_Value o) with
      | None => Ok (rec, None)
      | Some f =>
          t ← deref (df_Threshold def);
          breached ←
            match th_BreachAbove t with
            | Some above =>
                if sr_Breached rec then clear ← deref (th_ClearBelow t); Ok (negb (f_lt f clear))
                else Ok (f_gt f above)
            | None =>
                if sr_Breached rec then clear ← deref (th_ClearAbove t); Ok (negb (f_gt f clear))
                else below ← deref (th_BreachBelow t); Ok (f_lt f below)
            end;
          Ok (rec <| sr_Breached := breached |>, Some (negb breached))
      end
  end.

(** One sample of the health machine: the record with its streak counters and debounce
    timestamps, and the new state. *)
Definition step (def : StateDefinition) (rec : StateRecord) (good : bool) (at_ : Time) : StateRecord * HealthState :=
  if bool_decide (sr_State rec = StateUnset) && good
  then (rec <| sr_Failures := 0%Z |> <| sr_Successes := 0%Z |>, StateUp)
  else
    let cur := if bool_decide (sr_State rec = StateUnset) then StateUp else sr_State rec in
    if good then
      let rec := rec <| sr_Failures := 0%Z |> <| sr_BadSince := time_zero |> in
      match cur with
      | StateUp => (rec, StateUp)
      | StateSuspect => (rec, StateUp)
      | StateDown | StateRecovering =>
          let rec := if (sr_Successes rec =? 0)%Z then rec <| sr_GoodSince := at_ |> else rec in
          let rec := rec <| sr_Successes := int_incr (sr_Successes rec) |> in
          if (df_RecoverAfter def <=? sr_Successes rec)%Z && (df_RecoverFor def <=? time_Sub at_ (sr_GoodSince rec))%Z
          then (rec <| sr_Successes := 0%Z |> <| sr_GoodSince := time_zero |>, StateUp)
          else (rec, StateRecovering)
      | _ => (rec, cur)
      end
    else
      let rec := rec <| sr_Successes := 0%Z |> <| sr_GoodSince := time_zero |> in
      let rec := if (sr_Failures rec =? 0)%Z then rec <| sr_BadSince := at_ |> else rec in
      let rec := rec <| sr_Failures := int_incr (sr_Failures rec) |> in
      match cur with
      | StateDown | StateRecovering => (rec, StateDown)
      | _ =>
          if (df_FailAfter def <=? sr_Failures rec)%Z && (df_FailFor def <=? time_Sub at_ (sr_BadSince rec))%Z
          then (rec, StateDown)
          else (rec, StateSuspect)
      end.

(** Placeholder substitution; the label pairs follow the built-in ones. *)
Definition label_pairs (labels : smap) : list (string * string) :=
  (λ kv, ("{" +:+ kv.1 +:+ "}", kv.2)) <$> mlist labels.

Definition render (tmpl : string) (o : Observation) : string :=
  if bool_decide (tmpl = "") then ""
  else
    let h := mread (o_Metadata o) "hostname" in
    Replace
      ([("{device}", o_DeviceID o); ("{value}", fmtValue (o_Value o))]
       ++ label_pairs (o_Labels o)
       ++ (if bool_decide (h = "") then [] else [("{hostname}", h)]))
      tmpl.

(** Which of the definition's events a transition emits, and whether it resolves the alert. *)
Definition event_spec (def : StateDefinition) (from to : HealthState) : option (EventSpec * bool) :=
  if bool_decide (to = StateDown) && bool_decide (from ≠ StateRecovering) then Some (df_Alert def, false)
  else if bool_decide (to = StateUp) && (bool_decide (from = StateRecovering) || bool_decide (from = StateDown))
  then Some (df_Recovery def, true)
  else None.

Definition eventFor `{Sha256} (def : StateDefinition) (key : string) (from to : HealthState) (o : Observation) : option Event :=
  match event_spec def from to with
  | None => None
  | Some (spec, resolves) =>
      let labels := Some (entries (o_Labels o)) in
      Some (MkEvent
        (StableID ["evt"; o_DeviceID o; df_ID def; LabelsKey labels; es_Event spec; o_ObservationID o])
        (o_CorrelationID o) (o_DeviceID o) (es_Event spec) (es_Severity spec) (render (es_Message spec) o)
        labels (o_ObservedAt o) (o_ObservationID o) (df_ID def) key resolves)
  end.

(** The record an unseen entity starts from. *)
Definition fresh_record (def : StateDefinition) (o : Observation) : StateRecord :=
  StateRecord0
    <| sr_Key := (KeyFor def (o_DeviceID o) (o_Labels o)).1 |>
    <| sr_DeviceID := o_DeviceID o |>
    <| sr_DefinitionID := df_ID def |>
    <| sr_Labels := (KeyFor def (o_DeviceID o) (o_Labels o)).2 |>.

(** The duplicate and staleness checks against the previous record. *)
Definition already_applied (prev : option StateRecord) (o : Observation) : option Update :=
  match prev with
  | None => None
  | Some p =>
      if bool_decide (sr_LastObservationID p = o_ObservationID o) then Some (MkUpdate p [] [] Duplicate)
      else if negb (After (o_ObservedAt o) (sr_LastObservedAt p)) then Some (MkUpdate p [] [] Stale)
      else None
  end.

(** The bookkeeping of an accepted sample, before the machine steps. *)
Definition stamp_record (rec : StateRecord) (o : Observation) : StateRecord :=
  let rec := rec <| sr_LastObservedAt := o_ObservedAt o |> <| sr_LastObservationID := o_ObservationID o |>
                 <| sr_LastValue := fmtValue (o_Value o) |> in
  if bool_decide (mread (o_Metadata o) "stale" ≠ "true") then rec <| sr_LastSeenAt := o_ObservedAt o |> else rec.

Definition Evaluate `{Sha256} (def : StateDefinition) (prev : option StateRecord) (o : Observation) : res Update :=
  let '(key, keyLabels) := KeyFor def (o_DeviceID o) (o_Labels o) in
  match already_applied prev o with
  | Some up => Ok up
  | None =>
      let rec := default (fresh_record def o) prev in
      '(rec, good) ← judge def rec o;
      match good with
      | None => Ok (MkUpdate (default StateRecord0 prev) [] [] WrongType)
      | Some good =>
          let from := sr_State rec in
          let '(rec, to) := step def (stamp_record rec o) good (o_ObservedAt o) in
          if bool_decide (to ≠ from) then
            Ok (MkUpdate
              (rec <| sr_State := to |> <| sr_LastTransitionAt := o_ObservedAt o |>)
              [MkTransition (StableID ["tr"; key; o_ObservationID o]) key (o_DeviceID o) (df_ID def) keyLabels
                 from to (o_ObservedAt o) (o_ObservationID o) (o_CorrelationID o)]
              (option_list (eventFor def key from to o))
              NotIgnored)
          else Ok (MkUpdate rec [] [] NotIgnored)
      end
  end.

(** The synthetic failed sample of one silent entity. *)
Definition stale_sample `{Sha256} (def : StateDefinition) (rec : StateRecord) (stamp : Time) : res Observation :=
  val ← match df_GoodWhen def with
        | Some g => eq_ ← deref (gw_Equals g); Ok (VBool (negb eq_))
        | None => Ok (VBool false)
        end;
  let id := StableID ["stale"; sr_Key rec; FormatInt (Unix stamp)] in
  Ok (MkObservation id id (sr_DeviceID rec) "sweeper" (df_Metric def) val (sr_Labels rec) stamp time_zero
        (Some {[ "stale" := "true"; "last_seen_at" := FormatRFC3339 (sr_LastSeenAt rec) ]})).

Fixpoint StaleSamples_loop `{Sha256} (defs : Definitions) (recs : list StateRecord) (now : Time)
    (staleAfter : Duration) (stamp : Time) : res (list Observation) :=
  match recs with
  | [] => Ok []
  | rec :: recs =>
      match Get defs (sr_DefinitionID rec) with
      | None => StaleSamples_loop defs recs now staleAfter stamp
      | Some def =>
          if negb (df_Stale def) || bool_decide (sr_State rec = StateDown)
          then StaleSamples_loop defs recs now staleAfter stamp
          else if (time_Sub now (sr_LastSeenAt rec) <? staleAfter)%Z
          then StaleSamples_loop defs recs now staleAfter stamp
          else
            o ← stale_sample def rec stamp;
            out ← StaleSamples_loop defs recs now staleAfter stamp;
            Ok (o :: out)
      end
  end.

Definition StaleSamples `{Sha256} (defs : Definitions) (recs : list StateRecord) (now : Time)
    (staleAfter bucket : Duration) : res (list Observation) :=
  StaleSamples_loop defs recs now staleAfter (Truncate now bucket).
