(* ===== verification/StateFacts.v ===== *)
(** * The health machine against a specification over histories

    [step] keeps counters and timestamps; the specification below looks at the whole history of
    verdicts instead. The refinement theorem says they agree; the debounce, recovery and alert
    lifecycle guarantees of the engine follow. *)

From S2P Require Import Prelude GoLib GoFloat Domain State.

(** ** Histories: verdicts with their time, newest first *)

Abbreviation history := (list (bool * Time)).

(** The length of the newest run of verdict [b], and the time of its first sample. *)
Fixpoint streak (b : bool) (h : history) : Z :=
  match h with
  | (g, _) :: h => if Bool.eqb g b then 1 + streak b h else 0
  | [] => 0
  end%Z.
Fixpoint streak_start (b : bool) (h : history) : Time :=
  match h with
  | (g, t) :: h => if Bool.eqb g b then (if (streak b h =? 0)%Z then t else streak_start b h) else time_zero
  | [] => time_zero
  end.

(** The newest run of verdict [b] is long enough, in samples and in time. *)
Definition sustained (b : bool) (n : Z) (d : Duration) (h : history) : bool :=
  match h with
  | (_, t) :: _ => (n <=? streak b h)%Z && (d <=? time_Sub t (streak_start b h))%Z
  | [] => false
  end.

(** Whether an alert is open after a history: a sustained failure opens it, a sustained
    recovery closes it. *)
Fixpoint spec_open (def : StateDefinition) (h : history) : bool :=
  match h with
  | [] => false
  | (false, _) :: h' => spec_open def h' || sustained false (df_FailAfter def) (df_FailFor def) h
  | (true, _) :: h' => spec_open def h' && negb (sustained true (df_RecoverAfter def) (df_RecoverFor def) h)
  end.

Definition spec_state (def : StateDefinition) (h : history) : HealthState :=
  match h with
  | [] => StateUnset
  | (good, _) :: _ =>
      match spec_open def h, good with
      | true, true => StateRecovering
      | true, false => StateDown
      | false, true => StateUp
      | false, false => StateSuspect
      end
  end.

(** The machine run over a history from an unseen entity. *)
Fixpoint run (def : StateDefinition) (rec0 : StateRecord) (h : history) : StateRecord :=
  match h with
  | [] => rec0
  | (good, t) :: h =>
      let '(rec, to) := step def (run def rec0 h) good t in rec <| sr_State := to |>
  end.

Definition unseen (rec : StateRecord) : Prop :=
  sr_State rec = StateUnset ∧ sr_Failures rec = 0%Z ∧ sr_Successes rec = 0%Z.

(** What the counters and timestamps of a record mean. *)
Record tracks (def : StateDefinition) (h : history) (rec : StateRecord) : Prop := {
  tracks_state : sr_State rec = spec_state def h;
  tracks_failures : sr_Failures rec = streak false h;
  tracks_bad_since : streak false h ≠ 0%Z → sr_BadSince rec = streak_start false h;
  tracks_successes : sr_Successes rec = if spec_open def h then streak true h else 0%Z;
  tracks_good_since : spec_open def h = true → streak true h ≠ 0%Z → sr_GoodSince rec = streak_start true h;
}.

Lemma streak_nonneg b h : (0 ≤ streak b h)%Z.
Proof. induction h as [|[g t] h IH]; simpl; [lia|]. destruct (Bool.eqb g b); lia. Qed.

Lemma streak_le_length b h : (streak b h ≤ Z.of_nat (length h))%Z.
Proof. induction h as [|[g t] h IH]; simpl; [lia|]. destruct (Bool.eqb g b); lia. Qed.

Lemma tracks_fresh def rec : unseen rec → tracks def [] rec.
Proof. intros (Hs & Hf & Hu). constructor; simpl; try done; by rewrite ?Hs, ?Hf, ?Hu. Qed.

(** ** One step, field by field *)

Lemma step_bad def rec t :
  step def rec false t =
  (let n := int_incr (sr_Failures rec) in
   let since := if (sr_Failures rec =? 0)%Z then t else sr_BadSince rec in
   (rec <| sr_Successes := 0%Z |> <| sr_GoodSince := time_zero |> <| sr_BadSince := since |> <| sr_Failures := n |>,
    match sr_State rec with
    | StateDown | StateRecovering => StateDown
    | _ => if (df_FailAfter def <=? n)%Z && (df_FailFor def <=? time_Sub t since)%Z then StateDown else StateSuspect
    end)).
Proof.
  unfold step. rewrite andb_false_r. destruct rec as [k d i l s f u b bs gs lo ls lid lt lv]. simpl.
  destruct (f =? 0)%Z, s; simpl; repeat case_match; done.
Qed.

Lemma step_good_closed def rec t :
  sr_State rec ≠ StateDown → sr_State rec ≠ StateRecovering → (∀ x, sr_State rec ≠ StateOther x) →
  ∃ bs, step def rec true t =
  (rec <| sr_Failures := 0%Z |> <| sr_BadSince := bs |>
       <| sr_Successes := if bool_decide (sr_State rec = StateUnset) then 0%Z else sr_Successes rec |>, StateUp).
Proof.
  intros Hd Hr Ho. unfold step. rewrite andb_true_r.
  destruct rec as [k d i l s f u b bs gs lo ls lid lt lv]. simpl in *.
  destruct s; simpl; try done; [by exists bs|by exists time_zero|by exists time_zero|by destruct (Ho text)].
Qed.

Lemma step_good_open def rec t :
  sr_State rec = StateDown ∨ sr_State rec = StateRecovering →
  step def rec true t =
  (let n := int_incr (sr_Successes rec) in
   let since := if (sr_Successes rec =? 0)%Z then t else sr_GoodSince rec in
   let base := rec <| sr_Failures := 0%Z |> <| sr_BadSince := time_zero |> in
   if (df_RecoverAfter def <=? n)%Z && (df_RecoverFor def <=? time_Sub t since)%Z
   then (base <| sr_GoodSince := time_zero |> <| sr_Successes := 0%Z |>, StateUp)
   else (base <| sr_GoodSince := since |> <| sr_Successes := n |>, StateRecovering)).
Proof.
  intros Hs. unfold step. rewrite andb_true_r.
  destruct rec as [k d i l s f u b bs gs lo ls lid lt lv]. simpl in *.
  destruct (u =? 0)%Z, Hs as [-> | ->]; simpl; repeat case_match; done.
Qed.

Lemma spec_state_cases {A} def h (a b : A) :
  match spec_state def h with StateDown | StateRecovering => a | _ => b end = if spec_open def h then a else b.
Proof. destruct h as [|[[] t] h]; [done|..]; unfold spec_state; by destruct (spec_open def _). Qed.

Lemma spec_state_open def h :
  spec_open def h = true → spec_state def h = StateDown ∨ spec_state def h = StateRecovering.
Proof. destruct h as [|[[] t] h]; [done|..]; unfold spec_state; intros ->; auto. Qed.

Lemma spec_state_closed def h :
  spec_open def h = false →
  spec_state def h ≠ StateDown ∧ spec_state def h ≠ StateRecovering ∧ ∀ x, spec_state def h ≠ StateOther x.
Proof. destruct h as [|[[] t] h]; [done|..]; unfold spec_state; intros ->; done. Qed.

Section step_tracks.
Context (def : StateDefinition) (h : history) (rec : StateRecord) (t : Time).
Context (Htr : tracks def h rec) (Hlen : (Z.of_nat (length h) < int_max)%Z).

Lemma incr_streak b : int_incr (streak b h) = (1 + streak b h)%Z.
Proof using Hlen.
  rewrite Z.add_comm. apply int_incr_small. pose proof (streak_nonneg b h). pose proof (streak_le_length b h).
  unfold int_min, int_max in *. lia.
Qed.

Lemma step_tracks_bad :
  let '(rec', to) := step def rec false t in tracks def ((false, t) :: h) (rec' <| sr_State := to |>).
Proof using Htr Hlen.
  destruct Htr as [Hs Hf Hb Hu Hg]. rewrite step_bad. simpl. rewrite Hs, Hf, incr_streak.
  assert ((if (streak false h =? 0)%Z then t else sr_BadSince rec) = streak_start false ((false, t) :: h)) as ->.
  { simpl. destruct (Z.eqb_spec (streak false h) 0) as [|Hne]; [done|]. by apply Hb. }
  constructor; try done.
  - simpl sr_State. rewrite spec_state_cases.
    unfold spec_state. cbn [spec_open]. unfold sustained. cbn [streak Bool.eqb].
    destruct (spec_open def h); [done|]. simpl. by case_match.
  - simpl. by destruct (_ || _).
Qed.

Lemma step_tracks_good :
  let '(rec', to) := step def rec true t in tracks def ((true, t) :: h) (rec' <| sr_State := to |>).
Proof using Htr Hlen.
  destruct Htr as [Hs Hf Hb Hu Hg]. destruct (spec_open def h) eqn:Hopen.
  - rewrite step_good_open by (rewrite Hs; by apply spec_state_open).
    rewrite Hu, incr_streak.
    assert ((if (streak true h =? 0)%Z then t else sr_GoodSince rec) = streak_start true ((true, t) :: h)) as ->.
    { simpl. destruct (Z.eqb_spec (streak true h) 0) as [|Hne]; [done|]. by apply Hg. }
    assert (spec_open def ((true, t) :: h) =
      negb ((df_RecoverAfter def <=? 1 + streak true h)%Z &&
            (df_RecoverFor def <=? time_Sub t (streak_start true ((true, t) :: h)))%Z)) as Hnew.
    { cbn [spec_open]. by rewrite Hopen. }
    cbv zeta. match type of Hnew with _ = negb ?c => destruct c end; constructor; unfold spec_state; rewrite ?Hnew; done.
  - pose proof (spec_state_closed def h Hopen) as (Hd & Hr & Ho). rewrite <-Hs in Hd, Hr, Ho.
    destruct (step_good_closed def rec t Hd Hr Ho) as [bs ->].
    assert (spec_open def ((true, t) :: h) = false) as Hnew by (cbn [spec_open]; by rewrite Hopen).
    constructor; unfold spec_state; rewrite ?Hnew; try done. simpl. rewrite Hu. by case_bool_decide.
Qed.
End step_tracks.

(** The counters implement the specification: after any history of fewer than 2^63 samples the
    machine is in the specified state. *)
Lemma run_tracks def rec0 h :
  unseen rec0 → (Z.of_nat (length h) ≤ int_max)%Z → tracks def h (run def rec0 h).
Proof.
  intros Hnew. induction h as [|[good t] h IH]; intros Hlen.
  - by apply tracks_fresh.
  - simpl in *. assert (tracks def h (run def rec0 h)) as Htr by (apply IH; lia).
    destruct good.
    + pose proof (step_tracks_good def h _ t Htr) as Hstep. destruct (step _ _ _ _). apply Hstep. lia.
    + pose proof (step_tracks_bad def h _ t Htr) as Hstep. destruct (step _ _ _ _). apply Hstep. lia.
Qed.

(** No run of [n] bad samples anywhere in the history. *)
Fixpoint quiet (n : Z) (h : history) : Prop :=
  match h with
  | [] => True
  | _ :: h' => (streak false h < n)%Z ∧ quiet n h'
  end.

Lemma quiet_closed def h : quiet (df_FailAfter def) h → spec_open def h = false.
Proof.
  induction h as [|[[] t] h IH]; [done|..]; intros [Hlt Hq]; cbn [spec_open]; rewrite IH by done; [done|].
  unfold sustained. rewrite (proj2 (Z.leb_gt _ _)) by lia. done.
Qed.

(** ** The engine *)

(** An alert is open exactly in these two states. *)
Definition is_open (s : HealthState) : bool :=
  match s with StateDown | StateRecovering => true | _ => false end.

Definition prev_open (prev : option StateRecord) : bool :=
  match prev with Some p => is_open (sr_State p) | None => false end.

Lemma breached_id rec : rec = rec <| sr_Breached := sr_Breached rec |>.
Proof. by destruct rec. Qed.

Lemma judge_record def rec o rec' good : judge def rec o = Ok (rec', good) →
  ∃ b, rec' = rec <| sr_Breached := b |>.
Proof.
  unfold judge. destruct (df_GoodWhen def) as [g|].
  - destruct (o_Value o); try solve [intros ?; simplify_eq; eauto using breached_id].
    unfold deref, mbind, result_bind. destruct (gw_Equals g); intros ?; simplify_eq; eauto using breached_id.
  - destruct (numeric _); [|intros ?; simplify_eq; eauto using breached_id].
    unfold mbind, result_bind. destruct (deref _); [|done].
    match goal with |- match ?m with _ => _ end = _ → _ => destruct m end; intros ?; simplify_eq; eauto.
Qed.

(** The two outcomes of [Evaluate]: nothing changes, or the machine takes one step. *)
Inductive evaluated `{Sha256} (def : StateDefinition) (prev : option StateRecord) (o : Observation) : Update → Prop :=
| evaluated_ignored reason :
    reason ≠ NotIgnored →
    evaluated def prev o (MkUpdate (default StateRecord0 prev) [] [] reason)
| evaluated_step rec0 b good rec to :
    already_applied prev o = None →
    rec0 = default (fresh_record def o) prev →
    judge def rec0 o = Ok (rec0 <| sr_Breached := b |>, Some good) →
    step def (stamp_record (rec0 <| sr_Breached := b |>) o) good (o_ObservedAt o) = (rec, to) →
    evaluated def prev o
      (MkUpdate
         (if bool_decide (to ≠ sr_State rec0)
          then rec <| sr_State := to |> <| sr_LastTransitionAt := o_ObservedAt o |> else rec)
         (if bool_decide (to ≠ sr_State rec0)
          then [MkTransition (StableID ["tr"; (KeyFor def (o_DeviceID o) (o_Labels o)).1; o_ObservationID o])
                  (KeyFor def (o_DeviceID o) (o_Labels o)).1 (o_DeviceID o) (df_ID def)
                  (KeyFor def (o_DeviceID o) (o_Labels o)).2 (sr_State rec0) to (o_ObservedAt o)
                  (o_ObservationID o) (o_CorrelationID o)] else [])
         (if bool_decide (to ≠ sr_State rec0)
          then option_list (eventFor def (KeyFor def (o_DeviceID o) (o_Labels o)).1 (sr_State rec0) to o) else [])
         NotIgnored).

Lemma Evaluate_evaluated `{Sha256} def prev o up : Evaluate def prev o = Ok up → evaluated def prev o up.
Proof.
  unfold Evaluate. destruct (KeyFor def (o_DeviceID o) (o_Labels o)) as [key kl] eqn:Hkey.
  destruct (already_applied prev o) as [up'|] eqn:Happ.
  - intros ?; simplify_eq. unfold already_applied in Happ. destruct prev as [p|]; [|done].
    repeat case_match; simplify_eq; by apply (evaluated_ignored def (Some p) o).
  - unfold mbind, result_bind. destruct (judge _ _ _) as [[rec good]|] eqn:Hj; [|done].
    destruct good as [good|].
    + destruct (judge_record _ _ _ _ _ Hj) as [b ->].
      destruct (step _ _ _ _) as [rec' to] eqn:Hstep. simpl sr_State.
      pose proof (evaluated_step def prev o _ b good rec' to Happ eq_refl Hj Hstep) as Hev.
      rewrite Hkey in Hev. simpl in Hev |- *. case_bool_decide; intros ?; by simplify_eq.
    + intros ?; simplify_eq. by apply evaluated_ignored.
Qed.

(** Reading a field of a stamped record that stamping does not touch. *)
Lemma stamp_state rec o : sr_State (stamp_record rec o) = sr_State rec.
Proof. unfold stamp_record. by case_match. Qed.
Lemma stamp_observed rec o : sr_LastObservedAt (stamp_record rec o) = o_ObservedAt o.
Proof. unfold stamp_record. by case_match. Qed.
Lemma stamp_id rec o : sr_LastObservationID (stamp_record rec o) = o_ObservationID o.
Proof. unfold stamp_record. by case_match. Qed.
#[local] Hint Rewrite stamp_state stamp_observed stamp_id : infra_rw.

(** [step] leaves the identity and the bookkeeping of the record alone. *)
Lemma step_keeps def rec good t rec' to :
  step def rec good t = (rec', to) →
  sr_State rec' = sr_State rec ∧ sr_Key rec' = sr_Key rec ∧ sr_LastObservedAt rec' = sr_LastObservedAt rec ∧
  sr_LastObservationID rec' = sr_LastObservationID rec ∧ sr_LastSeenAt rec' = sr_LastSeenAt rec.
Proof.
  intros Hstep. assert (rec' = (step def rec good t).1) as -> by (by rewrite Hstep). clear Hstep to.
  unfold step. destruct good; repeat case_match; done.
Qed.

(** The states one sample can lead to. *)
Lemma step_to def rec good t :
  let to := (step def rec good t).2 in
  if good then
    (is_open (sr_State rec) = true ∧ (to = StateUp ∨ to = StateRecovering)) ∨
    (is_open (sr_State rec) = false ∧ (to = StateUp ∨ to = sr_State rec))
  else
    (is_open (sr_State rec) = true ∧ to = StateDown) ∨
    (is_open (sr_State rec) = false ∧ (to = StateDown ∨ to = StateSuspect)).
Proof.
  destruct good; simpl.
  - destruct (sr_State rec) eqn:Hs; simpl;
      try (rewrite step_good_open by (rewrite Hs; auto); cbv zeta; case_match; simpl; by auto).
    all: right; split; [done|]. all: unfold step; rewrite Hs; simpl; auto.
  - rewrite step_bad. simpl. destruct (sr_State rec); simpl; auto; right; split; try done; case_match; auto.
Qed.

(** Opening and closing, one step at a time. *)
Lemma step_event def rec good t rec' to :
  step def rec good t = (rec', to) →
  match (if bool_decide (to ≠ sr_State rec) then event_spec def (sr_State rec) to else None) with
  | Some (_, resolves) => resolves = is_open (sr_State rec) ∧ is_open to = negb resolves
  | None => is_open to = is_open (sr_State rec)
  end.
Proof.
  intros Hstep. pose proof (step_to def rec good t) as Hto. rewrite Hstep in Hto. simpl in Hto. clear Hstep.
  destruct good; destruct Hto as [[Hopen Hto]|[Hopen Hto]]; [destruct Hto as [-> | ->]..|subst to|destruct Hto as [-> | ->]];
    destruct (sr_State rec) eqn:Hs; simpl in *; try done; case_bool_decide; simplify_eq/=; done.
Qed.

(** *** Alert lifecycle *)

Definition event_flips (open : bool) (evs : list Event) (open' : bool) : Prop :=
  match evs with
  | [] => open' = open
  | [e] => ev_Resolves e = open ∧ open' = negb open
  | _ => False
  end.

Lemma Evaluate_event `{Sha256} def prev o up :
  Evaluate def prev o = Ok up →
  event_flips (prev_open prev) (up_Events up) (is_open (sr_State (up_Record up))).
Proof.
  intros [reason Hr|rec0 b good rec to Happ Hrec0 Hj Hstep]%Evaluate_evaluated; cbn [up_Events up_Record].
  - by destruct prev.
  - pose proof (step_keeps _ _ _ _ _ _ Hstep) as (Hs & _). apply step_event in Hstep.
    rewrite stamp_state in Hs, Hstep. simpl in Hs, Hstep.
    assert (is_open (sr_State rec0) = prev_open prev) as Hprev by (subst rec0; by destruct prev).
    assert (sr_State (if bool_decide (to ≠ sr_State rec0)
      then rec <| sr_State := to |> <| sr_LastTransitionAt := o_ObservedAt o |> else rec) = to) as ->.
    { case_bool_decide as Hne; simpl; [done|]. rewrite Hs. destruct (decide (to = sr_State rec0)); congruence. }
    unfold eventFor. case_bool_decide; simpl; [|by rewrite Hstep].
    destruct (event_spec def (sr_State rec0) to) as [[spec resolves]|]; simpl; rewrite <-Hprev; [|done].
    destruct Hstep as [-> ->]. done.
Qed.

(** Feed observations one after the other to one tracked entity, collecting what is emitted. *)
Fixpoint feed `{Sha256} (def : StateDefinition) (prev : option StateRecord) (obs : list Observation)
    : res (option StateRecord * list Event) :=
  match obs with
  | [] => Ok (prev, [])
  | o :: obs =>
      up ← Evaluate def prev o;
      let prev' := if bool_decide (up_Ignored up = NotIgnored) then Some (up_Record up) else prev in
      '(last, evs) ← feed def prev' obs;
      Ok (last, up_Events up ++ evs)
  end.

(** Alerts and recoveries strictly alternate, starting with an alert when none is open. *)
Fixpoint alternating (open : bool) (evs : list Event) : Prop :=
  match evs with
  | [] => True
  | e :: evs => ev_Resolves e = open ∧ alternating (negb open) evs
  end.

(** The parity of the events tells whether an alert is open. *)
Fixpoint open_after (open : bool) (evs : list Event) : bool :=
  match evs with
  | [] => open
  | _ :: evs => open_after (negb open) evs
  end.

Lemma Evaluate_ignored `{Sha256} def prev o up :
  Evaluate def prev o = Ok up → up_Ignored up ≠ NotIgnored →
  up_Events up = [] ∧ up_Transitions up = [] ∧ up_Record up = default StateRecord0 prev.
Proof. intros Hev%Evaluate_evaluated Hi. by destruct Hev. Qed.

Lemma feed_alternates `{Sha256} def prev obs last evs :
  feed def prev obs = Ok (last, evs) →
  alternating (prev_open prev) evs ∧ prev_open last = open_after (prev_open prev) evs.
Proof.
  revert prev last evs. induction obs as [|o obs IH]; intros prev last evs; simpl.
  - intros ?. by simplify_eq.
  - unfold mbind, result_bind. destruct (Evaluate def prev o) as [up|] eqn:Hev; [|done].
    destruct (feed _ _ _) as [[last' evs']|] eqn:Hfeed; [|done]. intros ?; simplify_eq.
    apply IH in Hfeed. pose proof (Evaluate_event _ _ _ _ Hev) as Hflip.
    case_bool_decide as Hi.
    + cbn [prev_open] in Hfeed. destruct (up_Events up) as [|e [|]]; cbn in Hflip; [by rewrite <-Hflip| |done].
      destruct Hflip as [He Hflip]. rewrite Hflip in Hfeed. cbn. by destruct Hfeed.
    + by destruct (Evaluate_ignored _ _ _ _ Hev Hi) as [-> _].
Qed.

(** *** Validated definitions never panic *)

Lemma validate_judged d :
  validate d = None →
  (∃ b, df_GoodWhen d = Some (MkGoodWhen (Some b)) ∧ df_Threshold d = None) ∨
  (df_GoodWhen d = None ∧ ∃ t, df_Threshold d = Some t ∧
     ((∃ ba cb, th_BreachAbove t = Some ba ∧ th_ClearBelow t = Some cb ∧ f_gt cb ba = false) ∨
      (th_BreachAbove t = None ∧ ∃ bb ca, th_BreachBelow t = Some bb ∧ th_ClearAbove t = Some ca ∧ f_lt ca bb = false))).
Proof.
  unfold validate. intros Hv. assert (validate_problems d = []) as Hp by (by destruct (validate_problems d)).
  clear Hv. unfold validate_problems in Hp.
  apply app_nil in Hp as [Hp1 Hp]. apply app_nil in Hp as [Hp2 _].
  apply problems_of_nil in Hp1. rewrite !Forall_cons in Hp1. simpl in Hp1. destruct Hp1 as (_ & _ & Hx & Hg & _).
  destruct (df_GoodWhen d) as [[[b|]]|], (df_Threshold d) as [t|]; simpl in *; try done; [by left; eauto|].
  right. split; [done|]. exists t. split; [done|].
  unfold threshold_problem in Hp2.
  destruct (th_BreachAbove t) as [ba|], (th_ClearBelow t) as [cb|],
    (th_BreachBelow t) as [bb|], (th_ClearAbove t) as [ca|]; simpl in *; try done.
  - left. exists ba, cb. by destruct (f_gt cb ba).
  - right. split; [done|]. exists bb, ca. by destruct (f_lt ca bb).
Qed.

Lemma judge_total d rec o : validate d = None → ∃ r, judge d rec o = Ok r.
Proof.
  intros [(b & Hg & _)|(Hg & t & Ht & Hb)]%validate_judged; unfold judge; rewrite Hg; simpl.
  - destruct (o_Value o); eauto.
  - rewrite Ht. destruct (numeric _); simpl; [|eauto].
    destruct Hb as [(ba & cb & -> & -> & _)|(-> & bb & ca & -> & -> & _)]; destruct (sr_Breached rec); simpl; eauto.
Qed.

Lemma Evaluate_total `{Sha256} d prev o : validate d = None → ∃ up, Evaluate d prev o = Ok up.
Proof.
  intros Hv. unfold Evaluate. destruct (KeyFor _ _ _). destruct (already_applied _ _); [eauto|].
  destruct (judge_total d (default (fresh_record d o) prev) o Hv) as [[rec [good|]] ->]; simpl; [|eauto].
  destruct (step _ _ _ _). case_match; eauto.
Qed.

(** *** Replay *)

Lemma Evaluate_accepted `{Sha256} def prev o up :
  Evaluate def prev o = Ok up → up_Ignored up = NotIgnored →
  sr_LastObservationID (up_Record up) = o_ObservationID o ∧ sr_LastObservedAt (up_Record up) = o_ObservedAt o ∧
  match prev with Some p => (sr_LastObservedAt p < o_ObservedAt o)%Z | None => True end.
Proof.
  intros Hev%Evaluate_evaluated Hi. destruct Hev as [reason Hr|rec0 b good rec to Happ Hrec0 Hj Hstep]; [done|]. simpl.
  apply step_keeps in Hstep as (_ & _ & Ho & Hid & _). rewrite stamp_observed in Ho. rewrite stamp_id in Hid.
  split_and!; [by case_match|by case_match|].
  clear Hi. unfold already_applied in Happ. destruct prev as [p|]; [|done].
  case_bool_decide; [done|]. unfold After in Happ.
  destruct (Z.ltb_spec (sr_LastObservedAt p) (o_ObservedAt o)) as [|?]; [lia|done].
Qed.

Lemma Evaluate_late `{Sha256} def p o :
  o_ObservationID o = sr_LastObservationID p ∨ (o_ObservedAt o ≤ sr_LastObservedAt p)%Z →
  ∃ reason, reason ≠ NotIgnored ∧ Evaluate def (Some p) o = Ok (MkUpdate p [] [] reason).
Proof.
  intros Hlate. unfold Evaluate. destruct (KeyFor _ _ _). unfold already_applied.
  case_bool_decide; [by exists Duplicate|]. destruct Hlate as [|Hle]; [congruence|].
  unfold After. rewrite (proj2 (Z.ltb_ge _ _) Hle). by exists Stale.
Qed.

(** *** Hysteresis *)

(** A value inside the band keeps the verdict it had: neither beyond the breach line nor past
    the clear line. *)
Definition in_band (t : Threshold) (f : float64) : Prop :=
  match th_BreachAbove t, th_ClearBelow t, th_BreachBelow t, th_ClearAbove t with
  | Some ba, Some cb, _, _ => f_gt f ba = false ∧ f_lt f cb = false
  | None, _, Some bb, Some ca => f_lt f bb = false ∧ f_gt f ca = false
  | _, _, _, _ => False
  end.

Lemma judge_in_band d t rec o f :
  validate d = None → df_Threshold d = Some t → numeric (o_Value o) = Some f → in_band t f →
  judge d rec o = Ok (rec, Some (negb (sr_Breached rec))).
Proof.
  intros Hv Ht Hf Hband. destruct (validate_judged d Hv) as [(b & _ & Hn)|(Hg & t' & Ht' & Hb)]; [congruence|].
  simplify_eq. unfold judge. rewrite Hg, Hf, Ht. simpl. unfold in_band in Hband.
  destruct Hb as [(ba & cb & Hba & Hcb & _)|(Hba & bb & ca & Hbb & Hca & _)].
  - rewrite Hba, Hcb in *. destruct Hband as [H1 H2]. destruct rec as [? ? ? ? ? ? ? br]; simpl.
    by destruct br; simpl; rewrite ?H1, ?H2.
  - rewrite Hba, Hbb, Hca in *. destruct Hband as [H1 H2]. destruct rec as [? ? ? ? ? ? ? br]; simpl.
    by destruct br; simpl; rewrite ?H1, ?H2.
Qed.

(** *** Silence *)

(** The synthetic sample of a definition that watches a boolean is a bad sample ... *)
Lemma stale_sample_bad `{Sha256} d rec0 rec stamp o :
  validate d = None → df_GoodWhen d ≠ None → stale_sample d rec0 stamp = Ok o →
  judge d rec o = Ok (rec, Some false).
Proof.
  intros Hv Hg Ho. destruct (validate_judged d Hv) as [(b & Hgw & _)|(Hn & _)]; [|done].
  unfold stale_sample in Ho. rewrite Hgw in Ho. simpl in Ho. simplify_eq. unfold judge. rewrite Hgw. simpl.
  by destruct b.
Qed.

(** ... and it does not reset the staleness clock. *)
Lemma stale_sample_clock `{Sha256} d rec0 rec stamp o :
  stale_sample d rec0 stamp = Ok o → sr_LastSeenAt (stamp_record rec o) = sr_LastSeenAt rec.
Proof.
  unfold stale_sample, mbind, result_bind. case_match; [|done]. intros ?; simplify_eq.
  unfold stamp_record. rewrite bool_decide_eq_false_2; [done|].
  unfold mread, mget. simpl. rewrite lookup_insert_eq. simpl. tauto.
Qed.

(** For a threshold the synthetic sample is a boolean, which no threshold judges. *)
Lemma stale_sample_threshold `{Sha256} d rec0 rec stamp o :
  df_GoodWhen d = None → stale_sample d rec0 stamp = Ok o → judge d rec o = Ok (rec, None).
Proof.
  intros Hg Ho. unfold stale_sample in Ho. rewrite Hg in Ho. simpl in Ho. simplify_eq.
  unfold judge. by rewrite Hg.
Qed.

(** *** The engine keeps the record in step with the history of verdicts *)

(** [tracks] reads five fields only. *)
Lemma tracks_ext def h rec rec' :
  sr_State rec' = sr_State rec → sr_Failures rec' = sr_Failures rec → sr_BadSince rec' = sr_BadSince rec →
  sr_Successes rec' = sr_Successes rec → sr_GoodSince rec' = sr_GoodSince rec →
  tracks def h rec → tracks def h rec'.
Proof. intros Hs Hf Hb Hu Hg []. constructor; rewrite ?Hs, ?Hf, ?Hb, ?Hu, ?Hg; done. Qed.

Lemma stamp_tracks def h rec b o :
  tracks def h rec → tracks def h (stamp_record (rec <| sr_Breached := b |>) o).
Proof. apply tracks_ext; unfold stamp_record; by case_match. Qed.

Lemma fresh_tracks def o : tracks def [] (fresh_record def o).
Proof. by apply tracks_fresh. Qed.

(** The verdicts of the accepted samples, newest first. *)
Fixpoint verdicts `{Sha256} (def : StateDefinition) (prev : option StateRecord) (h : history)
    (obs : list Observation) : res history :=
  match obs with
  | [] => Ok h
  | o :: obs =>
      up ← Evaluate def prev o;
      if bool_decide (up_Ignored up = NotIgnored) then
        '(_, good) ← judge def (default (fresh_record def o) prev) o;
        verdicts def (Some (up_Record up)) ((default false good, o_ObservedAt o) :: h) obs
      else verdicts def prev h obs
  end.

Lemma Evaluate_tracks `{Sha256} def prev o up h :
  Evaluate def prev o = Ok up → up_Ignored up = NotIgnored →
  tracks def h (default (fresh_record def o) prev) → (Z.of_nat (length h) < int_max)%Z →
  ∃ rec good, judge def (default (fresh_record def o) prev) o = Ok (rec, Some good) ∧
    tracks def ((good, o_ObservedAt o) :: h) (up_Record up).
Proof.
  intros Hev%Evaluate_evaluated Hi Htr Hlen.
  destruct Hev as [reason Hr|rec0 b good rec to Happ -> Hj Hstep]; [done|].
  eexists _, good. split; [exact Hj|]. cbn [up_Record].
  apply (stamp_tracks _ _ _ b o) in Htr. pose proof (step_keeps _ _ _ _ _ _ Hstep) as (Hs & _).
  rewrite stamp_state in Hs. simpl in Hs.
  assert (tracks def ((good, o_ObservedAt o) :: h) (rec <| sr_State := to |>)) as Hnew.
  { pose proof (step_tracks_good def h _ (o_ObservedAt o) Htr Hlen) as Hg.
    pose proof (step_tracks_bad def h _ (o_ObservedAt o) Htr Hlen) as Hb.
    destruct good; [rewrite Hstep in Hg|rewrite Hstep in Hb]; done. }
  case_bool_decide as Hne; [by apply (tracks_ext _ _ (rec <| sr_State := to |>))|].
  apply (tracks_ext _ _ (rec <| sr_State := to |>)); try done. rewrite Hs. simpl.
  destruct (decide (to = sr_State (default (fresh_record def o) prev))); congruence.
Qed.

(** Before the first sample an entity has no record and no history. *)
Definition in_step (def : StateDefinition) (h : history) (prev : option StateRecord) : Prop :=
  match prev with None => h = [] | Some rec => tracks def h rec end.

Lemma in_step_tracks def h prev o : in_step def h prev → tracks def h (default (fresh_record def o) prev).
Proof. destruct prev; [done|]. intros ->. apply fresh_tracks. Qed.

Lemma in_step_open def h prev : in_step def h prev → prev_open prev = spec_open def h.
Proof.
  destruct prev as [rec|]; [|by intros ->]. intros [Hs _ _ _ _]. simpl. rewrite Hs.
  destruct h as [|[[] t] h]; [done|..]; unfold spec_state; by destruct (spec_open def _).
Qed.

Lemma quiet_suffix n h h' : quiet n (h ++ h') → quiet n h'.
Proof. induction h as [|? h IH]; [done|]. intros [_ ?]. by apply IH. Qed.

Lemma verdicts_suffix `{Sha256} def prev h obs h' : verdicts def prev h obs = Ok h' → ∃ k, h' = k ++ h ∧ length k ≤ length obs.
Proof.
  revert prev h. induction obs as [|o obs IH]; intros prev h; simpl.
  - intros ?; simplify_eq. by exists [].
  - unfold mbind, result_bind. destruct (Evaluate _ _ _); [|done]. case_bool_decide.
    + destruct (judge _ _ _) as [[? good]|]; [|done]. intros (k & -> & Hk)%IH.
      exists (k ++ [(default false good, o_ObservedAt o)]). rewrite <-app_assoc. split; [done|].
      rewrite length_app. simpl. lia.
    + intros (k & -> & Hk)%IH. exists k. split; [done|]. lia.
Qed.

Lemma feed_quiet `{Sha256} def prev h obs h' last evs :
  in_step def h prev → (Z.of_nat (length h + length obs) ≤ int_max)%Z →
  verdicts def prev h obs = Ok h' → quiet (df_FailAfter def) h' →
  feed def prev obs = Ok (last, evs) → evs = [] ∧ prev_open last = false.
Proof.
  revert prev h last evs. induction obs as [|o obs IH]; intros prev h last evs Hin Hlen Hv Hq Hf; simpl in Hv, Hf.
  - simplify_eq. rewrite (in_step_open def h') by done. by rewrite quiet_closed.
  - unfold mbind, result_bind in Hv, Hf. destruct (Evaluate def prev o) as [up|] eqn:Hev; [|done].
    case_bool_decide as Hi.
    + destruct (Evaluate_tracks _ _ _ _ h Hev Hi) as (rec & good & Hj & Htr);
        [by apply in_step_tracks|simpl in Hlen; lia|].
      rewrite Hj in Hv. simpl in Hv.
      destruct (feed _ (Some _) obs) as [[last' evs']|] eqn:Hfeed; [|done]. simplify_eq.
      destruct (verdicts_suffix _ _ _ _ _ Hv) as (k & Hk & _).
      pose proof (quiet_closed def _ (quiet_suffix _ k _ (eq_ind _ _ Hq _ Hk))) as Hclosed.
      destruct (IH (Some (up_Record up)) _ last evs' Htr) as [-> ?]; [simpl in Hlen |- *; lia|done..|].
      pose proof (Evaluate_event _ _ _ _ Hev) as Hflip.
      pose proof (in_step_open _ _ (Some (up_Record up)) Htr) as Hopen. cbn [prev_open] in Hopen.
      rewrite Hopen, Hclosed in Hflip.
      pose proof (in_step_open _ _ _ Hin) as Hprev. rewrite quiet_closed in Hprev.
      2: { rewrite Hk in Hq. apply quiet_suffix in Hq. by destruct Hq. }
      rewrite Hprev in Hflip. destruct (up_Events up) as [|? [|]]; simpl in Hflip; [done|by destruct Hflip|done].
    + destruct (feed _ prev obs) as [[last' evs']|] eqn:Hfeed; [|done]. simplify_eq.
      destruct (Evaluate_ignored _ _ _ _ Hev Hi) as [-> _]. simpl in Hlen. by apply (IH prev h); [|lia|..].
Qed.

(** ** Theorems *)

(** A definition and a few samples to try the theorems on: reachability, down after three bad
    samples, up again after two good ones. *)
Definition sha_id : Sha256 := λ s, s.

Definition ex_def : StateDefinition :=
  MkStateDefinition "reachability" "" "system.reachable" [] [] (Some (MkGoodWhen (Some true))) None
    3 0 2 0 true (MkEventSpec "device.unreachable" "critical" "") (MkEventSpec "device.recovered" "info" "").

Definition ex_obs (n : Z) (up : bool) : Observation :=
  MkObservation (pretty n) "c" "sw1" "snmp" "system.reachable" (VBool up) None (n * Second) 0 None.

Definition ex_noise : list Observation :=
  [ex_obs 1 true; ex_obs 2 false; ex_obs 3 false; ex_obs 4 true; ex_obs 5 false].

Definition ex_outage : list Observation :=
  [ex_obs 1 true; ex_obs 2 false; ex_obs 3 false; ex_obs 4 false; ex_obs 5 true; ex_obs 6 true].

(** C9. The incremental health machine refines the history specification: over any history of
    fewer than 2^63 samples, the counters and debounce timestamps kept by [step] lead from an
    unseen entity to exactly the state that the length and duration of the newest good or bad
    streak prescribe. *)
Theorem health_machine_refines_history def rec0 h :
  unseen rec0 → (Z.of_nat (length h) ≤ int_max)%Z → sr_State (run def rec0 h) = spec_state def h.
Proof. intros Hnew Hlen. by apply tracks_state, run_tracks. Qed.

Lemma health_machine_refines_history_witness :
  sr_State (run ex_def StateRecord0 [(false, 40); (false, 30); (false, 20); (true, 10)]%Z) = StateDown.
Proof.
  rewrite (health_machine_refines_history ex_def StateRecord0 _); [reflexivity|by split_and!|].
  unfold int_max. simpl. lia.
Defined.

(** Noise is absorbed: when no run of [fail_after] consecutive accepted bad samples occurs,
    feeding any sequence of observations to an unseen entity emits no event at all and no alert
    is open at the end. *)
Theorem noise_absorbed `{Sha256} def obs h last evs :
  (Z.of_nat (length obs) ≤ int_max)%Z →
  verdicts def None [] obs = Ok h → quiet (df_FailAfter def) h →
  feed def None obs = Ok (last, evs) → evs = [] ∧ prev_open last = false.
Proof. intros Hlen. by apply feed_quiet. Qed.

Lemma noise_absorbed_witness :
  ∃ last, feed (H:=sha_id) ex_def None ex_noise = Ok (last, []) ∧ prev_open last = false.
Proof.
  destruct (feed (H:=sha_id) ex_def None ex_noise) as [[last evs]|] eqn:Hf; [|by vm_compute in Hf].
  destruct (noise_absorbed (H:=sha_id) ex_def ex_noise
    [(false, 5 * Second); (true, 4 * Second); (false, 3 * Second); (false, 2 * Second); (true, 1 * Second)]%Z last evs) as [-> Ho].
  - unfold int_max. simpl. lia.
  - vm_compute. reflexivity.
  - simpl. lia.
  - exact Hf.
  - exists last. split; [reflexivity|exact Ho].
Defined.

(** Alerting is exact: whatever is fed to an unseen entity, alert and recovery events
    strictly alternate beginning with an alert, and the number of events tells whether the
    entity is in DOWN or RECOVERING at the end. *)
Theorem alerts_alternate `{Sha256} def obs last evs :
  feed def None obs = Ok (last, evs) → alternating false evs ∧ prev_open last = open_after false evs.
Proof. apply feed_alternates. Qed.

Lemma alerts_alternate_witness :
  ∃ last evs, feed (H:=sha_id) ex_def None ex_outage = Ok (last, evs) ∧ length evs = 2 ∧ alternating false evs.
Proof.
  destruct (feed (H:=sha_id) ex_def None ex_outage) as [[last evs]|] eqn:Hf; [|by vm_compute in Hf].
  exists last, evs. split; [done|]. split; [|by apply (alerts_alternate (H:=sha_id) ex_def ex_outage last evs)].
  vm_compute in Hf. by simplify_eq.
Defined.

(** A definition that passed [validate] never makes [Evaluate] panic: for every previous
    record and every observation, whatever its value type, an update is returned. *)
Theorem validated_definition_never_panics `{Sha256} def prev o :
  validate def = None → ∃ up, Evaluate def prev o = Ok up.
Proof. apply Evaluate_total. Qed.

Lemma validated_definition_never_panics_witness : ∃ up, Evaluate (H:=sha_id) ex_def None (ex_obs 1 true) = Ok up.
Proof. apply (validated_definition_never_panics (H:=sha_id) ex_def None (ex_obs 1 true)). reflexivity. Defined.

(** Replay is safe: once an observation was accepted, delivering it again, or delivering any
    observation that is not newer, changes nothing and emits nothing; and an accepted
    observation always moves the entity's clock strictly forward. *)
Theorem replay_is_ignored `{Sha256} def prev o up :
  Evaluate def prev o = Ok up → up_Ignored up = NotIgnored →
  (∀ p, prev = Some p → (sr_LastObservedAt p < o_ObservedAt o)%Z) ∧
  ∀ o', o' = o ∨ (o_ObservedAt o' ≤ o_ObservedAt o)%Z →
    ∃ reason, reason ≠ NotIgnored ∧
      Evaluate def (Some (up_Record up)) o' = Ok (MkUpdate (up_Record up) [] [] reason).
Proof.
  intros Hev Hi. destruct (Evaluate_accepted _ _ _ _ Hev Hi) as (Hid & Hat & Hprev). split.
  - by intros p ->.
  - intros o' Ho'. apply Evaluate_late. rewrite Hid, Hat. destruct Ho' as [->|]; auto.
Qed.

Lemma replay_is_ignored_witness :
  ∃ up reason, Evaluate (H:=sha_id) ex_def None (ex_obs 2 false) = Ok up ∧
    Evaluate (H:=sha_id) ex_def (Some (up_Record up)) (ex_obs 1 true) = Ok (MkUpdate (up_Record up) [] [] reason).
Proof.
  destruct (Evaluate (H:=sha_id) ex_def None (ex_obs 2 false)) as [up|] eqn:Hev; [|by vm_compute in Hev].
  assert (up_Ignored up = NotIgnored) as Hi by (vm_compute in Hev; by simplify_eq).
  destruct (replay_is_ignored (H:=sha_id) ex_def None (ex_obs 2 false) up Hev Hi) as [_ Hlate].
  destruct (Hlate (ex_obs 1 true)) as (reason & _ & Hr); [right; vm_compute; by intros [=]|].
  by exists up, reason.
Defined.

(** Hysteresis: for a validated threshold definition, a value between the clear line and the
    breach line (NaN included) leaves the remembered side of the band, and with it the verdict,
    as it was. *)
Theorem hysteresis_keeps_verdict def t rec o f :
  validate def = None → df_Threshold def = Some t → numeric (o_Value o) = Some f → in_band t f →
  judge def rec o = Ok (rec, Some (negb (sr_Breached rec))).
Proof. apply judge_in_band. Qed.

Definition ex_threshold : StateDefinition :=
  MkStateDefinition "cpu" "" "system.cpu.utilization" [] [] None
    (Some (MkThreshold (Some (f_of_int 90)) (Some (f_of_int 80)) None None))
    3 0 2 0 true (MkEventSpec "cpu.high" "warning" "") (MkEventSpec "cpu.normal" "info" "").

Lemma hysteresis_keeps_verdict_witness :
  judge ex_threshold StateRecord0 ((ex_obs 1 true) <| o_Value := VInt 85 |>) = Ok (StateRecord0, Some true).
Proof.
  refine (hysteresis_keeps_verdict ex_threshold (MkThreshold (Some (f_of_int 90)) (Some (f_of_int 80)) None None)
    StateRecord0 ((ex_obs 1 true) <| o_Value := VInt 85 |>) (f_of_int 85) _ _ _ _); [reflexivity..|].
  by split.
Defined.

(** Silence and the two kinds of definition: the synthetic sample of the stale sweep is
    judged bad by a validated boolean definition and never resets its staleness clock, but a
    threshold definition cannot judge it at all, so its silence is ignored although [stale] is
    set. *)
Theorem silence_is_bad_for_booleans_only `{Sha256} def rec0 rec stamp o :
  validate def = None → stale_sample def rec0 stamp = Ok o →
  sr_LastSeenAt (stamp_record rec o) = sr_LastSeenAt rec ∧
  judge def rec o = Ok (rec, if isnil (df_GoodWhen def) then None else Some false).
Proof.
  intros Hv Ho. split; [by eapply stale_sample_clock|].
  destruct (df_GoodWhen def) eqn:Hg; [by eapply stale_sample_bad; [..|exact Ho]; rewrite ?Hg|].
  by eapply stale_sample_threshold.
Qed.

Lemma silence_is_bad_for_booleans_only_witness :
  ∃ o, stale_sample (H:=sha_id) ex_threshold StateRecord0 Second = Ok o ∧ judge ex_threshold StateRecord0 o = Ok (StateRecord0, None).
Proof.
  destruct (stale_sample (H:=sha_id) ex_threshold StateRecord0 Second) as [o|] eqn:Ho; [|by vm_compute in Ho].
  exists o. split; [done|].
  by destruct (silence_is_bad_for_booleans_only (H:=sha_id) ex_threshold StateRecord0 StateRecord0 Second o eq_refl Ho).
Defined.
