(* ===== verification/Rules.v ===== *)
(** * Package [rules]: monitoring rules over time windows (src/internal/rules/rules.go) *)

From S2P Require Import Prelude GoLib GoFloat Domain State.

(** ** Rules and their validation *)

Record Match := MkMatch {
  m_DeviceType : list string;
  m_Metric : string;
  m_Site : string;
  m_Tags : list string;
}.

Record Condition := MkCondition {
  c_Transitions : Z;
  c_Within : Duration;
  c_AverageOver : Duration;
  c_MaxOver : Duration;
  c_MinOver : Duration;
  c_GreaterThan : option float64;
  c_LessThan : option float64;
  c_MinSamples : Z;
}.

Record Rule := MkRule {
  r_ID : string;
  r_Description : string;
  r_Match : Match;
  r_Condition : Condition;
  r_Severity : Severity;
  r_Event : string;
  r_ClearEvent : string;
  r_Message : string;
}.

Definition Window (r : Rule) : Duration :=
  let c := r_Condition r in
  if (0 <? c_Transitions c)%Z then c_Within c
  else if (0 <? c_AverageOver c)%Z then c_AverageOver c
  else if (0 <? c_MaxOver c)%Z then c_MaxOver c
  else c_MinOver c.

(** The aggregate windows that are set, in source order. *)
Definition set_windows (c : Condition) : list Duration :=
  filter (λ d, d ≠ 0%Z) [c_AverageOver c; c_MaxOver c; c_MinOver c].

Definition wants_transitions (c : Condition) : bool := (0 <? c_Transitions c)%Z || (0 <? c_Within c)%Z.

(** How many kinds of condition are configured. *)
Definition kinds (c : Condition) : Z :=
  (if wants_transitions c then 1 else 0) + (if decide (length (set_windows c) = 1) then 1 else 0).

Definition rule_problems (r : Rule) : list string :=
  let c := r_Condition r in
  let aggs := length (set_windows c) in
  problems_of
    [(bool_decide (r_ID r = ""), "id is required");
     (bool_decide (m_Metric (r_Match r) = ""), "match.metric is required")]
  ++ ((λ t, "unknown device type " +:+ Quote t) <$> filter (λ t, DeviceType_Valid t = false) (m_DeviceType (r_Match r)))
  ++ problems_of
    [(negb (Severity_Valid (r_Severity r)), "severity must be info, warning or critical");
     (wants_transitions c && ((c_Transitions c <? 1)%Z || (c_Within c <=? 0)%Z),
      "transitions needs both a count >= 1 and a within window")]
  ++ ((λ _, "aggregate windows must be positive") <$> filter (λ d, (d < 0)%Z) (set_windows c))
  ++ problems_of
    [((1 <? aggs)%nat, "use only one of average_over, max_over, min_over");
     (bool_decide (aggs = 1) && Bool.eqb (isnil (c_GreaterThan c)) (isnil (c_LessThan c)),
      "an aggregate needs exactly one of greater_than or less_than");
     (bool_decide (aggs ≠ 1) && (negb (isnil (c_GreaterThan c)) || negb (isnil (c_LessThan c))),
      "greater_than/less_than need average_over, max_over or min_over");
     (negb (kinds c =? 1)%Z, "condition must be exactly one of transitions+within or an aggregate");
     ((c_MinSamples c <? 0)%Z, "min_samples must not be negative")].

Definition validate (r : Rule) : option error :=
  match rule_problems r with
  | [] => None
  | p => Some (Errorf CategoryValidation ("rule " +:+ Quote (r_ID r) +:+ ": " +:+ Join p "; "))
  end.

Definition eventName (r : Rule) : string := if bool_decide (r_Event r ≠ "") then r_Event r else "rule.triggered".
Definition clearEventName (r : Rule) : string :=
  if bool_decide (r_ClearEvent r ≠ "") then r_ClearEvent r else "rule.cleared".

Record Rules := MkRules {
  rls_all : list Rule;
  rls_byMetric : gmap string (list Rule);
}.

Fixpoint Parse_loop (rs : Rules) (seen : gset string) (l : list Rule) : res Rules :=
  match l with
  | [] => Ok rs
  | r :: l =>
      match validate r with
      | Some err => Err err
      | None =>
          if bool_decide (r_ID r ∈ seen)
          then Err (Errorf CategoryValidation ("duplicate rule id " +:+ Quote (r_ID r)))
          else
            let metric := m_Metric (r_Match r) in
            Parse_loop
              (MkRules (rls_all rs ++ [r])
                 (<[metric := default [] (rls_byMetric rs !! metric) ++ [r]]> (rls_byMetric rs)))
              ({[r_ID r]} ∪ seen) l
      end
  end.

Definition Parse (yaml : string → res (list Rule)) (raw : string) : res Rules :=
  doc ← yaml raw; Parse_loop (MkRules [] ∅) ∅ doc.

(** A nil [*Rules] has no rules. *)
Definition All (rs : option Rules) : list Rule := match rs with None => [] | Some rs => rls_all rs end.

Definition contains (l : list string) (s : string) : bool := existsb (λ x, bool_decide (x = s)) l.

Definition rule_matches (r : Rule) (dev : Device) : bool :=
  let m := r_Match r in
  negb ((0 <? length (m_DeviceType m))%nat && negb (contains (m_DeviceType m) (d_DeviceType dev)))
  && negb (bool_decide (m_Site m ≠ "") && bool_decide (m_Site m ≠ d_Site dev))
  && forallb (HasTag dev) (m_Tags m).

Definition For (rs : option Rules) (metric : string) (dev : Device) : list Rule :=
  match rs with
  | None => []
  | Some rs => filter (λ r, rule_matches r dev = true) (default [] (rls_byMetric rs !! metric))
  end.

(** ** Evaluation *)

Definition KeyFor (r : Rule) (deviceID : string) (labels : smap) : string * smap :=
  ("rule:" +:+ r_ID r +:+ "/" +:+ deviceID +:+ "/" +:+ LabelsKey labels, labels).

Definition prevState (p : option StateRecord) : HealthState :=
  match p with None => StateUp | Some p => sr_State p end.

Definition cloneLabels (m : smap) : smap := cloneMap m.

Definition truthy (s : Sample) : bool :=
  match sm_Bool s with
  | Some b => b
  | None => negb (f_eq (sm_Num s) f_zero)
  end.

(** Adjacent samples whose truth value differs. *)
Fixpoint flips (samples : list Sample) : Z :=
  match samples with
  | s1 :: (s2 :: _) as rest => (if Bool.eqb (truthy s2) (truthy s1) then 0 else 1) + flips rest
  | _ => 0
  end.

Definition first_num (samples : list Sample) : res float64 :=
  match samples with
  | s :: _ => Ok (sm_Num s)
  | [] => Err (EPanic "index out of range [0] with length 0")
  end.

Definition aggregate (c : Condition) (samples : list Sample) : res float64 :=
  if (0 <? c_AverageOver c)%Z then
    Ok (f_div (foldl (λ sum s, f_add sum (sm_Num s)) f_zero samples) (f_of_int (Z.of_nat (length samples))))
  else if (0 <? c_MaxOver c)%Z then
    first ← first_num samples; Ok (foldl (λ m s, f_max m (sm_Num s)) first samples)
  else
    first ← first_num samples; Ok (foldl (λ m s, f_min m (sm_Num s)) first samples).

(** Whether the condition holds, and the measured number. *)
Definition condition (c : Condition) (samples : list Sample) : res (bool * float64) :=
  if (0 <? c_Transitions c)%Z then
    Ok ((c_Transitions c <=? flips samples)%Z, f_of_int (flips samples))
  else
    let minSamples := if (c_MinSamples c =? 0)%Z then 3%Z else c_MinSamples c in
    if (Z.of_nat (length samples) <? minSamples)%Z then Ok (false, f_zero)
    else
      measured ← aggregate c samples;
      match c_GreaterThan c with
      | Some limit => Ok (f_gt measured limit, measured)
      | None => limit ← deref (c_LessThan c); Ok (f_lt measured limit, measured)
      end.

Definition render (r : Rule) (clear : bool) (o : Observation) (measured : float64) : string :=
  if bool_decide (r_Message r = "") then
    if clear then "rule " +:+ r_ID r +:+ " cleared on " +:+ o_DeviceID o
    else "rule " +:+ r_ID r +:+ " triggered on " +:+ o_DeviceID o
  else
    Replace
      ([("{device}", o_DeviceID o); ("{value}", FormatFloat_g (Some 6) measured); ("{rule}", r_ID r)]
       ++ label_pairs (o_Labels o))
      (r_Message r).

(** The record of a rule's activation before this observation, already stamped with it. *)
Definition stamped (r : Rule) (prev : option StateRecord) (o : Observation) (measured : float64) : StateRecord :=
  let '(key, labels) := KeyFor r (o_DeviceID o) (o_Labels o) in
  (default (StateRecord0 <| sr_Key := key |> <| sr_DeviceID := o_DeviceID o |>
              <| sr_DefinitionID := "rule:" +:+ r_ID r |> <| sr_Labels := cloneLabels labels |>
              <| sr_State := StateUp |>) prev)
    <| sr_LastObservedAt := o_ObservedAt o |> <| sr_LastObservationID := o_ObservationID o |>
    <| sr_LastSeenAt := o_ObservedAt o |> <| sr_LastValue := FormatFloat_g (Some 6) measured |>.

Definition rule_event `{Sha256} (r : Rule) (o : Observation) (key name : string) (severity : Severity)
    (resolves : bool) (measured : float64) : Event :=
  let evLabels := Some (<["rule_id" := r_ID r]> (entries (cloneLabels (o_Labels o)))) in
  MkEvent (StableID ["evt"; o_DeviceID o; r_ID r; LabelsKey evLabels; name; o_ObservationID o])
    (o_CorrelationID o) (o_DeviceID o) name severity (render r resolves o measured) evLabels
    (o_ObservedAt o) (o_ObservationID o) ("rule:" +:+ r_ID r) key resolves.

Definition Evaluate `{Sha256} (r : Rule) (prev : option StateRecord) (samples : list Sample) (o : Observation) : res Update :=
  let '(key, _) := KeyFor r (o_DeviceID o) (o_Labels o) in
  match already_applied prev o with
  | Some up => Ok up
  | None =>
      let active := match prev with Some p => bool_decide (sr_State p = StateDown) | None => false end in
      '(holds, measured) ← condition (r_Condition r) samples;
      let rec := stamped r prev o measured in
      let fire (to : HealthState) (name : string) (severity : Severity) (resolves : bool) : Update :=
        MkUpdate
          (rec <| sr_State := to |> <| sr_LastTransitionAt := o_ObservedAt o |>)
          [MkTransition (StableID ["tr"; key; o_ObservationID o]) key (o_DeviceID o) (sr_DefinitionID rec)
             (sr_Labels rec) (prevState prev) to (o_ObservedAt o) (o_ObservationID o) (o_CorrelationID o)]
          [rule_event r o key name severity resolves measured]
          NotIgnored in
      match active, holds with
      | false, true => Ok (fire StateDown (eventName r) (r_Severity r) false)
      | true, false => Ok (fire StateUp (clearEventName r) SeverityInfo true)
      | _, _ =>
          Ok (MkUpdate (if isnil prev then rec <| sr_LastTransitionAt := o_ObservedAt o |> else rec) [] [] NotIgnored)
      end
  end.
