(* ===== verification/RulesFacts.v ===== *)
(** * What rules guarantee *)

From S2P Require Import Prelude GoLib GoFloat Domain State StateFacts Rules.

(** ** Flip counting *)

Lemma flips_cons2 s1 s2 l :
  flips (s1 :: s2 :: l) = ((if Bool.eqb (truthy s2) (truthy s1) then 0 else 1) + flips (s2 :: l))%Z.
Proof. done. Qed.

(** The loop of the source: indices [1 .. len-1] compared with their predecessor. *)
Definition flip_at (l : list Sample) (i : nat) : bool :=
  match l !! i, l !! (i - 1) with
  | Some s, Some p => negb (Bool.eqb (truthy s) (truthy p))
  | _, _ => false
  end.
Definition flips_loop (l : list Sample) : Z := Z.of_nat (length (List.filter (flip_at l) (seq 1 (length l - 1)))).

Lemma filter_seq_shift (f g : nat → bool) n k :
  (∀ i, n ≤ i → f (S i) = g i) → length (List.filter f (seq (S n) k)) = length (List.filter g (seq n k)).
Proof.
  revert n. induction k as [|k IH]; intros n Hfg; [done|]. simpl. rewrite (Hfg n) by done.
  destruct (g n); simpl; rewrite IH by (intros; apply Hfg; lia); done.
Qed.

Lemma flips_loop_eq l : flips l = flips_loop l.
Proof.
  unfold flips_loop. induction l as [|s1 [|s2 l] IH]; [done..|].
  rewrite flips_cons2, IH. clear IH.
  replace (length (s1 :: s2 :: l) - 1) with (S (length (s2 :: l) - 1)) by (simpl; lia).
  cbn [seq List.filter].
  pose proof (filter_seq_shift (flip_at (s1 :: s2 :: l)) (flip_at (s2 :: l)) 1 (length (s2 :: l) - 1)) as Hshift.
  rewrite <-Hshift.
  - change (flip_at (s1 :: s2 :: l) 1) with (negb (Bool.eqb (truthy s2) (truthy s1))).
    destruct (Bool.eqb _ _); cbn [negb length]; lia.
  - intros [|[|i]] Hi; [lia|done|]. unfold flip_at. simpl. done.
Qed.

(** ** Extremes *)

Section extremes.
Context (samples : list Sample) (Hnum : Forall (λ s, IsNaN (sm_Num s) = false) samples).

Lemma foldl_max_key init l :
  IsNaN init = false →
  let m := foldl (λ m s, f_max m (sm_Num s)) init samples in
  IsNaN m = false ∧
  (key_lt l (f_key m) ↔ key_lt l (f_key init) ∨ Exists (λ s, key_lt l (f_key (sm_Num s))) samples) ∧
  (key_lt (f_key m) l ↔ key_lt (f_key init) l ∧ Forall (λ s, key_lt (f_key (sm_Num s)) l) samples).
Proof using Hnum.
  revert init. induction Hnum as [|s ss Hs Hss IH]; intros init Hi; simpl.
  - rewrite Exists_nil. split_and!; [done|tauto|]. split; [|tauto]. split; [done|constructor].
  - destruct (f_max_key init (sm_Num s) l Hi Hs) as (Hn & H1 & H2).
    destruct (IH Hss _ Hn) as (Hn' & H1' & H2').
    split_and!; [done|rewrite H1', H1, Exists_cons; tauto|rewrite H2', H2, Forall_cons; tauto].
Qed.

Lemma foldl_min_key init l :
  IsNaN init = false →
  let m := foldl (λ m s, f_min m (sm_Num s)) init samples in
  IsNaN m = false ∧
  (key_lt (f_key m) l ↔ key_lt (f_key init) l ∨ Exists (λ s, key_lt (f_key (sm_Num s)) l) samples) ∧
  (key_lt l (f_key m) ↔ key_lt l (f_key init) ∧ Forall (λ s, key_lt l (f_key (sm_Num s))) samples).
Proof using Hnum.
  revert init. induction Hnum as [|s ss Hs Hss IH]; intros init Hi; simpl.
  - rewrite Exists_nil. split_and!; [done|tauto|]. split; [|tauto]. split; [done|constructor].
  - destruct (f_min_key init (sm_Num s) l Hi Hs) as (Hn & H1 & H2).
    destruct (IH Hss _ Hn) as (Hn' & H1' & H2').
    split_and!; [done|rewrite H1', H1, Exists_cons; tauto|rewrite H2', H2, Forall_cons; tauto].
Qed.

Lemma existsb_key (f : Sample → bool) (P : Sample → Prop) :
  (∀ s, IsNaN (sm_Num s) = false → f s = true ↔ P s) → existsb f samples = true ↔ Exists P samples.
Proof using Hnum.
  intros Hf. induction Hnum as [|s ss Hs Hss IH]; simpl; [by rewrite Exists_nil|].
  rewrite orb_true_iff, Exists_cons, Hf by done. by rewrite IH.
Qed.

Lemma forallb_key (f : Sample → bool) (P : Sample → Prop) :
  (∀ s, IsNaN (sm_Num s) = false → f s = true ↔ P s) → forallb f samples = true ↔ Forall P samples.
Proof using Hnum.
  intros Hf. induction Hnum as [|s ss Hs Hss IH]; simpl; [by split|].
  rewrite andb_true_iff, Forall_cons, Hf by done. by rewrite IH.
Qed.
End extremes.

(** What a [max_over] or [min_over] condition means, sample by sample. *)
Definition extreme_expected (c : Condition) (samples : list Sample) : bool :=
  match (0 <? c_MaxOver c)%Z, c_GreaterThan c, c_LessThan c with
  | true, Some l, _ => existsb (λ s, f_gt (sm_Num s) l) samples
  | true, None, Some l => forallb (λ s, f_lt (sm_Num s) l) samples
  | false, Some l, _ => forallb (λ s, f_gt (sm_Num s) l) samples
  | false, None, Some l => existsb (λ s, f_lt (sm_Num s) l) samples
  | _, None, None => false
  end.

Definition limit_of (c : Condition) : option float64 :=
  match c_GreaterThan c with Some l => Some l | None => c_LessThan c end.

Lemma bool_iff_eq (a b : bool) : (a = true ↔ b = true) → a = b.
Proof. intros H. destruct a, b; try done; [by rewrite (proj1 H)|by rewrite (proj2 H)]. Qed.

Lemma extreme_condition c samples limit :
  (c_Transitions c ≤ 0)%Z → (c_AverageOver c ≤ 0)%Z → limit_of c = Some limit → IsNaN limit = false →
  Forall (λ s, IsNaN (sm_Num s) = false) samples → samples ≠ [] →
  (match c_MinSamples c with 0 => 3 | n => n end ≤ Z.of_nat (length samples))%Z →
  ∃ m, condition c samples = Ok (extreme_expected c samples, m).
Proof.
  intros Ht Ha Hl Hln Hnum Hne Hlen. unfold condition.
  rewrite (proj2 (Z.ltb_ge _ _) Ht).
  assert ((Z.of_nat (length samples) <? (if (c_MinSamples c =? 0)%Z then 3 else c_MinSamples c))%Z = false) as ->.
  { apply Z.ltb_ge. by destruct (c_MinSamples c). }
  unfold aggregate, limit_of in *. rewrite (proj2 (Z.ltb_ge _ _) Ha).
  destruct samples as [|s0 ss]; [done|]. remember (s0 :: ss) as samples eqn:Hs. clear Hne Hlen.
  assert (first_num samples = Ok (sm_Num s0)) as -> by (by rewrite Hs).
  assert (IsNaN (sm_Num s0) = false) as H0 by (rewrite Hs in Hnum; by apply Forall_cons in Hnum as [? _]).
  assert (s0 ∈ samples) as Hin by (rewrite Hs; left).
  clear Hs. unfold extreme_expected. simpl.
  pose proof (foldl_max_key samples Hnum (sm_Num s0) (f_key limit) H0) as (HM & HM1 & HM2).
  pose proof (foldl_min_key samples Hnum (sm_Num s0) (f_key limit) H0) as (Hm & Hm1 & Hm2).
  destruct (0 <? c_MaxOver c)%Z, (c_GreaterThan c) as [g|]; simpl; try rewrite Hl; simpl; simplify_eq;
    eexists; do 2 f_equal; apply bool_iff_eq; unfold f_gt.
  - rewrite f_lt_key, HM1, (existsb_key samples Hnum _ (λ s, key_lt (f_key limit) (f_key (sm_Num s)))) by
      (done || (intros; by apply f_lt_key)). rewrite Exists_exists. naive_solver.
  - rewrite f_lt_key, HM2, (forallb_key samples Hnum _ (λ s, key_lt (f_key (sm_Num s)) (f_key limit))) by
      (done || (intros; by apply f_lt_key)). rewrite Forall_forall. naive_solver.
  - rewrite f_lt_key, Hm2, (forallb_key samples Hnum _ (λ s, key_lt (f_key limit) (f_key (sm_Num s)))) by
      (done || (intros; by apply f_lt_key)). rewrite Forall_forall. naive_solver.
  - rewrite f_lt_key, Hm1, (existsb_key samples Hnum _ (λ s, key_lt (f_key (sm_Num s)) (f_key limit))) by
      (done || (intros; by apply f_lt_key)). rewrite Exists_exists. naive_solver.
Qed.

(** ** Validated rules never panic *)

Lemma validate_condition r :
  validate r = None →
  (0 < c_Transitions (r_Condition r))%Z ∨
  ((0 ≤ c_MinSamples (r_Condition r))%Z ∧ is_Some (limit_of (r_Condition r))).
Proof.
  unfold validate. intros Hv. assert (rule_problems r = []) as Hp by (by destruct (rule_problems r)). clear Hv.
  unfold rule_problems in Hp.
  apply app_nil in Hp as [_ Hp]. apply app_nil in Hp as [_ Hp]. apply app_nil in Hp as [Ht Hp].
  apply app_nil in Hp as [_ Hp]. apply problems_of_nil in Ht, Hp.
  repeat setoid_rewrite Forall_cons in Ht. repeat setoid_rewrite Forall_cons in Hp. simpl in Ht, Hp.
  destruct Ht as (_ & Ht & _), Hp as (_ & Hagg & _ & Hk & Hm & _).
  set (c := r_Condition r) in *.
  destruct (Z.ltb_spec 0 (c_Transitions c)) as [|Hle]; [by left|right].
  split; [bool_to_prop; lia|].
  unfold kinds, wants_transitions in Hk, Ht. rewrite (proj2 (Z.ltb_ge _ _) Hle) in Hk, Ht. simpl in Hk, Ht.
  rewrite (proj2 (Z.ltb_lt (c_Transitions c) 1)) in Ht by lia. simpl in Ht. rewrite andb_true_r in Ht. rewrite Ht in Hk.
  destruct (decide (length (set_windows c) = 1)) as [Hone|]; [|done].
  rewrite bool_decide_eq_true_2 in Hagg by done. simpl in Hagg.
  unfold limit_of. destruct (c_GreaterThan c), (c_LessThan c); simpl in *; eauto; done.
Qed.

Lemma condition_total r samples : validate r = None → ∃ hm, condition (r_Condition r) samples = Ok hm.
Proof.
  intros Hv. unfold condition. destruct (validate_condition r Hv) as [Ht|[Hmin [limit Hl]]].
  - rewrite (proj2 (Z.ltb_lt _ _) Ht). eauto.
  - destruct (0 <? _)%Z; [eauto|].
    destruct (Z.ltb_spec (Z.of_nat (length samples)) (if (c_MinSamples (r_Condition r) =? 0)%Z then 3 else c_MinSamples (r_Condition r))) as [|Hlen]; [eauto|].
    assert (∃ m, aggregate (r_Condition r) samples = Ok m) as [m ->].
    { unfold aggregate. destruct samples as [|s ss]; simpl in *; [|repeat case_match; eauto].
      destruct (Z.eqb_spec (c_MinSamples (r_Condition r)) 0); lia. }
    unfold limit_of in Hl. simpl. destruct (c_GreaterThan _); [eauto|]. rewrite Hl. simpl. eauto.
Qed.

Lemma rule_Evaluate_total `{Sha256} r prev samples o : validate r = None → ∃ up, Evaluate r prev samples o = Ok up.
Proof.
  intros Hv. unfold Evaluate. destruct (KeyFor _ _ _). destruct (already_applied _ _); [eauto|].
  destruct (condition_total r samples Hv) as [[holds m] ->]. simpl. repeat case_match; eauto.
Qed.

(** ** Lifecycle of a rule's activation *)

Definition rule_active (prev : option StateRecord) : bool :=
  match prev with Some p => bool_decide (sr_State p = StateDown) | None => false end.

(** The two outcomes of [Evaluate]. *)
Inductive rule_evaluated `{Sha256} (r : Rule) (prev : option StateRecord) (samples : list Sample) (o : Observation) : Update → Prop :=
| rule_ignored p reason :
    prev = Some p → reason ≠ NotIgnored → rule_evaluated r prev samples o (MkUpdate p [] [] reason)
| rule_quiet rec holds m :
    already_applied prev o = None → condition (r_Condition r) samples = Ok (holds, m) → holds = rule_active prev →
    sr_State rec = prevState prev → rule_evaluated r prev samples o (MkUpdate rec [] [] NotIgnored)
| rule_fired rec tr ev holds m :
    already_applied prev o = None → condition (r_Condition r) samples = Ok (holds, m) → holds = negb (rule_active prev) →
    sr_State rec = (if holds then StateDown else StateUp) → ev_Resolves ev = negb holds →
    ev_AlertKey ev = (KeyFor r (o_DeviceID o) (o_Labels o)).1 → tr_From tr = prevState prev → tr_To tr = sr_State rec →
    rule_evaluated r prev samples o (MkUpdate rec [tr] [ev] NotIgnored).

Lemma rule_Evaluate_evaluated `{Sha256} r prev samples o up :
  Evaluate r prev samples o = Ok up → rule_evaluated r prev samples o up.
Proof.
  unfold Evaluate. destruct (KeyFor r (o_DeviceID o) (o_Labels o)) as [key kl] eqn:Hkey.
  destruct (already_applied prev o) as [up'|] eqn:Happ.
  - intros ?; simplify_eq. unfold already_applied in Happ. destruct prev as [p|]; [|done].
    repeat case_match; simplify_eq; by eapply (rule_ignored r (Some p)).
  - unfold mbind, result_bind. destruct (condition _ _) as [[holds m]|] eqn:Hc; [|done].
    fold (rule_active prev).
    destruct (rule_active prev) eqn:Ha, holds; intros ?; simplify_eq.
    + apply (rule_quiet _ _ _ _ _ true m); auto. by destruct prev.
    + apply (rule_fired _ _ _ _ _ _ _ false m); rewrite ?Hkey, ?Ha; done.
    + apply (rule_fired _ _ _ _ _ _ _ true m); rewrite ?Hkey, ?Ha; done.
    + apply (rule_quiet _ _ _ _ _ false m); auto. by destruct prev.
Qed.

(** ** Theorems *)

Definition ex_flap_rule : Rule :=
  MkRule "flapping" "" (MkMatch [] "network.interface.operational" "" [])
    (MkCondition 2 (10 * Minute) 0 0 0 None None 0) "warning" "interface.flapping" "" "".
Definition ex_max_rule : Rule :=
  MkRule "hot" "" (MkMatch [] "environment.temperature.celsius" "" [])
    (MkCondition 0 0 0 (5 * Minute) 0 (Some (f_of_int 70)) None 0) "critical" "" "" "".
Definition ex_sample (n : Z) (temp : Z) : Sample := MkSample (n * Second) (f_of_int temp) None.
Definition ex_flap_sample (n : Z) (up : bool) : Sample :=
  MkSample (n * Second) (if up then f_one else f_zero) (Some up).

(** A rule that passed [validate] never makes [Evaluate] panic, whatever samples the window
    query returns (an empty window included). *)
Theorem validated_rule_never_panics `{Sha256} r prev samples o :
  validate r = None → ∃ up, Evaluate r prev samples o = Ok up.
Proof. apply rule_Evaluate_total. Qed.

Lemma validated_rule_never_panics_witness : ∃ up, Evaluate (H:=sha_id) ex_max_rule None [] (ex_obs 1 true) = Ok up.
Proof. apply (validated_rule_never_panics (H:=sha_id) ex_max_rule None [] (ex_obs 1 true)). reflexivity. Defined.

(** An activation opens and clears exactly with its condition: an accepted observation emits
    one opening event when the condition starts to hold, one resolving event when it stops, and
    nothing while it stays as it was; afterwards the record is DOWN exactly when the condition
    holds, provided it was UP or DOWN before. *)
Theorem rule_follows_condition `{Sha256} r prev samples o up holds m :
  Evaluate r prev samples o = Ok up → up_Ignored up = NotIgnored →
  condition (r_Condition r) samples = Ok (holds, m) →
  prevState prev = StateUp ∨ prevState prev = StateDown →
  sr_State (up_Record up) = (if holds then StateDown else StateUp) ∧
  (if Bool.eqb holds (rule_active prev) then up_Events up = []
   else ∃ ev, up_Events up = [ev] ∧ ev_Resolves ev = negb holds ∧
              ev_AlertKey ev = (KeyFor r (o_DeviceID o) (o_Labels o)).1).
Proof.
  intros Hev%rule_Evaluate_evaluated Hi Hc Hprev.
  destruct Hev as [p reason _ Hr|rec h' m' _ Hc' Ha Hs|rec tr ev h' m' _ Hc' Ha Hs He Hk _ _]; [done|..]; simpl in *; simplify_eq.
  - rewrite Hc in Hc'. injection Hc' as -> _. rewrite eqb_reflx, Hs. split; [|done]. unfold rule_active. destruct prev as [p|]; simpl in *; [|done].
    destruct Hprev as [-> | ->]; done.
  - rewrite Hc in Hc'. injection Hc' as -> _. split; [done|]. destruct (rule_active prev); simpl in *; eauto.
Qed.

Lemma rule_follows_condition_witness :
  ∃ up, Evaluate (H:=sha_id) ex_flap_rule None [ex_flap_sample 1 true; ex_flap_sample 2 false; ex_flap_sample 3 true] (ex_obs 3 true) = Ok up
        ∧ sr_State (up_Record up) = StateDown.
Proof.
  destruct (Evaluate (H:=sha_id) ex_flap_rule None [ex_flap_sample 1 true; ex_flap_sample 2 false; ex_flap_sample 3 true] (ex_obs 3 true))
    as [up|] eqn:Hev; [|by vm_compute in Hev].
  exists up. split; [done|].
  destruct (rule_follows_condition (H:=sha_id) ex_flap_rule None _ (ex_obs 3 true) up true (f_of_int 2) Hev) as [Hs _];
    [vm_compute in Hev; by simplify_eq|reflexivity|by left|exact Hs].
Defined.

(** [max_over] and [min_over] conditions mean what they say about the individual samples:
    with enough samples, none of them NaN, "maximum greater than" holds exactly when some sample
    is above the limit, "maximum less than" when all are below, and dually for the minimum. *)
Theorem extremes_decide_samplewise c samples limit :
  (c_Transitions c ≤ 0)%Z → (c_AverageOver c ≤ 0)%Z → limit_of c = Some limit → IsNaN limit = false →
  Forall (λ s, IsNaN (sm_Num s) = false) samples → samples ≠ [] →
  (match c_MinSamples c with 0 => 3 | n => n end ≤ Z.of_nat (length samples))%Z →
  ∃ m, condition c samples = Ok (extreme_expected c samples, m).
Proof. apply extreme_condition. Qed.

Lemma extremes_decide_samplewise_witness :
  ∃ m, condition (r_Condition ex_max_rule) [ex_sample 1 60; ex_sample 2 75; ex_sample 3 61] = Ok (true, m).
Proof.
  refine (extremes_decide_samplewise (r_Condition ex_max_rule)
    [ex_sample 1 60; ex_sample 2 75; ex_sample 3 61] (f_of_int 70) _ _ _ _ _ _ _); simpl; try done; try lia.
  by repeat constructor.
Defined.

(** A transition condition counts status changes: it holds exactly when at least the
    configured number of adjacent sample pairs in the window differ in truth value. *)
Theorem transitions_count_changes c samples :
  (0 < c_Transitions c)%Z →
  condition c samples = Ok ((c_Transitions c <=? flips_loop samples)%Z, f_of_int (flips_loop samples)).
Proof. intros Ht. unfold condition. by rewrite (proj2 (Z.ltb_lt _ _) Ht), flips_loop_eq. Qed.

Lemma transitions_count_changes_witness :
  condition (r_Condition ex_flap_rule) [ex_flap_sample 1 true; ex_flap_sample 2 false; ex_flap_sample 3 true] = Ok (true, f_of_int 2).
Proof.
  exact (transitions_count_changes (r_Condition ex_flap_rule)
    [ex_flap_sample 1 true; ex_flap_sample 2 false; ex_flap_sample 3 true] (eq_refl : (0 < 2)%Z)).
Defined.
