(* ===== verification/Regexp.v ===== *)
(** * The regular expressions the platform's patterns use

    Every pattern of the sources modelled here is anchored at both ends ([^...$]), so matching
    it is membership of the whole text in a regular language. [matches] is that language,
    [MatchString] decides it with Brzozowski derivatives. *)

From S2P Require Import Prelude GoLib.

Inductive regex :=
| RNone                          (* matches nothing *)
| REps                           (* the empty text *)
| RClass (p : ascii → bool)      (* one character of a class *)
| RSeq (r s : regex)
| RAlt (r s : regex)
| RStar (r : regex).

(** The language of an expression. *)
Inductive matches : regex → string → Prop :=
| matches_eps : matches REps ""
| matches_class p c : p c = true → matches (RClass p) (str1 c)
| matches_seq r s x y : matches r x → matches s y → matches (RSeq r s) (x +:+ y)
| matches_alt_l r s x : matches r x → matches (RAlt r s) x
| matches_alt_r r s x : matches s x → matches (RAlt r s) x
| matches_star_nil r : matches (RStar r) ""
| matches_star_cons r x y : matches r x → matches (RStar r) y → matches (RStar r) (x +:+ y).
#[export] Hint Constructors matches : infra.

Fixpoint nullable (r : regex) : bool :=
  match r with
  | RNone | RClass _ => false
  | REps | RStar _ => true
  | RSeq r s => nullable r && nullable s
  | RAlt r s => nullable r || nullable s
  end.

Fixpoint deriv (c : ascii) (r : regex) : regex :=
  match r with
  | RNone | REps => RNone
  | RClass p => if p c then REps else RNone
  | RSeq r s => if nullable r then RAlt (RSeq (deriv c r) s) (deriv c s) else RSeq (deriv c r) s
  | RAlt r s => RAlt (deriv c r) (deriv c s)
  | RStar r => RSeq (deriv c r) (RStar r)
  end.

Fixpoint MatchString (r : regex) (s : string) : bool :=
  match s with
  | "" => nullable r
  | String c s' => MatchString (deriv c r) s'
  end.

(** [r+], [r?] and [r{0,n}]. *)
Definition RPlus (r : regex) : regex := RSeq r (RStar r).
Definition ROpt (r : regex) : regex := RAlt REps r.
Fixpoint RUpTo (n : nat) (r : regex) : regex :=
  match n with O => REps | S n => ROpt (RSeq r (RUpTo n r)) end.
Definition RLit (c : ascii) : regex := RClass (λ d, bool_decide (d = c)).
Fixpoint RText (s : string) : regex :=
  match s with "" => REps | String c s' => RSeq (RLit c) (RText s') end.

(** Character classes. *)
Definition in_range (lo hi c : ascii) : bool := ((byte_of lo <=? byte_of c) && (byte_of c <=? byte_of hi))%N.
Definition cls_upper (c : ascii) : bool := in_range "A" "Z" c.
Definition cls_lower (c : ascii) : bool := in_range "a" "z" c.
Definition cls_digit (c : ascii) : bool := in_range "0" "9" c.
Definition cls_alpha (c : ascii) : bool := cls_upper c || cls_lower c.
Definition cls_alnum (c : ascii) : bool := cls_alpha c || cls_digit c.
(** The listed characters. *)
Definition cls_any (s : string) (c : ascii) : bool := mem_char c s.

(** ** The matcher decides the language *)

Lemma nullable_matches r : nullable r = true ↔ matches r "".
Proof.
  split.
  - induction r; simpl; intros Hn; try done; bool_to_prop; auto with infra.
    + apply (matches_seq _ _ "" ""); auto.
    + apply orb_true_iff in Hn as []; auto with infra.
  - remember "" as x eqn:Hx. induction 1 as [| | r s x y _ IH1 _ IH2 | r s x _ IH | r s x _ IH | |]; simpl; try done.
    + destruct x; [|done]. by rewrite IH1, IH2.
    + by rewrite IH.
    + by rewrite IH, orb_true_r.
Qed.

(** A non-empty text of a starred expression begins with a non-empty text of the body. *)
Lemma matches_star_inv r c x :
  matches (RStar r) (String c x) → ∃ y z, x = y +:+ z ∧ matches r (String c y) ∧ matches (RStar r) z.
Proof.
  remember (RStar r) as e eqn:He. remember (String c x) as t eqn:Ht. intros Hm.
  induction Hm as [| | | | | |r' [|d y] z Hy _ Hz IH]; simplify_eq; auto.
  rewrite append_cons in Ht. simplify_eq. eauto.
Qed.

Lemma deriv_matches c r x : matches (deriv c r) x ↔ matches r (String c x).
Proof.
  revert x. induction r as [| |p|r IHr s IHs|r IHr s IHs|r IHr]; intros x; simpl.
  - split; inversion 1.
  - split; inversion 1.
  - destruct (p c) eqn:Hp; split; inversion 1; simplify_eq; auto with infra; try congruence; by apply (matches_class p c).
  - assert (matches (RSeq (deriv c r) s) x → matches (RSeq r s) (String c x)) as Hseq.
    { inversion 1 as [| |? ? y z Hy Hz| | | |]; simplify_eq. rewrite <-append_cons. constructor; [by apply IHr|done]. }
    assert (matches (RSeq r s) (String c x) →
            matches (RSeq (deriv c r) s) x ∨ (matches r "" ∧ matches s (String c x))) as Hinv.
    { intros Hm. inversion Hm as [| |? ? y z Hy Hz Hr Ht| | | |]; subst. destruct y as [|d y].
      - right. by rewrite append_nil_l in Ht; subst.
      - left. rewrite append_cons in Ht. simplify_eq. constructor; [by apply IHr|done]. }
    destruct (nullable r) eqn:Hn.
    + apply nullable_matches in Hn. split.
      * inversion 1; simplify_eq; [by apply Hseq|]. apply (matches_seq _ _ ""); [done|by apply IHs].
      * intros [|[_ ?]]%Hinv; [by apply matches_alt_l|by apply matches_alt_r, IHs].
    + split; [done|]. intros [|[He _]]%Hinv; [done|]. apply nullable_matches in He. congruence.
  - split; inversion 1; simplify_eq; (by apply matches_alt_l, IHr) || (by apply matches_alt_r, IHs).
  - split.
    + inversion 1; simplify_eq. rewrite <-append_cons. constructor; [by apply IHr|done].
    + intros (y & z & -> & Hy & Hz)%matches_star_inv. constructor; [by apply IHr|done].
Qed.

(** [MatchString] answers whether the text is in the language. *)
Lemma MatchString_matches r s : MatchString r s = true ↔ matches r s.
Proof.
  revert r. induction s as [|c s IH]; intros r; simpl; [apply nullable_matches|].
  by rewrite IH, deriv_matches.
Qed.

(** ** Which characters a pattern admits *)

(** Every character of a matching text satisfies [P], if every class of the pattern does. *)
Fixpoint within (P : ascii → Prop) (r : regex) : Prop :=
  match r with
  | RNone | REps => True
  | RClass p => ∀ c, p c = true → P c
  | RSeq r s | RAlt r s => within P r ∧ within P s
  | RStar r => within P r
  end.

Fixpoint all_chars (P : ascii → Prop) (s : string) : Prop :=
  match s with "" => True | String c s' => P c ∧ all_chars P s' end.

Lemma all_chars_append P s t : all_chars P (s +:+ t) ↔ all_chars P s ∧ all_chars P t.
Proof. induction s as [|c s IH]; [simpl; tauto|]. rewrite append_cons. simpl. rewrite IH. tauto. Qed.

Lemma matches_within P r s : within P r → matches r s → all_chars P s.
Proof.
  intros Hw Hm. revert Hw. induction Hm; simpl in *; try rewrite all_chars_append; try tauto.
  intros Hp. split; [by apply Hp|done].
Qed.

Lemma all_chars_mem c s : all_chars (λ d, c ≠ d) s → mem_char c s = false.
Proof.
  induction s as [|d s IH]; [done|]. intros [Hne ?]. simpl. rewrite bool_decide_eq_false_2 by done. by apply IH.
Qed.

(** A pattern none of whose classes contains [c] matches no text that contains it. *)
Lemma MatchString_excludes c r s :
  within (λ d, c ≠ d) r → MatchString r s = true → mem_char c s = false.
Proof. intros Hw Hm%MatchString_matches. by eapply all_chars_mem, matches_within. Qed.
