(* ===== verification/Schema.v ===== *)
(** * Package [schema]: the wire format and its validation (src/internal/schema/schema.go) *)

From S2P Require Import Prelude GoLib GoFloat Domain Regexp.

(** ** Schema identifiers and limits *)

Definition ObservationV1 : string := "observation.v1".
Definition InventoryV1 : string := "inventory.v1".
Definition EventV1 : string := "event.v1".
Definition AutomationRequestV1 : string := "automation.request.v1".
Definition AutomationResultV1 : string := "automation.result.v1".
Definition DeadLetterV1 : string := "deadletter.v1".

Record Limits := MkLimits {
  l_MaxMessageBytes : Z;
  l_MaxLabels : Z;
  l_MaxMetadata : Z;
  l_MaxKeyLen : Z;
  l_MaxValueLen : Z;
  l_MaxMetricLen : Z;
  l_MaxFutureSkew : Duration;
}.

Definition DefaultLimits : Limits := MkLimits (Z.shiftl 64 10) 16 32 64 1024 128 (5 * Minute).

(** [^[A-Za-z][A-Za-z0-9_]*(\.[A-Za-z0-9_]+)*$] and [^[A-Za-z_][A-Za-z0-9_.-]*$]. *)
Definition cls_word (c : ascii) : bool := cls_alnum c || cls_any "_" c.
Definition metricPattern : regex :=
  RSeq (RClass cls_alpha) (RSeq (RStar (RClass cls_word)) (RStar (RSeq (RLit ".") (RPlus (RClass cls_word))))).
Definition keyPattern : regex :=
  RSeq (RClass (λ c, cls_alpha c || cls_any "_" c)) (RStar (RClass (λ c, cls_alnum c || cls_any "_.-" c))).

(** A validator is its limits and its clock's reading. *)
Record Validator := MkValidator {
  v_Limits : Limits;
  v_now : Time;
}.

Definition NewValidator (now : Time) : Validator := MkValidator DefaultLimits now.

(** ** Validation *)

(** The [%T] verb. *)
Definition type_name (v : value) : string :=
  match v with
  | VNil => "<nil>" | VFloat64 _ => "float64" | VFloat32 _ => "float32" | VInt _ => "int" | VInt32 _ => "int32"
  | VInt64 _ => "int64" | VUint32 _ => "uint32" | VUint64 _ => "uint64" | VBool _ => "bool" | VString _ => "string"
  | VOther t => t
  end.

(** The type switch over the value. *)
Definition value_problems (l : Limits) (v : value) : list string :=
  match v with
  | VNil => ["value is required"]
  | VBool _ => []
  | VString s => if (l_MaxValueLen l <? slen s)%Z then ["string value exceeds " +:+ FormatInt (l_MaxValueLen l) +:+ " bytes"] else []
  | VFloat64 f => if IsNaN f || IsInf f then ["numeric value must be finite"] else []
  | VInt _ | VInt32 _ | VInt64 _ | VUint32 _ | VUint64 _ | VFloat32 _ => []
  | VOther t => ["value has unsupported type " +:+ t +:+ " (want number, boolean or string)"]
  end.

(** The entries are visited in no particular order, which shows only in the error text. *)
Definition checkMap (name : string) (m : smap) (maxN : Z) (l : Limits) : list string :=
  problems_of [((maxN <? mlen m)%Z, name +:+ " has " +:+ FormatInt (mlen m) +:+ " entries, max " +:+ FormatInt maxN)]
  ++ (mlist m ≫= λ kv,
        problems_of
          [((l_MaxKeyLen l <? slen kv.1)%Z || negb (MatchString keyPattern kv.1), name +:+ " key " +:+ Quote kv.1 +:+ " is invalid");
           ((l_MaxValueLen l <? slen kv.2)%Z,
            name +:+ " value for " +:+ Quote kv.1 +:+ " exceeds " +:+ FormatInt (l_MaxValueLen l) +:+ " bytes")]).

Definition Validate_problems (v : Validator) (o : Observation) : list string :=
  let l := v_Limits v in
  problems_of
    [(bool_decide (o_ObservationID o = ""), "observation_id is required");
     (bool_decide (o_CorrelationID o = ""), "correlation_id is required");
     (bool_decide (o_DeviceID o = ""), "device_id is required");
     (bool_decide (o_Source o = ""), "source is required");
     (bool_decide (o_Metric o = "") || (l_MaxMetricLen l <? slen (o_Metric o))%Z || negb (MatchString metricPattern (o_Metric o)),
      "metric " +:+ Quote (o_Metric o) +:+ " is not a valid metric name")]
  ++ value_problems l (o_Value o)
  ++ (if IsZero (o_ObservedAt o) then ["observed_at is required"]
      else if After (o_ObservedAt o) (time_Add (v_now v) (l_MaxFutureSkew l))
      then ["observed_at " +:+ FormatRFC3339 (o_ObservedAt o) +:+ " is more than " +:+ DurationString (l_MaxFutureSkew l) +:+ " in the future"]
      else [])
  ++ checkMap "labels" (o_Labels o) (l_MaxLabels l) l
  ++ checkMap "metadata" (o_Metadata o) (l_MaxMetadata l) l.

Definition Validate (v : Validator) (o : Observation) : option error :=
  match Validate_problems v o with
  | [] => None
  | p => Some (Errorf CategoryValidation ("invalid observation " +:+ Quote (o_ObservationID o) +:+ ": " +:+ Join p "; "))
  end.

(** ** Encoding and decoding *)

(** The JSON library, for messages of type [T]: marshalling, the strict decoder (unknown fields
    are errors) and whether anything but white space follows the decoded value. An error is
    its text. *)
Class Json (T : Type) := {
  json_Marshal : T → result string string;
  json_Decode : string → result string T;
  json_trailing : string → bool;
}.

Definition Encode {T} `{Json T} (v : T) : res string :=
  match json_Marshal v with
  | Ok b => Ok b
  | Err e => Err (EDomain CategoryValidation "encode" (EText e))
  end.

Definition Decode {T} `{Json T} (data : string) (maxBytes : Z) : res T :=
  if (0 <? maxBytes)%Z && (maxBytes <? slen data)%Z
  then Err (Errorf CategoryValidation ("message is " +:+ FormatInt (slen data) +:+ " bytes, limit " +:+ FormatInt maxBytes))
  else
    match json_Decode data with
    | Err e => Err (Errorf CategoryValidation ("malformed message: " +:+ e))
    | Ok out =>
        if json_trailing data then Err (Errorf CategoryValidation "malformed message: trailing data") else Ok out
    end.

Definition DecodeObservation `{Json Observation} (v : Validator) (data : string) : res Observation :=
  o ← Decode data (l_MaxMessageBytes (v_Limits v));
  match Validate v o with None => Ok o | Some err => Err err end.

(** ** What an accepted observation satisfies *)

(** Entries of a label or metadata map within the limits. *)
Definition good_entry (l : Limits) (k v : string) : Prop :=
  (slen k ≤ l_MaxKeyLen l)%Z ∧ matches keyPattern k ∧ (slen v ≤ l_MaxValueLen l)%Z.

Definition good_value (l : Limits) (v : value) : Prop :=
  match v with
  | VNil | VOther _ => False
  | VString s => (slen s ≤ l_MaxValueLen l)%Z
  | VFloat64 f => IsNaN f = false ∧ IsInf f = false
  | _ => True
  end.

Record well_formed (v : Validator) (o : Observation) : Prop := {
  wf_id : o_ObservationID o ≠ "";
  wf_correlation : o_CorrelationID o ≠ "";
  wf_device : o_DeviceID o ≠ "";
  wf_source : o_Source o ≠ "";
  wf_metric : matches metricPattern (o_Metric o) ∧ (slen (o_Metric o) ≤ l_MaxMetricLen (v_Limits v))%Z;
  wf_value : good_value (v_Limits v) (o_Value o);
  wf_time : o_ObservedAt o ≠ time_zero ∧ (o_ObservedAt o ≤ v_now v + l_MaxFutureSkew (v_Limits v))%Z;
  wf_labels : (mlen (o_Labels o) ≤ l_MaxLabels (v_Limits v))%Z ∧ map_Forall (good_entry (v_Limits v)) (entries (o_Labels o));
  wf_metadata : (mlen (o_Metadata o) ≤ l_MaxMetadata (v_Limits v))%Z ∧ map_Forall (good_entry (v_Limits v)) (entries (o_Metadata o));
}.

Lemma value_problems_nil l v : value_problems l v = [] ↔ good_value l v.
Proof.
  destruct v; simpl; try done.
  - destruct (IsNaN f), (IsInf f); simpl; naive_solver.
  - destruct (Z.ltb_spec (l_MaxValueLen l) (slen s)); split; (done || lia).
Qed.

Lemma bind_nil {A B} (f : A → list B) l : l ≫= f = [] ↔ ∀ x, x ∈ l → f x = [].
Proof.
  induction l as [|y l IH]; [set_solver|]. change ((y :: l) ≫= f) with (f y ++ (l ≫= f)).
  rewrite app_nil, IH. set_solver.
Qed.

Lemma problems2_nil a b x y : problems_of [(a, x); (b, y)] = [] ↔ a = false ∧ b = false.
Proof. destruct a, b; simpl; naive_solver. Qed.

Lemma checkMap_nil name m maxN l :
  checkMap name m maxN l = [] ↔ (mlen m ≤ maxN)%Z ∧ map_Forall (good_entry l) (entries m).
Proof.
  unfold checkMap. rewrite app_nil, bind_nil, problems_of_nil, Forall_singleton. cbn [fst].
  rewrite Z.ltb_ge. unfold map_Forall, good_entry, mlist.
  setoid_rewrite problems2_nil. setoid_rewrite orb_false_iff. setoid_rewrite negb_false_iff.
  setoid_rewrite MatchString_matches. setoid_rewrite Z.ltb_ge. split; intros [Hn Hall]; (split; [done|]).
  - intros k v Hkv. destruct (Hall (k, v)) as [[??]?]; [by apply elem_of_map_to_list|]. done.
  - intros [k v] Hkv%elem_of_map_to_list. destruct (Hall k v Hkv) as (?&?&?). done.
Qed.

(** [Validate] accepts exactly the well-formed observations. *)
Lemma Validate_well_formed v o : Validate v o = None ↔ well_formed v o.
Proof.
  assert (Validate v o = None ↔ Validate_problems v o = []) as ->.
  { unfold Validate. by destruct (Validate_problems v o). }
  unfold Validate_problems.
  rewrite !app_nil, value_problems_nil, !checkMap_nil, problems_of_nil, !Forall_cons, Forall_nil. cbn [fst].
  rewrite !bool_decide_eq_false, !orb_false_iff, negb_false_iff, Z.ltb_ge, bool_decide_eq_false, MatchString_matches.
  unfold IsZero, After, time_Add.
  assert ((if (o_ObservedAt o =? 0)%Z then ["observed_at is required"]
     else if (v_now v + l_MaxFutureSkew (v_Limits v) <? o_ObservedAt o)%Z
     then ["observed_at " +:+ FormatRFC3339 (o_ObservedAt o) +:+ " is more than " +:+
           DurationString (l_MaxFutureSkew (v_Limits v)) +:+ " in the future"] else []) = []
    ↔ o_ObservedAt o ≠ time_zero ∧ (o_ObservedAt o ≤ v_now v + l_MaxFutureSkew (v_Limits v))%Z) as ->.
  { unfold time_zero. destruct (Z.eqb_spec (o_ObservedAt o) 0), (Z.ltb_spec (v_now v + l_MaxFutureSkew (v_Limits v)) (o_ObservedAt o));
      split; try done; lia. }
  split.
  - intros ((?&?&?&?&((?&?)&?)&_) & ? & ? & ? & ?). by constructor.
  - intros [? ? ? ? [Hm ?] ? [??] [??] [??]].
    assert (o_Metric o ≠ "") by (intros Heq; rewrite Heq in Hm; by apply MatchString_matches in Hm). tauto.
Qed.

(** A valid key contains neither of the characters [LabelsKey] separates with. *)
Lemma keyPattern_plain k : matches keyPattern k → mem_char "," k = false ∧ mem_char "=" k = false.
Proof.
  intros Hk%MatchString_matches.
  split; (eapply MatchString_excludes; [|exact Hk]); simpl; split_and!; intros c Hc <-; by vm_compute in Hc.
Qed.
