(* ===== verification/Normalize.v ===== *)
(** * Package [normalize]: from source-specific to canonical observations
    (src/internal/normalize/normalize.go) *)

From S2P Require Import Prelude GoLib GoFloat Domain Regexp Schema.

(** Ranging over a Go map visits every entry once, in an order the language leaves open. *)
Class MapOrder := {
  map_order : gmap string string → list (string * string);
  map_order_perm m : map_order m ≡ₚ map_to_list m;
}.

(** ** Mappings *)

Definition KindIdentity : string := "identity".
Definition KindScale : string := "scale".
Definition KindBool : string := "bool".
Definition KindEnum : string := "enum".

Record Convert := MkConvert {
  cv_Kind : string;
  cv_Factor : float64;
  cv_TrueValues : list float64;
  cv_Map : smap;
}.
#[export] Instance eta_Convert : Eta Convert := λ c, MkConvert (cv_Kind c) (cv_Factor c) (cv_TrueValues c) (cv_Map c).

Record Mapping := MkMapping {
  mp_Raw : string;
  mp_Metric : string;
  mp_Unit : string;
  mp_Convert : Convert;
  mp_Labels : smap;
}.
#[export] Instance eta_Mapping : Eta Mapping := λ m,
  MkMapping (mp_Raw m) (mp_Metric m) (mp_Unit m) (mp_Convert m) (mp_Labels m).

Record Normalizer := MkNormalizer { nz_byRaw : gmap string Mapping }.

(** [^[a-z][a-z0-9_]*(\.[a-z0-9_]+)*$] *)
Definition cls_lword (c : ascii) : bool := cls_lower c || cls_digit c || cls_any "_" c.
Definition metricRe : regex :=
  RSeq (RClass cls_lower) (RSeq (RStar (RClass cls_lword)) (RStar (RSeq (RLit ".") (RPlus (RClass cls_lword))))).

(** The problems of the mapping at index [i], given the mappings stored before it. *)
Definition mapping_problems (byRaw : gmap string Mapping) (i : nat) (m : Mapping) : list string :=
  let at_ := "mappings[" +:+ FormatInt (Z.of_nat i) +:+ "]" in
  let where_ := at_ +:+ " (" +:+ mp_Raw m +:+ ")" in
  let kind := cv_Kind (mp_Convert m) in
  (if bool_decide (mp_Raw m = "") then [at_ +:+ ": raw is required"]
   else if negb (MatchString metricRe (mp_Metric m))
   then [where_ +:+ ": canonical metric must be lower-case dotted, e.g. system.cpu.utilization"] else [])
  ++ problems_of [(negb (bool_decide (byRaw !! mp_Raw m = None)), where_ +:+ ": duplicate mapping for raw metric")]
  ++ (if bool_decide (kind = KindIdentity) then []
      else if bool_decide (kind = KindScale)
      then problems_of [(f_eq (cv_Factor (mp_Convert m)) f_zero, where_ +:+ ": scale needs a non-zero factor")]
      else if bool_decide (kind = KindBool)
      then problems_of [(bool_decide (cv_TrueValues (mp_Convert m) = []), where_ +:+ ": bool needs true_values")]
      else if bool_decide (kind = KindEnum)
      then problems_of [((mlen (cv_Map (mp_Convert m)) =? 0)%Z, where_ +:+ ": enum needs a map")]
      else [where_ +:+ ": unknown convert kind " +:+ Quote kind]).
#[export] Instance Mapping_opt_dec (o : option Mapping) : Decision (o = None).
Proof. destruct o; [right|left]; done. Defined.

(** An empty kind means identity. *)
Definition with_kind (m : Mapping) : Mapping :=
  if bool_decide (cv_Kind (mp_Convert m) = "") then m <| mp_Convert := (mp_Convert m) <| cv_Kind := KindIdentity |> |> else m.

Fixpoint Parse_loop (byRaw : gmap string Mapping) (problems : list string) (i : nat) (l : list Mapping) : gmap string Mapping * list string :=
  match l with
  | [] => (byRaw, problems)
  | m :: l =>
      let m := with_kind m in
      Parse_loop (<[mp_Raw m := m]> byRaw) (problems ++ mapping_problems byRaw i m) (S i) l
  end.

(** [Parse]; the strict YAML decoder is a parameter. *)
Definition Parse (yaml : string → res (list Mapping)) (raw : string) : res Normalizer :=
  doc ← yaml raw;
  match Parse_loop ∅ [] 0 doc with
  | (byRaw, []) => Ok (MkNormalizer byRaw)
  | (_, problems) => Err (Errorf CategoryValidation (Join problems "; "))
  end.

Definition RawMetrics (n : Normalizer) : list string := sort_strings (map_to_list (nz_byRaw n)).*1.

(** ** Conversion *)

Definition number (v : value) : option float64 :=
  match v with
  | VFloat64 x | VFloat32 x => Some x
  | VInt n | VInt32 n | VInt64 n | VUint32 n | VUint64 n => Some (f_of_int n)
  | _ => None
  end.

Definition convert (c : Convert) (v : value) : result string value :=
  let kind := cv_Kind c in
  if bool_decide (kind = KindIdentity) then Ok v
  else if bool_decide (kind = KindScale) then
    match number v with
    | None => Err ("scale needs a numeric value, got " +:+ type_name v)
    | Some f => Ok (VFloat64 (f_mul f (cv_Factor c)))
    end
  else if bool_decide (kind = KindBool) then
    match v with
    | VBool b => Ok (VBool b)
    | _ =>
        match number v with
        | None => Err ("bool conversion needs a numeric value, got " +:+ type_name v)
        | Some f => Ok (VBool (existsb (f_eq f) (cv_TrueValues c)))
        end
    end
  else if bool_decide (kind = KindEnum) then
    match number v with
    | None => Err ("enum needs a numeric value, got " +:+ type_name v)
    | Some f =>
        match mget (cv_Map c) (FormatFloat_f f) with
        | None => Err ("enum has no entry for " +:+ FormatFloat_g None f)
        | Some s => Ok (VString s)
        end
    end
  else Err ("unknown convert kind " +:+ Quote kind).

Inductive NormResult := Mapped | Passthrough.
#[export] Instance NormResult_eq_dec : EqDecision NormResult.
Proof. solve_decision. Defined.

(** The renamed labels: for every listed raw label the observation carries, its value under the
    canonical name; a later entry of the range overwrites an earlier one. *)
Definition map_labels `{MapOrder} (table : gmap string string) (labels : smap) : gmap string string :=
  foldl (λ out ft, match mget labels ft.1 with Some v => <[ft.2 := v]> out | None => out end) ∅ (map_order table).

Definition Normalize `{MapOrder} (n : Normalizer) (o : Observation) : res (Observation * NormResult) :=
  match nz_byRaw n !! o_Metric o with
  | None => Ok (o, Passthrough)
  | Some m =>
      let out := Observation_Clone o in
      match convert (mp_Convert m) (o_Value o) with
      | Err e =>
          Err (Errorf CategoryValidation ("normalize " +:+ o_Metric o +:+ " (" +:+ o_ObservationID o +:+ "): " +:+ e))
      | Ok v =>
          let out := out <| o_Metric := mp_Metric m |> <| o_Value := v |> in
          let out := match mp_Labels m with
                     | Some table => out <| o_Labels := Some (map_labels table (o_Labels o)) |>
                     | None => out
                     end in
          let md := <["raw_metric" := o_Metric o]> (entries (o_Metadata out)) in
          let md := if bool_decide (mp_Unit m ≠ "") then <["unit" := mp_Unit m]> md else md in
          Ok (out <| o_Metadata := Some md |>, Mapped)
      end
  end.

(** ** Facts *)

(** No two raw labels of the table are renamed to the same label. *)
Definition injective_table (table : gmap string string) : Prop :=
  ∀ k1 k2 v, table !! k1 = Some v → table !! k2 = Some v → k1 = k2.

(** What a renamed label holds, whatever the order of the range. *)
Definition renamed (table : gmap string string) (labels : smap) (to v : string) : Prop :=
  ∃ from, table !! from = Some to ∧ mget labels from = Some v.

(** The fold over any duplicate-free list of table entries. *)
Lemma rename_fold labels (l : list (string * string)) (out : gmap string string) (to v : string) :
  NoDup l.*2 →
  foldl (λ out ft, match mget labels ft.1 with Some v => <[ft.2 := v]> out | None => out end) out l !! to = Some v ↔
  (∃ from, (from, to) ∈ l ∧ mget labels from = Some v) ∨
  (out !! to = Some v ∧ ∀ from, (from, to) ∈ l → mget labels from = None).
Proof.
  revert out. induction l as [|[f t] l IH]; intros out Hnd; simpl; [set_solver|].
  apply NoDup_cons in Hnd as [Hnin Hnd]. rewrite IH by done.
  assert (∀ g, (g, t) ∉ l) as Hfresh by (intros g Hg; apply Hnin, list_elem_of_fmap; by exists (g, t)).
  destruct (mget labels f) as [w|] eqn:Hw.
  - destruct (decide (t = to)) as [->|Hne]; [rewrite lookup_insert_eq|rewrite lookup_insert_ne by done].
    + set_solver.
    + set_solver.
  - set_solver.
Qed.

Lemma map_order_targets `{MapOrder} table : injective_table table → NoDup (map_order table).*2.
Proof.
  intros Hinj. rewrite map_order_perm. apply NoDup_fmap_2_strong; [|apply NoDup_map_to_list].
  intros [k1 v1] [k2 v2] H1%elem_of_map_to_list H2%elem_of_map_to_list Heq. simpl in Heq. subst.
  by rewrite (Hinj k1 k2 v2).
Qed.

Lemma map_labels_spec `{MapOrder} table labels to v :
  injective_table table → map_labels table labels !! to = Some v ↔ renamed table labels to v.
Proof.
  intros Hinj. unfold map_labels. rewrite rename_fold by (by apply map_order_targets).
  setoid_rewrite map_order_perm. setoid_rewrite elem_of_map_to_list. unfold renamed. rewrite lookup_empty. naive_solver.
Qed.

(** With an injective renaming table the order of the range does not show. *)
Lemma map_labels_deterministic (ord1 ord2 : MapOrder) table labels :
  injective_table table → map_labels (H:=ord1) table labels = map_labels (H:=ord2) table labels.
Proof.
  intros Hinj. apply map_eq. intros to. apply option_eq. intros v. by rewrite !map_labels_spec.
Qed.

(** The mappings of a parsed normalizer. *)
Definition good_mapping (m : Mapping) : Prop :=
  mp_Raw m ≠ "" ∧ matches metricRe (mp_Metric m) ∧
  cv_Kind (mp_Convert m) ∈ [KindIdentity; KindScale; KindBool; KindEnum].

Lemma mapping_problems_good byRaw i m : mapping_problems byRaw i m = [] → good_mapping m.
Proof.
  unfold mapping_problems, good_mapping. intros [Hm [_ Hk]%app_nil]%app_nil. split_and!.
  - intros Heq. by rewrite bool_decide_eq_true_2 in Hm.
  - clear Hk. case_bool_decide; [done|]. destruct (MatchString metricRe (mp_Metric m)) eqn:Hr; [|done].
    by apply MatchString_matches.
  - repeat case_bool_decide; set_solver.
Qed.

Lemma Parse_loop_problems l byRaw problems i : ∃ more, (Parse_loop byRaw problems i l).2 = problems ++ more.
Proof.
  revert byRaw problems i. induction l as [|m l IH]; intros byRaw problems i; simpl.
  - exists []. by rewrite app_nil_r.
  - destruct (IH (<[mp_Raw (with_kind m) := with_kind m]> byRaw)
      (problems ++ mapping_problems byRaw i (with_kind m)) (S i)) as [more ->].
    rewrite <-app_assoc. eauto.
Qed.

Lemma Parse_loop_good l byRaw problems i byRaw' :
  map_Forall (λ raw m, raw = mp_Raw m ∧ good_mapping m) byRaw →
  Parse_loop byRaw problems i l = (byRaw', []) → map_Forall (λ raw m, raw = mp_Raw m ∧ good_mapping m) byRaw'.
Proof.
  revert byRaw problems i. induction l as [|m l IH]; intros byRaw problems i Hgood Hp; cbn [Parse_loop] in Hp.
  - by injection Hp as <- _.
  - eapply IH; [|exact Hp]. apply map_Forall_insert_2; [|done]. split; [done|].
    destruct (Parse_loop_problems l (<[mp_Raw (with_kind m) := with_kind m]> byRaw)
      (problems ++ mapping_problems byRaw i (with_kind m)) (S i)) as [more Hmore].
    cbv zeta in Hp. rewrite Hp in Hmore. simpl in Hmore. symmetry in Hmore.
    apply app_nil in Hmore as [[_ Hm]%app_nil _]. by eapply mapping_problems_good.
Qed.

Lemma Parse_good yaml raw n :
  Parse yaml raw = Ok n → map_Forall (λ raw m, raw = mp_Raw m ∧ good_mapping m) (nz_byRaw n).
Proof.
  unfold Parse, mbind, result_bind. destruct (yaml raw) as [doc|]; [|done].
  destruct (Parse_loop ∅ [] 0 doc) as [byRaw [|]] eqn:Hl; [|done]. intros ?; simplify_eq. simpl.
  eapply Parse_loop_good; [|exact Hl]. apply map_Forall_empty.
Qed.
