(* ===== verification/Inventory.v ===== *)
(** * Packages [inventory] and [enrich]: registered devices and their context
    (src/internal/inventory/inventory.go, src/internal/enrich/enrich.go) *)

From S2P Require Import Prelude GoLib GoFloat Domain.

(** ** The registry *)

Record Query := MkQuery {
  q_Site : string;
  q_DeviceType : DeviceType;
  q_Tag : string;
  q_Enabled : option bool;
}.
Definition Query0 : Query := MkQuery "" "" "" None.

(** The loop of [Parse]: [flags] says which devices set [enabled] themselves; indexing past its
    end panics. *)
Fixpoint Parse_loop (flags : list (option bool)) (seen : gset string) (l : list Device) {struct l} : res (list Device) :=
  match l with
  | [] => Ok []
  | d :: l =>
      match flags with
      | [] => Err (EPanic "index out of range")
      | flag :: flags =>
          let d := match flag with None => d <| d_Enabled := true |> | Some _ => d end in
          match Device_Validate d with
          | Some err => Err err
          | None =>
              if bool_decide (d_ID d ∈ seen)
              then Err (Errorf CategoryValidation ("duplicate device id " +:+ Quote (d_ID d)))
              else out ← Parse_loop flags ({[d_ID d]} ∪ seen) l; Ok (d :: out)
          end
      end
  end.

(** [Parse]; the strict decoder of the devices and the lenient one of their [enabled] flags are
    parameters. *)
Definition Parse (yaml : string → res (list Device)) (yaml_flags : string → res (list (option bool))) (raw : string) : res (list Device) :=
  devices ← yaml raw; flags ← yaml_flags raw; Parse_loop flags ∅ devices.

Record Registry := MkRegistry { rg_devices : gmap string Device }.

Definition clone (d : Device) : Device := d <| d_Attributes := cloneMap (d_Attributes d) |>.

(** One device of a replacement keeps the last sighting of its predecessor. *)
Definition carry_last_seen (old : gmap string Device) (d : Device) : Device :=
  match old !! d_ID d with
  | Some o => if IsZero (d_LastSeen d) then d <| d_LastSeen := d_LastSeen o |> else d
  | None => d
  end.

Definition Replace (r : Registry) (devices : list Device) : Registry :=
  MkRegistry (foldl (λ next d, let d := carry_last_seen (rg_devices r) d in <[d_ID d := d]> next) ∅ devices).

Definition NewRegistry (devices : list Device) : Registry := Replace (MkRegistry ∅) devices.

Definition Get (r : Registry) (id : string) : option Device := clone <$> rg_devices r !! id.

Definition query_matches (q : Query) (d : Device) : bool :=
  negb (bool_decide (q_Site q ≠ "") && bool_decide (d_Site d ≠ q_Site q))
  && negb (bool_decide (q_DeviceType q ≠ "") && bool_decide (d_DeviceType d ≠ q_DeviceType q))
  && negb (bool_decide (q_Tag q ≠ "") && negb (HasTag d (q_Tag q)))
  && match q_Enabled q with Some b => Bool.eqb (d_Enabled d) b | None => true end.

(** String comparison as the language has it. *)
Definition str_lt (s t : string) : bool := bool_decide (String.le s t) && negb (bool_decide (s = t)).
Definition by_id (d1 d2 : Device) : bool := str_lt (d_ID d1) (d_ID d2).

Definition Lookup (r : Registry) (q : Query) : list Device :=
  sort_stable by_id (clone <$> filter (λ d, query_matches q d = true) (map_to_list (rg_devices r)).*2).

Definition List_ (r : Registry) : list Device := Lookup r Query0.

Definition Touch (r : Registry) (id : string) (at_ : Time) : Registry :=
  match rg_devices r !! id with
  | Some d => if After at_ (d_LastSeen d) then MkRegistry (<[id := d <| d_LastSeen := at_ |>]> (rg_devices r)) else r
  | None => r
  end.

(** The read-only view other components get ([inventory.Reader]), and the registry as one. *)
Record Reader := MkReader {
  rd_Get : string → option Device;
  rd_List : list Device;
  rd_Lookup : Query → list Device;
}.
Definition Registry_Reader (r : Registry) : Reader := MkReader (Get r) (List_ r) (Lookup r).

(** ** Enrichment *)

Definition set_meta (md : gmap string string) (k v : string) : gmap string string :=
  if bool_decide (v ≠ "") then <[k := v]> md else md.

Definition device_meta (dev : Device) (o : Observation) : gmap string string :=
  let md := entries (o_Metadata o) in
  let md := set_meta md "hostname" (d_Hostname dev) in
  let md := set_meta md "device_type" (d_DeviceType dev) in
  let md := set_meta md "site" (d_Site dev) in
  let md := set_meta md "vendor" (d_Vendor dev) in
  let md := set_meta md "model" (d_Model dev) in
  let md := set_meta md "tags" (Join (d_Tags dev) ",") in
  let iface := mread (o_Labels o) "interface" in
  if bool_decide (iface ≠ "")
  then set_meta md "interface_description" (mread (d_Attributes dev) ("interface." +:+ iface +:+ ".description"))
  else md.

Definition Enrich (inv : Reader) (o : Observation) : res (Observation * Device) :=
  match rd_Get inv (o_DeviceID o) with
  | None => Err (Errorf CategoryValidation
      ("observation " +:+ o_ObservationID o +:+ " references unregistered device " +:+ Quote (o_DeviceID o)))
  | Some dev =>
      if negb (d_Enabled dev) then Err EDeviceDisabled
      else Ok ((Observation_Clone o) <| o_Metadata := Some (device_meta dev o) |>, dev)
  end.

(** ** Facts *)

Lemma clone_id d : clone d = d.
Proof. destruct d. unfold clone. simpl. by rewrite cloneMap_id. Qed.

(** Every device is stored under its own id. *)
Definition keyed (r : Registry) : Prop := map_Forall (λ k d, d_ID d = k) (rg_devices r).

Lemma Replace_keyed r ds : keyed (Replace r ds).
Proof.
  unfold keyed, Replace. simpl. assert (map_Forall (λ k d, d_ID d = k) (∅ : gmap string Device)) as Hbase by apply map_Forall_empty.
  revert Hbase. generalize (∅ : gmap string Device) as next. induction ds as [|d ds IH]; intros next Hn; simpl; [done|].
  apply IH, map_Forall_insert_2; [done|exact Hn].
Qed.

Lemma Touch_keyed r id t : keyed r → keyed (Touch r id t).
Proof.
  unfold keyed, Touch. intros Hk. destruct (rg_devices r !! id) as [d|] eqn:Hd; [|done].
  case_match; [|done]. simpl. apply map_Forall_insert_2; [by apply (Hk id d)|done].
Qed.

(** The last sighting of a device, [time_zero] when it is not registered. *)
Definition last_seen (r : Registry) (id : string) : Time :=
  match rg_devices r !! id with Some d => d_LastSeen d | None => time_zero end.

Lemma Touch_last_seen r id t id' :
  last_seen (Touch r id t) id' =
  if bool_decide (id' = id ∧ is_Some (rg_devices r !! id)) then Z.max (last_seen r id) t else last_seen r id'.
Proof.
  unfold last_seen, Touch, After. destruct (rg_devices r !! id) as [d|] eqn:Hd.
  - destruct (Z.ltb_spec (d_LastSeen d) t) as [Hlt|Hge]; simpl.
    + destruct (decide (id' = id)) as [->|Hne].
      * rewrite bool_decide_eq_true_2 by eauto. rewrite lookup_insert_eq. simpl. lia.
      * rewrite bool_decide_eq_false_2 by naive_solver. by rewrite lookup_insert_ne.
    + case_bool_decide as Hb; [|done]. destruct Hb as [-> _]. rewrite Hd. lia.
  - rewrite bool_decide_eq_false_2; [done|]. intros [_ [? ?]]. done.
Qed.

(** [Parse] returns validated devices with pairwise distinct ids. *)
Lemma Parse_loop_ok flags seen l ds :
  Parse_loop flags seen l = Ok ds →
  Forall (λ d, Device_Validate d = None) ds ∧ NoDup (d_ID <$> ds) ∧ (∀ d, d ∈ ds → d_ID d ∉ seen) ∧ length ds = length l.
Proof.
  revert flags seen ds. induction l as [|d l IH]; intros flags seen ds; simpl.
  - intros ?; simplify_eq. split_and!; [constructor|constructor|set_solver|done].
  - destruct flags as [|flag flags]; [done|].
    destruct (Device_Validate _) eqn:Hv; [done|]. case_bool_decide as Hseen; [done|].
    unfold mbind, result_bind. destruct (Parse_loop flags _ l) as [out|] eqn:Hp; [|done]. intros ?; simplify_eq.
    apply IH in Hp as (Hall & Hnd & Hfresh & Hlen). split_and!.
    + by constructor.
    + rewrite fmap_cons. constructor; [|done]. intros (d' & Heq & Hin)%list_elem_of_fmap.
      apply (Hfresh d' Hin). rewrite <-Heq. set_solver.
    + set_solver.
    + simpl. by rewrite Hlen.
Qed.

Lemma elem_of_Lookup r q d :
  d ∈ Lookup r q ↔ (∃ k, rg_devices r !! k = Some d) ∧ query_matches q d = true.
Proof.
  unfold Lookup. rewrite elem_of_sort_stable, list_elem_of_fmap. setoid_rewrite list_elem_of_filter.
  setoid_rewrite list_elem_of_fmap. split.
  - intros (d' & -> & Hq & [k d''] & -> & Hin). rewrite clone_id. split; [|done].
    exists k. by apply elem_of_map_to_list in Hin.
  - intros [[k Hk] Hq]. exists d. rewrite clone_id. split; [done|]. split; [done|]. exists (k, d). split; [done|].
    by apply elem_of_map_to_list.
Qed.
