(* ===== verification/IngestThms.v ===== *)
(** * Theorems about identifiers, validation, normalization and the inventory *)

From S2P Require Import Prelude GoLib GoFloat Domain Regexp State Schema Normalize Inventory.

(** ** Helpers *)

Definition no_char (c : ascii) (s : string) : Prop := mem_char c s = false.

(** Label values free of the rendering's separators. *)
Definition plain_values (labels : smap) : Prop := map_Forall (λ _ v, no_char "," v ∧ no_char NUL v) (entries labels).

Lemma metricPattern_NUL m : matches metricPattern m → no_char NUL m.
Proof.
  intros Hm%MatchString_matches.
  eapply MatchString_excludes; [|exact Hm]. simpl. split_and!; intros c Hc <-; by vm_compute in Hc.
Qed.
Lemma keyPattern_NUL k : matches keyPattern k → no_char NUL k.
Proof.
  intros Hk%MatchString_matches.
  eapply MatchString_excludes; [|exact Hk]. simpl. split_and!; intros c Hc <-; by vm_compute in Hc.
Qed.

Lemma well_formed_plain v o : well_formed v o → plain_values (o_Labels o) → plain_labels (o_Labels o).
Proof.
  intros Hwf Hv k x Hx. destruct (wf_labels _ _ Hwf) as [_ Hl]. destruct (Hl k x Hx) as (_ & Hk & _).
  destruct (keyPattern_plain k Hk), (Hv k x Hx). done.
Qed.

Lemma Join_char c l : no_char c (str1 ",") → Forall (no_char c) l → no_char c (Join l (str1 ",")).
Proof.
  intros Hc. induction 1 as [|s l Hs Hl IH]; [done|]. destruct l as [|t l]; [exact Hs|].
  change (no_char c (s +:+ str1 "," +:+ Join (t :: l) (str1 ","))). unfold no_char in *. by rewrite !mem_char_append, Hs, Hc, IH.
Qed.

Lemma LabelsKey_NUL v o : well_formed v o → plain_values (o_Labels o) → no_char NUL (LabelsKey (o_Labels o)).
Proof.
  intros Hwf Hv. rewrite LabelsKey_Join. apply Join_char; [done|]. apply Forall_fmap, Forall_forall. intros k Hk.
  apply elem_of_sorted_keys in Hk as [x Hx]. destruct (wf_labels _ _ Hwf) as [_ Hl]. destruct (Hl k x Hx) as (_ & Hkp & _).
  apply keyPattern_NUL in Hkp. destruct (Hv k x Hx) as [_ Hxn]. unfold label_pair, no_char in *. simpl. rewrite Hx. simpl.
  by rewrite mem_char_append, Hkp.
Qed.

(** ** Identifiers *)

(** Observation ids hash distinct inputs for distinct observations: for accepted observations
    whose label values contain no comma (and no NUL anywhere), the hashed bytes determine the
    cycle, the device, the metric and the labels, so two ids agree only if the observations do
    or the hash collides. *)
Theorem observation_id_input_injective v c1 c2 o1 o2 :
  Validate v o1 = None → Validate v o2 = None → plain_values (o_Labels o1) → plain_values (o_Labels o2) →
  no_char NUL c1 → no_char NUL c2 → no_char NUL (o_DeviceID o1) → no_char NUL (o_DeviceID o2) →
  hash_input ["obs"; c1; o_DeviceID o1; o_Metric o1; LabelsKey (o_Labels o1)] =
  hash_input ["obs"; c2; o_DeviceID o2; o_Metric o2; LabelsKey (o_Labels o2)] →
  c1 = c2 ∧ o_DeviceID o1 = o_DeviceID o2 ∧ o_Metric o1 = o_Metric o2 ∧ entries (o_Labels o1) = entries (o_Labels o2).
Proof.
  intros Hw1%Validate_well_formed Hw2%Validate_well_formed Hv1 Hv2 Hc1 Hc2 Hd1 Hd2 Heq.
  apply hash_input_inj in Heq.
  - injection Heq as -> -> -> Hl. split_and!; [done..|]. apply LabelsKey_entries; [by eapply well_formed_plain..|done].
  - repeat constructor; [done..|apply metricPattern_NUL, (wf_metric _ _ Hw1)|by eapply LabelsKey_NUL].
  - repeat constructor; [done..|apply metricPattern_NUL, (wf_metric _ _ Hw2)|by eapply LabelsKey_NUL].
Qed.

Definition ex_labelled (labels : gmap string string) : Observation :=
  MkObservation "o1" "c1" "sw1" "snmp" "if.oper_status" (VInt 1) (Some labels) Hour 0 None.

Lemma observation_id_input_injective_witness :
  let o := ex_labelled {[ "interface" := "Gi0/1" ]} in
  Validate (NewValidator Hour) o = None ∧ "cycle-1" = "cycle-1" ∧ o_DeviceID o = o_DeviceID o ∧ o_Metric o = o_Metric o ∧
  entries (o_Labels o) = entries (o_Labels o).
Proof.
  intros o. split; [vm_compute; reflexivity|].
  apply (observation_id_input_injective (NewValidator Hour) "cycle-1" "cycle-1" o o); try (vm_compute; reflexivity).
  all: intros k x Hx; change (entries (o_Labels o)) with ({[ "interface" := "Gi0/1" ]} : gmap string string) in Hx;
    apply lookup_singleton_Some in Hx as [<- <-]; split; reflexivity.
Defined.

(** Without that condition ids do collide: two accepted observations with different labels get
    the same observation id and the same state key, whatever the hash, because a comma in a
    label value reads like the separator of two labels. *)
Theorem label_values_with_commas_collide :
  let o1 := ex_labelled {[ "a" := "1,b=2" ]} in
  let o2 := ex_labelled (<[ "a" := "1" ]> {[ "b" := "2" ]}) in
  Validate (NewValidator Hour) o1 = None ∧ Validate (NewValidator Hour) o2 = None ∧
  entries (o_Labels o1) ≠ entries (o_Labels o2) ∧
  ∀ (h : Sha256) cycle, NewObservationID cycle "sw1" "if.oper_status" (o_Labels o1) = NewObservationID cycle "sw1" "if.oper_status" (o_Labels o2).
Proof.
  split_and!; [vm_compute; reflexivity..| |].
  - intros Heq. apply (f_equal (lookup "b")) in Heq. by vm_compute in Heq.
  - intros h cycle. unfold NewObservationID. by replace (LabelsKey (o_Labels (ex_labelled {[ "a" := "1,b=2" ]})))
      with (LabelsKey (o_Labels (ex_labelled (<[ "a" := "1" ]> {[ "b" := "2" ]})))) by (vm_compute; reflexivity).
Qed.

(** ** Validation *)

(** The wire format is what its validator says: decoding accepts exactly the messages within
    the size limit that JSON decodes, with nothing after, to a well-formed observation, and
    returns that observation; everything else is a validation error, which is never retried. *)
Theorem decoding_accepts_exactly `{Json Observation} v data :
  (∀ o, DecodeObservation v data = Ok o ↔
     ((l_MaxMessageBytes (v_Limits v) ≤ 0 ∨ slen data ≤ l_MaxMessageBytes (v_Limits v))%Z ∧
      json_Decode data = Ok o ∧ json_trailing data = false ∧ well_formed v o)) ∧
  (∀ e, DecodeObservation v data = Err e → CategoryOf (Some e) = CategoryValidation ∧ IsRetryable (Some e) = false).
Proof.
  unfold DecodeObservation, Decode, mbind, result_bind. split.
  - intros o. destruct (Z.ltb_spec 0 (l_MaxMessageBytes (v_Limits v))), (Z.ltb_spec (l_MaxMessageBytes (v_Limits v)) (slen data));
      simpl; [split; [done|intros ([] & _); lia]|..].
    all: destruct (json_Decode data) as [o'|]; [|split; [done|by intros (_ & ? & _)]];
      destruct (json_trailing data); [split; [done|by intros (_ & _ & ? & _)]|];
      destruct (Validate v o') eqn:Hv;
      [split; [done|intros (_ & ? & _ & Hwf); simplify_eq; apply Validate_well_formed in Hwf; congruence]
      |split; [intros ?; simplify_eq; split_and!; [lia|done|done|by apply Validate_well_formed]|intros (_ & ? & _); by simplify_eq]].
  - intros e He. assert (CategoryOf (Some e) = CategoryValidation) as Hc; [|by unfold IsRetryable; rewrite Hc].
    destruct (_ && _); [by simplify_eq|]. destruct (json_Decode data) as [o|]; [|by simplify_eq].
    destruct (json_trailing data); [by simplify_eq|]. unfold Validate in He. by destruct (Validate_problems v o); simplify_eq.
Qed.

(** ** Normalization *)

(** Normalizing with a parsed mapping table: an observation with a mapped metric comes out with
    the mapping's canonical metric, remembers the raw one, carries exactly the renamed labels
    when the mapping lists labels one to one (and its own when it lists none), and keeps its
    identity, device, source and times; the result does not depend on the order in which Go
    ranges over maps. Any other metric passes through untouched. *)
Theorem normalization_is_canonical yaml raw n o :
  Normalize.Parse yaml raw = Ok n →
  (∀ m table, nz_byRaw n !! o_Metric o = Some m → mp_Labels m = Some table → injective_table table) →
  (∀ (ord1 ord2 : MapOrder), Normalize (H:=ord1) n o = Normalize (H:=ord2) n o) ∧
  (nz_byRaw n !! o_Metric o = None → ∀ ord : MapOrder, Normalize (H:=ord) n o = Ok (o, Passthrough)) ∧
  (∀ (ord : MapOrder) o' r m, nz_byRaw n !! o_Metric o = Some m → Normalize (H:=ord) n o = Ok (o', r) →
     r = Mapped ∧ o_Metric o' = mp_Metric m ∧ matches metricRe (o_Metric o') ∧
     mget (o_Metadata o') "raw_metric" = Some (o_Metric o) ∧ convert (mp_Convert m) (o_Value o) = Ok (o_Value o') ∧
     match mp_Labels m with
     | Some table => ∀ to v, mget (o_Labels o') to = Some v ↔ renamed table (o_Labels o) to v
     | None => o_Labels o' = o_Labels o
     end ∧
     o_ObservationID o' = o_ObservationID o ∧ o_CorrelationID o' = o_CorrelationID o ∧ o_DeviceID o' = o_DeviceID o ∧
     o_Source o' = o_Source o ∧ o_ObservedAt o' = o_ObservedAt o ∧ o_ReceivedAt o' = o_ReceivedAt o).
Proof.
  intros Hparse Hinj. apply Parse_good in Hparse. unfold Normalize. rewrite Observation_Clone_id.
  destruct (nz_byRaw n !! o_Metric o) as [m|] eqn:Hm; [|split_and!; done]. destruct (Hparse _ _ Hm) as (_ & _ & Hre & _).
  split_and!; [|done|].
  - intros ord1 ord2. destruct (convert _ _); [|done]. destruct (mp_Labels m) as [table|] eqn:Hl; [|done].
    rewrite (map_labels_deterministic ord1 ord2); [done|by eapply Hinj].
  - intros ord o' r m' [= <-]. destruct (convert (mp_Convert m) (o_Value o)) as [x|]; [|done]. intros [= <- <-].
    assert (∀ u (md : gmap string string), (if bool_decide (u ≠ "") then <["unit" := u]> md else md) !! "raw_metric" = md !! "raw_metric") as Hraw.
    { intros u md. case_bool_decide; [|done]. by rewrite lookup_insert_ne. }
    destruct (mp_Labels m) as [table|] eqn:Hl; simpl; (split_and!; [done|done|exact Hre| |done| |done..]).
    1,3: unfold mget; simpl; rewrite Hraw; by rewrite lookup_insert_eq.
    + intros to v. unfold mget. simpl. apply map_labels_spec. by eapply Hinj.
    + done.
Qed.

Definition ex_mapping (table : gmap string string) : Mapping :=
  MkMapping "ifOperStatus" "interface.oper_status" "" (MkConvert "bool" f_zero [f_one] None) (Some table).
Definition ex_normalizer (table : gmap string string) : res Normalizer := Normalize.Parse (λ _, Ok [ex_mapping table]) "".
Definition ex_raw (labels : gmap string string) : Observation :=
  MkObservation "o1" "c1" "sw1" "snmp" "ifOperStatus" (VInt 1) (Some labels) Hour 0 None.
#[local] Instance ex_forward : MapOrder := {| map_order := map_to_list; map_order_perm m := reflexivity _ |}.
Lemma reversed_perm (m : gmap string string) : reverse (map_to_list m) ≡ₚ map_to_list m.
Proof. apply reverse_Permutation. Qed.
Definition ex_backward : MapOrder := {| map_order m := reverse (map_to_list m); map_order_perm := reversed_perm |}.

Lemma normalization_is_canonical_witness :
  ∃ n o', ex_normalizer {[ "ifName" := "interface" ]} = Ok n ∧
    Normalize (H:=ex_forward) n (ex_raw {[ "ifName" := "Gi0/1" ]}) = Ok (o', Mapped) ∧ o_Metric o' = "interface.oper_status" ∧
    ∀ ord : MapOrder, Normalize (H:=ord) n (ex_raw {[ "ifName" := "Gi0/1" ]}) = Ok (o', Mapped).
Proof.
  destruct (ex_normalizer {[ "ifName" := "interface" ]}) as [n|] eqn:Hn; [|by vm_compute in Hn]. exists n.
  destruct (Normalize (H:=ex_forward) n (ex_raw {[ "ifName" := "Gi0/1" ]})) as [[o' r]|] eqn:Ho.
  2: { vm_compute in Hn. injection Hn as <-. by vm_compute in Ho. }
  assert (nz_byRaw n !! "ifOperStatus" = Some (ex_mapping {[ "ifName" := "interface" ]})) as Hm
    by (vm_compute in Hn; injection Hn as <-; vm_compute; reflexivity).
  destruct (normalization_is_canonical (λ _, Ok [ex_mapping {[ "ifName" := "interface" ]}]) "" n (ex_raw {[ "ifName" := "Gi0/1" ]}) Hn)
    as (Hord & _ & Hmapped).
  { intros m table Hm' Htab. cbn [o_Metric ex_raw] in Hm'. rewrite Hm in Hm'. injection Hm' as <-. cbn in Htab. injection Htab as <-.
    intros k1 k2 v [<- _]%lookup_singleton_Some [<- _]%lookup_singleton_Some. reflexivity. }
  destruct (Hmapped ex_forward o' r _ Hm Ho) as (-> & Hmet & _). exists o'. split; [done|]. split; [done|]. split; [exact Hmet|].
  intros ord. rewrite (Hord ord ex_forward). exact Ho.
Defined.

(** When a mapping renames two raw labels to the same canonical label, which [Parse] accepts,
    the normalized observation depends on the order in which Go ranges over the table: the same
    raw observation can come out with either value. *)
Theorem merged_labels_depend_on_order :
  let table := <[ "ifAlias" := "interface" ]> {[ "ifName" := "interface" ]} in
  let o := ex_raw (<[ "ifAlias" := "uplink" ]> {[ "ifName" := "Gi0/1" ]}) in
  ∃ n o1 o2, ex_normalizer table = Ok n ∧ Normalize (H:=ex_forward) n o = Ok (o1, Mapped) ∧
    Normalize (H:=ex_backward) n o = Ok (o2, Mapped) ∧ mget (o_Labels o1) "interface" ≠ mget (o_Labels o2) "interface".
Proof.
  intros table o. destruct (ex_normalizer table) as [n|] eqn:Hn; [|by vm_compute in Hn]. vm_compute in Hn. injection Hn as <-.
  do 3 eexists. split; [reflexivity|]. split; [vm_compute; reflexivity|]. split; [vm_compute; reflexivity|]. by vm_compute.
Qed.

(** ** Inventory *)

Lemma NewRegistry_lookup_aux ds (next : gmap string Device) id :
  NoDup (d_ID <$> ds) →
  foldl (λ next d, let d := carry_last_seen ∅ d in <[d_ID d := d]> next) next ds !! id =
  match list_find (λ d, d_ID d = id) ds with Some (_, d) => Some d | None => next !! id end.
Proof.
  assert (∀ d, carry_last_seen ∅ d = d) as Hc by (intros d; unfold carry_last_seen; by rewrite lookup_empty).
  revert next. induction ds as [|d ds IH]; intros next; [done|]. rewrite fmap_cons. intros [Hnin Hnd]%NoDup_cons.
  cbn [foldl list_find]. cbv zeta. rewrite IH, Hc by done. destruct (decide (d_ID d = id)) as [<-|Hne].
  - destruct (list_find (λ d', d_ID d' = d_ID d) ds) as [[i d']|] eqn:Hf; [|by rewrite lookup_insert_eq].
    apply list_find_Some in Hf as (Hi & Hid & _). destruct Hnin. apply list_elem_of_fmap. exists d'. split; [done|].
    by eapply list_elem_of_lookup_2.
  - rewrite lookup_insert_ne by done. by destruct (list_find (λ d', d_ID d' = id) ds) as [[]|].
Qed.

(** The inventory holds what its file says: a parsed inventory has only valid devices, with
    pairwise distinct ids, one per entry of the file; the registry built from it finds a device
    under an id exactly when it is in the file with that id, and lists, for a query, exactly the
    matching devices, sorted by id. *)
Theorem inventory_holds_its_file yaml yaml_flags raw ds q :
  Inventory.Parse yaml yaml_flags raw = Ok ds →
  Forall (λ d, Device_Validate d = None) ds ∧ NoDup (d_ID <$> ds) ∧
  (∀ id d, Inventory.Get (NewRegistry ds) id = Some d ↔ d ∈ ds ∧ d_ID d = id) ∧
  (∀ d, d ∈ Lookup (NewRegistry ds) q ↔ d ∈ ds ∧ query_matches q d = true) ∧
  Sorted (λ d1 d2, String.le (d_ID d1) (d_ID d2)) (Lookup (NewRegistry ds) q).
Proof.
  unfold Inventory.Parse, mbind, result_bind. destruct (yaml raw) as [l|]; [|done]. destruct (yaml_flags raw) as [flags|]; [|done].
  intros (Hval & Hnd & _ & _)%Parse_loop_ok.
  assert (∀ id d, rg_devices (NewRegistry ds) !! id = Some d ↔ d ∈ ds ∧ d_ID d = id) as Hget.
  { intros id d. unfold NewRegistry, Replace. simpl. rewrite (NewRegistry_lookup_aux ds ∅ id Hnd), lookup_empty.
    destruct (list_find _ ds) as [[i d']|] eqn:Hf.
    - apply list_find_Some in Hf as (Hi & Hid & _). split.
      + intros [= <-]. split; [by eapply list_elem_of_lookup_2|done].
      + intros [Hin Hd]. f_equal. apply list_elem_of_lookup in Hin as [j Hj].
        assert (i = j) as ->; [|congruence]. eapply (NoDup_lookup (d_ID <$> ds)); [done|..]; rewrite list_lookup_fmap.
        * rewrite Hi. simpl. by rewrite Hid.
        * rewrite Hj. simpl. by rewrite Hd.
    - split; [done|]. intros [Hin Hd]. apply list_find_None in Hf. exfalso. exact (proj1 (Forall_forall _ _) Hf d Hin Hd). }
  split_and!; [done|done|..].
  - intros id d. unfold Inventory.Get. rewrite fmap_Some. setoid_rewrite clone_id. setoid_rewrite Hget. naive_solver.
  - intros d. rewrite elem_of_Lookup. setoid_rewrite Hget. naive_solver.
  - unfold Lookup. apply sort_stable_sorted; unfold by_id, str_lt.
    + intros x y [Hle Hne]%andb_true_iff. bool_to_prop. apply andb_false_iff.
      destruct (decide (String.le (d_ID y) (d_ID x))) as [Hle'|]; [|left; by apply bool_decide_eq_false_2].
      destruct Hne. by apply (anti_symm String.le).
    + intros x y [Hle|Heq]%andb_false_iff; bool_to_prop; [|by rewrite Heq].
      by destruct (total String.le (d_ID x) (d_ID y)).
Qed.

Definition ex_device (id : string) : Device :=
  MkDevice id (id +:+ ".lab") "10.0.0.1" DeviceSwitch "acme" "m1" "" "lab" [] [] "" false 0 (MkCollectionSpec "snmp" "" 0) None.

Lemma inventory_holds_its_file_witness :
  ∃ ds, Inventory.Parse (λ _, Ok [ex_device "sw2"; ex_device "sw1"]) (λ _, Ok [None; None]) "" = Ok ds ∧
        Sorted (λ d1 d2, String.le (d_ID d1) (d_ID d2)) (Lookup (NewRegistry ds) Query0).
Proof.
  destruct (Inventory.Parse (λ _, Ok [ex_device "sw2"; ex_device "sw1"]) (λ _, Ok [None; None]) "") as [ds|] eqn:Hp; [|by vm_compute in Hp].
  exists ds. split; [done|].
  exact (proj2 (proj2 (proj2 (proj2 (inventory_holds_its_file _ _ _ ds Query0 Hp))))).
Defined.

(** Sightings never go back: any sequence of touches leaves each registered device's last
    sighting at the latest of its own touches and what it was, and touches nothing else. *)
Theorem sightings_never_go_back r touches id :
  is_Some (rg_devices r !! id) →
  last_seen (foldl (λ r t, Touch r t.1 t.2) r touches) id =
  foldl Z.max (last_seen r id) (filter (λ t, t.1 = id) touches).*2.
Proof.
  revert r. induction touches as [|[id' t] touches IH]; intros r Hreg; [done|]. cbn [foldl fst snd].
  assert (is_Some (rg_devices (Touch r id' t) !! id)) as Hreg'.
  { unfold Touch. destruct (rg_devices r !! id') eqn:Hd; [|done]. case_match; [|done]. simpl. apply lookup_insert_is_Some'. by right. }
  rewrite (IH _ Hreg'), Touch_last_seen, filter_cons. cbn [fst]. destruct (decide (id' = id)) as [->|Hne].
  - by rewrite bool_decide_eq_true_2.
  - rewrite bool_decide_eq_false_2; [done|]. intros [-> _]. done.
Qed.

Lemma sightings_never_go_back_witness :
  last_seen (foldl (λ r t, Touch r t.1 t.2) (NewRegistry [ex_device "sw1"]) [("sw1", 30%Z); ("sw2", 50%Z); ("sw1", 20%Z)]) "sw1" = 30%Z.
Proof. rewrite (sightings_never_go_back (NewRegistry [ex_device "sw1"])); [vm_compute; reflexivity|]. by vm_compute; eexists. Defined.
