(* ===== verification/Store.v ===== *)
(** * Package [persistence]: the storage contract (src/internal/persistence/persistence.go)

    [TxOps] is the interface [Tx]: the operations inside one unit of work, on a transaction
    state [T]. [AStore] is what the contract talks about, and [TxSpec] the contract itself: an
    operation that succeeds returns what the contract promises and changes the abstract store
    only as it says. Clients are verified against [TxSpec]; MemStore discharges it. *)

From S2P Require Import Prelude GoLib GoFloat Domain.

Record OutboxMessage := MkOutboxMessage {
  ob_ID : Z;
  ob_Subject : string;
  ob_MsgID : string;
  ob_Payload : string;
  ob_Headers : smap;
}.
#[export] Instance eta_OutboxMessage : Eta OutboxMessage := λ m,
  MkOutboxMessage (ob_ID m) (ob_Subject m) (ob_MsgID m) (ob_Payload m) (ob_Headers m).

(** ** The interface *)

Class TxOps (T : Type) := {
  InsertObservation : Observation → ST T error bool;
  TouchDevice : string → Time → ST T error unit;
  Samples : string → string → string → Time → Time → ST T error (list Sample);
  GetState : string → ST T error (option StateRecord);
  PutState : StateRecord → ST T error unit;
  InsertTransition : Transition → ST T error unit;
  InsertEvent : Event → ST T error bool;
  OpenAlert : Event → ST T error bool;
  ResolveAlert : Event → ST T error bool;
  Enqueue : OutboxMessage → ST T error unit;
}.

(** A store: transactions on it, the current state records, and the outbox. [Do] gives the result
    of the body and the store left behind. [DrainOutbox limit publish] hands a batch to
    [publish], which works on a state of its own [P] and answers with its error, if any. *)
Class Store (S T : Type) `{TxOps T} := {
  Do : ∀ {A}, ST T error A → S → res A * S;
  ListStates : S → res (list StateRecord);
  DrainOutbox : ∀ {P}, Z → (list OutboxMessage → P → option error * P) → P → S → (Z * option error) * P * S;
}.

(** ** The abstract store *)

Record AStore := MkAStore {
  as_devices : gmap string Device;
  as_observations : gmap string Observation;
  as_states : gmap string StateRecord;
  as_transitions : gmap string Transition;
  as_events : gmap string Event;
  as_alerts : list Alert;
  as_queue : list (string * string);     (* subject and message id of everything queued so far *)
}.
#[export] Instance eta_AStore : Eta AStore := λ s,
  MkAStore (as_devices s) (as_observations s) (as_states s) (as_transitions s) (as_events s) (as_alerts s) (as_queue s).

Definition is_firing (key : string) (a : Alert) : bool :=
  bool_decide (al_AlertKey a = key) && bool_decide (al_Status a = AlertFiring).
Definition firing (key : string) (alerts : list Alert) : bool := existsb (is_firing key) alerts.

(** The alert an event opens. *)
Definition alert_of (e : Event) : Alert :=
  MkAlert (ev_AlertKey e) (ev_DeviceID e) (ev_Source e) (ev_Severity e) AlertFiring (ev_Message e) (ev_Labels e)
    (ev_EventID e) (ev_OccurredAt e) time_zero.

(** Close the first alert firing for the event's key. *)
Definition resolved_by (e : Event) (a : Alert) : Alert :=
  a <| al_Status := AlertResolved |> <| al_ResolvedAt := ev_OccurredAt e |>.
Fixpoint resolve_first (e : Event) (alerts : list Alert) : list Alert :=
  match alerts with
  | [] => []
  | a :: l => if is_firing (ev_AlertKey e) a then resolved_by e a :: l else a :: resolve_first e l
  end.

(** What each operation promises, as a function on the abstract store. *)
Definition A_InsertObservation (o : Observation) (s : AStore) : bool * AStore :=
  match as_observations s !! o_ObservationID o with
  | Some _ => (false, s)
  | None => (true, s <| as_observations := <[o_ObservationID o := o]> (as_observations s) |>)
  end.
Definition A_TouchDevice (id : string) (at_ : Time) (s : AStore) : unit * AStore :=
  match as_devices s !! id with
  | Some d => if After at_ (d_LastSeen d)
              then (tt, s <| as_devices := <[id := d <| d_LastSeen := at_ |>]> (as_devices s) |>) else (tt, s)
  | None => (tt, s)
  end.
Definition A_GetState (key : string) (s : AStore) : option StateRecord * AStore := (as_states s !! key, s).
Definition A_PutState (r : StateRecord) (s : AStore) : unit * AStore :=
  (tt, s <| as_states := <[sr_Key r := r]> (as_states s) |>).
Definition A_InsertTransition (tr : Transition) (s : AStore) : unit * AStore :=
  match as_transitions s !! tr_TransitionID tr with
  | Some _ => (tt, s)
  | None => (tt, s <| as_transitions := <[tr_TransitionID tr := tr]> (as_transitions s) |>)
  end.
Definition A_InsertEvent (e : Event) (s : AStore) : bool * AStore :=
  match as_events s !! ev_EventID e with
  | Some _ => (false, s)
  | None => (true, s <| as_events := <[ev_EventID e := e]> (as_events s) |>)
  end.
Definition A_OpenAlert (e : Event) (s : AStore) : bool * AStore :=
  if firing (ev_AlertKey e) (as_alerts s) then (false, s)
  else (true, s <| as_alerts := as_alerts s ++ [alert_of e] |>).
Definition A_ResolveAlert (e : Event) (s : AStore) : bool * AStore :=
  if firing (ev_AlertKey e) (as_alerts s)
  then (true, s <| as_alerts := resolve_first e (as_alerts s) |>) else (false, s).
Definition A_Enqueue (m : OutboxMessage) (s : AStore) : unit * AStore :=
  (tt, s <| as_queue := as_queue s ++ [(ob_Subject m, ob_MsgID m)] |>).

(** ** The contract *)

(** When [m] succeeds, its result and the new abstract store are those of [f]. *)
Definition implements {T A} (view : T → AStore) (m : ST T error A) (f : AStore → A * AStore) : Prop :=
  ∀ t, wp m (λ a t', (a, view t') = f (view t)) t.

Class TxSpec (T : Type) `{TxOps T} := {
  view : T → AStore;
  InsertObservation_spec o : implements view (InsertObservation o) (A_InsertObservation o);
  TouchDevice_spec id at_ : implements view (TouchDevice id at_) (A_TouchDevice id at_);
  Samples_spec dev metric lk from to t :
    wp (Samples dev metric lk from to)
      (λ l t', view t' = view t ∧ Forall (λ s, (from < sm_At s ≤ to)%Z) l ∧ Sorted (λ a b, (sm_At a ≤ sm_At b)%Z) l) t;
  GetState_spec key : implements view (GetState key) (A_GetState key);
  PutState_spec r : implements view (PutState r) (A_PutState r);
  InsertTransition_spec tr : implements view (InsertTransition tr) (A_InsertTransition tr);
  InsertEvent_spec e : implements view (InsertEvent e) (A_InsertEvent e);
  OpenAlert_spec e : implements view (OpenAlert e) (A_OpenAlert e);
  ResolveAlert_spec e : implements view (ResolveAlert e) (A_ResolveAlert e);
  Enqueue_spec m : implements view (Enqueue m) (A_Enqueue m);
}.

(** [Do] is atomic: a body that succeeds ran on the store as it was and its effects are kept; a
    body that returns an error leaves the abstract store as it was. A body that panics is not
    covered. *)
Definition is_panic (e : error) : bool := match e with EPanic _ => true | _ => false end.

Class StoreSpec (S T : Type) `{TxSpec T, !Store S T} := {
  store_view : S → AStore;
  Do_ok {A} (body : ST T error A) s a s' :
    Do body s = (Ok a, s') →
    ∃ t t', view t = store_view s ∧ body t = (Ok a, t') ∧ store_view s' = view t';
}.

(** ** Reasoning with the contract *)

Section contract.
Context `{TxSpec T}.

(** From an operation's specification to a step of a proof about the program that calls it. *)
Lemma wp_implements {A B} (m : ST T error A) (f : AStore → A * AStore) (k : A → ST T error B) Q t :
  implements view m f →
  (∀ t' : T, view t' = (f (view t)).2 → wp (k (f (view t)).1) Q t') → wp (m ≫= k) Q t.
Proof.
  intros Himp Hk. apply wp_bind. eapply wp_mono; [|apply Himp]. intros a t' Heq.
  specialize (Hk t'). rewrite <-Heq in Hk. by apply Hk.
Qed.

Lemma wp_implements_last {A} (m : ST T error A) (f : AStore → A * AStore) (Q : A → T → Prop) t :
  implements view m f → (∀ t' : T, view t' = (f (view t)).2 → Q (f (view t)).1 t') → wp m Q t.
Proof.
  intros Himp Hk. eapply wp_mono; [|apply Himp]. intros a t' Heq.
  specialize (Hk t'). rewrite <-Heq in Hk. by apply Hk.
Qed.
End contract.

(** ** Keys in order *)

(** The list names exactly the stored keys, once each. *)
Definition order_ok {V} (m : gmap string V) (order : list string) : Prop :=
  NoDup order ∧ ∀ id, id ∈ order ↔ is_Some (m !! id).

Lemma order_ok_insert {V} (m : gmap string V) order id v :
  m !! id = None → order_ok m order → order_ok (<[id := v]> m) (order ++ [id]).
Proof.
  intros Hnew [Hnd Hin]. split.
  - apply NoDup_app. split_and!; [done| |apply NoDup_singleton].
    intros x Hx ->%list_elem_of_singleton. apply Hin in Hx as [? ?]. congruence.
  - intros x. rewrite elem_of_app, list_elem_of_singleton, Hin, lookup_insert_is_Some. destruct (decide (id = x)); naive_solver.
Qed.

(** ** Alerts *)

Lemma firing_app key l1 l2 : firing key (l1 ++ l2) = firing key l1 || firing key l2.
Proof. apply existsb_app. Qed.

(** At most one alert fires per key. *)
Definition at_most_one_firing (alerts : list Alert) : Prop :=
  ∀ key i j a b, alerts !! i = Some a → alerts !! j = Some b →
    is_firing key a = true → is_firing key b = true → i = j.

Lemma firing_lookup key alerts : firing key alerts = true ↔ ∃ i a, alerts !! i = Some a ∧ is_firing key a = true.
Proof.
  unfold firing. rewrite existsb_exists. setoid_rewrite <-list_elem_of_In. setoid_rewrite list_elem_of_lookup. naive_solver.
Qed.

Lemma open_at_most_one e alerts :
  firing (ev_AlertKey e) alerts = false → at_most_one_firing alerts → at_most_one_firing (alerts ++ [alert_of e]).
Proof.
  intros Hf Hone key i j a b Hi Hj Ha Hb.
  assert (∀ n x, alerts !! n = Some x → is_firing (ev_AlertKey e) x = false) as Hno.
  { intros n x Hx. destruct (is_firing _ x) eqn:Hfx; [|done].
    assert (firing (ev_AlertKey e) alerts = true) by (apply firing_lookup; eauto). congruence. }
  assert (∀ x, is_firing key (alert_of e) = true → is_firing key x = true → is_firing (ev_AlertKey e) x = true) as Hsame.
  { intros x Hk Hx. unfold is_firing in *. simpl in Hk. bool_to_prop. by rewrite !bool_decide_eq_true_2 by congruence. }
  apply lookup_app_Some in Hi as [Hi|[? Hi]], Hj as [Hj|[? Hj]].
  - eauto.
  - apply list_lookup_singleton_Some in Hj as [? ?]; subst. specialize (Hno _ _ Hi). rewrite (Hsame a) in Hno by done. done.
  - apply list_lookup_singleton_Some in Hi as [? ?]; subst. specialize (Hno _ _ Hj). rewrite (Hsame b) in Hno by done. done.
  - apply list_lookup_singleton_Some in Hi as [? _], Hj as [? _]. lia.
Qed.

(** Where a resolved list differs from the original. *)
Lemma resolve_first_lookup e alerts i a' :
  resolve_first e alerts !! i = Some a' →
  ∃ a, alerts !! i = Some a ∧ (a' = a ∨ (is_firing (ev_AlertKey e) a = true ∧ a' = resolved_by e a)).
Proof.
  revert i. induction alerts as [|b l IH]; intros i; simpl; [done|].
  destruct (is_firing _ b) eqn:Hb; destruct i as [|i]; simpl; intros Hi; simplify_eq; eauto 6.
Qed.

Lemma resolve_first_closed e alerts : firing (ev_AlertKey e) alerts = false → resolve_first e alerts = alerts.
Proof.
  induction alerts as [|a l IH]; [done|]. unfold firing in *. simpl. intros [Ha Hl]%orb_false_iff.
  rewrite Ha. f_equal. by apply IH.
Qed.

Lemma resolved_not_firing key e a : is_firing key (resolved_by e a) = false.
Proof. unfold is_firing. simpl. apply andb_false_r. Qed.

Lemma resolve_at_most_one e alerts : at_most_one_firing alerts → at_most_one_firing (resolve_first e alerts).
Proof.
  intros Hone key i j a b (a0 & Hi & Ha)%resolve_first_lookup (b0 & Hj & Hb)%resolve_first_lookup Hfa Hfb.
  destruct Ha as [->|[_ ->]]; [|by rewrite resolved_not_firing in Hfa].
  destruct Hb as [->|[_ ->]]; [|by rewrite resolved_not_firing in Hfb]. eauto.
Qed.

Lemma firing_resolve key e alerts :
  at_most_one_firing alerts →
  firing key (resolve_first e alerts) = if bool_decide (key = ev_AlertKey e) then false else firing key alerts.
Proof.
  intros Hone. induction alerts as [|a l IH]; simpl; [by case_bool_decide|].
  assert (at_most_one_firing l) as Hone'.
  { intros k i j x y Hi Hj Hx Hy. assert (S i = S j) by (eapply Hone; eauto). lia. }
  specialize (IH Hone'). destruct (is_firing (ev_AlertKey e) a) eqn:Ha; simpl.
  - unfold firing in *. simpl. rewrite resolved_not_firing. simpl. case_bool_decide as Hk.
    + subst. apply not_true_is_false. intros (i & b & Hb & Hfb)%firing_lookup.
      assert (0 = S i) by (eapply Hone; eauto; done). done.
    + assert (is_firing key a = false) as ->; [|done].
      unfold is_firing in *. bool_to_prop. rewrite bool_decide_eq_false_2 by congruence. done.
  - unfold firing in *. simpl. rewrite IH. case_bool_decide as Hk; [subst; by rewrite Ha|done].
Qed.

Lemma firing_open key e alerts :
  firing key (alerts ++ [alert_of e]) = firing key alerts || bool_decide (key = ev_AlertKey e).
Proof.
  rewrite firing_app. f_equal. unfold firing, is_firing. simpl. rewrite orb_false_r, andb_true_r.
  by apply bool_decide_ext.
Qed.
