(* ===== verification/MemStore.v ===== *)
(** * The in-memory store (src/internal/persistence/memory.go)

    [MemStore] with its transactions: the ten operations of [memTx] with their undo log, [Do]
    with its rollback, the device mirror and the outbox. The closures of the undo log are
    represented by the data they capture ([undo]), run by [run_undo]. *)

From S2P Require Import Prelude GoLib GoFloat Domain Store Inventory.

Record outboxRow := MkOutboxRow { ox_msg : OutboxMessage; ox_published : bool }.
#[export] Instance eta_outboxRow : Eta outboxRow := λ r, MkOutboxRow (ox_msg r) (ox_published r).

Record MemStore := MkMemStore {
  ms_devices : gmap string Device;
  ms_observation : gmap string Observation;
  ms_obsOrder : list string;
  ms_states : gmap string StateRecord;
  ms_transitions : gmap string Transition;
  ms_trOrder : list string;
  ms_events : gmap string Event;
  ms_evOrder : list string;
  ms_alerts : list Alert;
  ms_outbox : list outboxRow;
  ms_nextOutbox : Z;
  ms_autoReq : gmap string AutomationRequest;
  ms_autoOrder : list string;
  ms_autoRes : gmap string AutomationResult;
  ms_autoClaim : gmap string Time;
  ms_failNext : option error;
}.
#[export] Instance eta_MemStore : Eta MemStore := λ s,
  MkMemStore (ms_devices s) (ms_observation s) (ms_obsOrder s) (ms_states s) (ms_transitions s) (ms_trOrder s)
    (ms_events s) (ms_evOrder s) (ms_alerts s) (ms_outbox s) (ms_nextOutbox s) (ms_autoReq s) (ms_autoOrder s)
    (ms_autoRes s) (ms_autoClaim s) (ms_failNext s).

Definition NewMemStore : MemStore := MkMemStore ∅ ∅ [] ∅ ∅ [] ∅ [] [] [] 0 ∅ [] ∅ ∅ None.

(** [FailNext] injects an error for the next [Do]. *)
Definition FailNext (err : option error) (s : MemStore) : MemStore := s <| ms_failNext := err |>.

(** ** Transactions *)

Inductive undo :=
| UndoObservation (id : string)
| UndoDevice (id : string) (old : Device)
| UndoState (key : string) (old : option StateRecord)
| UndoTransition (id : string)
| UndoEvent (id : string)
| UndoOpenAlert
| UndoResolveAlert (idx : nat) (old : Alert)
| UndoEnqueue.

(** [l[:len(l)-1]]. *)
Definition drop_last {A} (l : list A) : list A := take (length l - 1) l.

Definition run_undo (u : undo) (s : MemStore) : MemStore :=
  match u with
  | UndoObservation id => s <| ms_observation := delete id (ms_observation s) |> <| ms_obsOrder := drop_last (ms_obsOrder s) |>
  | UndoDevice id old => s <| ms_devices := <[id := old]> (ms_devices s) |>
  | UndoState key (Some old) => s <| ms_states := <[key := old]> (ms_states s) |>
  | UndoState key None => s <| ms_states := delete key (ms_states s) |>
  | UndoTransition id => s <| ms_transitions := delete id (ms_transitions s) |> <| ms_trOrder := drop_last (ms_trOrder s) |>
  | UndoEvent id => s <| ms_events := delete id (ms_events s) |> <| ms_evOrder := drop_last (ms_evOrder s) |>
  | UndoOpenAlert => s <| ms_alerts := drop_last (ms_alerts s) |>
  | UndoResolveAlert idx old => s <| ms_alerts := <[idx := old]> (ms_alerts s) |>
  | UndoEnqueue => s <| ms_outbox := drop_last (ms_outbox s) |> <| ms_nextOutbox := wrap64 (ms_nextOutbox s - 1) |>
  end.

Record memTx := MkMemTx { tx_s : MemStore; tx_undo : list undo }.

(** The undo log from its last entry to its first. *)
Definition rollback (t : memTx) : MemStore := foldl (λ s u, run_undo u s) (tx_s t) (reverse (tx_undo t)).

(** Change the store and log how to undo it. *)
Definition log_step (s : MemStore) (u : undo) (t : memTx) : memTx := MkMemTx s (tx_undo t ++ [u]).

Definition mem_InsertObservation (o : Observation) : ST memTx error bool := λ t,
  let s := tx_s t in
  match ms_observation s !! o_ObservationID o with
  | Some _ => (Ok false, t)
  | None =>
      (Ok true, log_step
         (s <| ms_observation := <[o_ObservationID o := Observation_Clone o]> (ms_observation s) |>
            <| ms_obsOrder := ms_obsOrder s ++ [o_ObservationID o] |>)
         (UndoObservation (o_ObservationID o)) t)
  end.

Definition mem_TouchDevice (id : string) (at_ : Time) : ST memTx error unit := λ t,
  let s := tx_s t in
  match ms_devices s !! id with
  | None => (Ok tt, t)
  | Some d =>
      if negb (After at_ (d_LastSeen d)) then (Ok tt, t)
      else (Ok tt, log_step (s <| ms_devices := <[id := d <| d_LastSeen := at_ |>]> (ms_devices s) |>) (UndoDevice id d) t)
  end.

(** The sample an observation contributes to a series and window, if any. *)
Definition sample_of (deviceID metric labelsKey : string) (from to : Time) (o : Observation) : option Sample :=
  if bool_decide (o_DeviceID o ≠ deviceID) || bool_decide (o_Metric o ≠ metric) || bool_decide (LabelsKey (o_Labels o) ≠ labelsKey)
  then None
  else if negb (After (o_ObservedAt o) from) || After (o_ObservedAt o) to then None
  else
    match Observation_Float o with
    | None => None
    | Some f => Some (MkSample (o_ObservedAt o) f (Observation_Bool o))
    end.

(** The stored observations in insertion order. A key without an entry would read as the zero
    observation; [obsOrder] lists stored ids only. *)
Definition observations_in_order (s : MemStore) : list Observation :=
  omap (λ id, ms_observation s !! id) (ms_obsOrder s).

Definition mem_Samples (deviceID metric labelsKey : string) (from to : Time) : ST memTx error (list Sample) := λ t,
  (Ok (sort_stable (λ a b, Before (sm_At a) (sm_At b))
         (omap (sample_of deviceID metric labelsKey from to) (observations_in_order (tx_s t)))), t).

Definition mem_GetState (key : string) : ST memTx error (option StateRecord) := λ t, (Ok (ms_states (tx_s t) !! key), t).

Definition mem_PutState (r : StateRecord) : ST memTx error unit := λ t,
  let s := tx_s t in
  (Ok tt, log_step (s <| ms_states := <[sr_Key r := r]> (ms_states s) |>) (UndoState (sr_Key r) (ms_states s !! sr_Key r)) t).

Definition mem_InsertTransition (tr : Transition) : ST memTx error unit := λ t,
  let s := tx_s t in
  match ms_transitions s !! tr_TransitionID tr with
  | Some _ => (Ok tt, t)
  | None =>
      (Ok tt, log_step
         (s <| ms_transitions := <[tr_TransitionID tr := tr]> (ms_transitions s) |>
            <| ms_trOrder := ms_trOrder s ++ [tr_TransitionID tr] |>)
         (UndoTransition (tr_TransitionID tr)) t)
  end.

Definition mem_InsertEvent (e : Event) : ST memTx error bool := λ t,
  let s := tx_s t in
  match ms_events s !! ev_EventID e with
  | Some _ => (Ok false, t)
  | None =>
      (Ok true, log_step
         (s <| ms_events := <[ev_EventID e := e]> (ms_events s) |> <| ms_evOrder := ms_evOrder s ++ [ev_EventID e] |>)
         (UndoEvent (ev_EventID e)) t)
  end.

Definition mem_OpenAlert (e : Event) : ST memTx error bool := λ t,
  let s := tx_s t in
  if existsb (λ a, bool_decide (al_AlertKey a = ev_AlertKey e) && bool_decide (al_Status a = AlertFiring)) (ms_alerts s)
  then (Ok false, t)
  else
    (Ok true, log_step
       (s <| ms_alerts := ms_alerts s ++
          [MkAlert (ev_AlertKey e) (ev_DeviceID e) (ev_Source e) (ev_Severity e) AlertFiring (ev_Message e) (ev_Labels e)
             (ev_EventID e) (ev_OccurredAt e) time_zero] |>)
       UndoOpenAlert t).

Definition mem_ResolveAlert (e : Event) : ST memTx error bool := λ t,
  let s := tx_s t in
  match list_find (λ a, al_AlertKey a = ev_AlertKey e ∧ al_Status a = AlertFiring) (ms_alerts s) with
  | Some (i, a) =>
      (Ok true, log_step
         (s <| ms_alerts := <[i := a <| al_Status := AlertResolved |> <| al_ResolvedAt := ev_OccurredAt e |>]> (ms_alerts s) |>)
         (UndoResolveAlert i a) t)
  | None => (Ok false, t)
  end.

Definition mem_Enqueue (m : OutboxMessage) : ST memTx error unit := λ t,
  let s := tx_s t in
  let next := int_incr (ms_nextOutbox s) in
  (Ok tt, log_step
     (s <| ms_nextOutbox := next |> <| ms_outbox := ms_outbox s ++ [MkOutboxRow (m <| ob_ID := next |>) false] |>)
     UndoEnqueue t).

#[export] Instance memTx_ops : TxOps memTx := {|
  InsertObservation := mem_InsertObservation;
  TouchDevice := mem_TouchDevice;
  Samples := mem_Samples;
  GetState := mem_GetState;
  PutState := mem_PutState;
  InsertTransition := mem_InsertTransition;
  InsertEvent := mem_InsertEvent;
  OpenAlert := mem_OpenAlert;
  ResolveAlert := mem_ResolveAlert;
  Enqueue := mem_Enqueue;
|}.

(** [Do]. [ctx_err] is what [ctx.Err()] reports. A panic in the body unwinds past the rollback
    loop, so what it did stays. *)
Definition mem_Do {A} (ctx_err : option error) (fn : ST memTx error A) (s : MemStore) : res A * MemStore :=
  match ms_failNext s with
  | Some err => (Err err, s <| ms_failNext := None |>)
  | None =>
      match ctx_err with
      | Some err => (Err (EDomain CategoryTimeout "memstore" err), s)
      | None =>
          match fn (MkMemTx s []) with
          | (Ok a, t) => (Ok a, tx_s t)
          | (Err e, t) => (Err e, if is_panic e then tx_s t else rollback t)
          end
      end
  end.

(** ** Devices, reads and the outbox *)

Definition UpsertDevices (devices : list Device) (s : MemStore) : MemStore :=
  s <| ms_devices :=
    foldl (λ m d, let d := match m !! d_ID d with Some old => d <| d_LastSeen := d_LastSeen old |> | None => d end in
                  <[d_ID d := d]> m) (ms_devices s) devices |>.

Definition UpdateDeviceAttributes (id : string) (attrs : smap) (s : MemStore) : MemStore :=
  match ms_devices s !! id with
  | None => s
  | Some d => s <| ms_devices := <[id := d <| d_Attributes := Some (entries attrs ∪ entries (d_Attributes d)) |>]> (ms_devices s) |>
  end.

Definition ListDevices (s : MemStore) : list Device := sort_stable by_id (map_to_list (ms_devices s)).*2.

Definition Latest (deviceID metric : string) (labels : smap) (s : MemStore) : option Observation :=
  foldl (λ best o,
    if bool_decide (o_DeviceID o ≠ deviceID) || bool_decide (o_Metric o ≠ metric) then best
    else if match labels with Some _ => bool_decide (LabelsKey (o_Labels o) ≠ LabelsKey labels) | None => false end then best
    else match best with
         | None => Some (Observation_Clone o)
         | Some b => if After (o_ObservedAt o) (o_ObservedAt b) then Some (Observation_Clone o) else best
         end) None (observations_in_order s).

Definition by_key (r1 r2 : StateRecord) : bool := str_lt (sr_Key r1) (sr_Key r2).
Definition mem_ListStates (s : MemStore) : list StateRecord := sort_stable by_key (map_to_list (ms_states s)).*2.

(** The indices and messages of the unpublished rows from position [i] on, [n] of them at most;
    a limit that is not positive never equals the batch length, so it means no limit. *)
Fixpoint claim_batch (limit : Z) (count : Z) (i : nat) (rows : list outboxRow) : list (nat * OutboxMessage) :=
  match rows with
  | [] => []
  | r :: rows =>
      if ox_published r then claim_batch limit count (S i) rows
      else (i, ox_msg r) :: (if (count + 1 =? limit)%Z then [] else claim_batch limit (count + 1) (S i) rows)
  end.

Definition mark_published (idx : list nat) (rows : list outboxRow) : list outboxRow :=
  foldl (λ rows i, alter (λ r, r <| ox_published := true |>) i rows) rows idx.

Definition mem_DrainOutbox {P} (limit : Z) (publish : list OutboxMessage → P → option error * P) (p : P) (s : MemStore) : (Z * option error) * P * MemStore :=
  match claim_batch limit 0 0 (ms_outbox s) with
  | [] => (0%Z, None, p, s)
  | claimed =>
      match publish claimed.*2 p with
      | (Some err, p) => (0%Z, Some err, p, s)
      | (None, p) => (Z.of_nat (length claimed), None, p, s <| ms_outbox := mark_published claimed.*1 (ms_outbox s) |>)
      end
  end.

(** The store with a live context. *)
#[export] Instance MemStore_store : Store MemStore memTx := {|
  Do A := mem_Do (A:=A) None;
  ListStates s := Ok (mem_ListStates s);
  DrainOutbox P := mem_DrainOutbox (P:=P);
|}.

(** Inspection. *)
Definition Events (s : MemStore) : list Event := omap (λ id, ms_events s !! id) (ms_evOrder s).
Definition Transitions (s : MemStore) : list Transition := omap (λ id, ms_transitions s !! id) (ms_trOrder s).
Definition ObservationCount (s : MemStore) : Z := Z.of_nat (size (ms_observation s)).
Definition OutboxPending (s : MemStore) : Z := Z.of_nat (length (filter (λ r, ox_published r = false) (ms_outbox s))).
