(* ===== verification/MemStoreFacts.v ===== *)
(** * The in-memory store: rollback, contract, invariants and the outbox *)

From S2P Require Import Prelude GoLib GoFloat Domain Store Inventory MemStore.

Definition int64 (z : Z) : Prop := (int_min ≤ z ≤ int_max)%Z.

(** ** Rollback restores the store *)

(** What has been done so far can be undone to give [s0]. *)
Definition undoable (s0 : MemStore) (t : memTx) : Prop := int64 (ms_nextOutbox (tx_s t)) ∧ rollback t = s0.

(** A transaction body that keeps [I] true of the transaction, whether it succeeds or fails.
    Bodies composed of the operations get it from the instances below. *)
Class Keeps {A} (I : memTx → Prop) (m : ST memTx error A) : Prop := keeps t : I t → I (m t).2.
#[export] Hint Mode Keeps - - ! : typeclass_instances.

Section keeps.
Context (I : memTx → Prop).

#[export] Instance keeps_ret {A} (a : A) : Keeps I (mret a).
Proof. by intros t ?. Qed.
#[export] Instance keeps_fail {A} e : Keeps I (ST_fail (A:=A) e).
Proof. by intros t ?. Qed.
#[export] Instance keeps_lift {A} (r : res A) : Keeps I (ST_lift r).
Proof. by intros t ?. Qed.
#[export] Instance keeps_bind {A B} (m : ST memTx error A) (f : A → ST memTx error B) :
  Keeps I m → (∀ a, Keeps I (f a)) → Keeps I (m ≫= f).
Proof.
  intros Hm Hf t Ht. specialize (Hm t Ht). unfold mbind, ST_bind.
  destruct (m t) as [[a|e] t'] eqn:Hrun; simpl in *; [by apply Hf|done].
Qed.
#[export] Instance keeps_if {A} (b : bool) (m1 m2 : ST memTx error A) :
  Keeps I m1 → Keeps I m2 → Keeps I (if b then m1 else m2).
Proof. by destruct b. Qed.
#[export] Instance keeps_foldl {A B} (f : B → A → ST memTx error B) b l :
  (∀ b x, Keeps I (f b x)) → Keeps I (ST_foldl f b l).
Proof. intros Hf. revert b. induction l as [|x l IH]; intros b; simpl; apply _. Qed.
End keeps.

Lemma drop_last_snoc {A} (l : list A) x : drop_last (l ++ [x]) = l.
Proof. unfold drop_last. rewrite length_app. simpl. by rewrite Nat.add_sub, take_app_length. Qed.
#[local] Hint Rewrite @drop_last_snoc : infra_rw.

(** Undoing [n++] on an [int64]. *)
Lemma undo_incr n : int64 n → wrap64 (int_incr n - 1) = n.
Proof.
  unfold int64. intros Hn. destruct (decide (n = int_max)) as [->|Hne]; [done|].
  rewrite int_incr_small by lia. replace (n + 1 - 1)%Z with n by lia. by apply wrap64_small.
Qed.

Lemma log_step_undoable s0 t s' u :
  undoable s0 t → int64 (ms_nextOutbox s') → run_undo u s' = tx_s t → undoable s0 (log_step s' u t).
Proof.
  intros [_ Hr] Hi Hu. split; [done|]. unfold rollback, log_step. simpl. rewrite reverse_snoc. simpl. by rewrite Hu.
Qed.

(** Close the goal that undoing one step gives back the store it started from. *)
Ltac undo_step :=
  simpl; autorewrite with infra_rw;
  rewrite ?insert_insert_eq, ?delete_insert_id, ?insert_id by done;
  repeat match goal with |- context [tx_s ?t] => is_var t; destruct t as [[] ?]; simpl in * end; done.

#[export] Instance undoable_InsertObservation s0 o : Keeps (undoable s0) (mem_InsertObservation o).
Proof.
  intros t Ht. unfold mem_InsertObservation. case_match eqn:Hl; [done|].
  apply log_step_undoable; [done|apply Ht|]. undo_step.
Qed.

#[export] Instance undoable_TouchDevice s0 id at_ : Keeps (undoable s0) (mem_TouchDevice id at_).
Proof.
  intros t Ht. unfold mem_TouchDevice. case_match eqn:Hl; [|done]. case_match; [done|].
  apply log_step_undoable; [done|apply Ht|]. undo_step.
Qed.

#[export] Instance undoable_Samples s0 d m l f t : Keeps (undoable s0) (mem_Samples d m l f t).
Proof. by intros tx ?. Qed.

#[export] Instance undoable_GetState s0 k : Keeps (undoable s0) (mem_GetState k).
Proof. by intros t ?. Qed.

#[export] Instance undoable_PutState s0 r : Keeps (undoable s0) (mem_PutState r).
Proof.
  intros t Ht. unfold mem_PutState. apply log_step_undoable; [done|apply Ht|].
  simpl. destruct (ms_states (tx_s t) !! sr_Key r) eqn:Hl; undo_step.
Qed.

#[export] Instance undoable_InsertTransition s0 tr : Keeps (undoable s0) (mem_InsertTransition tr).
Proof.
  intros t Ht. unfold mem_InsertTransition. case_match eqn:Hl; [done|].
  apply log_step_undoable; [done|apply Ht|]. undo_step.
Qed.

#[export] Instance undoable_InsertEvent s0 e : Keeps (undoable s0) (mem_InsertEvent e).
Proof.
  intros t Ht. unfold mem_InsertEvent. case_match eqn:Hl; [done|].
  apply log_step_undoable; [done|apply Ht|]. undo_step.
Qed.

#[export] Instance undoable_OpenAlert s0 e : Keeps (undoable s0) (mem_OpenAlert e).
Proof.
  intros t Ht. unfold mem_OpenAlert. case_match; [done|]. apply log_step_undoable; [done|apply Ht|]. undo_step.
Qed.

#[export] Instance undoable_ResolveAlert s0 e : Keeps (undoable s0) (mem_ResolveAlert e).
Proof.
  intros t Ht. unfold mem_ResolveAlert. destruct (list_find _ _) as [[i a]|] eqn:Hf; [|done].
  apply list_find_Some in Hf as (Hi & _ & _). apply log_step_undoable; [done|apply Ht|].
  simpl. rewrite list_insert_insert_eq, list_insert_id by done. undo_step.
Qed.

#[export] Instance undoable_Enqueue s0 m : Keeps (undoable s0) (mem_Enqueue m).
Proof.
  intros t Ht. unfold mem_Enqueue. apply log_step_undoable; [done|simpl; apply wrap64_range|].
  simpl. rewrite undo_incr by apply Ht. undo_step.
Qed.

(** A body that returns an error is undone completely. *)
Lemma mem_Do_error {A} ctx (fn : ST memTx error A) s e s' :
  (∀ s0, Keeps (undoable s0) fn) → int64 (ms_nextOutbox s) → mem_Do ctx fn s = (Err e, s') → is_panic e = false →
  s' = s <| ms_failNext := None |>.
Proof.
  intros Hfn Hs. unfold mem_Do. destruct (ms_failNext s) eqn:Hfail; [intros; by simplify_eq|].
  assert (s <| ms_failNext := None |> = s) as -> by (destruct s; simpl in *; by subst).
  destruct ctx; [intros; by simplify_eq|].
  destruct (Hfn s (MkMemTx s [])) as [_ Hr]; [done|].
  destruct (fn _) as [[a|e'] t]; [done|]. intros ? Hp; simplify_eq. rewrite Hp. done.
Qed.

(** ** The contract *)

Definition mem_view (s : MemStore) : AStore :=
  MkAStore (ms_devices s) (ms_observation s) (ms_states s) (ms_transitions s) (ms_events s) (ms_alerts s)
    ((λ r, (ob_Subject (ox_msg r), ob_MsgID (ox_msg r))) <$> ms_outbox s).

(** An operation given by cases implements its abstract counterpart when each case does. *)
Ltac implement := intros t; unfold wp; simpl.

Lemma resolve_first_find e alerts :
  resolve_first e alerts =
  match list_find (λ a, al_AlertKey a = ev_AlertKey e ∧ al_Status a = AlertFiring) alerts with
  | Some (i, a) => <[i := resolved_by e a]> alerts
  | None => alerts
  end.
Proof.
  induction alerts as [|a l IH]; simpl; [done|]. unfold is_firing in *.
  destruct (decide (al_AlertKey a = ev_AlertKey e ∧ al_Status a = AlertFiring)) as [[Hk Hs]|Hn].
  - by rewrite !bool_decide_eq_true_2.
  - rewrite <-bool_decide_and, bool_decide_eq_false_2 by done. rewrite IH.
    destruct (list_find _ l) as [[i b]|]; done.
Qed.

Lemma firing_find e alerts :
  firing (ev_AlertKey e) alerts = false ↔
  list_find (λ a, al_AlertKey a = ev_AlertKey e ∧ al_Status a = AlertFiring) alerts = None.
Proof.
  rewrite list_find_None, Forall_forall, <-not_true_iff_false. unfold firing, is_firing.
  rewrite existsb_exists. setoid_rewrite andb_true_iff. setoid_rewrite bool_decide_eq_true.
  setoid_rewrite <-list_elem_of_In. naive_solver.
Qed.

Lemma mem_InsertObservation_spec o : implements (mem_view ∘ tx_s) (mem_InsertObservation o) (A_InsertObservation o).
Proof.
  implement. unfold mem_InsertObservation, A_InsertObservation. simpl.
  destruct (ms_observation _ !! _); simpl; by rewrite ?Observation_Clone_id.
Qed.
Lemma mem_TouchDevice_spec id at_ : implements (mem_view ∘ tx_s) (mem_TouchDevice id at_) (A_TouchDevice id at_).
Proof.
  implement. unfold mem_TouchDevice, A_TouchDevice. simpl. destruct (ms_devices _ !! _); [|done]. by destruct (After _ _).
Qed.
Lemma mem_InsertTransition_spec tr : implements (mem_view ∘ tx_s) (mem_InsertTransition tr) (A_InsertTransition tr).
Proof. implement. unfold mem_InsertTransition, A_InsertTransition. simpl. by destruct (ms_transitions _ !! _). Qed.
Lemma mem_InsertEvent_spec e : implements (mem_view ∘ tx_s) (mem_InsertEvent e) (A_InsertEvent e).
Proof. implement. unfold mem_InsertEvent, A_InsertEvent. simpl. by destruct (ms_events _ !! _). Qed.
Lemma mem_OpenAlert_spec e : implements (mem_view ∘ tx_s) (mem_OpenAlert e) (A_OpenAlert e).
Proof.
  implement. unfold mem_OpenAlert, A_OpenAlert. simpl. unfold firing, is_firing. by destruct (existsb _ _).
Qed.
Lemma mem_ResolveAlert_spec e : implements (mem_view ∘ tx_s) (mem_ResolveAlert e) (A_ResolveAlert e).
Proof.
  implement. unfold mem_ResolveAlert, A_ResolveAlert. simpl. rewrite resolve_first_find.
  pose proof (firing_find e (ms_alerts (tx_s t))) as Hf.
  destruct (list_find _ _) as [[i a]|], (firing _ _); simpl; try done; naive_solver.
Qed.
Lemma mem_Enqueue_spec m : implements (mem_view ∘ tx_s) (mem_Enqueue m) (A_Enqueue m).
Proof. implement. unfold A_Enqueue, mem_view. simpl. by rewrite fmap_app. Qed.

Lemma sample_of_window dev metric lk from to o smp :
  sample_of dev metric lk from to o = Some smp → (from < sm_At smp ≤ to)%Z.
Proof.
  unfold sample_of, After. repeat case_match; intros ?; simplify_eq. simpl. bool_to_prop.
  destruct (Z.ltb_spec from (o_ObservedAt o)); [lia|done].
Qed.

Lemma mem_Samples_spec dev metric lk from to (t : memTx) :
  wp (mem_Samples dev metric lk from to)
    (λ l t', mem_view (tx_s t') = mem_view (tx_s t) ∧ Forall (λ s, (from < sm_At s ≤ to)%Z) l ∧
             Sorted (λ a b, (sm_At a ≤ sm_At b)%Z) l) t.
Proof.
  unfold wp. simpl. split_and!; [done| |].
  - apply Forall_forall. intros smp (o & _ & Ho)%elem_of_sort_stable%list_elem_of_omap. by eapply sample_of_window.
  - apply sort_stable_sorted; unfold Before; intros x y; [intros Hlt%Z.ltb_lt; apply Z.ltb_ge; lia|intros ?%Z.ltb_ge; lia].
Qed.

#[export] Instance memTx_spec : TxSpec memTx := {|
  view := mem_view ∘ tx_s;
  InsertObservation_spec := mem_InsertObservation_spec;
  TouchDevice_spec := mem_TouchDevice_spec;
  Samples_spec := mem_Samples_spec;
  GetState_spec key t := eq_refl;
  PutState_spec r t := eq_refl;
  InsertTransition_spec := mem_InsertTransition_spec;
  InsertEvent_spec := mem_InsertEvent_spec;
  OpenAlert_spec := mem_OpenAlert_spec;
  ResolveAlert_spec := mem_ResolveAlert_spec;
  Enqueue_spec := mem_Enqueue_spec;
|}.

Lemma mem_Do_success {A} (body : ST memTx error A) s a s' :
  Do body s = (Ok a, s') →
  ∃ t t', view t = mem_view s ∧ body t = (Ok a, t') ∧ mem_view s' = view t'.
Proof.
  simpl. unfold mem_Do. destruct (ms_failNext s); [done|]. destruct (body _) as [[b|e] t'] eqn:Hrun; [|done].
  intros ?; simplify_eq. exists (MkMemTx s []), t'. done.
Qed.

#[export] Instance MemStore_spec : StoreSpec MemStore memTx := {|
  store_view := mem_view;
  Do_ok A := mem_Do_success (A:=A);
|}.

(** ** The store's own invariant *)

Record store_ok (s : MemStore) : Prop := {
  ok_observations : order_ok (ms_observation s) (ms_obsOrder s);
  ok_transitions : order_ok (ms_transitions s) (ms_trOrder s);
  ok_events : order_ok (ms_events s) (ms_evOrder s);
  ok_requests : order_ok (ms_autoReq s) (ms_autoOrder s);
  ok_keyed : map_Forall (λ k r, sr_Key r = k) (ms_states s);
  ok_event_ids : map_Forall (λ k e, ev_EventID e = k) (ms_events s);
  ok_observation_ids : map_Forall (λ k o, o_ObservationID o = k) (ms_observation s);
  ok_alerts : at_most_one_firing (ms_alerts s);
  ok_counter : int64 (ms_nextOutbox s);
}.

Abbreviation keeps_ok := (Keeps (λ t, store_ok (tx_s t))).

Lemma NewMemStore_ok : store_ok NewMemStore.
Proof.
  assert (∀ V, order_ok (∅ : gmap string V) []) as Hempty.
  { intros V. split; [constructor|]. intros id. rewrite lookup_empty. split; [by intros ?%elem_of_nil|by intros [? ?]]. }
  constructor; simpl; try apply Hempty; try apply map_Forall_empty; [|by unfold int64, int_min, int_max]. done.
Qed.

#[export] Instance ok_InsertObservation o : keeps_ok (mem_InsertObservation o).
Proof.
  intros t []. unfold mem_InsertObservation. case_match eqn:Hl; [done|]. simpl.
  constructor; simpl; try done; [by apply order_ok_insert|].
  apply map_Forall_insert_2; [by rewrite Observation_Clone_id|done].
Qed.
#[export] Instance ok_TouchDevice id at_ : keeps_ok (mem_TouchDevice id at_).
Proof. intros t []. unfold mem_TouchDevice. repeat case_match; simpl; by constructor. Qed.
#[export] Instance ok_Samples d m l f u : keeps_ok (mem_Samples d m l f u).
Proof. by intros t ?. Qed.
#[export] Instance ok_GetState k : keeps_ok (mem_GetState k).
Proof. by intros t ?. Qed.
#[export] Instance ok_PutState r : keeps_ok (mem_PutState r).
Proof. intros t []. constructor; simpl; try done. by apply map_Forall_insert_2. Qed.
#[export] Instance ok_InsertTransition tr : keeps_ok (mem_InsertTransition tr).
Proof.
  intros t []. unfold mem_InsertTransition. case_match eqn:Hl; [done|]. simpl. constructor; simpl; try done. by apply order_ok_insert.
Qed.
#[export] Instance ok_InsertEvent e : keeps_ok (mem_InsertEvent e).
Proof.
  intros t []. unfold mem_InsertEvent. case_match eqn:Hl; [done|]. simpl.
  constructor; simpl; try done; [by apply order_ok_insert|by apply map_Forall_insert_2].
Qed.
#[export] Instance ok_OpenAlert e : keeps_ok (mem_OpenAlert e).
Proof.
  intros t []. unfold mem_OpenAlert. case_match eqn:Hf; [done|]. simpl.
  constructor; simpl; try done. by apply open_at_most_one.
Qed.
#[export] Instance ok_ResolveAlert e : keeps_ok (mem_ResolveAlert e).
Proof.
  intros t []. unfold mem_ResolveAlert. pose proof (resolve_first_find e (ms_alerts (tx_s t))) as Hr.
  destruct (list_find _ _) as [[i a]|] eqn:Hf; [|by constructor].
  constructor; simpl; try done.
  change (at_most_one_firing (<[i := resolved_by e a]> (ms_alerts (tx_s t)))). rewrite <-Hr. by apply resolve_at_most_one.
Qed.
#[export] Instance ok_Enqueue m : keeps_ok (mem_Enqueue m).
Proof. intros t []. constructor; simpl; try done. apply wrap64_range. Qed.

(** An invariant every operation of the interface keeps, so that every body composed of them does. *)
Class KeepsOps (I : memTx → Prop) : Prop := {
  #[global] keeps_InsertObservation o :: Keeps I (InsertObservation o);
  #[global] keeps_TouchDevice id at_ :: Keeps I (TouchDevice id at_);
  #[global] keeps_Samples d m l f t :: Keeps I (Samples d m l f t);
  #[global] keeps_GetState k :: Keeps I (GetState k);
  #[global] keeps_PutState r :: Keeps I (PutState r);
  #[global] keeps_InsertTransition tr :: Keeps I (InsertTransition tr);
  #[global] keeps_InsertEvent e :: Keeps I (InsertEvent e);
  #[global] keeps_OpenAlert e :: Keeps I (OpenAlert e);
  #[global] keeps_ResolveAlert e :: Keeps I (ResolveAlert e);
  #[global] keeps_Enqueue m :: Keeps I (Enqueue m);
}.
#[export] Instance undoable_ops s0 : KeepsOps (undoable s0).
Proof. constructor; simpl; apply _. Qed.
#[export] Instance ok_ops : KeepsOps (λ t, store_ok (tx_s t)).
Proof. constructor; simpl; apply _. Qed.

(** Rolling back keeps the invariant of the store the transaction began with; a panic keeps what
    the operations kept. *)
Lemma mem_Do_ok {A} ctx (fn : ST memTx error A) s :
  (∀ s0, Keeps (undoable s0) fn) → keeps_ok fn → store_ok s → store_ok (mem_Do ctx fn s).2.
Proof.
  intros Hundo Hok Hs. assert (store_ok (s <| ms_failNext := None |>)) as Hs' by (destruct Hs; by constructor).
  destruct (mem_Do ctx fn s) as [[a|e] s'] eqn:Hrun; simpl.
  - revert Hrun. unfold mem_Do. destruct (ms_failNext s); [done|]. destruct ctx; [done|].
    specialize (Hok (MkMemTx s []) Hs). destruct (fn _) as [[b|e] t]; intros ?; by simplify_eq.
  - destruct (is_panic e) eqn:Hp; [|by rewrite (mem_Do_error ctx fn s e s' Hundo (ok_counter _ Hs) Hrun Hp)].
    revert Hrun. unfold mem_Do. destruct (ms_failNext s); [by intros; simplify_eq|].
    destruct ctx; [by intros; simplify_eq|]. specialize (Hok (MkMemTx s []) Hs).
    destruct (fn _) as [[b|e'] t]; intros ?; simplify_eq. by rewrite Hp.
Qed.

(** ** The outbox *)

(** The messages still to be published, in queue order. *)
Definition pending (rows : list outboxRow) : list OutboxMessage := ox_msg <$> filter (λ r, ox_published r = false) rows.

(** The first [n] unpublished rows, marked. *)
Fixpoint mark_first (n : nat) (rows : list outboxRow) : list outboxRow :=
  match rows with
  | [] => []
  | r :: rows =>
      if ox_published r then r :: mark_first n rows
      else match n with O => r :: rows | S n => (r <| ox_published := true |>) :: mark_first n rows end
  end.

Lemma pending_cons r rows : pending (r :: rows) = if ox_published r then pending rows else ox_msg r :: pending rows.
Proof. unfold pending. rewrite filter_cons. by destruct (ox_published r). Qed.

Lemma pending_mark_first n rows : pending (mark_first n rows) = drop n (pending rows).
Proof.
  revert n. induction rows as [|r rows IH]; intros n; simpl; [by destruct n|].
  rewrite pending_cons. destruct (ox_published r) eqn:Hp; [by rewrite pending_cons, Hp, IH|].
  destruct n as [|n]; [by rewrite pending_cons, Hp|]. rewrite pending_cons. simpl. by rewrite IH.
Qed.

Lemma claim_batch_messages limit rows count i :
  (0 ≤ count < limit)%Z → (claim_batch limit count i rows).*2 = take (Z.to_nat (limit - count)) (pending rows).
Proof.
  revert count i. induction rows as [|r rows IH]; intros count i Hc; simpl; [by destruct (Z.to_nat _)|].
  rewrite pending_cons. destruct (ox_published r); [by apply IH|].
  replace (Z.to_nat (limit - count)) with (S (Z.to_nat (limit - (count + 1)))) by lia. simpl. f_equal.
  destruct (Z.eqb_spec (count + 1) limit) as [Heq|Hne]; [|apply IH; lia].
  by rewrite Heq, Z.sub_diag.
Qed.

Lemma claim_batch_shift limit rows count i :
  (claim_batch limit count (S i) rows).*1 = S <$> (claim_batch limit count i rows).*1.
Proof.
  revert count i. induction rows as [|r rows IH]; intros count i; simpl; [done|].
  destruct (ox_published r); [apply IH|]. simpl. f_equal. case_match; [done|apply IH].
Qed.

Lemma mark_published_shift idx r rows : mark_published (S <$> idx) (r :: rows) = r :: mark_published idx rows.
Proof. revert rows. induction idx as [|i idx IH]; intros rows; [done|]. simpl. apply IH. Qed.

Lemma mark_published_head idx r rows :
  mark_published (0 :: idx) (r :: rows) = mark_published idx ((r <| ox_published := true |>) :: rows).
Proof. done. Qed.

Lemma claim_batch_marks limit rows count :
  (0 ≤ count < limit)%Z →
  mark_published (claim_batch limit count 0 rows).*1 rows = mark_first (Z.to_nat (limit - count)) rows.
Proof.
  revert count. induction rows as [|r rows IH]; intros count Hc; [done|]. cbn [claim_batch mark_first].
  destruct (ox_published r) eqn:Hp; [by rewrite claim_batch_shift, mark_published_shift, IH|].
  replace (Z.to_nat (limit - count)) with (S (Z.to_nat (limit - (count + 1)))) by lia. rewrite fmap_cons.
  cbn [fst]. destruct (Z.eqb_spec (count + 1) limit) as [Heq|Hne].
  - rewrite Heq, Z.sub_diag. simpl. f_equal. clear. induction rows as [|r rows IH]; [done|]. simpl. case_match; congruence.
  - rewrite claim_batch_shift, mark_published_head, mark_published_shift, IH by lia. done.
Qed.

(** One drain: the batch is the first [limit] pending messages; when the publisher takes it, it
    leaves the queue and nothing else changes, otherwise nothing does. *)
Lemma DrainOutbox_batch {P} limit publish (p : P) s :
  (0 < limit)%Z →
  let batch := take (Z.to_nat limit) (pending (ms_outbox s)) in
  mem_DrainOutbox limit publish p s =
  match batch with
  | [] => (0%Z, None, p, s)
  | _ => match publish batch p with
         | (Some err, p) => (0%Z, Some err, p, s)
         | (None, p) => (Z.of_nat (length batch), None, p, s <| ms_outbox := mark_first (Z.to_nat limit) (ms_outbox s) |>)
         end
  end.
Proof.
  intros Hl batch. unfold mem_DrainOutbox.
  pose proof (claim_batch_messages limit (ms_outbox s) 0 0 ltac:(lia)) as Hm.
  pose proof (claim_batch_marks limit (ms_outbox s) 0 ltac:(lia)) as Hk.
  rewrite Z.sub_0_r in Hm, Hk. fold batch in Hm. rewrite <-Hm.
  destruct (claim_batch limit 0 0 (ms_outbox s)) as [|[i m] claimed]; [done|].
  rewrite Hk. rewrite !fmap_cons. cbn [length]. rewrite !length_fmap. done.
Qed.

(** ** Theorems *)

Definition ex_observation : Observation :=
  MkObservation "o1" "c" "sw1" "snmp" "system.reachable" (VBool true) None Second 0 None.
(** A body that writes and then fails. *)
Definition ex_failing_body : ST memTx error unit :=
  _ ← InsertObservation ex_observation;
  _ ← PutState (StateRecord0 <| sr_Key := "k" |>);
  _ ← Enqueue (MkOutboxMessage 0 "events.device" "e1" "" None);
  ST_fail (Errorf CategoryDependency "lost connection").



(** [m] succeeds from every state, with the result and the effect of [f]. *)
Definition realises {A} (m : ST memTx error A) (f : AStore → A * AStore) : Prop :=
  ∀ t, ∃ t', m t = (Ok (f (view t)).1, t') ∧ view t' = (f (view t)).2.

Lemma implements_realises {A} (m : ST memTx error A) f :
  (∀ t, ∃ a t', m t = (Ok a, t')) → implements view m f → realises m f.
Proof.
  intros Htot Himp t. destruct (Htot t) as (a & t' & Hrun). specialize (Himp t). unfold wp in Himp. rewrite Hrun in Himp.
  exists t'. by rewrite <-Himp.
Qed.

(** Find the specification of an operation in the contract and its success by cases. *)
Ltac realise spec := intros; apply implements_realises; [intros ?|apply spec];
  unfold mem_InsertObservation, mem_TouchDevice, mem_GetState, mem_PutState, mem_InsertTransition, mem_InsertEvent,
    mem_OpenAlert, mem_ResolveAlert, mem_Enqueue; repeat case_match; eauto.

(** The in-memory store implements the storage contract: every transaction operation
    succeeds, and its result and effect are those of the abstract store of the contract. *)
Theorem memory_store_implements_contract :
  (∀ o, realises (mem_InsertObservation o) (A_InsertObservation o)) ∧
  (∀ id at_, realises (mem_TouchDevice id at_) (A_TouchDevice id at_)) ∧
  (∀ key, realises (mem_GetState key) (A_GetState key)) ∧
  (∀ r, realises (mem_PutState r) (A_PutState r)) ∧
  (∀ tr, realises (mem_InsertTransition tr) (A_InsertTransition tr)) ∧
  (∀ e, realises (mem_InsertEvent e) (A_InsertEvent e)) ∧
  (∀ e, realises (mem_OpenAlert e) (A_OpenAlert e)) ∧
  (∀ e, realises (mem_ResolveAlert e) (A_ResolveAlert e)) ∧
  (∀ m, realises (mem_Enqueue m) (A_Enqueue m)).
Proof.
  split_and!; [realise mem_InsertObservation_spec|realise mem_TouchDevice_spec|realise (@GetState_spec memTx)|
    realise (@PutState_spec memTx)|realise mem_InsertTransition_spec|realise mem_InsertEvent_spec|
    realise mem_OpenAlert_spec|realise mem_ResolveAlert_spec|realise mem_Enqueue_spec].
Qed.

(** The store's invariant is kept by every transaction, whether it commits, fails or even
    panics: order lists name exactly the stored rows once each, rows sit under their own ids,
    and at most one alert fires per key. *)
Theorem transactions_keep_store_invariant {A} ctx_err (fn : ST memTx error A) s :
  (∀ s0, Keeps (undoable s0) fn) → keeps_ok fn → store_ok s → store_ok (mem_Do ctx_err fn s).2.
Proof. apply mem_Do_ok. Qed.

Lemma transactions_keep_store_invariant_witness : store_ok (mem_Do None ex_failing_body NewMemStore).2.
Proof.
  apply (transactions_keep_store_invariant None ex_failing_body NewMemStore);
    [intros s0; unfold ex_failing_body; simpl; apply _|unfold ex_failing_body; simpl; apply _|apply NewMemStore_ok].
Defined.
