(* ===== verification/AutoStore.v ===== *)
(** * The in-memory store: automation requests and the read side
    (src/internal/persistence/memory.go, automation.go, reader.go)

    [AutoOps] is the interface [AutomationStore] the automation engine works against; the
    methods of [MemStore] that implement it follow, then the listings of the API with their
    keyset pagination. *)

From S2P Require Import Prelude GoLib GoFloat Domain Store Inventory MemStore.

(** ** The interface *)

Class AutoOps (S : Type) := {
  InsertAutomationRequest : AutomationRequest → list OutboxMessage → ST S error bool;
  DueAutomation : Time → Duration → Z → ST S error (list AutomationRequest);
  ClaimAutomation : string → Time → Duration → ST S error bool;
  SetAutomationStatus : string → list AutomationStatus → AutomationStatus → ST S error bool;
  ApproveAutomation : string → string → ST S error bool;
  CompleteAutomation : AutomationResult → list OutboxMessage → ST S error bool;
  AwaitingApprovalBefore : Time → ST S error (list AutomationRequest);
  AutomationHistory : string → string → string → Time → ST S error (list AutomationRequest);
  AttemptsForAlert : string → string → ST S error Z;
  AlertFiring_ : string → ST S error bool;
  GetAutomation : string → ST S error (option AutomationRequest * option AutomationResult);
}.

(** ** Requests and results *)

Definition enqueue_one (s : MemStore) (m : OutboxMessage) : MemStore :=
  let next := int_incr (ms_nextOutbox s) in
  s <| ms_nextOutbox := next |> <| ms_outbox := ms_outbox s ++ [MkOutboxRow (m <| ob_ID := next |>) false] |>.
Definition enqueueLocked (msgs : list OutboxMessage) (s : MemStore) : MemStore := foldl enqueue_one s msgs.

Definition mem_InsertAutomationRequest (req : AutomationRequest) (outbox : list OutboxMessage) : ST MemStore error bool := λ s,
  match ms_autoReq s !! rq_RequestID req with
  | Some _ => (Ok false, s)
  | None =>
      (Ok true, enqueueLocked outbox
         (s <| ms_autoReq := <[rq_RequestID req := req]> (ms_autoReq s) |>
            <| ms_autoOrder := ms_autoOrder s ++ [rq_RequestID req] |>))
  end.

(** The requests in insertion order. *)
Definition requests_in_order (s : MemStore) : list AutomationRequest := omap (λ id, ms_autoReq s !! id) (ms_autoOrder s).

(** The claim time of a request; the zero time when it was never claimed. *)
Definition claim_time (s : MemStore) (id : string) : Time := default time_zero (ms_autoClaim s !! id).
Definition claim_expired (s : MemStore) (id : string) (now : Time) (lease : Duration) : bool :=
  Before (time_Add (claim_time s id) lease) now.

Definition is_due (s : MemStore) (now : Time) (lease : Duration) (r : AutomationRequest) : bool :=
  match rq_Status r with
  | AutomationPending => negb (After (rq_NotBefore r) now)
  | AutomationApproved => true
  | AutomationExecuting => claim_expired s (rq_RequestID r) now lease
  | _ => false
  end.

(** Stop once [limit] elements are collected; a limit that is not positive is never reached. *)
Definition take_limit {A} (limit : Z) (l : list A) : list A := if (0 <? limit)%Z then take (Z.to_nat limit) l else l.

Definition mem_DueAutomation (now : Time) (lease : Duration) (limit : Z) : ST MemStore error (list AutomationRequest) := λ s,
  (Ok (take_limit limit (filter (λ r, is_due s now lease r = true) (requests_in_order s))), s).

Definition set_request (id : string) (r : AutomationRequest) (s : MemStore) : MemStore :=
  s <| ms_autoReq := <[id := r]> (ms_autoReq s) |>.

Definition claimable (s : MemStore) (id : string) (r : AutomationRequest) (now : Time) (lease : Duration) : bool :=
  bool_decide (rq_Status r = AutomationPending) || bool_decide (rq_Status r = AutomationApproved)
  || (bool_decide (rq_Status r = AutomationExecuting) && claim_expired s id now lease).

Definition mem_ClaimAutomation (id : string) (now : Time) (lease : Duration) : ST MemStore error bool := λ s,
  match ms_autoReq s !! id with
  | None => (Ok false, s)
  | Some r =>
      if negb (claimable s id r now lease) then (Ok false, s)
      else (Ok true, (set_request id (r <| rq_Status := AutomationExecuting |>) s) <| ms_autoClaim := <[id := now]> (ms_autoClaim s) |>)
  end.

Definition mem_SetAutomationStatus (id : string) (from : list AutomationStatus) (to : AutomationStatus) : ST MemStore error bool := λ s,
  match ms_autoReq s !! id with
  | None => (Ok false, s)
  | Some r =>
      if existsb (λ f, bool_decide (rq_Status r = f)) from then (Ok true, set_request id (r <| rq_Status := to |>) s)
      else (Ok false, s)
  end.

Definition mem_ApproveAutomation (id by_ : string) : ST MemStore error bool := λ s,
  match ms_autoReq s !! id with
  | None => (Ok false, s)
  | Some r =>
      if bool_decide (rq_Status r ≠ AutomationAwaitingApproval) then (Ok false, s)
      else (Ok true, set_request id (r <| rq_Status := AutomationApproved |> <| rq_ApprovedBy := by_ |>) s)
  end.

Definition mem_CompleteAutomation (res : AutomationResult) (outbox : list OutboxMessage) : ST MemStore error bool := λ s,
  match ms_autoReq s !! rs_RequestID res with
  | None => (Err (Errorf CategoryPermanent ("unknown automation request " +:+ rs_RequestID res)), s)
  | Some r =>
      match ms_autoRes s !! rs_RequestID res with
      | Some _ => (Ok false, s)
      | None =>
          (Ok true, enqueueLocked outbox
             (set_request (rs_RequestID res) (r <| rq_Status := rs_Status res |>)
                (s <| ms_autoRes := <[rs_RequestID res := res]> (ms_autoRes s) |>)))
      end
  end.

Definition mem_AwaitingApprovalBefore (cutoff : Time) : ST MemStore error (list AutomationRequest) := λ s,
  (Ok (filter (λ r, rq_Status r = AutomationAwaitingApproval ∧ Before (rq_CreatedAt r) cutoff = true) (requests_in_order s)), s).

Definition executed (st : AutomationStatus) : bool :=
  match st with AutomationSucceeded | AutomationFailed | AutomationDryRun => true | _ => false end.

Definition in_history (s : MemStore) (policyID deviceID target : string) (since : Time) (r : AutomationRequest) : bool :=
  bool_decide (rq_PolicyID r = policyID) && bool_decide (rq_DeviceID r = deviceID) && bool_decide (rq_Target r = target)
  && executed (rq_Status r)
  && match ms_autoRes s !! rq_RequestID r with Some res => negb (Before (rs_FinishedAt res) since) | None => false end.

Definition mem_AutomationHistory (policyID deviceID target : string) (since : Time) : ST MemStore error (list AutomationRequest) := λ s,
  (Ok (filter (λ r, in_history s policyID deviceID target since r = true) (requests_in_order s)), s).

Definition mem_AttemptsForAlert (policyID alertKey : string) : ST MemStore error Z := λ s,
  (Ok (Z.of_nat (length (filter (λ r, rq_PolicyID r = policyID ∧ rq_AlertKey r = alertKey ∧ executed (rq_Status r) = true)
                           (map_to_list (ms_autoReq s)).*2))), s).

Definition mem_AlertFiring (alertKey : string) : ST MemStore error bool := λ s,
  (Ok (existsb (λ a, bool_decide (al_AlertKey a = alertKey) && bool_decide (al_Status a = AlertFiring)) (ms_alerts s)), s).

Definition mem_GetAutomation (id : string) : ST MemStore error (option AutomationRequest * option AutomationResult) := λ s,
  match ms_autoReq s !! id with
  | None => (Ok (None, None), s)
  | Some r => (Ok (Some r, ms_autoRes s !! id), s)
  end.

Definition AutomationRequests (s : MemStore) : list AutomationRequest := requests_in_order s.

#[export] Instance MemStore_auto : AutoOps MemStore := {|
  InsertAutomationRequest := mem_InsertAutomationRequest;
  DueAutomation := mem_DueAutomation;
  ClaimAutomation := mem_ClaimAutomation;
  SetAutomationStatus := mem_SetAutomationStatus;
  ApproveAutomation := mem_ApproveAutomation;
  CompleteAutomation := mem_CompleteAutomation;
  AwaitingApprovalBefore := mem_AwaitingApprovalBefore;
  AutomationHistory := mem_AutomationHistory;
  AttemptsForAlert := mem_AttemptsForAlert;
  AlertFiring_ := mem_AlertFiring;
  GetAutomation := mem_GetAutomation;
|}.

(** ** Keyset pagination (reader.go) *)

Record Page := MkPage { pg_Limit : Z; pg_Cursor : string }.

Definition clampLimit (n : Z) : Z := if (n <=? 0)%Z then 50 else if (1000 <? n)%Z then 1000 else n.

(** The encodings a cursor goes through: JSON of its time and id, then URL-safe base64. *)
Class CursorCodec := {
  cursor_Marshal : Time * string → string;
  cursor_Unmarshal : string → option (Time * string);
  b64_Encode : string → string;
  b64_Decode : string → option string;
}.

Definition EncodeCursor `{CursorCodec} (t : Time) (id : string) : string := b64_Encode (cursor_Marshal (t, id)).

Definition DecodeCursor `{CursorCodec} (s : string) : res (Time * string) :=
  if bool_decide (s = "") then Ok (time_zero, "")
  else
    match b64_Decode s with
    | None => Err (Errorf CategoryValidation "invalid cursor")
    | Some b =>
        match cursor_Unmarshal b with
        | None => Err (Errorf CategoryValidation "invalid cursor")
        | Some (t, id) => if bool_decide (id = "") then Err (Errorf CategoryValidation "invalid cursor") else Ok (t, id)
        end
    end.

Definition severitiesFrom (min : Severity) : list string :=
  filter (λ s, (Rank min ≤ Rank s)%Z) [SeverityInfo; SeverityWarning; SeverityCritical].

(** Strictly after the cursor in a newest-first listing. *)
Definition beyond (c k : Time * string) : bool := Before k.1 c.1 || ((k.1 =? c.1)%Z && str_lt k.2 c.2).

Definition pageOf `{CursorCodec} {T} (items : list T) (key : T → Time * string) (p : Page) : res (list T * string) :=
  c ← DecodeCursor (pg_Cursor p);
  let limit := clampLimit (pg_Limit p) in
  let out := take (Z.to_nat (limit + 1))
               (filter (λ it, negb (bool_decide (pg_Cursor p ≠ "") && negb (beyond c (key it))) = true) items) in
  if (limit <? Z.of_nat (length out))%Z then
    let out := take (Z.to_nat limit) out in
    match last out with
    | Some it => Ok (out, EncodeCursor (key it).1 (key it).2)
    | None => Err (EPanic "index out of range [-1]")
    end
  else Ok (out, "").

(** Newest first, ties by descending id. *)
Definition newest_first {T} (key : T → Time * string) (a b : T) : bool :=
  if negb ((key a).1 =? (key b).1)%Z then After (key a).1 (key b).1 else str_lt (key b).2 (key a).2.

Record EventFilter := MkEventFilter {
  ef_DeviceID : string; ef_Type : string; ef_MinSeverity : Severity; ef_Since : Time; ef_Until : Time;
}.
Definition event_key (e : Event) : Time * string := (ev_OccurredAt e, ev_EventID e).
Definition event_matches (f : EventFilter) (e : Event) : bool :=
  negb ((bool_decide (ef_DeviceID f ≠ "") && bool_decide (ev_DeviceID e ≠ ef_DeviceID f))
        || (bool_decide (ef_Type f ≠ "") && bool_decide (ev_Type e ≠ ef_Type f))
        || (bool_decide (ef_MinSeverity f ≠ "") && (Rank (ev_Severity e) <? Rank (ef_MinSeverity f))%Z)
        || (negb (IsZero (ef_Since f)) && Before (ev_OccurredAt e) (ef_Since f))
        || (negb (IsZero (ef_Until f)) && negb (Before (ev_OccurredAt e) (ef_Until f)))).
Definition events_for (f : EventFilter) (s : MemStore) : list Event :=
  sort_stable (newest_first event_key) (filter (λ e, event_matches f e = true) (Events s)).
Definition ListEvents `{CursorCodec} (f : EventFilter) (p : Page) (s : MemStore) : res (list Event * string) :=
  pageOf (events_for f s) event_key p.

(** An empty status matches every alert. *)
Record AlertFilter := MkAlertFilter { af_Status : option AlertStatus; af_DeviceID : string }.
Definition alert_key (a : Alert) : Time * string := (al_OpenedAt a, al_OpenEventID a).
Definition alert_matches (f : AlertFilter) (a : Alert) : bool :=
  negb (match af_Status f with Some st => bool_decide (al_Status a ≠ st) | None => false end
        || (bool_decide (af_DeviceID f ≠ "") && bool_decide (al_DeviceID a ≠ af_DeviceID f))).
Definition ListAlerts `{CursorCodec} (f : AlertFilter) (p : Page) (s : MemStore) : res (list Alert * string) :=
  pageOf (sort_stable (newest_first alert_key) (filter (λ a, alert_matches f a = true) (ms_alerts s))) alert_key p.

Record AutomationFilter := MkAutomationFilter {
  uf_Status : option AutomationStatus; uf_DeviceID : string; uf_PolicyID : string;
}.
Record AutomationView := MkAutomationView { vw_Request : AutomationRequest; vw_Result : option AutomationResult }.
Definition view_key (v : AutomationView) : Time * string := (rq_CreatedAt (vw_Request v), rq_RequestID (vw_Request v)).
Definition request_matches (f : AutomationFilter) (r : AutomationRequest) : bool :=
  negb (match uf_Status f with Some st => bool_decide (rq_Status r ≠ st) | None => false end
        || (bool_decide (uf_DeviceID f ≠ "") && bool_decide (rq_DeviceID r ≠ uf_DeviceID f))
        || (bool_decide (uf_PolicyID f ≠ "") && bool_decide (rq_PolicyID r ≠ uf_PolicyID f))).
Definition ListAutomation `{CursorCodec} (f : AutomationFilter) (p : Page) (s : MemStore) : res (list AutomationView * string) :=
  pageOf
    (sort_stable (newest_first view_key)
       ((λ r, MkAutomationView r (ms_autoRes s !! rq_RequestID r)) <$>
          filter (λ r, request_matches f r = true) (requests_in_order s)))
    view_key p.

(** ** Metrics *)

Record MetricPoint := MkMetricPoint {
  pt_ObservationID : string; pt_Metric : string; pt_Value : value; pt_Labels : smap; pt_ObservedAt : Time;
}.
Definition point_of (o : Observation) : MetricPoint :=
  MkMetricPoint (o_ObservationID o) (o_Metric o) (o_Value o) (o_Labels o) (o_ObservedAt o).

Definition Metrics (deviceID metric : string) (since until : Time) (limit : Z) (s : MemStore) : list MetricPoint :=
  let all := sort_stable (λ a b, After (pt_ObservedAt a) (pt_ObservedAt b))
    (point_of <$> filter (λ o,
       (bool_decide (o_DeviceID o ≠ deviceID) || bool_decide (o_Metric o ≠ metric)
        || (negb (IsZero since) && Before (o_ObservedAt o) since)
        || (negb (IsZero until) && negb (Before (o_ObservedAt o) until))) = false) (observations_in_order s)) in
  take (Z.to_nat (clampLimit limit)) all.

Definition series_key (o : Observation) : string := o_Metric o +:+ "|" +:+ LabelsKey (o_Labels o).
Definition latest_points (deviceID : string) (s : MemStore) : gmap string MetricPoint :=
  foldl (λ best o,
    if bool_decide (o_DeviceID o ≠ deviceID) then best
    else match best !! series_key o with
         | Some cur => if After (o_ObservedAt o) (pt_ObservedAt cur) then <[series_key o := point_of o]> best else best
         | None => <[series_key o := point_of o]> best
         end) ∅ (observations_in_order s).
Definition by_series (a b : MetricPoint) : bool :=
  if bool_decide (pt_Metric a ≠ pt_Metric b) then str_lt (pt_Metric a) (pt_Metric b)
  else str_lt (LabelsKey (pt_Labels a)) (LabelsKey (pt_Labels b)).
Definition LatestMetrics (deviceID : string) (s : MemStore) : list MetricPoint :=
  sort_stable by_series (map_to_list (latest_points deviceID s)).*2.

Definition DeviceStates (deviceID : string) (s : MemStore) : list StateRecord :=
  sort_stable by_key (filter (λ r, sr_DeviceID r = deviceID) (map_to_list (ms_states s)).*2).
