(* ===== verification/AutoStoreFacts.v ===== *)
(** * Automation requests and pagination: facts and theorems *)

From S2P Require Import Prelude GoLib GoFloat Domain Store Inventory MemStore MemStoreFacts AutoStore.

(** ** Strict string order *)

Lemma str_lt_trans s t u : str_lt s t = true → str_lt t u = true → str_lt s u = true.
Proof.
  unfold str_lt. rewrite !andb_true_iff, !negb_true_iff, !bool_decide_eq_true, !bool_decide_eq_false.
  intros [H1 Hne1] [H2 Hne2]. split; [by etrans|]. intros ->. apply Hne1. by apply (anti_symm String.le).
Qed.
Lemma str_lt_irrefl s : str_lt s s = false.
Proof. unfold str_lt. rewrite (bool_decide_eq_true_2 (s = s)) by done. apply andb_false_r. Qed.
Lemma str_lt_asym s t : str_lt s t = true → str_lt t s = false.
Proof. intros H. apply not_true_is_false. intros H'. pose proof (str_lt_trans _ _ _ H H') as Hi. by rewrite str_lt_irrefl in Hi. Qed.
Lemma str_lt_total s t : str_lt s t = false → str_lt t s = false → s = t.
Proof.
  unfold str_lt. rewrite !andb_false_iff, !negb_false_iff, !bool_decide_eq_true, !bool_decide_eq_false.
  destruct (total String.le s t); naive_solver.
Qed.

(** The order of a listing: [later c k] when [k] comes strictly after [c]. *)
Lemma beyond_trans a b c : beyond a b = true → beyond b c = true → beyond a c = true.
Proof.
  unfold beyond, Before. rewrite !orb_true_iff, !andb_true_iff, !Z.ltb_lt, !Z.eqb_eq.
  intros [?|[? ?]] [?|[? ?]]; [left; lia..|right; split; [lia|by eapply str_lt_trans]].
Qed.
Lemma beyond_irrefl a : beyond a a = false.
Proof. unfold beyond, Before. by rewrite Z.ltb_irrefl, Z.eqb_refl, str_lt_irrefl. Qed.

Section paging.
Context {T : Type} (key : T → Time * string).

(** A listing strictly ordered newest first. *)
Definition ordered : list T → Prop := StronglySorted (λ a b, beyond (key a) (key b) = true).

Lemma newest_first_asym x y : newest_first key x y = true → newest_first key y x = false.
Proof.
  unfold newest_first, After. destruct (Z.eqb_spec (key x).1 (key y).1) as [Heq|Hne]; simpl.
  - rewrite Heq, Z.eqb_refl. simpl. apply str_lt_asym.
  - rewrite (proj2 (Z.eqb_neq (key y).1 (key x).1)) by lia. simpl. intros ?%Z.ltb_lt. apply Z.ltb_ge. lia.
Qed.

Lemma newest_first_beyond x y : newest_first key y x = false → key x = key y ∨ beyond (key x) (key y) = true.
Proof.
  destruct (decide (key x = key y)) as [|Hne]; [by left|]. intros Hn. right. revert Hn.
  unfold newest_first, beyond, After, Before. destruct (Z.eqb_spec (key y).1 (key x).1) as [Heq|Hneq]; simpl.
  - intros Hlt. rewrite Heq, Z.ltb_irrefl. simpl. apply not_false_is_true. intros Hlt'.
    apply Hne, injective_projections; [done|]. by rewrite (str_lt_total _ _ Hlt Hlt').
  - intros ?%Z.ltb_ge. apply orb_true_iff. left. apply Z.ltb_lt. lia.
Qed.

(** Sorting items whose keys are pairwise distinct gives a strictly ordered listing. *)
Lemma sort_newest_ordered l : NoDup (key <$> l) → ordered (sort_stable (newest_first key) l).
Proof.
  intros Hnd. set (R := λ a b, key a = key b ∨ beyond (key a) (key b) = true).
  assert (Sorted R (sort_stable (newest_first key) l)) as Hs.
  { apply sort_stable_sorted; [apply newest_first_asym|apply newest_first_beyond]. }
  apply Sorted_StronglySorted in Hs.
  2: { intros a b c [Hab|Hab] [Hbc|Hbc]; unfold R; rewrite ?Hab, <-?Hbc; eauto using beyond_trans. }
  assert (NoDup (key <$> sort_stable (newest_first key) l)) as Hnd' by (by rewrite sort_stable_perm).
  unfold ordered. induction Hs as [|x xs _ IH Hall]; [constructor|].
  rewrite fmap_cons in Hnd'. apply NoDup_cons in Hnd' as [Hnin Hnd']. constructor; [by apply IH|].
  rewrite Forall_forall in Hall |- *. intros y Hy. destruct (Hall y Hy) as [Heq|]; [|done].
  destruct Hnin. rewrite Heq. by apply list_elem_of_fmap_2.
Qed.

Lemma ordered_app l1 x l2 : ordered (l1 ++ x :: l2) → 
  filter (λ it, beyond (key x) (key it) = true) (l1 ++ x :: l2) = l2.
Proof.
  intros Ho. rewrite filter_app. apply StronglySorted_app in Ho as (Hcross & _ & Ho2).
  assert (filter (λ it, beyond (key x) (key it) = true) l1 = []) as ->.
  { apply filter_none. intros y Hy Hb. pose proof (Hcross y x Hy ltac:(left)) as Hyx.
    pose proof (beyond_trans _ _ _ Hb Hyx) as Hi. by rewrite beyond_irrefl in Hi. }
  simpl. rewrite filter_cons, decide_False by (by rewrite beyond_irrefl).
  apply StronglySorted_inv in Ho2 as [_ Hall]. apply filter_all. by apply Forall_forall.
Qed.
End paging.

(** What a client does with a listing: follow the cursors from [cursor] on, collecting the pages. *)
Fixpoint pages {T} (fuel : nat) (listing : Page → res (list T * string)) (limit : Z) (cursor : string) : res (list T) :=
  match fuel with
  | O => Err (EText "out of fuel")
  | S fuel =>
      '(out, next) ← listing (MkPage limit cursor);
      if bool_decide (next = "") then Ok out else rest ← pages fuel listing limit next; Ok (out ++ rest)
  end.

(** What the cursor encodings promise. *)
Definition codec_ok `{CursorCodec} : Prop :=
  ∀ c, b64_Decode (b64_Encode (cursor_Marshal c)) = Some (cursor_Marshal c) ∧
       cursor_Unmarshal (cursor_Marshal c) = Some c ∧ b64_Encode (cursor_Marshal c) ≠ "".

Section pages.
Context `{CursorCodec} {T : Type} (key : T → Time * string).
Context (Hcodec : codec_ok).

Lemma DecodeCursor_Encode t id : id ≠ "" → DecodeCursor (EncodeCursor t id) = Ok (t, id).
Proof using Hcodec.
  intros Hid. destruct (Hcodec (t, id)) as (Hd & Hu & Hne). unfold DecodeCursor, EncodeCursor.
  rewrite bool_decide_eq_false_2, Hd, Hu, bool_decide_eq_false_2 by done. done.
Qed.

Lemma clampLimit_range n : (1 ≤ clampLimit n ≤ 1000)%Z.
Proof. unfold clampLimit. destruct (Z.leb_spec n 0); [lia|]. destruct (Z.ltb_spec 1000 n); lia. Qed.

(** One page of what lies beyond the cursor. *)
Lemma pageOf_rest items limit cursor rest :
  (cursor = "" ∧ rest = items) ∨
  (∃ c, cursor ≠ "" ∧ DecodeCursor cursor = Ok c ∧ filter (λ it, beyond c (key it) = true) items = rest) →
  let n := Z.to_nat (clampLimit limit) in
  pageOf items key (MkPage limit cursor) =
  if (n <? length rest)%nat
  then match last (take n rest) with
       | Some it => Ok (take n rest, EncodeCursor (key it).1 (key it).2)
       | None => Err (EPanic "index out of range [-1]")
       end
  else Ok (rest, "").
Proof using Type.
  intros Hrest n. pose proof (clampLimit_range limit). unfold pageOf. simpl.
  assert (∃ c, DecodeCursor cursor = Ok c ∧
    filter (λ it, negb (bool_decide (cursor ≠ "") && negb (beyond c (key it))) = true) items = rest) as (c & -> & Hf).
  { destruct Hrest as [[-> ->]|(c & Hne & Hd & Hf)].
    - exists (time_zero, ""). split; [done|]. apply filter_all. intros it _.
      by rewrite bool_decide_eq_false_2 by tauto.
    - exists c. split; [done|]. rewrite <-Hf. apply list_filter_iff. intros it.
      rewrite (bool_decide_eq_true_2 (cursor ≠ "")) by done. simpl. by rewrite negb_involutive. }
  cbn [mbind result_bind]. cbv zeta. rewrite Hf. clear Hf Hrest.
  replace (Z.to_nat (clampLimit limit + 1)) with (S n) by lia.
  destruct (Nat.ltb_spec n (length rest)) as [Hlt|Hge].
  - rewrite length_take, (proj2 (Z.ltb_lt _ _)) by lia. rewrite take_take. fold n. by rewrite Nat.min_l by lia.
  - rewrite length_take, (proj2 (Z.ltb_ge _ _)) by lia. by rewrite take_ge by lia.
Qed.

Lemma pages_from fuel items limit done_ rest cursor :
  items = done_ ++ rest → ordered key items → Forall (λ it, (key it).2 ≠ "") items →
  (cursor = "" ∧ done_ = []) ∨ (∃ it, last done_ = Some it ∧ cursor = EncodeCursor (key it).1 (key it).2) →
  (length rest < fuel)%nat → pages fuel (pageOf items key) limit cursor = Ok rest.
Proof using Hcodec.
  revert done_ rest cursor. induction fuel as [|fuel IH]; intros done_ rest cursor -> Ho Hid Hc Hfuel; [lia|].
  pose proof (clampLimit_range limit) as Hlim. cbn [pages].
  rewrite (pageOf_rest _ limit cursor rest).
  2: { destruct Hc as [[-> ->]|(it & Hlast & ->)]; [by left|right].
       apply last_Some in Hlast as [pre ->]. rewrite <-app_assoc in Ho, Hid |- *. simpl in Ho, Hid |- *.
       assert ((key it).2 ≠ "") as Hne by (rewrite Forall_app, Forall_cons in Hid; apply Hid).
       exists (key it). split_and!; [apply Hcodec|rewrite DecodeCursor_Encode by done; by destruct (key it)|].
       by apply ordered_app. }
  set (n := Z.to_nat (clampLimit limit)). destruct (Nat.ltb_spec n (length rest)) as [Hlt|Hge]; [|done].
  destruct (last (take n rest)) as [it|] eqn:Hlast.
  2: { apply last_None in Hlast. apply (f_equal length) in Hlast. rewrite length_take in Hlast. simpl in Hlast. lia. }
  cbn [mbind result_bind]. rewrite bool_decide_eq_false_2 by (apply Hcodec).
  rewrite (IH (done_ ++ take n rest) (drop n rest)).
  - cbn [mbind result_bind]. by rewrite take_drop.
  - by rewrite <-app_assoc, take_drop.
  - done.
  - done.
  - right. exists it. split; [|done]. rewrite last_app. by rewrite Hlast.
  - rewrite length_drop. lia.
Qed.
End pages.

(** ** Events as listed *)

Lemma elem_of_Events s e : store_ok s → e ∈ Events s ↔ ms_events s !! ev_EventID e = Some e.
Proof.
  intros Hs. unfold Events. rewrite list_elem_of_omap. split.
  - intros (id & _ & He). by rewrite (ok_event_ids _ Hs id e He).
  - intros He. exists (ev_EventID e). split; [|done]. apply (ok_events _ Hs). eauto.
Qed.

Lemma Events_ids s : store_ok s → ev_EventID <$> Events s = ms_evOrder s.
Proof.
  intros Hs. pose proof (ok_event_ids _ Hs) as Hids. destruct (ok_events _ Hs) as [_ Hin]. unfold Events.
  assert (∀ l : list string, (∀ id, id ∈ l → is_Some (ms_events s !! id)) → ev_EventID <$> omap (λ id, ms_events s !! id) l = l) as Hgen.
  { induction l as [|id l IH]; intros Hl; simpl; [done|]. destruct (Hl id) as [e He]; [left|]. rewrite He. simpl.
    f_equal; [by apply Hids|]. apply IH. intros x Hx. apply Hl. by right. }
  apply Hgen. intros id. apply Hin.
Qed.

Lemma events_for_ordered f s : store_ok s → ordered event_key (events_for f s).
Proof.
  intros Hs. apply sort_newest_ordered. apply (NoDup_fmap_1 snd). rewrite <-list_fmap_compose.
  change (snd ∘ event_key) with ev_EventID. eapply sublist_NoDup; [|apply fmap_sublist, sublist_filter].
  rewrite Events_ids by done. apply (ok_events _ Hs).
Qed.

Lemma elem_of_events_for f s e :
  store_ok s → e ∈ events_for f s ↔ ms_events s !! ev_EventID e = Some e ∧ event_matches f e = true.
Proof. intros Hs. unfold events_for. rewrite elem_of_sort_stable, list_elem_of_filter, elem_of_Events by done. tauto. Qed.

(** ** Claims and completions *)

Lemma claim_success id now lease s s' :
  mem_ClaimAutomation id now lease s = (Ok true, s') →
  ∃ r, ms_autoReq s !! id = Some r ∧ claimable s id r now lease = true ∧
    ms_autoReq s' !! id = Some (r <| rq_Status := AutomationExecuting |>) ∧ ms_autoClaim s' !! id = Some now.
Proof.
  unfold mem_ClaimAutomation. destruct (ms_autoReq s !! id) as [r|]; [|done].
  destruct (claimable s id r now lease) eqn:Hc; [|done]. simpl. intros ?; simplify_eq.
  exists r. simpl. by rewrite !lookup_insert_eq.
Qed.

Lemma enqueue_keeps msgs s :
  ms_autoReq (enqueueLocked msgs s) = ms_autoReq s ∧ ms_autoRes (enqueueLocked msgs s) = ms_autoRes s ∧
  ms_autoOrder (enqueueLocked msgs s) = ms_autoOrder s ∧ ms_autoClaim (enqueueLocked msgs s) = ms_autoClaim s.
Proof.
  revert s. induction msgs as [|m msgs IH]; intros s; [done|].
  destruct (IH (enqueue_one s m)) as (? & ? & ? & ?). done.
Qed.

Lemma complete_success res outbox s s' :
  mem_CompleteAutomation res outbox s = (Ok true, s') →
  ms_autoRes s !! rs_RequestID res = None ∧ ms_autoRes s' !! rs_RequestID res = Some res ∧
  ∃ r, ms_autoReq s !! rs_RequestID res = Some r ∧ ms_autoReq s' !! rs_RequestID res = Some (r <| rq_Status := rs_Status res |>).
Proof.
  unfold mem_CompleteAutomation. destruct (ms_autoReq s !! _) as [r|] eqn:Hr; [|done].
  destruct (ms_autoRes s !! _) eqn:Hres; [done|]. intros ?; simplify_eq.
  destruct (enqueue_keeps outbox (set_request (rs_RequestID res) (r <| rq_Status := rs_Status res |>)
    (s <| ms_autoRes := <[rs_RequestID res := res]> (ms_autoRes s) |>))) as (-> & -> & _). simpl.
  rewrite !lookup_insert_eq. eauto.
Qed.

(** ** Theorems *)

(** An encoding to try the listings on: sign and absolute value of the time in unary, a bar, the id. *)
Fixpoint ex_count (s : string) : option (nat * string) :=
  match s with
  | String "0" s' => '(n, id) ← ex_count s'; Some (S n, id)
  | String "|" id => Some (0, id)
  | _ => None
  end.
Definition ex_codec : CursorCodec := {|
  cursor_Marshal c := String (if (c.1 <? 0)%Z then "-" else "+") (zeros (Z.to_nat (Z.abs c.1)) +:+ String "|" c.2);
  cursor_Unmarshal s :=
    match s with
    | String sign s' => '(n, id) ← ex_count s'; Some ((if bool_decide (sign = "-"%char) then - Z.of_nat n else Z.of_nat n)%Z, id)
    | _ => None
    end;
  b64_Encode s := s;
  b64_Decode s := Some s;
|}.

Lemma ex_count_zeros n id : ex_count (zeros n +:+ String "|" id) = Some (n, id).
Proof. induction n as [|n IH]; [done|]. cbn [zeros]. rewrite append_cons. cbn [ex_count]. by rewrite IH. Qed.

Lemma ex_codec_ok : codec_ok (H:=ex_codec).
Proof.
  intros [t id]. simpl. split; [done|]. split; [|done]. rewrite ex_count_zeros. simpl.
  destruct (Z.ltb_spec t 0); simpl; do 2 f_equal; lia.
Qed.

(** Keyset pagination of events is complete and exact: following the cursors from the first
    page on, with any page size, terminates and yields every stored event that matches the
    filter exactly once, newest first. *)
Theorem event_pages_complete `{CursorCodec} f s limit :
  codec_ok → store_ok s → map_Forall (λ id _, id ≠ "") (ms_events s) →
  pages (S (length (events_for f s))) (λ p, ListEvents f p s) limit "" = Ok (events_for f s) ∧
  ordered event_key (events_for f s) ∧
  ∀ e, e ∈ events_for f s ↔ ms_events s !! ev_EventID e = Some e ∧ event_matches f e = true.
Proof.
  intros Hcodec Hs Hids. split_and!.
  - apply (pages_from event_key Hcodec _ _ _ [] (events_for f s)); try done.
    + by apply events_for_ordered.
    + apply Forall_forall. intros e [He _]%elem_of_events_for; [|done]. by apply (Hids _ _ He).
    + by left.
    + lia.
  - by apply events_for_ordered.
  - intros e. by apply elem_of_events_for.
Qed.

Definition ex_event (id : string) (at_ : Time) : Event :=
  MkEvent id "c" "sw1" "device.unreachable" "critical" "" None at_ "o1" "reachability" "reachability/sw1/" false.
Definition ex_insert_events : ST memTx error unit :=
  ST_foldl (λ _ e, _ ← InsertEvent e; mret tt) tt [ex_event "a" 3; ex_event "b" 5; ex_event "c" 3].
Definition ex_event_store : MemStore := (Do ex_insert_events NewMemStore).2.

Lemma ex_event_store_ok : store_ok ex_event_store.
Proof. unfold ex_event_store. apply mem_Do_ok; [intros; unfold ex_insert_events; simpl; apply _..|apply NewMemStore_ok]. Qed.

Lemma event_pages_complete_witness :
  pages (T:=Event) 4 (λ p, ListEvents (H:=ex_codec) (MkEventFilter "" "" "" 0 0) p ex_event_store) 1 "" =
  Ok [ex_event "b" 5; ex_event "c" 3; ex_event "a" 3].
Proof.
  refine (proj1 (event_pages_complete (H:=ex_codec) (MkEventFilter "" "" "" 0 0) ex_event_store 1 ex_codec_ok ex_event_store_ok _)).
  apply map_Forall_to_list. vm_compute. repeat constructor; done.
Defined.

(** Claims are exclusive: after a successful claim the request is executing, and no other
    worker's claim succeeds until the lease has run out. *)
Theorem claim_is_exclusive id now lease s s' now' lease' :
  mem_ClaimAutomation id now lease s = (Ok true, s') → (now' ≤ now + lease')%Z →
  mem_ClaimAutomation id now' lease' s' = (Ok false, s').
Proof.
  intros (r & Hr & _ & Hr' & Hc)%claim_success Hnow. unfold mem_ClaimAutomation. rewrite Hr'.
  unfold claimable, claim_expired, claim_time. rewrite Hc. simpl.
  rewrite (proj2 (Z.ltb_ge _ _)) by (unfold time_Add; lia). done.
Qed.

Definition ex_request : AutomationRequest :=
  MkAutomationRequest "r1" "c" "p1" "e1" "reachability/sw1/" "sw1" "ping" "sw1" None "" "policy" true AutomationPending 0 0 "".
Definition ex_request_store : MemStore := (mem_InsertAutomationRequest ex_request [] NewMemStore).2.

Lemma claim_is_exclusive_witness :
  ∃ s', mem_ClaimAutomation "r1" Minute Minute ex_request_store = (Ok true, s') ∧
        mem_ClaimAutomation "r1" (2 * Minute) Minute s' = (Ok false, s').
Proof.
  destruct (mem_ClaimAutomation "r1" Minute Minute ex_request_store) as [r s'] eqn:Hrun.
  assert (r = Ok true) as -> by (vm_compute in Hrun; by simplify_eq).
  exists s'. split; [done|]. apply (claim_is_exclusive "r1" Minute Minute ex_request_store s' _ Minute Hrun).
  unfold Minute. lia.
Defined.

(** A request is completed at most once: the first completion stores its result and final
    status, and every later completion of the same request, with whatever result, is refused
    and changes nothing. *)
Theorem completion_is_final res outbox s s' res' outbox' :
  mem_CompleteAutomation res outbox s = (Ok true, s') → rs_RequestID res' = rs_RequestID res →
  ms_autoRes s' !! rs_RequestID res = Some res ∧
  (∃ r, ms_autoReq s' !! rs_RequestID res = Some r ∧ rq_Status r = rs_Status res) ∧
  mem_CompleteAutomation res' outbox' s' = (Ok false, s').
Proof.
  intros (_ & Hres & r & _ & Hr)%complete_success Hid. split; [done|]. split; [by eauto|].
  unfold mem_CompleteAutomation. by rewrite Hid, Hr, Hres.
Qed.

Definition ex_result (st : AutomationStatus) : AutomationResult := MkAutomationResult "r1" "c" st true "" None 0 0.

Lemma completion_is_final_witness :
  ∃ s', mem_CompleteAutomation (ex_result AutomationDryRun) [] ex_request_store = (Ok true, s') ∧
        mem_CompleteAutomation (ex_result AutomationFailed) [] s' = (Ok false, s').
Proof.
  destruct (mem_CompleteAutomation (ex_result AutomationDryRun) [] ex_request_store) as [r s'] eqn:Hrun.
  assert (r = Ok true) as -> by (vm_compute in Hrun; by simplify_eq).
  exists s'. split; [done|].
  by destruct (completion_is_final (ex_result AutomationDryRun) [] ex_request_store s' (ex_result AutomationFailed) [] Hrun eq_refl)
    as (_ & _ & ?).
Defined.
