(* ===== verification/Pipeline.v ===== *)
(** * Package [pipeline]: the processing stages and the outbox relay
    (src/internal/pipeline/pipeline.go, relay.go; subject and header names from
    src/internal/messaging/subjects.go)

    Generic in the storage contract ([TxOps], [Store]) and in the JSON library ([Json]). *)

From S2P Require Import Prelude GoLib GoFloat Domain State Rules Schema Normalize Inventory Store.

(** ** Subjects and headers (messaging/subjects.go) *)

Definition SubjectEventDevice : string := "events.device".
Definition SubjectEventAlert : string := "events.alert".
Definition SubjectAutomationRequest : string := "automation.request".
Definition SubjectAutomationResult : string := "automation.result".
Definition HeaderCorrelationID : string := "X-Correlation-Id".
Definition HeaderSchema : string := "X-Schema".

(** ** The processor *)

(** The script hooks. *)
Record Extensions := MkExtensions {
  ex_Transform : Observation → res (Observation * bool);
  ex_Enrich : Observation → Device → res Observation;
}.

(** [Now] and the validator's clock are the instants they report. *)
Record Processor := MkProcessor {
  p_Validator : Validator;
  p_Normalizer : Normalizer;
  p_Inventory : Reader;
  p_States : State.Definitions;
  p_Rules : option Rules.Rules;
  p_Ext : option Extensions;
  p_now : Time;
  p_StaleAfter : Duration;
  p_SweepInterval : Duration;
  p_StartedAt : Time;
}.

Record Normalized := MkNormalized {
  nm_Observation : Observation;
  nm_Payload : string;
  nm_Mapped : bool;
  nm_Dropped : bool;
}.

Record Outcome := MkOutcome {
  oc_Duplicate : bool;
  oc_Dropped : string;
  oc_Transitions : Z;
  oc_Events : list Event;
  oc_Ignored : Z;
}.
#[export] Instance eta_Outcome : Eta Outcome := λ o,
  MkOutcome (oc_Duplicate o) (oc_Dropped o) (oc_Transitions o) (oc_Events o) (oc_Ignored o).
Definition Outcome0 : Outcome := MkOutcome false "" 0 [] 0.

(** The transform hook, when there is one; a dropped observation stays as it was. *)
Definition transformed (ext : option Extensions) (norm : Observation) : res (Observation * bool) :=
  match ext with
  | Some ext =>
      match ex_Transform ext norm with
      | Ok (next, keep) => Ok (if keep then next else norm, keep)
      | Err e => Err e
      end
  | None => Ok (norm, true)
  end.

(** Stage A. *)
Definition NormalizeMessage `{Json Observation, MapOrder} (p : Processor) (data : string) : res Normalized :=
  obs ← DecodeObservation (p_Validator p) data;
  let obs := if IsZero (o_ReceivedAt obs) then obs <| o_ReceivedAt := p_now p |> else obs in
  '(norm, r) ← Normalize (p_Normalizer p) obs;
  '(norm, keep) ← transformed (p_Ext p) norm;
  if negb keep then Ok (MkNormalized norm "" false true)
  else
    match Validate (p_Validator p) norm with
    | Some err => Err err
    | None => payload ← Encode norm; Ok (MkNormalized norm payload (bool_decide (r = Mapped)) false)
    end.

(** ** Stage B *)

Section process.
Context `{Sha256, Json Event, TxOps T}.

Definition event_headers (ev : Event) : smap :=
  Some {[ HeaderSchema := EventV1; HeaderCorrelationID := ev_CorrelationID ev ]}.

(** Persist an event and, only if it is new, queue its notifications. *)
Definition recordEvent (ev : Event) : ST T error unit :=
  inserted ← InsertEvent ev;
  if negb inserted then mret tt
  else
    payload ← ST_lift (Encode ev);
    _ ← Enqueue (MkOutboxMessage 0 SubjectEventDevice (ev_EventID ev) payload (event_headers ev));
    if bool_decide (ev_AlertKey ev = "") then mret tt
    else
      changed ← (if ev_Resolves ev then ResolveAlert ev else OpenAlert ev);
      if negb changed then mret tt
      else Enqueue (MkOutboxMessage 0 SubjectEventAlert (ev_EventID ev +:+ ".alert") payload (event_headers ev)).

(** The closure [apply]: persist one update. *)
Definition apply_update (out : Outcome) (up : State.Update) : ST T error Outcome :=
  if bool_decide (State.up_Ignored up ≠ State.NotIgnored) then mret (out <| oc_Ignored := int_incr (oc_Ignored out) |>)
  else
    _ ← PutState (State.up_Record up);
    out ← ST_foldl (λ out tr, _ ← InsertTransition tr; mret (out <| oc_Transitions := int_incr (oc_Transitions out) |>))
            out (State.up_Transitions up);
    ST_foldl (λ out ev, _ ← recordEvent ev; mret (out <| oc_Events := oc_Events out ++ [ev] |>)) out (State.up_Events up).

(** One state definition. *)
Definition process_definition (o : Observation) (out : Outcome) (def : State.StateDefinition) : ST T error Outcome :=
  prev ← GetState (State.KeyFor def (o_DeviceID o) (o_Labels o)).1;
  up ← ST_lift (State.Evaluate def prev o);
  apply_update out up.

(** The check that skips the window query. *)
Definition rule_skipped (prev : option StateRecord) (o : Observation) : bool :=
  match prev with
  | Some p => bool_decide (sr_LastObservationID p = o_ObservationID o) || negb (After (o_ObservedAt o) (sr_LastObservedAt p))
  | None => false
  end.

(** One rule. *)
Definition process_rule (o : Observation) (out : Outcome) (rule : Rules.Rule) : ST T error Outcome :=
  prev ← GetState (Rules.KeyFor rule (o_DeviceID o) (o_Labels o)).1;
  if rule_skipped prev o then mret (out <| oc_Ignored := int_incr (oc_Ignored out) |>)
  else
    samples ← Samples (o_DeviceID o) (o_Metric o) (LabelsKey (o_Labels o))
                (time_Add (o_ObservedAt o) (- Rules.Window rule)) (o_ObservedAt o);
    up ← ST_lift (Rules.Evaluate rule prev samples o);
    apply_update out up.

(** The transaction body of [Process]. *)
Definition process_body (defs : list State.StateDefinition) (rules : list Rules.Rule) (o : Observation) : ST T error Outcome :=
  inserted ← InsertObservation o;
  if negb inserted then mret (Outcome0 <| oc_Duplicate := true |>)
  else
    _ ← (if bool_decide (o_Source o ≠ "sweeper") then TouchDevice (o_DeviceID o) (o_ObservedAt o) else mret tt);
    out ← ST_foldl (process_definition o) Outcome0 defs;
    ST_foldl (process_rule o) out rules.

(** The enrichment hook, when there is one. *)
Definition extended (ext : option Extensions) (enriched : Observation) (dev : Device) : res Observation :=
  match ext with
  | Some ext => ex_Enrich ext enriched dev
  | None => Ok enriched
  end.

Context {Sto : Type} `{!Store Sto T}.

Definition Process (p : Processor) (o : Observation) (s : Sto) : res Outcome * Sto :=
  match Enrich (p_Inventory p) o with
  | Err e =>
      if error_is EDeviceDisabled e then (Ok (Outcome0 <| oc_Dropped := "device_disabled" |>), s) else (Err e, s)
  | Ok (enriched, dev) =>
      match extended (p_Ext p) enriched dev with
      | Err e => (Err e, s)
      | Ok enriched =>
          Do (process_body (State.For (p_States p) (o_Metric enriched) (d_DeviceType dev))
                (Rules.For (p_Rules p) (o_Metric enriched) dev) enriched) s
      end
  end.

Definition PersistEvent (ev : Event) (s : Sto) : res unit * Sto := Do (recordEvent ev) s.

(** ** The stale sweep *)

(** The records of entities that have never reported. *)
Definition never_seen (p : Processor) (have : gset string) (dev : Device) : list StateRecord :=
  if negb (d_Enabled dev) || bool_decide (cs_Protocol (d_Collection dev) ≠ "snmp") then []
  else
    State.All (p_States p) ≫= λ def,
      if negb (State.df_Stale def) then []
      else
        let '(key, labels) := State.KeyFor def (d_ID dev) None in
        if bool_decide (key ∈ have) then []
        else [StateRecord0 <| sr_Key := key |> <| sr_DeviceID := d_ID dev |> <| sr_DefinitionID := State.df_ID def |>
                <| sr_Labels := labels |> <| sr_LastSeenAt := p_StartedAt p |>].

(** How many synthetic samples were processed before the first error, if any. *)
Fixpoint process_all (p : Processor) (samples : list Observation) (n : Z) (s : Sto) : (Z * option error) * Sto :=
  match samples with
  | [] => ((n, None), s)
  | o :: samples =>
      match Process p o s with
      | (Err e, s) => ((n, Some e), s)
      | (Ok _, s) => process_all p samples (int_incr n) s
      end
  end.

Definition Sweep (p : Processor) (now : Time) (devices : list Device) (s : Sto) : (Z * option error) * Sto :=
  match ListStates s with
  | Err e => ((0%Z, Some e), s)
  | Ok recs =>
      let have : gset string := list_to_set (sr_Key <$> recs) in
      let recs := recs ++ (devices ≫= never_seen p have) in
      match State.StaleSamples (p_States p) recs now (p_StaleAfter p) (p_SweepInterval p) with
      | Err e => ((0%Z, Some e), s)
      | Ok samples => process_all p samples 0 s
      end
  end.
End process.

(** ** The relay (relay.go) *)

Record OutMsg := MkOutMsg { om_Subject : string; om_MsgID : string; om_Payload : string; om_Headers : smap }.
Definition out_msg (m : OutboxMessage) : OutMsg := MkOutMsg (ob_Subject m) (ob_MsgID m) (ob_Payload m) (ob_Headers m).

Section relay.
Context {Sto T P : Type} `{Store Sto T}.
(** [PublishBatch] works on the broker's state and may fail. *)
Context (PublishBatch : list OutMsg → P → option error * P).

Definition relay_size (batchSize : Z) : Z := if (batchSize <=? 0)%Z then 100 else batchSize.

(** The drain loop; [fuel] bounds the number of batches. *)
Fixpoint Drain_loop (fuel : nat) (size total : Z) (p : P) (s : Sto) : option ((Z * option error) * P * Sto) :=
  match fuel with
  | O => None
  | S fuel =>
      let '(n, err, p, s) := DrainOutbox size (λ batch p, PublishBatch (out_msg <$> batch) p) p s in
      let total := wrap64 (total + n) in
      match err with
      | Some _ => Some (total, err, p, s)
      | None => if (n <? size)%Z then Some (total, None, p, s) else Drain_loop fuel size total p s
      end
  end.

Definition Drain (fuel : nat) (batchSize : Z) (p : P) (s : Sto) : option ((Z * option error) * P * Sto) :=
  Drain_loop fuel (relay_size batchSize) 0 p s.
End relay.
