(* ===== verification/PipelineFacts.v ===== *)
(** * The pipeline against the storage contract

    Everything here is proved for any transaction type that satisfies the contract ([TxSpec]);
    the theorems about whole runs instantiate it with the in-memory store. *)

From S2P Require Import Prelude GoLib GoFloat Domain State StateFacts Rules RulesFacts Schema Normalize Inventory.
From S2P Require Import Store MemStore MemStoreFacts Pipeline.

(** ** What one evaluation hands to storage *)

Definition rule_prefix : string := "rule:".

(** An accepted update for the entity [k]: it writes that entity's record, and emits an event
    for [k] exactly when it opens or closes it. *)
Record update_for (k : string) (prev : option StateRecord) (up : Update) : Prop := {
  uf_key : sr_Key (up_Record up) = k;
  uf_flips : event_flips (prev_open prev) (up_Events up) (is_open (sr_State (up_Record up)));
  uf_events : Forall (λ e, ev_AlertKey e = k) (up_Events up);
  uf_rule : HasPrefix k rule_prefix = true → sr_State (up_Record up) = StateUp ∨ sr_State (up_Record up) = StateDown;
}.

Definition keyed_by (k : string) (prev : option StateRecord) : Prop := ∀ p, prev = Some p → sr_Key p = k.

Lemma stamp_key rec o : sr_Key (stamp_record rec o) = sr_Key rec.
Proof. unfold stamp_record. by case_match. Qed.

Lemma prefix_append s t u : HasPrefix (s +:+ t) (s +:+ u) = HasPrefix t u.
Proof. induction s as [|c s IH]; [done|]. rewrite !append_cons. simpl. by rewrite bool_decide_eq_true_2, IH. Qed.

(** A definition whose id does not begin with the rule prefix has keys that do not. *)
Lemma prefix_slash p s t : mem_char "/" p = false → HasPrefix (s +:+ String "/" t) p = true → HasPrefix s p = true.
Proof.
  revert s. induction p as [|c p IH]; intros s Hp Hpre; [by destruct s|]. simpl in Hp. apply orb_false_iff in Hp as [Hc Hp].
  destruct s as [|d s].
  - rewrite append_nil_l in Hpre. simpl in Hpre. apply andb_true_iff in Hpre as [Heq _]. bool_to_prop. congruence.
  - rewrite append_cons in Hpre. simpl in *. apply andb_true_iff in Hpre as [-> Hpre]. simpl. by apply IH.
Qed.

Lemma definition_key_prefix def dev labels :
  HasPrefix (df_ID def) rule_prefix = false → HasPrefix (State.KeyFor def dev labels).1 rule_prefix = false.
Proof.
  intros Hid. apply not_true_is_false. intros Hpre. unfold State.KeyFor in Hpre. simpl in Hpre.
  apply (prefix_slash rule_prefix (df_ID def)) in Hpre; [congruence|done].
Qed.

Lemma definition_key_nonempty def dev labels : (State.KeyFor def dev labels).1 ≠ "".
Proof. unfold State.KeyFor. simpl. by destruct (df_ID def). Qed.

Lemma rule_key_prefix r dev labels : HasPrefix (Rules.KeyFor r dev labels).1 rule_prefix = true.
Proof.
  unfold Rules.KeyFor. cbn [fst]. rewrite <-(append_nil_r rule_prefix). unfold rule_prefix at 1.
  rewrite prefix_append. by destruct (_ +:+ _).
Qed.

Lemma rule_key_nonempty r dev labels : (Rules.KeyFor r dev labels).1 ≠ "".
Proof. done. Qed.

Lemma definition_update `{Sha256} def prev o up :
  HasPrefix (df_ID def) rule_prefix = false → keyed_by (State.KeyFor def (o_DeviceID o) (o_Labels o)).1 prev →
  State.Evaluate def prev o = Ok up → up_Ignored up = NotIgnored →
  update_for (State.KeyFor def (o_DeviceID o) (o_Labels o)).1 prev up.
Proof.
  intros Hid Hkey Hev Hi. pose proof (Evaluate_event _ _ _ _ Hev) as Hflip.
  apply Evaluate_evaluated in Hev. destruct Hev as [reason Hr|rec0 b good rec to Happ Hrec0 Hj Hstep]; [done|].
  constructor; [..|by rewrite definition_key_prefix]; [|done|].
  - apply step_keeps in Hstep as (_ & Hk & _). rewrite stamp_key in Hk. simpl in Hk.
    assert (sr_Key rec0 = (State.KeyFor def (o_DeviceID o) (o_Labels o)).1) as Hrec.
    { subst rec0. destruct prev as [p|]; [by apply Hkey|done]. }
    cbn [up_Record]. rewrite <-Hrec, <-Hk. by case_bool_decide.
  - cbn [up_Events]. case_bool_decide; [|constructor]. unfold eventFor. destruct (event_spec _ _ _) as [[spec res]|]; [|constructor].
    by repeat constructor.
Qed.

Lemma rule_update `{Sha256} r prev samples o up :
  keyed_by (Rules.KeyFor r (o_DeviceID o) (o_Labels o)).1 prev →
  prevState prev = StateUp ∨ prevState prev = StateDown →
  Rules.Evaluate r prev samples o = Ok up → up_Ignored up = NotIgnored →
  update_for (Rules.KeyFor r (o_DeviceID o) (o_Labels o)).1 prev up.
Proof.
  intros Hkey Hst Hev Hi.
  assert (sr_Key (up_Record up) = (Rules.KeyFor r (o_DeviceID o) (o_Labels o)).1) as Hk.
  { revert Hev. unfold Rules.Evaluate. destruct (Rules.KeyFor r (o_DeviceID o) (o_Labels o)) as [key kl] eqn:HK.
    destruct (already_applied prev o) as [up'|] eqn:Happ.
    - intros ?; simplify_eq. unfold already_applied in Happ. destruct prev as [p|]; [|done].
      repeat case_match; simplify_eq; simpl; by apply Hkey.
    - unfold mbind, result_bind. destruct (condition _ _) as [[holds m]|]; [|done].
      assert (sr_Key (stamped r prev o m) = key) as Hs.
      { unfold stamped. rewrite HK. simpl. destruct prev as [p|]; [by apply Hkey|done]. }
      destruct prev, holds; repeat case_match; intros ?; simplify_eq; by rewrite <-?Hs. }
  assert (prev_open prev = rule_active prev) as Hopen.
  { destruct prev as [p|]; [|done]. simpl in *. destruct Hst as [-> | ->]; done. }
  apply rule_Evaluate_evaluated in Hev. destruct Hev as [p reason _ Hr|rec h m _ _ Ha Hs|rec tr ev h m _ _ Ha Hs He Hke _ _]; [done|..];
    (constructor; cbn [up_Record up_Events] in *; [done|..]).
  - rewrite Hs. destruct prev as [p|]; [|done]. simpl. done.
  - constructor.
  - rewrite Hs. done.
  - simpl. rewrite Hs, He, Ha, Hopen. by destruct (rule_active prev).
  - by repeat constructor.
  - rewrite Hs. destruct h; auto.
Qed.

(** ** Alerts agree with states *)

(** An alert fires for a key exactly when the entity tracked under that key is open. *)
Record alerts_agree (s : AStore) : Prop := {
  ag_one : at_most_one_firing (as_alerts s);
  ag_keyed : map_Forall (λ k r, sr_Key r = k) (as_states s);
  ag_agree k : firing k (as_alerts s) = prev_open (as_states s !! k);
  ag_rules : map_Forall (λ k r, HasPrefix k rule_prefix = true → sr_State r = StateUp ∨ sr_State r = StateDown) (as_states s);
}.

(** The alerts after an event of an entity. *)
Definition alerts_after (alerts : list Alert) (ev : Event) : list Alert :=
  if ev_Resolves ev then resolve_first ev alerts
  else if firing (ev_AlertKey ev) alerts then alerts else alerts ++ [alert_of ev].

(** Writing the record and its event keeps states and alerts in agreement. *)
Lemma update_agrees k up s :
  alerts_agree s → update_for k (as_states s !! k) up →
  ∀ s', as_states s' = <[sr_Key (up_Record up) := up_Record up]> (as_states s) →
  as_alerts s' = foldl alerts_after (as_alerts s) (up_Events up) → alerts_agree s'.
Proof.
  intros [Hone Hkeyed Hag Hrules] [Hk Hflip Hev Hrule] s' Hst Hal. rewrite Hk in Hst.
  assert (at_most_one_firing (as_alerts s') ∧
    ∀ k', firing k' (as_alerts s') = if bool_decide (k' = k) then is_open (sr_State (up_Record up)) else firing k' (as_alerts s)) as [Hone' Hf].
  { rewrite Hal. unfold event_flips in Hflip. destruct (up_Events up) as [|ev [|]]; simpl; [..|done].
    - split; [done|]. intros k'. case_bool_decide; [subst k'; by rewrite Hag, Hflip|done].
    - rewrite Forall_singleton in Hev. destruct Hflip as [Hr ->]. unfold alerts_after. rewrite Hr, Hev, <-Hag.
      destruct (firing k (as_alerts s)) eqn:Hfk; simpl.
      + split; [by apply resolve_at_most_one|]. intros k'. rewrite firing_resolve by done. rewrite Hev. by case_bool_decide.
      + split; [apply open_at_most_one; [by rewrite Hev|done]|]. intros k'. rewrite firing_open, Hev.
        case_bool_decide; [subst; by rewrite Hfk|by rewrite orb_false_r]. }
  split; [done|..].
  - rewrite Hst. by apply map_Forall_insert_2.
  - intros k'. rewrite Hf, Hst. case_bool_decide as Heq; [subst; by rewrite lookup_insert_eq|].
    rewrite lookup_insert_ne by done. apply Hag.
  - rewrite Hst. by apply map_Forall_insert_2.
Qed.

Section contract.
Context `{Sha256, Json Event, TxSpec T}.

(** [recordEvent] on an event that is new and names an entity. *)
Lemma recordEvent_new ev (t : T) :
  as_events (view t) !! ev_EventID ev = None → ev_AlertKey ev ≠ "" →
  wp (recordEvent ev) (λ _ t',
    as_states (view t') = as_states (view t) ∧ as_events (view t') = <[ev_EventID ev := ev]> (as_events (view t)) ∧
    as_alerts (view t') = alerts_after (as_alerts (view t)) ev) t.
Proof.
  intros Hnew Hk. unfold recordEvent. eapply wp_implements; [apply InsertEvent_spec|]. unfold A_InsertEvent. rewrite Hnew.
  simpl. intros t1 Ht1. apply wp_bind. unfold wp at 1. simpl. destruct (Encode ev) as [payload|]; [|done].
  eapply wp_implements; [apply Enqueue_spec|]. simpl. intros t2 Ht2. rewrite bool_decide_eq_false_2 by done.
  unfold alerts_after. destruct (ev_Resolves ev).
  - eapply wp_implements; [apply ResolveAlert_spec|]. unfold A_ResolveAlert. rewrite Ht2, Ht1. simpl.
    destruct (firing _ _) eqn:Hf; simpl; intros t3 Ht3.
    + eapply wp_implements_last; [apply Enqueue_spec|]. simpl. intros t4 Ht4. by rewrite Ht4, Ht3.
    + apply wp_ret. rewrite Ht3. simpl. split_and!; [done..|]. symmetry. apply resolve_first_closed, Hf.
  - eapply wp_implements; [apply OpenAlert_spec|]. unfold A_OpenAlert. rewrite Ht2, Ht1. simpl.
    destruct (firing _ _) eqn:Hf; simpl; intros t3 Ht3.
    + apply wp_ret. by rewrite Ht3.
    + eapply wp_implements_last; [apply Enqueue_spec|]. simpl. intros t4 Ht4. by rewrite Ht4, Ht3.
Qed.

(** The events of an outcome are new: none was stored in [E0], and their ids differ. *)
Definition new_events (E0 : gmap string Event) (out : Outcome) : Prop :=
  NoDup (ev_EventID <$> oc_Events out) ∧ Forall (λ e, E0 !! ev_EventID e = None) (oc_Events out).

(** The invariant of the loops of [Process]. *)
Definition in_agreement (E0 : gmap string Event) (out : Outcome) (t : T) : Prop :=
  new_events E0 out →
  alerts_agree (view t) ∧
  ∀ id, E0 !! id = None → id ∉ (ev_EventID <$> oc_Events out) → as_events (view t) !! id = None.

Lemma new_events_app E0 out out' evs : oc_Events out' = oc_Events out ++ evs → new_events E0 out' → new_events E0 out.
Proof.
  unfold new_events. intros ->. rewrite fmap_app, NoDup_app, Forall_app. tauto.
Qed.

(** The transitions of an update change neither states, alerts nor events. *)
Lemma transitions_frame trs out (t : T) :
  wp (ST_foldl (λ out tr, _ ← InsertTransition tr; mret (out <| oc_Transitions := int_incr (oc_Transitions out) |>)) out trs)
    (λ out' t', oc_Events out' = oc_Events out ∧ as_states (view t') = as_states (view t) ∧
       as_alerts (view t') = as_alerts (view t) ∧ as_events (view t') = as_events (view t)) t.
Proof.
  apply (wp_foldl _ (λ _ out' t', oc_Events out' = oc_Events out ∧ as_states (view t') = as_states (view t) ∧
       as_alerts (view t') = as_alerts (view t) ∧ as_events (view t') = as_events (view t))); [done|].
  intros tr trs' out' t' (Ho & Hs & Ha & He). eapply wp_implements; [apply InsertTransition_spec|]. intros t'' Ht''.
  apply wp_ret. simpl. rewrite Ht''. unfold A_InsertTransition. by destruct (_ !! _).
Qed.

(** Events not yet stored when the ids in [E0] and of the outcome are taken. *)
Definition unknown_ids (E0 : gmap string Event) (out : Outcome) (t : T) : Prop :=
  ∀ id, E0 !! id = None → id ∉ (ev_EventID <$> oc_Events out) → as_events (view t) !! id = None.

Lemma recordEvent_frame ev (t : T) : wp (recordEvent ev) (λ _ _, True) t.
Proof. unfold wp. by destruct (recordEvent ev t) as [[]]. Qed.

(** The events of an update, recorded one after the other. *)
Lemma events_loop E0 evs out (t : T) :
  Forall (λ e, ev_AlertKey e ≠ "") evs → (new_events E0 out → unknown_ids E0 out t) →
  wp (ST_foldl (λ out ev, _ ← recordEvent ev; mret (out <| oc_Events := oc_Events out ++ [ev] |>)) out evs)
    (λ out' t', oc_Events out' = oc_Events out ++ evs ∧
       (new_events E0 out' → as_states (view t') = as_states (view t) ∧
          as_alerts (view t') = foldl alerts_after (as_alerts (view t)) evs ∧ unknown_ids E0 out' t')) t.
Proof.
  revert out t. induction evs as [|ev evs IH]; intros out t Hkeys Hun; cbn [ST_foldl].
  - apply wp_ret. rewrite app_nil_r. auto.
  - apply Forall_cons in Hkeys as [Hk Hkeys]. apply wp_bind, wp_bind.
    set (out1 := out <| oc_Events := oc_Events out ++ [ev] |>).
    assert (wp (recordEvent ev) (λ _ t1, new_events E0 out1 →
      as_states (view t1) = as_states (view t) ∧ as_alerts (view t1) = alerts_after (as_alerts (view t)) ev ∧
      unknown_ids E0 out1 t1) t) as Hrec.
    { destruct (decide (new_events E0 out1)) as [Hnew|Hno]; [|by eapply wp_mono; [|apply recordEvent_frame]].
      pose proof (new_events_app E0 out out1 [ev] eq_refl Hnew) as Hnew0.
      destruct Hnew as [Hnd Hall]. simpl in Hnd, Hall. rewrite fmap_app in Hnd. apply NoDup_app in Hnd as (_ & Hnd & _).
      rewrite Forall_app, Forall_singleton in Hall.
      eapply wp_mono; [|apply recordEvent_new; [|done]].
      - intros _ t1 (Hs & He & Ha) _. split_and!; [done..|]. intros id Hid Hnin. rewrite He. simpl in Hnin.
        rewrite fmap_app, not_elem_of_app in Hnin. destruct Hnin as [Hnin Hne]. rewrite lookup_insert_ne by set_solver. by apply Hun.
      - apply Hun; [done|apply Hall|]. intros Hin. apply (Hnd _ Hin). simpl. set_solver. }
    eapply wp_mono; [|exact Hrec]. intros u t1 Hnext. apply wp_ret.
    eapply wp_mono; [|apply (IH out1 t1); [done|apply Hnext]]. intros out' t' [Ho' Hrest].
    split; [rewrite Ho'; simpl; by rewrite <-app_assoc|]. intros Hnew'.
    destruct (Hrest Hnew') as (-> & -> & Hun'). destruct Hnext as (-> & -> & _); [by eapply new_events_app|]. done.
Qed.

Lemma apply_update_agrees E0 k up out (t : T) :
  in_agreement E0 out t → k ≠ "" →
  (new_events E0 out → up_Ignored up = NotIgnored → update_for k (as_states (view t) !! k) up) →
  (up_Ignored up = NotIgnored → Forall (λ e, ev_AlertKey e ≠ "") (up_Events up)) →
  wp (apply_update out up) (in_agreement E0) t.
Proof.
  intros Hin Hk Hup Hkeys. unfold apply_update. case_bool_decide as Hi; [by apply wp_ret|].
  assert (up_Ignored up = NotIgnored) as Hi' by (by destruct (decide (up_Ignored up = NotIgnored))). clear Hi.
  eapply wp_implements; [apply PutState_spec|]. intros t1 Ht1. simpl in Ht1.
  apply wp_bind. eapply wp_mono; [|apply transitions_frame]. intros out2 t2 (Ho & Hs & Ha & He).
  rewrite Ht1 in Hs, Ha, He. simpl in Hs, Ha, He.
  assert (new_events E0 out2 → new_events E0 out) as Hsame by (unfold new_events; by rewrite Ho).
  eapply wp_mono; [|apply (events_loop E0); [by apply Hkeys|]].
  - intros out3 t3 [Ho3 Hrest] Hnew. destruct (Hrest Hnew) as (Hs3 & Ha3 & Hun). split; [|done].
    assert (new_events E0 out) as Hnew0 by (eapply Hsame, new_events_app; [exact Ho3|done]).
    eapply (update_agrees k up (view t)); [apply Hin, Hnew0|by apply Hup|congruence|congruence].
  - intros Hnew id Hid Hnin. rewrite He. apply Hin; [by apply Hsame|done|by rewrite <-Ho].
Qed.

Lemma process_definition_agrees E0 o out def (t : T) :
  HasPrefix (df_ID def) rule_prefix = false → in_agreement E0 out t →
  wp (process_definition o out def) (in_agreement E0) t.
Proof.
  intros Hid Hin. unfold process_definition. eapply wp_implements; [apply GetState_spec|]. simpl. intros t1 Ht1.
  apply wp_bind. unfold wp at 1. simpl. destruct (State.Evaluate def _ o) as [up|] eqn:Hev; [|done].
  set (k := (State.KeyFor def (o_DeviceID o) (o_Labels o)).1).
  apply (apply_update_agrees E0 k); unfold in_agreement in *; rewrite ?Ht1; try done.
  - apply definition_key_nonempty.
  - intros Hnew Hi. apply definition_update; try done. intros p Hp. destruct (Hin Hnew) as [[_ Hkeyed _ _] _]. by apply (Hkeyed k p Hp).
  - intros Hi. apply Evaluate_evaluated in Hev. destruct Hev as [|rec0 b good rec to]; [done|]. cbn [up_Events].
    case_bool_decide; [|constructor]. unfold eventFor. destruct (event_spec _ _ _) as [[spec r]|]; [|constructor].
    repeat constructor. apply definition_key_nonempty.
Qed.

Lemma process_rule_agrees E0 o out r (t : T) :
  in_agreement E0 out t → wp (process_rule o out r) (in_agreement E0) t.
Proof.
  intros Hin. unfold process_rule. eapply wp_implements; [apply GetState_spec|]. simpl. intros t1 Ht1.
  destruct (rule_skipped _ _); [apply wp_ret; unfold in_agreement in *; by rewrite Ht1|].
  apply wp_bind. eapply wp_mono; [|apply Samples_spec]. intros samples t2 (Ht2 & _ & _).
  apply wp_bind. unfold wp at 1. simpl. destruct (Rules.Evaluate r _ samples o) as [up|] eqn:Hev; [|done].
  set (k := (Rules.KeyFor r (o_DeviceID o) (o_Labels o)).1).
  apply (apply_update_agrees E0 k); unfold in_agreement in *; rewrite ?Ht2, ?Ht1; try done.
  - intros Hnew Hi. destruct (Hin Hnew) as [[_ Hkeyed _ Hrules] _]. eapply rule_update; [| |exact Hev|done].
    + intros p Hp. by apply (Hkeyed k p Hp).
    + destruct (as_states (view t) !! _) as [p|] eqn:Hp; [|by left].
      apply (Hrules k p Hp), rule_key_prefix.
  - intros Hi. apply rule_Evaluate_evaluated in Hev. destruct Hev as [| |rec tr ev h m _ _ _ _ _ Hke _ _]; [done|constructor|].
    cbn [up_Events]. apply Forall_singleton. rewrite Hke. apply rule_key_nonempty.
Qed.

(** The whole transaction keeps states and alerts in agreement. *)
Lemma process_body_agrees defs rules o (t : T) :
  Forall (λ d, HasPrefix (df_ID d) rule_prefix = false) defs → alerts_agree (view t) →
  wp (process_body defs rules o) (λ out t', new_events (as_events (view t)) out → alerts_agree (view t')) t.
Proof.
  intros Hdefs Hag. set (E0 := as_events (view t)). unfold process_body.
  eapply wp_implements; [apply InsertObservation_spec|]. unfold A_InsertObservation.
  destruct (as_observations (view t) !! o_ObservationID o); simpl; intros t1 Ht1; [apply wp_ret; by rewrite Ht1|].
  assert (in_agreement E0 Outcome0 t1) as Hin1.
  { intros _. rewrite Ht1. split; [by destruct Hag|]. intros id Hid _. done. }
  apply wp_bind. apply (wp_mono _ (λ _ t2, in_agreement E0 Outcome0 t2)).
  2: { case_bool_decide; [|by apply wp_ret]. eapply wp_implements_last; [apply TouchDevice_spec|]. intros t2 Ht2 Hnew.
       destruct (Hin1 Hnew) as [[] Hev]. unfold A_TouchDevice in Ht2.
       repeat case_match; simpl in Ht2; rewrite Ht2; done || (split; [by constructor|exact Hev]). }
  intros u t2 Hin2. apply wp_bind.
  eapply wp_mono; [|apply (wp_foldl _ (λ l out t3, Forall (λ d, HasPrefix (df_ID d) rule_prefix = false) l ∧ in_agreement E0 out t3))];
    [|done|].
  - intros out t3 [_ Hin3]. eapply wp_mono; [|apply (wp_foldl _ (λ _ out t3, in_agreement E0 out t3)); [done|]].
    + intros out' t' Hin' Hnew. by apply Hin'.
    + intros r rs out' t' Hin'. by apply process_rule_agrees.
  - intros d ds out t3 [[Hd Hds]%Forall_cons Hin3]. eapply wp_mono; [|by apply process_definition_agrees]. done.
Qed.
(** *** Every stored event is announced exactly once *)

(** The ids of the queued device-event messages, in queue order. *)
Definition announced (queue : list (string * string)) : list string :=
  (filter (λ m, m.1 = SubjectEventDevice) queue).*2.

Definition notified (s : AStore) : Prop :=
  order_ok (as_events s) (announced (as_queue s)) ∧
  Forall (λ a, (SubjectEventAlert, al_OpenEventID a +:+ ".alert") ∈ as_queue s) (as_alerts s).

(** [notified] reads events, alerts and the queue only. *)
Lemma notified_ext s s' :
  as_events s' = as_events s → as_alerts s' = as_alerts s → as_queue s' = as_queue s → notified s → notified s'.
Proof. unfold notified. by intros -> -> ->. Qed.

Lemma announced_snoc queue subject id :
  announced (queue ++ [(subject, id)]) = announced queue ++ (if decide (subject = SubjectEventDevice) then [id] else []).
Proof. unfold announced. rewrite filter_app, fmap_app, filter_cons. simpl. by case_decide. Qed.

Lemma notified_resolve ev alerts (P : Alert → Prop) :
  (∀ a, P a → P (resolved_by ev a)) → Forall P alerts → Forall P (resolve_first ev alerts).
Proof.
  intros HP. induction 1 as [|a l Ha Hl IH]; simpl; [constructor|]. case_match; by constructor; auto.
Qed.

Lemma recordEvent_notified ev (t : T) : notified (view t) → wp (recordEvent ev) (λ _ t', notified (view t')) t.
Proof.
  intros [Hord Hal]. unfold recordEvent. eapply wp_implements; [apply InsertEvent_spec|]. unfold A_InsertEvent.
  destruct (as_events (view t) !! ev_EventID ev) eqn:Hnew; simpl; intros t1 Ht1; [apply wp_ret; by rewrite Ht1|].
  apply wp_bind. unfold wp at 1. simpl. destruct (Encode ev) as [payload|]; [|done].
  eapply wp_implements; [apply Enqueue_spec|]. simpl. intros t2 Ht2.
  assert (notified (view t2)) as [Hord2 Hal2].
  { rewrite Ht2, Ht1. split; simpl.
    - rewrite announced_snoc, decide_True by done. by apply order_ok_insert.
    - eapply Forall_impl; [exact Hal|]. intros a Ha. by apply elem_of_app; left. }
  case_bool_decide; [by apply wp_ret|]. destruct (ev_Resolves ev).
  - eapply wp_implements; [apply ResolveAlert_spec|]. unfold A_ResolveAlert. destruct (firing _ _); simpl; intros t3 Ht3;
      [|apply wp_ret; by rewrite Ht3].
    eapply wp_implements_last; [apply Enqueue_spec|]. simpl. intros t4 Ht4. rewrite Ht4, Ht3. split; simpl.
    + rewrite announced_snoc, decide_False by done. by rewrite app_nil_r.
    + eapply Forall_impl; [by apply (notified_resolve ev _ (λ a, (SubjectEventAlert, al_OpenEventID a +:+ ".alert") ∈ as_queue (view t2)))|].
      intros a Ha. by apply elem_of_app; left.
  - eapply wp_implements; [apply OpenAlert_spec|]. unfold A_OpenAlert. destruct (firing _ _); simpl; intros t3 Ht3;
      [apply wp_ret; by rewrite Ht3|].
    eapply wp_implements_last; [apply Enqueue_spec|]. simpl. intros t4 Ht4. rewrite Ht4, Ht3. split; simpl.
    + rewrite announced_snoc, decide_False by done. by rewrite app_nil_r.
    + apply Forall_app. split; [|repeat constructor; apply elem_of_app; right; set_solver].
      eapply Forall_impl; [exact Hal2|]. intros a Ha. by apply elem_of_app; left.
Qed.

Lemma apply_update_notified out up (t : T) : notified (view t) → wp (apply_update out up) (λ _ t', notified (view t')) t.
Proof.
  intros Hn. unfold apply_update. case_bool_decide; [by apply wp_ret|].
  eapply wp_implements; [apply PutState_spec|]. simpl. intros t1 Ht1. apply wp_bind.
  eapply wp_mono; [|apply (wp_foldl _ (λ _ _ t2, notified (view t2)))].
  - intros out2 t2 Hn2. apply (wp_foldl _ (λ _ _ t3, notified (view t3))); [done|]. intros ev evs out' t' Hn'.
    apply wp_bind. eapply wp_mono; [|by apply recordEvent_notified]. intros u t3 Hn3. by apply wp_ret.
  - by eapply notified_ext; [..|exact Hn]; rewrite Ht1.
  - intros tr trs out' t' Hn'. eapply wp_implements; [apply InsertTransition_spec|]. intros t3 Ht3. apply wp_ret.
    eapply notified_ext; [..|exact Hn']; rewrite Ht3; unfold A_InsertTransition; by destruct (_ !! _).
Qed.

(** The loops over definitions and rules keep what persisting one update keeps. *)
Lemma process_loops (I : AStore → Prop) defs rules o out (t : T) :
  (∀ out up (t : T), I (view t) → wp (apply_update out up) (λ _ t', I (view t')) t) → I (view t) →
  wp (out ← ST_foldl (process_definition o) out defs; ST_foldl (process_rule o) out rules) (λ _ t', I (view t')) t.
Proof.
  intros Hup HI. apply wp_bind. eapply wp_mono; [|apply (wp_foldl _ (λ _ _ t3, I (view t3))); [done|]].
  - intros out' t3 HI3. apply (wp_foldl _ (λ _ _ t4, I (view t4))); [done|].
    intros r rs out2 t' HI'. unfold process_rule. eapply wp_implements; [apply GetState_spec|]. simpl. intros t4 Ht4.
    case_match; [apply wp_ret; by rewrite Ht4|]. apply wp_bind. eapply wp_mono; [|apply Samples_spec].
    intros samples t5 (Ht5 & _). apply wp_bind. unfold wp at 1. simpl. case_match; [|done].
    apply Hup. by rewrite Ht5, Ht4.
  - intros d ds out' t' HI'. unfold process_definition. eapply wp_implements; [apply GetState_spec|]. simpl. intros t4 Ht4.
    apply wp_bind. unfold wp at 1. simpl. case_match; [|done]. apply Hup. by rewrite Ht4.
Qed.

(** ... and so does the whole body, when it also survives the bookkeeping before the loops. *)
Lemma process_body_keeps (I : AStore → Prop) defs rules o (t : T) :
  (∀ out up (t : T), I (view t) → wp (apply_update out up) (λ _ t', I (view t')) t) →
  (∀ s id at_, I s → I (A_TouchDevice id at_ s).2) → I (A_InsertObservation o (view t)).2 →
  wp (process_body defs rules o) (λ _ t', I (view t')) t.
Proof.
  intros Hup Htouch Hins. unfold process_body. eapply wp_implements; [apply InsertObservation_spec|]. intros t1 Ht1.
  rewrite <-Ht1 in Hins. case_match; [by apply wp_ret|]. apply wp_bind. apply (wp_mono _ (λ _ t2, I (view t2))).
  - intros u t2 HI2. by apply process_loops.
  - case_bool_decide; [|by apply wp_ret]. eapply wp_implements_last; [apply TouchDevice_spec|]. intros t2 ->. by apply Htouch.
Qed.

Lemma process_body_notified defs rules o (t : T) :
  notified (view t) → wp (process_body defs rules o) (λ _ t', notified (view t')) t.
Proof.
  intros Hn. apply process_body_keeps.
  - intros out up t1. apply apply_update_notified.
  - intros s id at_ Hs. unfold A_TouchDevice. repeat case_match; try done; by eapply notified_ext; [..|exact Hs].
  - unfold A_InsertObservation. case_match; [done|]. by eapply notified_ext; [..|exact Hn].
Qed.

(** Observations are never removed. *)
Lemma recordEvent_observations ev (t : T) :
  wp (recordEvent ev) (λ _ t', as_observations (view t') = as_observations (view t)) t.
Proof.
  unfold recordEvent. eapply wp_implements; [apply InsertEvent_spec|]. intros t1 Ht1.
  assert (as_observations (view t1) = as_observations (view t)) as Hobs1 by (rewrite Ht1; unfold A_InsertEvent; by case_match).
  case_match; [by apply wp_ret|]. apply wp_bind. unfold wp at 1. simpl. destruct (Encode ev); [|done].
  eapply wp_implements; [apply Enqueue_spec|]. simpl. intros t2 Ht2. case_bool_decide; [apply wp_ret; by rewrite Ht2|].
  apply wp_bind. apply (wp_mono _ (λ _ t3, as_observations (view t3) = as_observations (view t))).
  - intros changed t3 Hobs3. destruct changed; simpl; [|by apply wp_ret].
    eapply wp_implements_last; [apply Enqueue_spec|]. simpl. intros t4 Ht4. by rewrite Ht4.
  - destruct (ev_Resolves ev); (eapply wp_implements_last; [apply ResolveAlert_spec || apply OpenAlert_spec|]);
      intros t3 Ht3; rewrite Ht3; unfold A_ResolveAlert, A_OpenAlert; case_match; simpl; by rewrite Ht2.
Qed.

Lemma apply_update_observations obs out up (t : T) :
  as_observations (view t) = obs → wp (apply_update out up) (λ _ t', as_observations (view t') = obs) t.
Proof.
  intros Hobs. unfold apply_update. case_bool_decide; [by apply wp_ret|].
  eapply wp_implements; [apply PutState_spec|]. simpl. intros t1 Ht1. apply wp_bind.
  eapply wp_mono; [|apply (wp_foldl _ (λ _ _ t2, as_observations (view t2) = obs)); [by rewrite Ht1|]].
  - intros out2 t2 Hobs2. apply (wp_foldl _ (λ _ _ t3, as_observations (view t3) = obs)); [done|]. intros ev evs out' t' H'.
    apply wp_bind. eapply wp_mono; [|apply recordEvent_observations]. intros u t3 Hobs3. apply wp_ret. congruence.
  - intros tr trs out' t' H'. eapply wp_implements; [apply InsertTransition_spec|]. intros t3 Ht3. apply wp_ret.
    rewrite Ht3. unfold A_InsertTransition. by case_match.
Qed.

Lemma process_body_stored defs rules o (t : T) :
  wp (process_body defs rules o) (λ _ t', is_Some (as_observations (view t') !! o_ObservationID o)) t.
Proof.
  set (obs := as_observations (A_InsertObservation o (view t)).2).
  eapply wp_mono; [|apply (process_body_keeps (λ s, as_observations s = obs))]; [|intros; by apply apply_update_observations| |done].
  - intros out t' ->. subst obs. unfold A_InsertObservation. case_match eqn:Hl; simpl; [by rewrite Hl|].
    by rewrite lookup_insert_eq.
  - intros s id at_ Hs. unfold A_TouchDevice. by repeat case_match.
Qed.

(** *** A duplicate changes nothing *)

End contract.

(** ** The pipeline on the in-memory store *)

Section memory.
Context `{Sha256, Json Event}.

#[export] Instance keeps_recordEvent I ev : KeepsOps I → Keeps I (recordEvent (T:=memTx) ev).
Proof. intros. unfold recordEvent. apply _. Qed.
#[export] Instance keeps_apply_update I out up : KeepsOps I → Keeps I (apply_update (T:=memTx) out up).
Proof. intros. unfold apply_update. apply _. Qed.
#[export] Instance keeps_process_body I defs rules o : KeepsOps I → Keeps I (process_body (T:=memTx) defs rules o).
Proof. intros. unfold process_body, process_definition, process_rule. apply _. Qed.

(** *** Validated configuration never panics *)

(** The body ends, if not with a result, with an error value. *)
Class NoPanic {A} (m : ST memTx error A) : Prop :=
  no_panic t e t' : m t = (Err e, t') → is_panic e = false.
#[export] Hint Mode NoPanic - ! : typeclass_instances.

#[export] Instance no_panic_ret {A} (a : A) : NoPanic (mret a).
Proof. by intros t e t' ?. Qed.
#[export] Instance no_panic_bind {A B} (m : ST memTx error A) (f : A → ST memTx error B) :
  NoPanic m → (∀ a, NoPanic (f a)) → NoPanic (m ≫= f).
Proof.
  intros Hm Hf t e t'. unfold mbind, ST_bind. destruct (m t) as [[a|e1] t1] eqn:Hrun; [apply Hf|].
  intros ?; simplify_eq. by eapply Hm.
Qed.
#[export] Instance no_panic_if {A} (b : bool) (m1 m2 : ST memTx error A) : NoPanic m1 → NoPanic m2 → NoPanic (if b then m1 else m2).
Proof. by destruct b. Qed.
Lemma no_panic_foldl {A B} (P : A → Prop) (f : B → A → ST memTx error B) b l :
  Forall P l → (∀ b x, P x → NoPanic (f b x)) → NoPanic (ST_foldl f b l).
Proof.
  intros Hl Hf. revert b. induction Hl as [|x l Hx _ IH]; intros b; simpl; [apply _|]. apply no_panic_bind; auto.
Qed.

(** The store's operations do not fail at all. *)
Ltac never_fails := intros ? ? ?; simpl; unfold mem_InsertObservation, mem_TouchDevice, mem_InsertTransition,
  mem_InsertEvent, mem_OpenAlert, mem_ResolveAlert; repeat case_match; intros ?; simplify_eq.
#[export] Instance no_panic_InsertObservation o : NoPanic (InsertObservation o).
Proof. never_fails. Qed.
#[export] Instance no_panic_TouchDevice id at_ : NoPanic (TouchDevice id at_).
Proof. never_fails. Qed.
#[export] Instance no_panic_Samples d m l f u : NoPanic (Samples d m l f u).
Proof. never_fails. Qed.
#[export] Instance no_panic_GetState k : NoPanic (GetState k).
Proof. never_fails. Qed.
#[export] Instance no_panic_PutState r : NoPanic (PutState r).
Proof. never_fails. Qed.
#[export] Instance no_panic_InsertTransition tr : NoPanic (InsertTransition tr).
Proof. never_fails. Qed.
#[export] Instance no_panic_InsertEvent e : NoPanic (InsertEvent e).
Proof. never_fails. Qed.
#[export] Instance no_panic_OpenAlert e : NoPanic (OpenAlert e).
Proof. never_fails. Qed.
#[export] Instance no_panic_ResolveAlert e : NoPanic (ResolveAlert e).
Proof. never_fails. Qed.
#[export] Instance no_panic_Enqueue m : NoPanic (Enqueue m).
Proof. never_fails. Qed.
#[export] Instance no_panic_Encode (ev : Event) : NoPanic (ST_lift (Encode ev)).
Proof. intros t e t'. unfold ST_lift, Encode. case_match; intros ?; by simplify_eq. Qed.

#[export] Instance no_panic_apply_update out up : NoPanic (apply_update (T:=memTx) out up).
Proof.
  unfold apply_update. apply no_panic_if; [apply _|]. apply no_panic_bind; [apply _|]. intros _.
  apply no_panic_bind; [apply (no_panic_foldl (λ _, True)); [by apply Forall_forall|apply _]|]. intros out'.
  apply (no_panic_foldl (λ _, True)); [by apply Forall_forall|]. intros b ev _. unfold recordEvent. apply _.
Qed.

Lemma no_panic_process_body defs rules o :
  Forall (λ d, State.validate d = None) defs → Forall (λ r, Rules.validate r = None) rules →
  NoPanic (process_body (T:=memTx) defs rules o).
Proof.
  intros Hdefs Hrules. unfold process_body. apply no_panic_bind; [apply _|]. intros inserted. apply no_panic_if; [apply _|].
  apply no_panic_bind; [apply _|]. intros _. apply no_panic_bind.
  - eapply no_panic_foldl; [exact Hdefs|]. intros out d Hd. unfold process_definition. apply no_panic_bind; [apply _|].
    intros prev. apply no_panic_bind; [|apply _]. destruct (Evaluate_total d prev o Hd) as [up ->]. by intros t e t' ?.
  - intros out. eapply no_panic_foldl; [exact Hrules|]. intros out' r Hr. unfold process_rule. apply no_panic_bind; [apply _|].
    intros prev. apply no_panic_if; [apply _|]. apply no_panic_bind; [apply _|]. intros samples.
    apply no_panic_bind; [|apply _]. destruct (rule_Evaluate_total r prev samples o Hr) as [up ->]. by intros t e t' ?.
Qed.

(** *** Runs *)

(** A configuration whose definitions and rules passed validation, none of the definitions
    named like a rule. [State.Parse] and [Rules.Parse] establish the validation. *)
Definition config_ok (p : Processor) : Prop :=
  (∀ metric l, dfs_byMetric (p_States p) !! metric = Some l →
     Forall (λ d, State.validate d = None ∧ HasPrefix (df_ID d) rule_prefix = false) l) ∧
  (∀ rs metric l, p_Rules p = Some rs → rls_byMetric rs !! metric = Some l → Forall (λ r, Rules.validate r = None) l).

Lemma config_definitions p metric typ :
  config_ok p → Forall (λ d, State.validate d = None ∧ HasPrefix (df_ID d) rule_prefix = false) (State.For (p_States p) metric typ).
Proof.
  intros [Hd _]. unfold State.For. apply Forall_forall. intros d [_ Hin]%list_elem_of_filter.
  destruct (dfs_byMetric (p_States p) !! metric) as [l|] eqn:Hl; [|by apply elem_of_nil in Hin].
  by apply (proj1 (Forall_forall _ _) (Hd _ _ Hl)).
Qed.

Lemma config_rules p metric dev : config_ok p → Forall (λ r, Rules.validate r = None) (Rules.For (p_Rules p) metric dev).
Proof.
  intros [_ Hr]. unfold Rules.For. destruct (p_Rules p) as [rs|] eqn:Hrs; [|constructor].
  apply Forall_forall. intros r [_ Hin]%list_elem_of_filter.
  destruct (rls_byMetric rs !! metric) as [l|] eqn:Hl; [|by apply elem_of_nil in Hin].
  by apply (proj1 (Forall_forall _ _) (Hr _ _ _ eq_refl Hl)).
Qed.

(** Either nothing was attempted, or one transaction ran. *)
Lemma Process_cases p o (s : MemStore) r s' :
  Process p o s = (r, s') →
  (s' = s ∧ ∀ out, r = Ok out → out = Outcome0 <| oc_Dropped := "device_disabled" |>) ∨
  ∃ enriched dev, Enrich (p_Inventory p) o = Ok (enriched, dev) ∧ ∃ enriched', extended (p_Ext p) enriched dev = Ok enriched' ∧
    mem_Do None (process_body (State.For (p_States p) (o_Metric enriched') (d_DeviceType dev))
          (Rules.For (p_Rules p) (o_Metric enriched') dev) enriched') s = (r, s').
Proof.
  unfold Process. destruct (Enrich _ o) as [[enriched dev]|e].
  - destruct (extended _ enriched dev) as [enriched'|] eqn:Hx; [|intros ?; simplify_eq; by left].
    intros Hdo. right. eauto 6.
  - case_match; intros ?; simplify_eq; left; split; try done. intros out ?. by simplify_eq.
Qed.

Lemma body_no_panic p o (s : MemStore) dev (e : error) (s' : MemStore) :
  config_ok p → ms_failNext s = None →
  mem_Do None (process_body (State.For (p_States p) (o_Metric o) (d_DeviceType dev))
          (Rules.For (p_Rules p) (o_Metric o) dev) o) s = (Err e, s') → is_panic e = false.
Proof.
  intros Hcfg Hf. unfold mem_Do. rewrite Hf. destruct (process_body _ _ _ _) as [[a|e'] t] eqn:Hrun; [done|].
  intros ?; simplify_eq. eapply (no_panic_process_body (State.For (p_States p) (o_Metric o) (d_DeviceType dev))); [| |exact Hrun].
  - eapply Forall_impl; [by apply config_definitions|]. by intros d [? _].
  - by apply config_rules.
Qed.

(** An error leaves the store as it was, but for the injected failure it may have used up. *)
Lemma Process_error p o (s : MemStore) e s' :
  config_ok p → int64 (ms_nextOutbox s) → Process p o s = (Err e, s') → s' = s ∨ s' = s <| ms_failNext := None |>.
Proof.
  intros Hcfg Hi [[-> _]|(enriched & dev & _ & o' & _ & Hdo)]%Process_cases; [by left|]. right.
  destruct (ms_failNext s) eqn:Hf; [unfold mem_Do in Hdo; rewrite Hf in Hdo; by simplify_eq|].
  refine (mem_Do_error None _ s e s' _ Hi Hdo _). by eapply body_no_panic.
Qed.

(** The stores that processing, registration, publishing and outages lead to. The events of a
    processed observation are assumed new: their ids are hashes of data that includes the
    observation's id, which is stored once. *)
Inductive reachable (p : Processor) : MemStore → Prop :=
| reachable_new : reachable p NewMemStore
| reachable_process s o r s' :
    reachable p s → Process p o s = (r, s') → (∀ out, r = Ok out → new_events (ms_events s) out) → reachable p s'
| reachable_devices s devices : reachable p s → reachable p (UpsertDevices devices s)
| reachable_outage s err : reachable p s → reachable p (FailNext err s)
| reachable_drain {P} s limit publish (b b' : P) n err s' :
    reachable p s → mem_DrainOutbox limit publish b s = (n, err, b', s') → reachable p s'.

Definition store_invariant (s : MemStore) : Prop :=
  store_ok s ∧ alerts_agree (mem_view s) ∧ notified (mem_view s).

Lemma mark_published_messages {A} (g : OutboxMessage → A) idx rows :
  (λ r, g (ox_msg r)) <$> mark_published idx rows = (λ r, g (ox_msg r)) <$> rows.
Proof.
  revert rows. induction idx as [|i idx IH]; intros rows; [done|]. unfold mark_published in *. simpl. rewrite IH.
  clear. revert i. induction rows as [|r rows IH]; intros [|i]; simpl; [done..|]. f_equal. apply IH.
Qed.

(** Updates that the views of the invariant do not see. *)
Lemma store_invariant_frame s s' :
  store_invariant s → store_ok s' →
  as_states (mem_view s') = as_states (mem_view s) → as_alerts (mem_view s') = as_alerts (mem_view s) →
  as_events (mem_view s') = as_events (mem_view s) → as_queue (mem_view s') = as_queue (mem_view s) → store_invariant s'.
Proof.
  intros (_ & [] & Hn) Hok Hs Ha He Hq. split; [done|]. split; [|by eapply notified_ext; [..|exact Hn]].
  split; rewrite ?Ha, ?Hs; done.
Qed.

Lemma drain_frame {P} limit publish (b b' : P) s n err s' :
  mem_DrainOutbox limit publish b s = (n, err, b', s') → ∃ idx, s' = s <| ms_outbox := mark_published idx (ms_outbox s) |>.
Proof.
  unfold mem_DrainOutbox. destruct (claim_batch _ _ _ _) as [|c cs]; [intros ?; simplify_eq; exists []; by destruct s'|].
  destruct (publish _ b) as [[e|] b1]; intros ?; simplify_eq; [exists []; by destruct s'|]. eauto.
Qed.

Lemma reachable_invariant p s : config_ok p → reachable p s → store_invariant s.
Proof.
  intros Hcfg Hreach. induction Hreach as [|s o r s' _ IH Hproc Hnew|s devices _ IH|s err _ IH|P s limit publish b b' n err s' _ IH Hdrain].
  - split; [apply NewMemStore_ok|]. split.
    + split; simpl; [done|apply map_Forall_empty|done|apply map_Forall_empty].
    + split; [|constructor]. simpl. apply (ok_events _ NewMemStore_ok).
  - destruct IH as (Hok & Hag & Hn). destruct r as [out|e].
    + pose proof Hproc as [[-> _]|(enriched & dev & _ & o' & _ & Hdo)]%Process_cases; [by split_and!|].
      assert (store_ok s') as Hok'.
      { change s' with (Ok (E:=error) out, s').2. rewrite <-Hdo. by apply mem_Do_ok; [apply _..|]. }
      destruct (mem_Do_success _ s out s' Hdo) as (t & t' & Hv & Hrun & Hv'). split; [done|]. rewrite Hv', <-Hv in *. split.
      * assert (Forall (λ d, HasPrefix (df_ID d) rule_prefix = false) (State.For (p_States p) (o_Metric o') (d_DeviceType dev))) as Hdefs.
        { eapply Forall_impl; [by apply config_definitions|]. by intros d [_ ?]. }
        apply (wp_elim _ _ _ _ _ (process_body_agrees _ _ o' t Hdefs Hag) Hrun). rewrite Hv. by apply Hnew.
      * exact (wp_elim _ _ _ _ _ (process_body_notified _ _ o' t Hn) Hrun).
    + pose proof (ok_counter _ Hok) as Hi. destruct (Process_error _ _ _ _ _ Hcfg Hi Hproc) as [-> | ->]; [by split_and!|].
      eapply store_invariant_frame; [by split_and!|destruct Hok; by constructor|done..].
  - eapply store_invariant_frame; [done|destruct IH as [[] _]; by constructor|done..].
  - eapply store_invariant_frame; [done|destruct IH as [[] _]; by constructor|done..].
  - apply drain_frame in Hdrain as [idx ->].
    eapply store_invariant_frame; [done|destruct IH as [[] _]; by constructor|done..|].
    apply (mark_published_messages (λ m, (ob_Subject m, ob_MsgID m))).
Qed.
End memory.
