(* ===== verification/PipelineThms.v ===== *)
(** * The pipeline's guarantees

    Redelivery, atomicity, the invariant of every reachable store, the relay, and what stage A
    lets through. *)

From S2P Require Import Prelude GoLib GoFloat Domain Regexp State StateFacts Rules RulesFacts Schema Normalize Inventory.
From S2P Require Import Store MemStore MemStoreFacts AutoStore Pipeline PipelineFacts.

(** ** Parsed configuration *)

(** The index by metric lists, in file order, what the file has for the metric; and all of it passed validation. *)
Definition indexed_definitions (ds : Definitions) : Prop :=
  Forall (λ d, State.validate d = None) (dfs_all ds) ∧ NoDup (df_ID <$> dfs_all ds) ∧
  ∀ metric, default [] (dfs_byMetric ds !! metric) = filter (λ d, df_Metric d = metric) (dfs_all ds).
Definition indexed_rules (rs : Rules.Rules) : Prop :=
  Forall (λ r, Rules.validate r = None) (rls_all rs) ∧ NoDup (r_ID <$> rls_all rs) ∧
  ∀ metric, default [] (rls_byMetric rs !! metric) = filter (λ r, m_Metric (r_Match r) = metric) (rls_all rs).

(** One more entry in the index. *)
Lemma index_insert {A} (f : A → string) (index : gmap string (list A)) (l : list A) x metric :
  (∀ metric, default [] (index !! metric) = filter (λ y, f y = metric) l) →
  default [] (<[f x := default [] (index !! f x) ++ [x]]> index !! metric) = filter (λ y, f y = metric) (l ++ [x]).
Proof.
  intros Hix. rewrite filter_app. destruct (decide (f x = metric)) as [<-|Hne].
  - rewrite lookup_insert_eq, filter_cons_True by done. simpl. by rewrite Hix.
  - rewrite lookup_insert_ne, filter_cons_False by done. by rewrite Hix, app_nil_r.
Qed.

Lemma NoDup_snoc {A} (l : list A) x : NoDup l → x ∉ l → NoDup (l ++ [x]).
Proof. intros Hl Hx. apply NoDup_app. split_and!; [done|set_solver|apply NoDup_singleton]. Qed.

Lemma State_Parse_loop_indexed l ds seen ds' :
  indexed_definitions ds → (∀ d, d ∈ dfs_all ds → df_ID d ∈ seen) → State.Parse_loop ds seen l = Ok ds' →
  indexed_definitions ds' ∧ dfs_all ds' = dfs_all ds ++ l.
Proof.
  revert ds seen. induction l as [|d l IH]; intros ds seen (Hv & Hnd & Hix) Hseen; cbn [State.Parse_loop].
  - intros ?; simplify_eq. by rewrite app_nil_r.
  - destruct (State.validate d) eqn:Hd; [done|]. case_bool_decide as Hnew; [done|]. intros Hp.
    apply IH in Hp as [Hok Hall]; [split; [done|]; rewrite Hall; simpl; by rewrite <- app_assoc| |].
    + split_and!; simpl; [apply Forall_app; by repeat constructor| |intros metric; by apply index_insert].
      rewrite fmap_app. apply NoDup_snoc; [done|]. intros (d' & Heq & Hin)%list_elem_of_fmap. apply Hnew. rewrite Heq. by apply Hseen.
    + intros d'. simpl. rewrite elem_of_app, list_elem_of_singleton. intros [Hin%Hseen| ->]; set_solver.
Qed.

Lemma Rules_Parse_loop_indexed l rs seen rs' :
  indexed_rules rs → (∀ r, r ∈ rls_all rs → r_ID r ∈ seen) → Rules.Parse_loop rs seen l = Ok rs' →
  indexed_rules rs' ∧ rls_all rs' = rls_all rs ++ l.
Proof.
  revert rs seen. induction l as [|r l IH]; intros rs seen (Hv & Hnd & Hix) Hseen; cbn [Rules.Parse_loop].
  - intros ?; simplify_eq. by rewrite app_nil_r.
  - destruct (Rules.validate r) eqn:Hr; [done|]. case_bool_decide as Hnew; [done|]. cbv zeta. intros Hp.
    apply IH in Hp as [Hok Hall]; [split; [done|]; rewrite Hall; simpl; by rewrite <- app_assoc| |].
    + split_and!; simpl; [apply Forall_app; by repeat constructor| |intros metric; by apply (index_insert (λ r, m_Metric (r_Match r)))].
      rewrite fmap_app. apply NoDup_snoc; [done|]. intros (r' & Heq & Hin)%list_elem_of_fmap. apply Hnew. rewrite Heq. by apply Hseen.
    + intros r'. simpl. rewrite elem_of_app, list_elem_of_singleton. intros [Hin%Hseen| ->]; set_solver.
Qed.

Lemma indexed_config_ok p :
  indexed_definitions (p_States p) → (∀ rs, p_Rules p = Some rs → indexed_rules rs) →
  Forall (λ d, HasPrefix (df_ID d) rule_prefix = false) (dfs_all (p_States p)) → config_ok p.
Proof.
  intros (Hv & _ & Hix) Hrules Hpre. split.
  - intros metric l Hl. specialize (Hix metric). rewrite Hl in Hix. simpl in Hix. subst l.
    apply Forall_forall. intros d [_ Hin]%list_elem_of_filter. rewrite Forall_forall in Hv, Hpre. auto.
  - intros rs metric l Hrs Hl. destruct (Hrules rs Hrs) as (Hrv & _ & Hrix). specialize (Hrix metric).
    rewrite Hl in Hrix. simpl in Hrix. subst l.
    apply Forall_forall. intros r [_ Hin]%list_elem_of_filter. rewrite Forall_forall in Hrv. auto.
Qed.

(** ** The relay *)

Section relay.
Context (PublishBatch : list OutMsg → list OutMsg → option error * list OutMsg).
(** The broker appends an accepted batch to its log; a failed publish may have delivered part of it. *)
Definition broker_ok : Prop := ∀ batch log,
  match PublishBatch batch log with
  | (None, log') => log' = log ++ batch
  | (Some _, log') => log `prefix_of` log'
  end.
Context (Hbroker : broker_ok).

(** What a drain that stops with [err] has done to the queue [q] and the log. *)
Definition drained (q : list OutboxMessage) (log : list OutMsg) (err : option error) (q' : list OutboxMessage) (log' : list OutMsg) : Prop :=
  (err = None → q' = [] ∧ log' = log ++ (out_msg <$> q)) ∧
  ∃ sent, q = sent ++ q' ∧ (log ++ (out_msg <$> sent)) `prefix_of` log'.

Lemma drained_step q1 q log err q' log' :
  drained q (log ++ (out_msg <$> q1)) err q' log' → drained (q1 ++ q) log err q' log'.
Proof.
  intros [Hnone (sent & Hq & Hpre)]. split.
  - intros He. destruct (Hnone He) as [-> ->]. by rewrite fmap_app, app_assoc.
  - exists (q1 ++ sent). split; [by rewrite Hq, app_assoc|]. by rewrite fmap_app, app_assoc.
Qed.

Lemma Drain_loop_drained fuel size total log (s : MemStore) :
  (0 < size)%Z → length (pending (ms_outbox s)) < fuel →
  ∃ total' err log' s', Drain_loop PublishBatch fuel size total log s = Some (total', err, log', s') ∧
    drained (pending (ms_outbox s)) log err (pending (ms_outbox s')) log'.
Proof using Hbroker.
  intros Hsize. revert total log s. induction fuel as [|fuel IH]; intros total log s Hfuel; [lia|].
  cbn [Drain_loop DrainOutbox MemStore_store]. rewrite DrainOutbox_batch by done. cbv zeta.
  set (q := pending (ms_outbox s)) in *. destruct (take (Z.to_nat size) q) as [|m batch] eqn:Htake.
  - assert (q = []) as Hq.
    { destruct q as [|x q']; [done|]. destruct (Z.to_nat size) eqn:Hn; [lia|]. done. }
    rewrite (proj2 (Z.ltb_lt _ _)) by lia. eexists _, None, log, s. split; [done|]. fold q. rewrite Hq. split.
    + by rewrite app_nil_r.
    + exists []. by rewrite !app_nil_r.
  - rewrite <-Htake. pose proof (Hbroker (out_msg <$> take (Z.to_nat size) q) log) as Hb.
    destruct (PublishBatch _ log) as [[e|] log1].
    + eexists _, (Some e), log1, s. split; [done|]. fold q. split; [done|]. exists []. by rewrite app_nil_r.
    + set (s1 := s <| ms_outbox := mark_first (Z.to_nat size) (ms_outbox s) |>).
      assert (pending (ms_outbox s1) = drop (Z.to_nat size) q) as Hq1 by apply pending_mark_first.
      rewrite length_take. destruct (Z.ltb_spec (Z.of_nat (Z.to_nat size `min` length q)) size) as [Hlt|Hge].
      * assert (drop (Z.to_nat size) q = []) as Hd by (apply drop_ge; lia).
        eexists _, None, log1, s1. split; [done|]. rewrite Hq1, Hd, Hb, take_ge by lia. split; [done|].
        exists q. by rewrite app_nil_r.
      * destruct (IH (wrap64 (total + Z.of_nat (Z.to_nat size `min` length q))) log1 s1) as (total' & err & log' & s' & Hrun & Hdr).
        { rewrite Hq1, length_drop. lia. }
        exists total', err, log', s'. split; [exact Hrun|]. rewrite Hq1, Hb in Hdr.
        rewrite <-(take_drop (Z.to_nat size) q). by apply drained_step.
Qed.
End relay.

(** ** An example deployment *)

Definition ex_json_event : Json Event := {|
  json_Marshal e := Ok (ev_EventID e);
  json_Decode _ := Err "unexpected end of JSON input";
  json_trailing _ := false;
|}.
Definition ex_device : Device :=
  MkDevice "sw1" "sw1.lab" "10.0.0.1" "switch" "acme" "m1" "" "lab" [] [] "" true 0 (MkCollectionSpec "snmp" "" 0) None.
Definition ex_definitions : Definitions := MkDefinitions [ex_def] {[ "system.reachable" := [ex_def] ]}.
Definition ex_processor : Processor :=
  MkProcessor (NewValidator Hour) (MkNormalizer ∅) (Registry_Reader (NewRegistry [ex_device])) ex_definitions None None
    Hour (5 * Minute) Minute 0.
Abbreviation ex_process := (Process (T:=memTx) (H:=sha_id) (H0:=ex_json_event) ex_processor).

(** The store after an outage of three samples. *)
Definition ex_run (s : MemStore) (obs : list Observation) : MemStore := foldl (λ s o, (ex_process o s).2) s obs.
Definition ex_down : MemStore := ex_run NewMemStore [ex_obs 1 false; ex_obs 2 false; ex_obs 3 false].

Lemma ex_config_ok : config_ok ex_processor.
Proof.
  split; [|done]. intros metric l. simpl. rewrite lookup_singleton_Some. intros [_ <-]. by repeat constructor.
Qed.

(** Whether the events of a result are new, decided. *)
Definition fresh_events (E0 : gmap string Event) (r : res Outcome) : bool :=
  match r with
  | Ok out => bool_decide (NoDup (ev_EventID <$> oc_Events out)) && forallb (λ e, isnil (E0 !! ev_EventID e)) (oc_Events out)
  | Err _ => true
  end.

Abbreviation ex_reachable := (reachable (H:=sha_id) (H0:=ex_json_event) ex_processor).

Lemma ex_step s o : ex_reachable s → fresh_events (ms_events s) (ex_process o s).1 = true → ex_reachable (ex_process o s).2.
Proof.
  intros Hs Hf. destruct (ex_process o s) as [r s'] eqn:Hrun. eapply reachable_process; [exact Hs|exact Hrun|].
  intros out ->. simpl in Hf. apply andb_true_iff in Hf as [Hnd Hall]. split; [by apply bool_decide_eq_true in Hnd|].
  apply Forall_forall. intros e He. rewrite forallb_forall in Hall. specialize (Hall e (proj1 (list_elem_of_In _ _) He)).
  by destruct (ms_events s !! ev_EventID e).
Qed.

Lemma ex_down_reachable : ex_reachable ex_down.
Proof.
  unfold ex_down, ex_run. cbn [foldl].
  apply ex_step; [apply ex_step; [apply ex_step; [apply reachable_new|]|]|]; vm_compute; reflexivity.
Qed.

(** ** Theorems *)

(** Redelivery is safe: once an observation was processed, processing the same message again
    succeeds, emits nothing and leaves the whole store exactly as it is; unless the observation
    was dropped for a disabled device, it is reported as a duplicate. *)
Theorem redelivery_is_noop `{Sha256, Json Event} p o (s s' : MemStore) out :
  Process p o s = (Ok out, s') → ms_failNext s' = None →
  ∃ out', Process p o s' = (Ok out', s') ∧ oc_Events out' = [] ∧ oc_Transitions out' = 0%Z ∧
          (oc_Dropped out = "" → oc_Duplicate out' = true).
Proof.
  intros Hproc Hf. pose proof Hproc as Hcases. apply Process_cases in Hcases as [[-> Hout]|(enriched & dev & He & o' & Hx & Hdo)].
  - exists out. split; [done|]. rewrite (Hout out eq_refl). done.
  - exists (Outcome0 <| oc_Duplicate := true |>). split; [|done]. unfold Process. rewrite He, Hx. simpl. unfold mem_Do. rewrite Hf.
    destruct (mem_Do_success _ s out s' Hdo) as (t & t' & _ & Hrun & Hv').
    pose proof (wp_elim _ _ _ _ _ (process_body_stored _ _ o' t) Hrun) as Hst. cbv beta in Hst. rewrite <-Hv' in Hst.
    destruct Hst as [o'' Ho'']. unfold process_body, mbind, ST_bind. simpl. unfold mem_InsertObservation. simpl in *.
    by rewrite Ho''.
Qed.

Lemma redelivery_is_noop_witness :
  ∃ out', ex_process (ex_obs 3 false) ex_down = (Ok out', ex_down) ∧ oc_Duplicate out' = true.
Proof.
  destruct (redelivery_is_noop (H:=sha_id) (H0:=ex_json_event) ex_processor (ex_obs 3 false)
    (ex_run NewMemStore [ex_obs 1 false; ex_obs 2 false]) ex_down
    (match (ex_process (ex_obs 3 false) (ex_run NewMemStore [ex_obs 1 false; ex_obs 2 false])).1 with Ok out => out | Err _ => Outcome0 end))
    as (out' & Hrun & _ & _ & Hdup); [vm_compute; reflexivity|vm_compute; reflexivity|].
  exists out'. split; [exact Hrun|]. apply Hdup. vm_compute. reflexivity.
Defined.

(** Processing is atomic: when it returns an error (database outage, message that cannot be
    encoded, unregistered device) the store is exactly what it was, but for the injected
    failure it used up. No panic can escape a transaction when the configuration is validated. *)
Theorem failed_processing_leaves_no_trace `{Sha256, Json Event} p o (s : MemStore) e s' :
  config_ok p → int64 (ms_nextOutbox s) → Process p o s = (Err e, s') → s' = s ∨ s' = s <| ms_failNext := None |>.
Proof. apply Process_error. Qed.

Lemma failed_processing_leaves_no_trace_witness :
  let s := FailNext (Some (Errorf CategoryDependency "database down")) ex_down in
  (ex_process (ex_obs 4 true) s).2 = s ∨ (ex_process (ex_obs 4 true) s).2 = s <| ms_failNext := None |>.
Proof.
  intros s. destruct (ex_process (ex_obs 4 true) s) as [[out|e] s'] eqn:Hrun.
  - exfalso. assert ((ex_process (ex_obs 4 true) s).1 = Ok out) as Hok by (by rewrite Hrun). by vm_compute in Hok.
  - refine (failed_processing_leaves_no_trace (H:=sha_id) (H0:=ex_json_event) ex_processor (ex_obs 4 true) s e s' ex_config_ok _ Hrun).
    unfold int64, int_min, int_max. vm_compute. split; intros [=].
Defined.

(** C4. Alerts match states: in every store the platform can reach by processing observations in
    any order (errors, redelivery and outages included), registering devices and publishing, an
    alert is firing for a key exactly when the entity or rule tracked under that key is DOWN or
    RECOVERING. *)
Theorem alerts_match_states `{Sha256, Json Event} p (s : MemStore) key :
  config_ok p → reachable p s → (mem_AlertFiring key s).1 = Ok (prev_open (ms_states s !! key)).
Proof.
  intros Hcfg (_ & [_ _ Hag _] & _)%reachable_invariant; [|done]. unfold mem_AlertFiring. cbn [fst]. f_equal. apply Hag.
Qed.

Lemma alerts_match_states_witness :
  (mem_AlertFiring "reachability/sw1/" ex_down).1 = Ok true.
Proof.
  refine (eq_trans (alerts_match_states (H:=sha_id) (H0:=ex_json_event) ex_processor ex_down "reachability/sw1/"
    ex_config_ok ex_down_reachable) _). vm_compute. reflexivity.
Defined.

(** C5. No event without its notification, and no second one: in every reachable store the
    device-event messages queued so far name exactly the stored events, each once, and every
    alert has its own notification queued. *)
Theorem every_event_announced_once `{Sha256, Json Event} p (s : MemStore) :
  config_ok p → reachable p s →
  let queued := (λ r, (ob_Subject (ox_msg r), ob_MsgID (ox_msg r))) <$> ms_outbox s in
  announced queued ≡ₚ (map_to_list (ms_events s)).*1 ∧
  Forall (λ a, (SubjectEventAlert, al_OpenEventID a +:+ ".alert") ∈ queued) (ms_alerts s).
Proof.
  intros Hcfg Hr. destruct (reachable_invariant p s Hcfg Hr) as (_ & _ & [[Hnd Hin] Hal]). split; [|done].
  apply NoDup_Permutation; [done|apply NoDup_fst_map_to_list|]. intros id. rewrite Hin.
  rewrite list_elem_of_fmap. split.
  - intros [e He]. exists (id, e). split; [done|]. by apply elem_of_map_to_list.
  - intros ([id' e] & -> & He%elem_of_map_to_list). eauto.
Qed.

Lemma every_event_announced_once_witness :
  length (announced ((λ r, (ob_Subject (ox_msg r), ob_MsgID (ox_msg r))) <$> ms_outbox ex_down)) = 1.
Proof.
  destruct (every_event_announced_once (H:=sha_id) (H0:=ex_json_event) ex_processor ex_down ex_config_ok ex_down_reachable) as [Hp _].
  rewrite Hp. vm_compute. reflexivity.
Defined.

(** C39. The relay loses nothing: given more steps than there are queued messages, [Drain] returns;
    the messages no longer queued were handed to the broker first, in queue order; and when it
    reports no error the queue is empty and the broker got every message. *)
Theorem relay_delivers PublishBatch batchSize fuel log (s : MemStore) :
  broker_ok PublishBatch → length (pending (ms_outbox s)) < fuel →
  ∃ total err log' s', Drain PublishBatch fuel batchSize log s = Some (total, err, log', s') ∧
    drained (pending (ms_outbox s)) log err (pending (ms_outbox s')) log'.
Proof.
  intros Hb Hfuel. apply Drain_loop_drained; [done| |done]. unfold relay_size. destruct (Z.leb_spec batchSize 0); lia.
Qed.

Definition ex_broker (batch log : list OutMsg) : option error * list OutMsg := (None, log ++ batch).

Lemma relay_delivers_witness :
  ∃ total log' s', Drain ex_broker 3 1 [] ex_down = Some (total, None, log', s') ∧ length log' = 2.
Proof.
  destruct (relay_delivers ex_broker 1 3 [] ex_down) as (total & err & log' & s' & Hrun & [Hnone _]).
  - by intros batch log.
  - apply Nat.ltb_lt. vm_compute. reflexivity.
  - assert (err = None) as -> by (vm_compute in Hrun; by simplify_eq).
    exists total, log', s'. split; [exact Hrun|]. destruct (Hnone eq_refl) as [_ ->].
    rewrite app_nil_l, length_fmap. vm_compute. reflexivity.
Defined.

(** *** Stage A *)

Section stage_a.
Context `{Json Observation, MapOrder}.

Lemma DecodeObservation_error v data e : DecodeObservation v data = Err e → CategoryOf (Some e) = CategoryValidation.
Proof using Type.
  unfold DecodeObservation, Decode, mbind, result_bind, Validate. repeat case_match; intros ?; by simplify_eq.
Qed.

Lemma Normalize_error n o e : Normalize n o = Err e → CategoryOf (Some e) = CategoryValidation.
Proof using Type. unfold Normalize. repeat case_match; intros ?; by simplify_eq. Qed.

Lemma NormalizeMessage_valid p data n :
  NormalizeMessage p data = Ok n → nm_Dropped n = false →
  Validate (p_Validator p) (nm_Observation n) = None ∧ Encode (nm_Observation n) = Ok (nm_Payload n).
Proof using Type.
  unfold NormalizeMessage, mbind, result_bind. destruct (DecodeObservation _ _) as [obs|]; [|done].
  destruct (Normalize _ _) as [[norm r]|]; [|done]. destruct (transformed _ _) as [[norm' keep]|]; [|done].
  destruct keep; simpl; [|by intros ?; simplify_eq]. destruct (Validate _ norm') eqn:Hv; [done|].
  destruct (Encode norm') eqn:He; [|done]. intros ?; by simplify_eq.
Qed.
End stage_a.

(** Nothing downstream sees an unvalidated observation: whatever the message, the mapping
    table and the transform scripts did, an observation that leaves stage A is well formed, and
    when its encoding fits the size limit and JSON reads back what it wrote, stage B decodes the
    published payload to exactly that observation. *)
Theorem stage_a_output_is_valid `{Json Observation, MapOrder} p data n :
  NormalizeMessage p data = Ok n → nm_Dropped n = false →
  (∀ o b, json_Marshal o = Ok b → json_Decode b = Ok o ∧ json_trailing b = false) →
  well_formed (p_Validator p) (nm_Observation n) ∧
  ((slen (nm_Payload n) ≤ l_MaxMessageBytes (v_Limits (p_Validator p)))%Z →
   DecodeObservation (p_Validator p) (nm_Payload n) = Ok (nm_Observation n)).
Proof.
  intros Hn Hd Hjson. destruct (NormalizeMessage_valid _ _ _ Hn Hd) as [Hv Henc]. split; [by apply Validate_well_formed|].
  intros Hlen. unfold Encode in Henc. destruct (json_Marshal _) as [b|] eqn:Hm; [|done]. injection Henc as ->.
  destruct (Hjson _ _ Hm) as [Hdec Htr]. unfold DecodeObservation, Decode.
  rewrite (proj2 (Z.ltb_ge _ _) Hlen), andb_false_r, Hdec, Htr. simpl. by rewrite Hv.
Qed.

(** A toy JSON: the one observation it knows is the letter [o]. *)
Definition ex_json_obs : Json Observation := {|
  json_Marshal o := if bool_decide (o = (ex_obs 1 true) <| o_ReceivedAt := Hour |>) then Ok "o" else Err "unsupported value";
  json_Decode s := if bool_decide (s = "o") then Ok ((ex_obs 1 true) <| o_ReceivedAt := Hour |>) else Err "invalid character";
  json_trailing _ := false;
|}.
Definition ex_order : MapOrder := {| map_order := map_to_list; map_order_perm m := reflexivity _ |}.

Lemma stage_a_output_is_valid_witness :
  ∃ n, NormalizeMessage (H:=ex_json_obs) (H0:=ex_order) ex_processor "o" = Ok n ∧
       DecodeObservation (H:=ex_json_obs) (NewValidator Hour) (nm_Payload n) = Ok (nm_Observation n).
Proof.
  eexists. split; [vm_compute; reflexivity|].
  refine (proj2 (stage_a_output_is_valid (H:=ex_json_obs) (H0:=ex_order) ex_processor "o" _ _ _ _) _).
  - vm_compute. reflexivity.
  - reflexivity.
  - intros o b. simpl. case_bool_decide; [|done]. intros [= <-]. by subst.
  - vm_compute. intros [=].
Defined.

(** Stage A errors are poison: without script hooks every error of [NormalizeMessage] is a
    validation error, so the message is dead-lettered and never retried. *)
Theorem stage_a_errors_are_validation `{Json Observation, MapOrder} p data e :
  p_Ext p = None → NormalizeMessage p data = Err e →
  CategoryOf (Some e) = CategoryValidation ∧ IsRetryable (Some e) = false.
Proof.
  intros Hext Hn. assert (CategoryOf (Some e) = CategoryValidation) as Hc; [|by unfold IsRetryable; rewrite Hc].
  revert Hn. unfold NormalizeMessage, mbind, result_bind. rewrite Hext.
  destruct (DecodeObservation _ _) as [obs|] eqn:Hdec; [|intros ?; simplify_eq; by eapply DecodeObservation_error].
  destruct (Normalize _ _) as [[norm r]|] eqn:Hnorm; [|intros ?; simplify_eq; by eapply Normalize_error].
  simpl. unfold Validate, Encode. destruct (Validate_problems _ _); [destruct (json_Marshal _)|]; intros ?; by simplify_eq.
Qed.

Lemma stage_a_errors_are_validation_witness :
  ∃ e, NormalizeMessage (H:=ex_json_obs) (H0:=ex_order) ex_processor "garbage" = Err e ∧ IsRetryable (Some e) = false.
Proof.
  destruct (NormalizeMessage (H:=ex_json_obs) (H0:=ex_order) ex_processor "garbage") as [n|e] eqn:Hn; [by vm_compute in Hn|].
  exists e. split; [done|]. by apply (stage_a_errors_are_validation (H:=ex_json_obs) (H0:=ex_order) ex_processor "garbage" e).
Defined.

(** *** Configuration *)

(** Configuration files mean what they list: for parsed files, the definitions and rules
    consulted for a metric and a device are exactly the file's entries that apply to them, in file
    order, all of them validated and with distinct ids; and a processor with such a configuration,
    none of whose definitions is named like a rule, is one the pipeline's guarantees hold for. *)
Theorem parsed_configuration_is_faithful yaml_s raw_s yaml_r raw_r ds rs :
  State.Parse yaml_s raw_s = Ok ds → Rules.Parse yaml_r raw_r = Ok rs →
  yaml_s raw_s = Ok (State.All ds) ∧ yaml_r raw_r = Ok (Rules.All (Some rs)) ∧
  NoDup (df_ID <$> State.All ds) ∧ NoDup (r_ID <$> Rules.All (Some rs)) ∧
  (∀ metric t, State.For ds metric t = filter (λ d, appliesTo d t = true) (filter (λ d, df_Metric d = metric) (State.All ds))) ∧
  (∀ metric dev, Rules.For (Some rs) metric dev =
     filter (λ r, rule_matches r dev = true) (filter (λ r, m_Metric (r_Match r) = metric) (Rules.All (Some rs)))) ∧
  (∀ p, p_States p = ds → p_Rules p = Some rs → Forall (λ d, HasPrefix (df_ID d) rule_prefix = false) (State.All ds) → config_ok p).
Proof.
  unfold State.Parse, Rules.Parse, mbind, result_bind. destruct (yaml_s raw_s) as [l|]; [|done]. destruct (yaml_r raw_r) as [l'|]; [|done].
  intros [Hds Hall]%State_Parse_loop_indexed [Hrs Hall']%Rules_Parse_loop_indexed; [|by repeat constructor|set_solver|by repeat constructor|set_solver].
  simpl in Hall, Hall'. unfold State.All, State.For, Rules.All, Rules.For. pose proof Hds as (_ & Hnd & Hix). pose proof Hrs as (_ & Hnd' & Hix').
  split_and!; [by rewrite Hall|by rewrite Hall'|done|done|intros; by rewrite Hix|intros; by rewrite Hix'|].
  intros p Hp1 Hp2 Hpre. apply indexed_config_ok; [by rewrite Hp1|intros rs0; rewrite Hp2; by intros [= <-]|by rewrite Hp1].
Qed.

Lemma parsed_configuration_is_faithful_witness :
  ∃ ds rs, State.Parse (λ _, Ok [ex_def]) "" = Ok ds ∧ Rules.Parse (λ _, Ok [ex_flap_rule]) "" = Ok rs ∧
    State.For ds (df_Metric ex_def) "switch" = filter (λ d, appliesTo d "switch" = true) [ex_def].
Proof.
  destruct (State.Parse (λ _, Ok [ex_def]) "") as [ds|] eqn:Hds; [|by vm_compute in Hds].
  destruct (Rules.Parse (λ _, Ok [ex_flap_rule]) "") as [rs|] eqn:Hrs; [|by vm_compute in Hrs].
  exists ds, rs. split; [done|]. split; [done|].
  destruct (parsed_configuration_is_faithful (λ _, Ok [ex_def]) "" (λ _, Ok [ex_flap_rule]) "" ds rs Hds Hrs) as (Hall & _ & _ & _ & Hfor & _).
  rewrite Hfor. injection Hall as <-. rewrite filter_cons_True by done. done.
Defined.
