(* ===== verification/Worker.v ===== *)
(** * Package [messaging]: the worker (src/internal/messaging/worker.go)

    Options and their defaults, routing to shards, retry delays, and the settlement of one
    delivery, with the dead-letter envelope. What happens around a delivery (whether the worker is
    shutting down, what the handler and the dead-letter publish answer) is an argument. The
    shards with their queues and goroutines are a step relation. *)

From stdpp Require Import functions.
From S2P Require Import Prelude GoLib GoFloat Domain Schema Pipeline.

(** ** Messages *)

Abbreviation header := (gmap string (list string)).

(** What a delivered JetStream message says of itself; [mg_Metadata] is the stream sequence and
    the delivery count, when they can be read. *)
Record Message := MkMessage {
  mg_Subject : string;
  mg_Data : string;
  mg_Header : header;
  mg_Metadata : option (Z * Z);
}.

Definition StreamSeq (m : Message) : Z := match mg_Metadata m with Some (seq, _) => seq | None => 0 end.
Definition Attempt (m : Message) : Z := match mg_Metadata m with Some (_, n) => n | None => 1 end.

(** [nats.Header.Get]: the first value of the key. *)
Definition header_Get (h : header) (k : string) : string := match h !! k with Some (v :: _) => v | _ => "" end.

(** ** Options *)

Definition SubjectDeadLetter : string := "system.deadletter".

Record WorkerOptions := MkWorkerOptions {
  wo_Stream : string;
  wo_Durable : string;
  wo_Shards : Z;
  wo_QueueSize : Z;
  wo_MaxDeliver : Z;
  wo_AckWait : Duration;
  wo_RetryDelay : Duration;
  wo_MaxRetryDelay : Duration;
  wo_KeyFunc : option (Message → string);
  wo_DeadLetterSubject : string;
  wo_ShutdownTimeout : Duration;
  wo_DeadLetterRetryDelay : Duration;
}.

(** The options a worker runs with. *)
Definition NewWorker (o : WorkerOptions) : WorkerOptions :=
  let at_least_1 d n := if (n <? 1)%Z then d else n in
  let positive d n := if (n <=? 0)%Z then d else n in
  MkWorkerOptions (wo_Stream o) (wo_Durable o) (at_least_1 1%Z (wo_Shards o)) (at_least_1 1%Z (wo_QueueSize o))
    (at_least_1 5%Z (wo_MaxDeliver o)) (positive (30 * Second)%Z (wo_AckWait o)) (positive Second (wo_RetryDelay o))
    (positive Minute (wo_MaxRetryDelay o))
    (Some (match wo_KeyFunc o with Some f => f | None => mg_Subject end))
    (if bool_decide (wo_DeadLetterSubject o = "") then SubjectDeadLetter else wo_DeadLetterSubject o)
    (positive (30 * Second)%Z (wo_ShutdownTimeout o)) (positive (5 * Second)%Z (wo_DeadLetterRetryDelay o)).

Definition key_of (o : WorkerOptions) (m : Message) : string := match wo_KeyFunc o with Some f => f m | None => "" end.

(** ** Routing *)

Definition wrapu32 (z : Z) : Z := z mod 4294967296.

(** FNV-1a, 32 bits. *)
Fixpoint fnv32a (h : Z) (s : string) : Z :=
  match s with
  | EmptyString => h
  | String c s => fnv32a (wrapu32 (Z.lxor h (Z.of_N (byte_of c)) * 16777619)) s
  end.

Definition shardFor (o : WorkerOptions) (key : string) : Z := fnv32a 2166136261 key mod wrapu32 (wo_Shards o).

(** ** Retry delays *)

Fixpoint backoff_loop (n : nat) (d max : Duration) : Duration :=
  match n with
  | O => d
  | S n => if (d <? max)%Z then backoff_loop n (wrap64 (d * 2)) max else d
  end.

(** The delay before jitter; the loop runs while [i < attempt], from 1. *)
Definition backoff_base (o : WorkerOptions) (attempt : Z) : Duration :=
  let d := backoff_loop (Z.to_nat (attempt - 1)) (wo_RetryDelay o) (wo_MaxRetryDelay o) in
  if (wo_MaxRetryDelay o <? d)%Z then wo_MaxRetryDelay o else d.

(** [rand] is the random number in [[0, 1)]. *)
Definition backoff (o : WorkerOptions) (attempt : Z) (rand : float64) : Duration :=
  let jitter := f_add (f_div (f_of_int 8) (f_of_int 10)) (f_mul (f_div (f_of_int 4) (f_of_int 10)) rand) in
  f_to_int (f_mul (f_of_int (backoff_base o attempt)) jitter).

(** ** Dead letters *)

Record DeadLetter := MkDeadLetter {
  dl_ID : string;
  dl_Consumer : string;
  dl_Stream : string;
  dl_Sequence : Z;
  dl_Subject : string;
  dl_Headers : header;
  dl_Payload : string;
  dl_Error : string;
  dl_Category : string;
  dl_Reason : string;
  dl_Attempts : Z;
  dl_FailedAt : Time;
}.

(** What is handed to [Publish]. *)
Record Publication := MkPublication { pb_Subject : string; pb_MsgID : string; pb_Payload : string; pb_Headers : smap }.

Section worker.
Context `{Sha256, Json DeadLetter}.

Definition dead_letter (o : WorkerOptions) (m : Message) (cause : error) (reason : string) (attempts : Z) (now : Time) : DeadLetter :=
  MkDeadLetter (StableID ["dlq"; wo_Durable o; wo_Stream o; FormatInt (StreamSeq m)]) (wo_Durable o) (wo_Stream o) (StreamSeq m)
    (mg_Subject m) (mg_Header m) (mg_Data m) (error_text cause) (Category_string (CategoryOf (Some cause))) reason attempts now.

(** [publish] is the client's answer to the publication. *)
Definition deadLetter (o : WorkerOptions) (m : Message) (cause : error) (reason : string) (attempts : Z) (now : Time)
    (publish : Publication → option error) : list Publication * option error :=
  let dl := dead_letter o m cause reason attempts now in
  match json_Marshal dl with
  | Err e => ([], Some (EText e))
  | Ok payload =>
      let pub := MkPublication (wo_DeadLetterSubject o) (dl_ID dl) payload
        (Some {[ HeaderSchema := DeadLetterV1; HeaderCorrelationID := header_Get (mg_Header m) HeaderCorrelationID ]}) in
      ([pub], publish pub)
  end.

(** ** One delivery *)

Inductive Settlement := Ack | Nak (d : Duration) | Term.

(** The handler returns (nil is [None]) or panics. *)
Inductive HandlerResult := Returned (err : option error) | Panicked (what : string).

(** The cumulative counters (64-bit), and what was settled and published. *)
Record WorkerState := MkWorkerState {
  ws_processed : Z;
  ws_retried : Z;
  ws_dead : Z;
  ws_dlqFail : Z;
  ws_panics : Z;
  ws_inflight : Z;
  ws_settled : list (Message * Settlement);
  ws_published : list Publication;
}.
#[export] Instance eta_WorkerState : Eta WorkerState := λ w,
  MkWorkerState (ws_processed w) (ws_retried w) (ws_dead w) (ws_dlqFail w) (ws_panics w) (ws_inflight w) (ws_settled w) (ws_published w).

Definition settle (m : Message) (s : Settlement) (w : WorkerState) : WorkerState := w <| ws_settled := ws_settled w ++ [(m, s)] |>.
Definition incr (n : Z) : Z := wrapu64 (n + 1).

(** The circumstances of one delivery: whether the worker is shutting down before and after the
    handler ran, what the handler did, the time, the random number, the publish's answer. *)
Record Circumstances := MkCircumstances {
  ci_stopped : bool;
  ci_handler : HandlerResult;
  ci_interrupted : bool;
  ci_now : Time;
  ci_rand : float64;
  ci_publish : Publication → option error;
}.

(** A panic is a permanent error. *)
Definition safeHandle (r : HandlerResult) (w : WorkerState) : option error * WorkerState :=
  match r with
  | Returned err => (err, w)
  | Panicked what => (Some (Errorf CategoryPermanent ("handler panic: " +:+ what)), w <| ws_panics := incr (ws_panics w) |>)
  end.

Definition process (o : WorkerOptions) (m : Message) (c : Circumstances) (w : WorkerState) : WorkerState :=
  if ci_stopped c then settle m (Nak 0) w
  else
    let w := w <| ws_inflight := wrap64 (ws_inflight w + 1) |> in
    let attempt := Attempt m in
    let '(err, w) := safeHandle (ci_handler c) w in
    let w :=
      match err with
      | None => (settle m Ack w) <| ws_processed := incr (ws_processed w) |>
      | Some err =>
          if ci_interrupted c then settle m (Nak 0) w
          else if IsRetryable (Some err) && (attempt <? wrapu64 (wo_MaxDeliver o))%Z
          then (settle m (Nak (backoff o attempt (ci_rand c))) w) <| ws_retried := incr (ws_retried w) |>
          else
            let reason := if IsRetryable (Some err) then "max_deliveries" else "poison" in
            let '(pubs, derr) := deadLetter o m err reason attempt (ci_now c) (ci_publish c) in
            let w := w <| ws_published := ws_published w ++ pubs |> in
            match derr with
            | Some _ => settle m (Nak (wrap64 (backoff o attempt (ci_rand c) + wo_DeadLetterRetryDelay o)))
                          (w <| ws_dlqFail := incr (ws_dlqFail w) |>)
            | None => (settle m Term w) <| ws_dead := incr (ws_dead w) |>
            end
      end in
    w <| ws_inflight := wrap64 (ws_inflight w - 1) |>.
End worker.

(** ** Shards

    The receiving callback blocks while the queue of the message's shard is full; each shard has
    one goroutine, which takes the next message of its queue when it is done with the last. *)

Record Shards := MkShards {
  sh_received : list Message;
  sh_queue : nat → list Message;
  sh_busy : nat → option Message;
  sh_done : list Message;
}.
Definition no_work : Shards := MkShards [] (λ _, []) (λ _, None) [].

Section shards.
Context (o : WorkerOptions).

Definition shard (m : Message) : nat := Z.to_nat (shardFor o (key_of o m)).

Inductive shard_step : Shards → Shards → Prop :=
| step_receive s m :
    (Z.of_nat (length (sh_queue s (shard m))) < wo_QueueSize o)%Z →
    shard_step s (MkShards (sh_received s ++ [m]) (<[shard m := sh_queue s (shard m) ++ [m]]> (sh_queue s)) (sh_busy s) (sh_done s))
| step_start s i m q :
    sh_queue s i = m :: q → sh_busy s i = None →
    shard_step s (MkShards (sh_received s) (<[i := q]> (sh_queue s)) (<[i := Some m]> (sh_busy s)) (sh_done s))
| step_finish s i m :
    sh_busy s i = Some m →
    shard_step s (MkShards (sh_received s) (sh_queue s) (<[i := None]> (sh_busy s)) (sh_done s ++ [m])).

(** [Stats]: queue depth and capacity. *)
Definition QueueDepth (s : Shards) : Z :=
  foldr (λ i n, (Z.of_nat (length (sh_queue s i)) + n)%Z) 0%Z (seq 0 (Z.to_nat (wo_Shards o))).
Definition Capacity : Z := wrap64 (wo_Shards o * (wo_QueueSize o + 1)).
Definition InFlight (s : Shards) : Z :=
  foldr (λ i n, ((match sh_busy s i with Some _ => 1 | None => 0 end) + n)%Z) 0%Z (seq 0 (Z.to_nat (wo_Shards o))).
End shards.
