(* ===== verification/WorkerThms.v ===== *)
(** * Theorems about the messaging worker *)

From stdpp Require Import functions.
From S2P Require Import Prelude GoLib GoFloat Domain Schema StateFacts Pipeline Worker.

(** ** Options and routing *)

(** What [NewWorker] guarantees of its options. *)
Record sane (o : WorkerOptions) : Prop := {
  sn_shards : (1 ≤ wo_Shards o)%Z;
  sn_queue : (1 ≤ wo_QueueSize o)%Z;
  sn_deliver : (1 ≤ wo_MaxDeliver o)%Z;
  sn_delay : (0 < wo_RetryDelay o)%Z ∧ (0 < wo_MaxRetryDelay o)%Z;
}.

Lemma NewWorker_sane o : sane (NewWorker o).
Proof.
  assert (∀ d n, (1 ≤ d)%Z → (1 ≤ if n <? 1 then d else n)%Z) as H1 by (intros d n ?; case_match; bool_to_prop; lia).
  assert (∀ d n, (0 < d)%Z → (0 < if n <=? 0 then d else n)%Z) as H2 by (intros d n ?; case_match; bool_to_prop; lia).
  split; simpl; [apply H1; lia..|]. split; apply H2; unfold Second, Minute; lia.
Qed.

Lemma shard_range o m : sane o → (wo_Shards o < 4294967296)%Z → shard o m < Z.to_nat (wo_Shards o).
Proof.
  intros [Hs _ _ _] Hmax. unfold shard, shardFor, wrapu32. rewrite (Z.mod_small (wo_Shards o)) by lia.
  pose proof (Z.mod_pos_bound (fnv32a 2166136261 (key_of o m)) (wo_Shards o)). lia.
Qed.

(** ** Retry delays *)

Lemma wrap64_id z : (int_min ≤ z ≤ int_max)%Z → wrap64 z = z.
Proof. unfold wrap64, int_min, int_max. intros. rewrite Z.mod_small; lia. Qed.

Lemma backoff_loop_spec n d mx :
  (0 < d)%Z → (0 < mx ≤ 4611686018427387904)%Z → Z.min (backoff_loop n d mx) mx = Z.min (d * 2 ^ Z.of_nat n) mx.
Proof.
  revert d. induction n as [|n IH]; intros d Hd Hmx; cbn [backoff_loop].
  - f_equal. simpl. lia.
  - destruct (Z.ltb_spec d mx) as [Hlt|Hge].
    + rewrite wrap64_id by (unfold int_min, int_max; lia). rewrite IH by lia. f_equal.
      rewrite Nat2Z.inj_succ, Z.pow_succ_r by lia. lia.
    + rewrite !Z.min_r; [done| |lia]. assert (1 ≤ 2 ^ Z.of_nat (S n))%Z; [|nia].
      assert (0 < 2 ^ Z.of_nat (S n))%Z by (apply Z.pow_pos_nonneg; lia). lia.
Qed.

(** ** Theorems *)

(** Retry delays grow exponentially up to their cap, without overflow: before jitter, the delay
    of the n-th attempt is the first delay doubled n - 1 times, or the cap when that is less,
    for any cap up to 2^62 ns (146 years). *)
Theorem backoff_is_capped_exponential o attempt :
  (1 ≤ attempt)%Z → (wo_MaxRetryDelay (NewWorker o) ≤ 4611686018427387904)%Z →
  backoff_base (NewWorker o) attempt =
  Z.min (wo_RetryDelay (NewWorker o) * 2 ^ (attempt - 1)) (wo_MaxRetryDelay (NewWorker o)).
Proof.
  intros Ha Hmx. destruct (NewWorker_sane o) as [_ _ _ [Hd Hm]]. unfold backoff_base.
  transitivity (Z.min (backoff_loop (Z.to_nat (attempt - 1)) (wo_RetryDelay (NewWorker o)) (wo_MaxRetryDelay (NewWorker o)))
    (wo_MaxRetryDelay (NewWorker o))); [case_match; bool_to_prop; lia|].
  rewrite backoff_loop_spec by lia. by rewrite Z2Nat.id by lia.
Qed.

Definition ex_options : WorkerOptions :=
  MkWorkerOptions "TELEMETRY" "normalizer" 2 0 3 0 0 0 None "" 0 0.

Lemma backoff_is_capped_exponential_witness : backoff_base (NewWorker ex_options) 4 = (8 * Second)%Z.
Proof. rewrite (backoff_is_capped_exponential ex_options 4); [reflexivity|lia|vm_compute; congruence]. Defined.

(** The part of [process] after the handler: how an error is settled. *)
Lemma worker_process_cases `{Sha256, Json DeadLetter} o m c w :
  let w' := process o m c w in
  (∃ st, ws_settled w' = ws_settled w ++ [(m, st)] ∧ ws_inflight w' = (if ci_stopped c then ws_inflight w else wrap64 (wrap64 (ws_inflight w + 1) - 1)) ∧
   ((st = Ack ∧ ci_stopped c = false ∧ ci_handler c = Returned None ∧ ws_published w' = ws_published w) ∨
    (∃ d, st = Nak d ∧ ci_stopped c = true ∧ ws_published w' = ws_published w) ∨
    (ci_stopped c = false ∧ ∃ err, (safeHandle (ci_handler c) w).1 = Some err ∧
      ((∃ d, st = Nak d ∧ (ci_interrupted c = true ∨ IsRetryable (Some err) = true ∧ (Attempt m < wrapu64 (wo_MaxDeliver o))%Z) ∧
          ws_published w' = ws_published w) ∨
       (ci_interrupted c = false ∧ (IsRetryable (Some err) = false ∨ (wrapu64 (wo_MaxDeliver o) ≤ Attempt m)%Z) ∧
        ∃ reason, let '(pubs, derr) := deadLetter o m err reason (Attempt m) (ci_now c) (ci_publish c) in
          ws_published w' = ws_published w ++ pubs ∧ (if derr is Some _ then ∃ d, st = Nak d else st = Term)))))).
Proof.
  intros w'. subst w'. unfold process. destruct (ci_stopped c) eqn:Hs; [eexists; simpl; split_and!; [done|done|]; right; left; by eexists|].
  destruct (ci_handler c) as [[err|]|what] eqn:Hh; cbn [safeHandle fst].
  2: { eexists. simpl. split_and!; [done|done|]. left. done. }
  all: match goal with |- context [Some ?e] => set (err' := e) end; fold err';
    (destruct (ci_interrupted c) eqn:Hi; [eexists; simpl; split_and!; [done|done|]; right; right; split; [done|];
       exists err'; split; [done|]; left; eexists; by auto|]);
    (destruct (IsRetryable (Some err')) eqn:Hr; [destruct (Z.ltb_spec (Attempt m) (wrapu64 (wo_MaxDeliver o))) as [Hlt|Hge]|]); cbn [andb];
    [eexists; simpl; split_and!; [done|done|]; right; right; split; [done|]; exists err'; split; [done|]; left; eexists; by auto
    |destruct (deadLetter o m err' "max_deliveries" (Attempt m) (ci_now c) (ci_publish c)) as [pubs derr] eqn:Hd
    |destruct (deadLetter o m err' "poison" (Attempt m) (ci_now c) (ci_publish c)) as [pubs derr] eqn:Hd];
    destruct derr; (eexists; simpl; split_and!; [done|done|]; right; right; split; [done|]; exists err'; split; [done|]; right;
      split; [done|]; split; [by auto|]; eexists; rewrite Hd; split; [done|]; by eauto).
Qed.


(** The last delivery is decisive: at the delivery limit, a message whose handling is not cut
    short by a shutdown and whose dead letter can be written is either acknowledged or dead
    lettered; and an error that is not retryable, a panic included, is dead-lettered at its
    first delivery. *)
Theorem last_delivery_is_decisive `{Sha256, Json DeadLetter} o m c w :
  (1 ≤ wo_MaxDeliver o < 18446744073709551616)%Z → ci_stopped c = false → ci_interrupted c = false →
  (∀ pub, ci_publish c pub = None) → (∀ dl, is_ok (json_Marshal dl) = true) →
  (wo_MaxDeliver o ≤ Attempt m)%Z ∨ (∃ what, ci_handler c = Panicked what) ∨
    (∃ err, ci_handler c = Returned (Some err) ∧ IsRetryable (Some err) = false) →
  ws_settled (process o m c w) = ws_settled w ++ [(m, match ci_handler c with Returned None => Ack | _ => Term end)].
Proof.
  intros Hmd Hs Hi Hpub Hjson Hlast. destruct (worker_process_cases o m c w) as (st & Hst & _ & Hcases). rewrite Hst. do 3 f_equal.
  destruct Hcases as [(-> & _ & Hh & _)|[(d & -> & ? & _)|(_ & err & Herr & Hcases)]]; [by rewrite Hh|congruence|].
  enough (st = Term) as -> by (by destruct (ci_handler c) as [[]|]).
  destruct Hcases as [(d & -> & [Hx|[Hr Hlt]] & _)|(_ & _ & reason & Hdl)]; [congruence| |].
  - exfalso. unfold wrapu64 in Hlt. rewrite Z.mod_small in Hlt by lia.
    destruct Hlast as [|[[what Hw]|(err' & He' & Hn)]]; [lia|rewrite Hw in Herr; by simplify_eq/=|rewrite He' in Herr; simplify_eq/=; congruence].
  - unfold deadLetter in Hdl. specialize (Hjson (dead_letter o m err reason (Attempt m) (ci_now c))).
    destruct (json_Marshal _) as [payload|e]; [|done].
    rewrite Hpub in Hdl. by destruct Hdl.
Qed.

Definition ex_json_dl : Json DeadLetter := {| json_Marshal dl := Ok (dl_Payload dl); json_Decode _ := Err "not needed"; json_trailing _ := false |}.
Definition ex_message (attempt : Z) : Message := MkMessage "telemetry.raw.sw1" "{}" ∅ (Some (7, attempt)%Z).
Definition ex_circumstances (r : HandlerResult) : Circumstances := MkCircumstances false r false Hour f_zero (λ _, None).
Definition ex_worker : WorkerState := MkWorkerState 0 0 0 0 0 0 [] [].

Lemma last_delivery_is_decisive_witness :
  ws_settled (process (H:=sha_id) (H0:=ex_json_dl) (NewWorker ex_options) (ex_message 1) (ex_circumstances (Panicked "index out of range")) ex_worker)
  = [(ex_message 1, Term)].
Proof.
  apply (last_delivery_is_decisive (H:=sha_id) (H0:=ex_json_dl) (NewWorker ex_options) (ex_message 1)
    (ex_circumstances (Panicked "index out of range")) ex_worker); [simpl; lia|reflexivity..|].
  right. left. by eexists.
Defined.

(** ** Shards *)

Section shards_thms.
Context (o : WorkerOptions).

Abbreviation of_key k := (filter (λ m, key_of o m = k)).
Definition home (k : string) : nat := Z.to_nat (shardFor o k).
Definition busy_list (s : Shards) (i : nat) : list Message := match sh_busy s i with Some m => [m] | None => [] end.

Record shards_ok (s : Shards) : Prop := {
  so_home i m : m ∈ busy_list s i ++ sh_queue s i → shard o m = i;
  so_bound i : (Z.of_nat (length (sh_queue s i)) ≤ Z.max 0 (wo_QueueSize o))%Z;
  so_order k : of_key k (sh_received s) = of_key k (sh_done s) ++ of_key k (busy_list s (home k) ++ sh_queue s (home k));
}.

Lemma no_work_ok : shards_ok no_work.
Proof. split; [by intros i m ?%elem_of_nil|simpl; lia|done]. Qed.

Lemma of_key_elsewhere s i k : shards_ok s → i ≠ home k → of_key k (busy_list s i ++ sh_queue s i) = [].
Proof. intros Hs Hi. apply filter_none. intros m Hm Hk. apply (so_home s Hs) in Hm. unfold shard in Hm. by rewrite Hk in Hm. Qed.

Definition held (s : Shards) (i : nat) : list Message := busy_list s i ++ sh_queue s i.

Lemma receive_ok s m :
  shards_ok s → (Z.of_nat (length (sh_queue s (shard o m))) < wo_QueueSize o)%Z →
  shards_ok (MkShards (sh_received s ++ [m]) (<[shard o m := sh_queue s (shard o m) ++ [m]]> (sh_queue s)) (sh_busy s) (sh_done s)).
Proof.
  intros [Hhome Hbound Horder] Hroom. split; simpl.
  - intros i m'. unfold busy_list. simpl. destruct (decide (shard o m = i)) as [<-|Hne].
    + rewrite fn_lookup_insert, app_assoc, elem_of_app. intros [Hin|Hin%list_elem_of_singleton]; [by apply Hhome|by subst].
    + rewrite fn_lookup_insert_ne by done. apply Hhome.
  - intros i. destruct (decide (shard o m = i)) as [<-|Hne]; [|by rewrite fn_lookup_insert_ne].
    rewrite fn_lookup_insert, length_app. simpl. lia.
  - intros k. rewrite filter_app, Horder. unfold busy_list. simpl. destruct (decide (key_of o m = k)) as [<-|Hne].
    + change (home (key_of o m)) with (shard o m). rewrite fn_lookup_insert, !filter_app, !app_assoc. done.
    + rewrite (filter_cons_False _ m) by done. rewrite filter_nil, app_nil_r. f_equal.
      destruct (decide (shard o m = home k)) as [Heq|Hneq]; [|by rewrite fn_lookup_insert_ne].
      rewrite <- Heq, fn_lookup_insert, !filter_app. rewrite (filter_cons_False _ m) by done. by rewrite filter_nil, app_nil_r.
Qed.

Lemma start_ok s i m q :
  shards_ok s → sh_queue s i = m :: q → sh_busy s i = None →
  shards_ok (MkShards (sh_received s) (<[i := q]> (sh_queue s)) (<[i := Some m]> (sh_busy s)) (sh_done s)).
Proof.
  intros [Hhome Hbound Horder] Hq Hb.
  set (s' := MkShards (sh_received s) (<[i := q]> (sh_queue s)) (<[i := Some m]> (sh_busy s)) (sh_done s)).
  assert (∀ j, held s' j = held s j) as Hheld.
  { intros j. unfold held, busy_list. simpl. destruct (decide (i = j)) as [<-|Hne].
    - by rewrite !fn_lookup_insert, Hb, Hq.
    - by rewrite !fn_lookup_insert_ne. }
  split.
  - intros j m'. fold (held s' j). rewrite Hheld. apply Hhome.
  - intros j. simpl. destruct (decide (i = j)) as [<-|Hne]; [|by rewrite fn_lookup_insert_ne].
    rewrite fn_lookup_insert. specialize (Hbound i). rewrite Hq in Hbound. simpl in Hbound. lia.
  - intros k. fold (held s' (home k)). rewrite Hheld. apply Horder.
Qed.

Lemma finish_ok s i m :
  shards_ok s → sh_busy s i = Some m →
  shards_ok (MkShards (sh_received s) (sh_queue s) (<[i := None]> (sh_busy s)) (sh_done s ++ [m])).
Proof.
  intros Hs Hb. pose proof Hs as [Hhome Hbound Horder]. split; simpl; [|exact Hbound|].
  - intros j m'. unfold busy_list. simpl. destruct (decide (i = j)) as [<-|Hne].
    + rewrite fn_lookup_insert. intros Hin. apply Hhome. set_solver.
    + rewrite fn_lookup_insert_ne by done. apply Hhome.
  - intros k. rewrite Horder, (filter_app _ (sh_done s)). unfold busy_list. simpl. destruct (decide (i = home k)) as [->|Hne].
    + rewrite fn_lookup_insert, Hb, !filter_app. by rewrite app_assoc.
    + rewrite fn_lookup_insert_ne by done. assert (of_key k [m] = []) as ->; [|by rewrite app_nil_r].
      pose proof (of_key_elsewhere s i k Hs Hne) as Hnone. unfold busy_list in Hnone. rewrite Hb, filter_app in Hnone.
      by apply app_nil in Hnone as [? _].
Qed.

Lemma shard_step_ok s s' : shards_ok s → shard_step o s s' → shards_ok s'.
Proof. intros Hs Hst. destruct Hst; [by apply receive_ok|by eapply start_ok|by apply finish_ok]. Qed.

Lemma shards_reachable_ok s : rtc (shard_step o) no_work s → shards_ok s.
Proof.
  intros Hr. remember no_work as s0 eqn:H0. assert (shards_ok s0) as Hok by (subst; apply no_work_ok). clear H0.
  induction Hr as [|s1 s2 s3 Hstep _ IH]; [done|]. apply IH. by eapply shard_step_ok.
Qed.

(** C37. Messages with the same key are handled one at a time and in delivery order: at any moment
    the handled messages of a key are a prefix of the delivered ones, what is missing is no more
    than one message in a handler and one queue of them, and no two handlers work on the same
    key. *)
Theorem same_key_in_order s k :
  rtc (shard_step o) no_work s →
  (∃ rest, of_key k (sh_received s) = of_key k (sh_done s) ++ rest ∧ (Z.of_nat (length rest) ≤ Z.max 0 (wo_QueueSize o) + 1)%Z) ∧
  (∀ i j m1 m2, sh_busy s i = Some m1 → sh_busy s j = Some m2 → key_of o m1 = key_of o m2 → i = j).
Proof.
  intros Hs%shards_reachable_ok. split.
  - eexists. split; [apply (so_order s Hs)|]. etrans.
    { apply inj_le, (length_filter (λ m, key_of o m = k)). }
    rewrite length_app. pose proof (so_bound s Hs (home k)) as Hb.
    assert (length (busy_list s (home k)) ≤ 1) by (unfold busy_list; case_match; simpl; lia). lia.
  - intros i j m1 m2 Hi Hj Hk. transitivity (shard o m1); [symmetry|]; [apply (so_home s Hs)|].
    + unfold busy_list. rewrite Hi. set_solver.
    + unfold shard. rewrite Hk. apply (so_home s Hs). unfold busy_list. rewrite Hj. set_solver.
Qed.

Lemma shard_sum (f : nat → Z) (b : Z) l : (∀ i, f i ≤ b)%Z → (foldr (λ i n, f i + n) 0 l ≤ Z.of_nat (length l) * b)%Z.
Proof. intros Hf. induction l as [|i l IH]; simpl; [lia|]. specialize (Hf i). lia. Qed.

Lemma foldr_plus (f g : nat → Z) l :
  (foldr (λ i n, f i + n) 0 l + foldr (λ i n, g i + n) 0 l = foldr (λ i n, (f i + g i) + n) 0 l)%Z.
Proof. induction l as [|i l IH]; simpl; [done|]. lia. Qed.
End shards_thms.

(** A worker holds a bounded amount of work: whatever arrives, the messages queued and in
    handlers never exceed the capacity it reports, shards times (queue + 1), and none sits in a
    shard that does not exist. *)
Theorem held_work_is_bounded o s :
  let o := NewWorker o in
  rtc (shard_step o) no_work s → (wo_Shards o < 4294967296)%Z → (wo_Shards o * (wo_QueueSize o + 1) ≤ int_max)%Z →
  (QueueDepth o s + InFlight o s ≤ Capacity o)%Z ∧
  ∀ i, Z.to_nat (wo_Shards o) ≤ i → sh_queue s i = [] ∧ sh_busy s i = None.
Proof.
  intros o'. subst o'. pose proof (NewWorker_sane o) as Hsane. generalize dependent (NewWorker o). clear o. intros o Hsane Hr Hmax Hcap.
  pose proof (shards_reachable_ok o s Hr) as Hok. pose proof Hsane as [Hsh Hqs Hmd Hdl]. split.
  - unfold Capacity, QueueDepth, InFlight. rewrite wrap64_id by (unfold int_min; nia). rewrite foldr_plus.
    etrans; [apply (shard_sum (λ i, (Z.of_nat (length (sh_queue s i)) + match sh_busy s i with Some _ => 1 | None => 0 end)%Z) (wo_QueueSize o + 1))|].
    + intros i. pose proof (so_bound o s Hok i). case_match; lia.
    + rewrite length_seq. lia.
  - intros i Hi. assert (∀ m, m ∉ busy_list s i ++ sh_queue s i) as Hnone.
    { intros m Hm. apply (so_home o s Hok) in Hm. pose proof (shard_range o m Hsane Hmax). lia. }
    unfold busy_list in Hnone. destruct (sh_queue s i) as [|m q]; [|destruct (Hnone m); set_solver].
    destruct (sh_busy s i) as [m|]; [destruct (Hnone m); set_solver|done].
Qed.

(** Three messages of one subject arrive while the first is handled. *)
Definition ex_shards : Shards :=
  let i := shard (NewWorker ex_options) (ex_message 1) in
  MkShards [ex_message 1; ex_message 2] (<[i := []]> (<[i := [ex_message 2]]> (<[i := []]> (<[i := [ex_message 1]]> (λ _, [])))))
    (<[i := Some (ex_message 2)]> (<[i := None]> (<[i := Some (ex_message 1)]> (λ _, None)))) [ex_message 1].

Lemma ex_shards_reachable : rtc (shard_step (NewWorker ex_options)) no_work ex_shards.
Proof.
  eapply rtc_l; [apply (step_receive _ _ (ex_message 1)); vm_compute; reflexivity|]. simpl.
  eapply rtc_l; [by eapply (step_start _ _ (shard (NewWorker ex_options) (ex_message 1)) (ex_message 1) [])|]. simpl.
  eapply rtc_l; [apply (step_receive _ _ (ex_message 2)); vm_compute; reflexivity|]. simpl.
  eapply rtc_l; [by eapply (step_finish _ _ (shard (NewWorker ex_options) (ex_message 1)) (ex_message 1))|]. simpl.
  apply rtc_once. unfold ex_shards. cbv zeta. by eapply (step_start _
    (MkShards [ex_message 1; ex_message 2] _ _ [ex_message 1]) (shard (NewWorker ex_options) (ex_message 1)) (ex_message 2) []).
Qed.

Lemma same_key_in_order_witness :
  ∃ rest, filter (λ m, key_of (NewWorker ex_options) m = "telemetry.raw.sw1") (sh_received ex_shards) =
          filter (λ m, key_of (NewWorker ex_options) m = "telemetry.raw.sw1") (sh_done ex_shards) ++ rest ∧ length rest = 1.
Proof.
  destruct (same_key_in_order (NewWorker ex_options) ex_shards "telemetry.raw.sw1" ex_shards_reachable) as [(rest & Hrest & _) _].
  exists rest. split; [exact Hrest|]. vm_compute in Hrest. by simplify_eq.
Defined.

Lemma held_work_is_bounded_witness : (QueueDepth (NewWorker ex_options) ex_shards + InFlight (NewWorker ex_options) ex_shards ≤ 4)%Z.
Proof. apply (held_work_is_bounded ex_options ex_shards ex_shards_reachable); [vm_compute; reflexivity|vm_compute; congruence]. Defined.
