(* ===== verification/Policy.v ===== *)
(** * Package [automation]: the action catalog and the policies
    (src/internal/automation/actions.go, policy.go, adapter.go) *)

From S2P Require Import Prelude GoLib GoFloat Domain Regexp State.

(** ** The catalog (actions.go) *)

Record ParamSpec := MkParamSpec { ps_Name : string; ps_Required : bool; ps_Pattern : regex }.

(** [as_Target] is nil for actions that take no target. *)
Record ActionSpec := MkActionSpec {
  as_Name : string;
  as_DeviceTypes : list DeviceType;
  as_Capability : string;
  as_NeedsTarget : bool;
  as_Target : option regex;
  as_Params : list ParamSpec;
  as_Disruptive : bool;
}.

(** A first character, then up to [n] characters of a class. *)
Definition re_bounded (first rest : ascii → bool) (n : nat) : regex := RSeq (RClass first) (RUpTo n (RClass rest)).
Definition cls_lnum (c : ascii) : bool := cls_lower c || cls_digit c.
Definition reIface : regex := re_bounded cls_alpha (λ c, cls_alnum c || cls_any "/._-" c) 31.
Definition reName : regex := re_bounded cls_lower (λ c, cls_lnum c || cls_any "_.-" c) 47.
Definition reText : regex := RUpTo 120 (RClass (λ c, cls_alnum c || cls_any " .,:/@()_'-" c)).
Definition reVLAN : regex := re_bounded cls_digit cls_digit 3.
Definition reEnpoint : regex := re_bounded cls_lower (λ c, cls_lnum c || cls_any "_-" c) 47.
Definition reSeverity : regex := RAlt (RText "info") (RAlt (RText "warning") (RText "critical")).

Definition p (name : string) (required : bool) (re : regex) : ParamSpec := MkParamSpec name required re.

Definition netTypes : list DeviceType := [DeviceSwitch; DeviceRouter].
Definition hostTypes : list DeviceType := [DeviceServer; DeviceWorkstation].

Definition specs : list ActionSpec := [
  MkActionSpec "disable_interface" netTypes "interface-admin" true (Some reIface) [] true;
  MkActionSpec "enable_interface" netTypes "interface-admin" true (Some reIface) [] true;
  MkActionSpec "bounce_interface" netTypes "interface-admin" true (Some reIface) [] true;
  MkActionSpec "set_interface_description" netTypes "interface-admin" true (Some reIface) [p "description" true reText] true;
  MkActionSpec "query_interface_state" (netTypes ++ [DeviceAccessPoint]) "" true (Some reIface) [] false;
  MkActionSpec "query_vlan_state" netTypes "" false None [p "vlan" false reVLAN] false;
  MkActionSpec "restart_ap_service" [DeviceAccessPoint] "service-restart" false None [p "service" true reName] true;
  MkActionSpec "query_ap_clients" [DeviceAccessPoint] "" false None [] false;
  MkActionSpec "update_ap_config" [DeviceAccessPoint] "config-update" false None [p "key" true reName; p "value" true reText] true;
  MkActionSpec "restart_service" hostTypes "service-restart" false None [p "service" true reName] true;
  MkActionSpec "collect_diagnostics" hostTypes "diagnostics" false None [] false;
  MkActionSpec "run_maintenance_task" hostTypes "diagnostics" false None [p "task" true reName] true;
  MkActionSpec "send_webhook" [] "" false None [p "endpoint" true reEnpoint; p "message" false reText] false;
  MkActionSpec "create_event_record" [] "" false None [p "message" true reText; p "severity" false reSeverity] false;
  MkActionSpec "invoke_extension" [] "" false None [p "script" true reName] false;
  MkActionSpec "noop" [] "" false None [] false
].

Definition Catalog : gmap string ActionSpec := foldl (λ m s, <[as_Name s := s]> m) ∅ specs.
Definition CatalogNames : list string := sort_strings (map_to_list Catalog).*1.

Record Proposal := MkProposal {
  pr_Action : string;
  pr_Target : string;
  pr_Params : smap;
  pr_Reason : string;
}.

(** Matching against a nil pattern panics. *)
Definition match_opt (re : option regex) (s : string) : res bool := r ← deref re; Ok (MatchString r s).

(** The first problem of the proposed parameters; which of several is reported depends on the
    order of the range, whether there is one does not. *)
Definition param_problem (spec : ActionSpec) (kv : string * string) : option error :=
  match List.find (λ ps, bool_decide (ps_Name ps = kv.1)) (reverse (as_Params spec)) with
  | None => Some (Errorf CategoryValidation ("action " +:+ as_Name spec +:+ " has no parameter " +:+ Quote kv.1))
  | Some ps =>
      if negb (MatchString (ps_Pattern ps) kv.2)
      then Some (Errorf CategoryValidation ("parameter " +:+ kv.1 +:+ " of " +:+ as_Name spec +:+ " has an invalid value"))
      else None
  end.

Definition missing_param (spec : ActionSpec) (pr : Proposal) (ps : ParamSpec) : option error :=
  if ps_Required ps && isnil (mget (pr_Params pr) (ps_Name ps))
  then Some (Errorf CategoryValidation ("action " +:+ as_Name spec +:+ " requires parameter " +:+ Quote (ps_Name ps)))
  else None.

(** The first error of a list of checks. *)
Definition first_error (l : list (option error)) : option error := head (omap id l).

Definition target_problem (spec : ActionSpec) (pr : Proposal) : res (option error) :=
  if as_NeedsTarget spec then
    if bool_decide (pr_Target pr = "")
    then Ok (Some (Errorf CategoryValidation ("action " +:+ as_Name spec +:+ " needs a valid target, got " +:+ Quote (pr_Target pr))))
    else
      ok ← match_opt (as_Target spec) (pr_Target pr);
      Ok (if negb ok
          then Some (Errorf CategoryValidation ("action " +:+ as_Name spec +:+ " needs a valid target, got " +:+ Quote (pr_Target pr)))
          else None)
  else if bool_decide (pr_Target pr ≠ "")
  then Ok (Some (Errorf CategoryValidation ("action " +:+ as_Name spec +:+ " takes no target")))
  else Ok None.

(** [validateShape]; [Ok None] is the nil error. *)
Definition validateShape (spec : ActionSpec) (pr : Proposal) : res (option error) :=
  target ← target_problem spec pr;
  Ok (first_error
        ([target] ++ (param_problem spec <$> mlist (pr_Params pr)) ++ (missing_param spec pr <$> as_Params spec)
         ++ [if (240 <? slen (pr_Reason pr))%Z then Some (Errorf CategoryValidation "reason is too long") else None])).

Definition Validate (pr : Proposal) (dev : Device) : res (option error) :=
  match Catalog !! pr_Action pr with
  | None => Ok (Some (Errorf CategoryValidation ("unknown action " +:+ Quote (pr_Action pr))))
  | Some spec =>
      shape ← validateShape spec pr;
      Ok match shape with
         | Some err => Some err
         | None =>
             if (0 <? length (as_DeviceTypes spec))%nat && negb (existsb (λ t, bool_decide (t = d_DeviceType dev)) (as_DeviceTypes spec))
             then Some (Errorf CategoryValidation ("action " +:+ pr_Action pr +:+ " does not apply to " +:+ d_DeviceType dev +:+ " devices"))
             else None
         end
  end.

(** [expand]: placeholders in a template; the built-in pairs come first. *)
Definition expand (tmpl : string) (ev : Event) : string :=
  if negb (Contains tmpl "{") then tmpl
  else GoLib.Replace ([("{device}", ev_DeviceID ev); ("{event}", ev_Type ev)] ++ label_pairs (ev_Labels ev)) tmpl.

Definition describe (pr : Proposal) : string :=
  if bool_decide (pr_Target pr ≠ "") then pr_Action pr +:+ "(" +:+ pr_Target pr +:+ ")" else pr_Action pr.

(** What an adapter is asked to perform and what it reports back (adapter.go). *)
Record Action := MkAction {
  ac_Type : string;
  ac_Target : string;
  ac_Params : smap;
  ac_DryRun : bool;
  ac_RequestID : string;
  ac_CorrelationID : string;
}.
Record ActionResult := MkActionResult { ar_Message : string; ar_Details : smap; ar_Changed : bool }.

(** ** Policies (policy.go) *)

Record Trigger := MkTrigger {
  tg_Event : string;
  tg_DeviceType : list string;
  tg_Site : string;
  tg_Tags : list string;
  tg_MinSeverity : Severity;
}.
Record Conditions := MkConditions { cn_Duration : Duration; cn_RetriesBelow : Z }.
Record ActionRef := MkActionRef { ar_Type : string; ar_Target : string; ar_Params : smap }.
Record ProposalRef := MkProposalRef { pp_Script : string; pp_AllowedActions : list string }.
Record Safety := MkSafety {
  sf_DryRun : option bool;
  sf_Cooldown : Duration;
  sf_RequireTag : string;
  sf_RequireApproval : bool;
  sf_ApprovalTimeout : Duration;
}.
#[export] Instance eta_Safety : Eta Safety := λ s,
  MkSafety (sf_DryRun s) (sf_Cooldown s) (sf_RequireTag s) (sf_RequireApproval s) (sf_ApprovalTimeout s).
Record Policy := MkPolicy {
  pl_ID : string;
  pl_Description : string;
  pl_Trigger : Trigger;
  pl_Conditions : Conditions;
  pl_Action : option ActionRef;
  pl_Proposal : option ProposalRef;
  pl_Safety : Safety;
}.
#[export] Instance eta_Policy : Eta Policy := λ p,
  MkPolicy (pl_ID p) (pl_Description p) (pl_Trigger p) (pl_Conditions p) (pl_Action p) (pl_Proposal p) (pl_Safety p).

(** [ActionRef.UnmarshalYAML] on the decoded map: every key but the two reserved ones is a parameter. *)
Definition ActionRef_of (raw : gmap string string) : ActionRef :=
  MkActionRef (default "" (raw !! "type")) (default "" (raw !! "target")) (Some (delete "type" (delete "target" raw))).

Definition policy_dryRun (p : Policy) : bool := match sf_DryRun (pl_Safety p) with None => true | Some b => b end.

(** ** Maintenance windows *)

Record Recurring := MkRecurring { rc_Days : list string; rc_Start : string; rc_End : string; rc_Timezone : string }.
Record Window := MkWindow {
  w_ID : string;
  w_Devices : list string;
  w_Site : string;
  w_Tags : list string;
  w_Recurring : option Recurring;
  w_From : Time;
  w_Until : Time;
}.

(** The time zone database: the offset from UTC of a named zone at an instant. *)
Class TimeZones := LoadLocation : string → option (Time → Duration).

Definition dayNames : gmap string Z :=
  {[ "sun" := 0; "mon" := 1; "tue" := 2; "wed" := 3; "thu" := 4; "fri" := 5; "sat" := 6 ]}%Z.

(** [time.Parse("15:04", s)]: one or two digits, a colon, two digits, nothing else. *)
Definition digit_value (c : ascii) : option Z := if cls_digit c then Some (Z.of_N (byte_of c) - 48)%Z else None.
Definition getnum (fixed : bool) (s : string) : option (Z * string) :=
  match s with
  | String a s' =>
      match digit_value a, s' with
      | None, _ => None
      | Some x, String b s'' =>
          match digit_value b with
          | Some y => Some (x * 10 + y, s'')%Z
          | None => if fixed then None else Some (x, s')
          end
      | Some x, "" => if fixed then None else Some (x, s')
      end
  | "" => None
  end.
Definition parseHM (s : string) : option Z :=
  match getnum false s with
  | Some (h, String ":" rest) =>
      match getnum true rest with
      | Some (m, "") => if (h <? 24)%Z && (m <? 60)%Z then Some (h * 60 + m)%Z else None
      | _ => None
      end
  | _ => None
  end.

Definition covers (w : Window) (dev : Device) : bool :=
  (bool_decide (w_Devices w = []) && bool_decide (w_Site w = "") && bool_decide (w_Tags w = []))
  || existsb (λ id, bool_decide (id = d_ID dev)) (w_Devices w)
  || (bool_decide (w_Site w ≠ "") && bool_decide (w_Site w = d_Site dev))
  || existsb (HasTag dev) (w_Tags w).

(** A name that is not a day reads as Sunday, the zero weekday. *)
Definition dayOK (days : list string) (d : Z) : bool :=
  match days with
  | [] => true
  | _ => existsb (λ n, (default 0%Z (dayNames !! ToLower n) =? d)%Z) days
  end.

(** A recurring window at the local minute [cur] of weekday [wd]. *)
Definition recurring_active (days : list string) (start end_ : Z) (wd cur : Z) : bool :=
  if (start <=? end_)%Z then dayOK days wd && (start <=? cur)%Z && (cur <? end_)%Z
  else if (start <=? cur)%Z then dayOK days wd
  else if (cur <? end_)%Z then dayOK days ((wd + 6) mod 7)%Z
  else false.

Definition Active `{TimeZones} (w : Window) (now : Time) (dev : Device) : bool :=
  if negb (covers w dev) then false
  else if negb (IsZero (w_From w)) || negb (IsZero (w_Until w)) then
    if negb (IsZero (w_From w)) && Before now (w_From w) then false
    else if negb (IsZero (w_Until w)) && negb (Before now (w_Until w)) then false
    else true
  else
    match w_Recurring w with
    | None => false
    | Some r =>
        let offset := if bool_decide (rc_Timezone r ≠ "") then default (λ _, 0%Z) (LoadLocation (rc_Timezone r)) else λ _, 0%Z in
        let local := (now + offset now)%Z in
        let start := default 0%Z (parseHM (rc_Start r)) in
        let end_ := default 0%Z (parseHM (rc_End r)) in
        recurring_active (rc_Days r) start end_ (Weekday local) (time_Hour local * 60 + time_Minute local)
    end.

(** ** Validation and the parsed file *)

Definition DefaultRequireTag : string := "automation-enabled".
Definition DefaultCooldown : Duration := 15 * Minute.
Definition DefaultApprovalTimeout : Duration := Hour.

Definition validateWindow `{TimeZones} (w : Window) : option error :=
  if bool_decide (w_ID w = "") then Some (Errorf CategoryValidation "maintenance window needs an id")
  else if Bool.eqb (negb (IsZero (w_From w)) || negb (IsZero (w_Until w))) (negb (isnil (w_Recurring w)))
  then Some (Errorf CategoryValidation ("maintenance window " +:+ Quote (w_ID w) +:+ " needs exactly one of recurring or from/until"))
  else
    match w_Recurring w with
    | None => None
    | Some r =>
        first_error
          ([if isnil (parseHM (rc_Start r))
            then Some (Errorf CategoryValidation ("window " +:+ Quote (w_ID w) +:+ " start: " +:+ Quote (rc_Start r) +:+ " is not HH:MM")) else None;
            if isnil (parseHM (rc_End r))
            then Some (Errorf CategoryValidation ("window " +:+ Quote (w_ID w) +:+ " end: " +:+ Quote (rc_End r) +:+ " is not HH:MM")) else None]
           ++ ((λ d, if isnil (dayNames !! ToLower d)
                     then Some (Errorf CategoryValidation ("window " +:+ Quote (w_ID w) +:+ ": unknown day " +:+ Quote d)) else None) <$> rc_Days r)
           ++ [if bool_decide (rc_Timezone r ≠ "") && isnil (LoadLocation (rc_Timezone r))
               then Some (Errorf CategoryValidation ("window " +:+ Quote (w_ID w) +:+ ": unknown timezone " +:+ Quote (rc_Timezone r))) else None])
    end.

Definition hasTemplate (m : smap) : bool := existsb (λ kv, Contains kv.2 "{") (mlist m).

Definition action_problems (a : ActionRef) : res (list string) :=
  match Catalog !! ar_Type a with
  | None => Ok ["unknown action type " +:+ Quote (ar_Type a) +:+ " (catalog: " +:+ Join CatalogNames ", " +:+ ")"]
  | Some spec =>
      if negb (Contains (ar_Target a) "{") && negb (hasTemplate (ar_Params a)) then
        shape ← validateShape spec (MkProposal (ar_Type a) (ar_Target a) (ar_Params a) "");
        Ok match shape with Some err => [error_text err] | None => [] end
      else Ok []
  end.

Definition proposal_problems (pp : ProposalRef) : list string :=
  problems_of
    [(bool_decide (pp_Script pp = ""), "proposal.script is required");
     (bool_decide (pp_AllowedActions pp = []),
      "proposal.allowed_actions is required: a policy must bound what a script may propose")]
  ++ ((λ a, "proposal.allowed_actions: unknown action " +:+ Quote a) <$>
        filter (λ a, isnil (Catalog !! a) = true) (pp_AllowedActions pp)).

Definition validatePolicy (p : Policy) : res (option error) :=
  let t := pl_Trigger p in
  actions ← match pl_Action p with Some a => action_problems a | None => Ok [] end;
  let problems :=
    problems_of
      [(bool_decide (pl_ID p = ""), "id is required");
       (bool_decide (tg_Event t = ""), "trigger.event is required")]
    ++ ((λ t, "unknown device type " +:+ Quote t) <$> filter (λ t, DeviceType_Valid t = false) (tg_DeviceType t))
    ++ problems_of
      [(bool_decide (tg_MinSeverity t ≠ "") && negb (Severity_Valid (tg_MinSeverity t)), "trigger.min_severity is invalid");
       (Bool.eqb (isnil (pl_Action p)) (isnil (pl_Proposal p)), "exactly one of action or proposal is required")]
    ++ actions
    ++ match pl_Proposal p with Some pp => proposal_problems pp | None => [] end
    ++ problems_of
      [((cn_Duration (pl_Conditions p) <? 0)%Z || (cn_RetriesBelow (pl_Conditions p) <? 0)%Z
        || (sf_Cooldown (pl_Safety p) <? 0)%Z || (sf_ApprovalTimeout (pl_Safety p) <? 0)%Z,
        "durations and counts must not be negative")] in
  Ok match problems with
     | [] => None
     | _ => Some (Errorf CategoryValidation ("policy " +:+ Quote (pl_ID p) +:+ ": " +:+ Join problems "; "))
     end.

Record Policies := MkPolicies {
  ps_Allowlist : list string;
  ps_AllowedExtensions : list string;
  ps_Windows : list Window;
  ps_policies : list Policy;
  ps_byID : gmap string Policy;
}.
#[export] Instance eta_Policies : Eta Policies := λ ps,
  MkPolicies (ps_Allowlist ps) (ps_AllowedExtensions ps) (ps_Windows ps) (ps_policies ps) (ps_byID ps).

(** The decoded policy file. *)
Record file := MkFile {
  f_Allowlist : list string;
  f_AllowedExtensions : list string;
  f_MaintenanceWindows : list Window;
  f_Policies : list Policy;
}.

(** The defaults a policy gets for what it leaves out. *)
Definition with_defaults (pol : Policy) : Policy :=
  let s := pl_Safety pol in
  let s := if bool_decide (sf_RequireTag s = "") then s <| sf_RequireTag := DefaultRequireTag |> else s in
  let s := if (sf_Cooldown s =? 0)%Z then s <| sf_Cooldown := DefaultCooldown |> else s in
  let s := if sf_RequireApproval s && (sf_ApprovalTimeout s =? 0)%Z then s <| sf_ApprovalTimeout := DefaultApprovalTimeout |> else s in
  pol <| pl_Safety := s |>.

Fixpoint Parse_policies (ps : Policies) (l : list Policy) : res Policies :=
  match l with
  | [] => Ok ps
  | pol :: l =>
      let pol := with_defaults pol in
      err ← validatePolicy pol;
      match err with
      | Some err => Err err
      | None =>
          match ps_byID ps !! pl_ID pol with
          | Some _ => Err (Errorf CategoryValidation ("duplicate policy id " +:+ Quote (pl_ID pol)))
          | None =>
              Parse_policies
                (ps <| ps_byID := <[pl_ID pol := pol]> (ps_byID ps) |> <| ps_policies := ps_policies ps ++ [pol] |>) l
          end
      end
  end.

(** [Parse]; the strict YAML decoder is a parameter. *)
Definition Parse `{TimeZones} (yaml : string → res file) (raw : string) : res Policies :=
  f ← yaml raw;
  match first_error (validateWindow <$> f_MaintenanceWindows f) with
  | Some err => Err err
  | None => Parse_policies (MkPolicies (f_Allowlist f) (f_AllowedExtensions f) (f_MaintenanceWindows f) [] ∅) (f_Policies f)
  end.

Definition All (ps : Policies) : list Policy := ps_policies ps.
Definition Get (ps : Policies) (id : string) : option Policy := ps_byID ps !! id.

Definition containsStr (l : list string) (s : string) : bool := existsb (λ x, bool_decide (x = s)) l.
Definition Allowlisted (ps : Policies) (deviceID : string) : bool := containsStr (ps_Allowlist ps) deviceID.
Definition ExtensionApproved (ps : Policies) (script : string) : bool := containsStr (ps_AllowedExtensions ps) script.

Definition InMaintenance `{TimeZones} (ps : Policies) (now : Time) (dev : Device) : option string :=
  w_ID <$> List.find (λ w, Active w now dev) (ps_Windows ps).

Definition trigger_matches (t : Trigger) (ev : Event) (dev : Device) : bool :=
  bool_decide (tg_Event t = ev_Type ev)
  && negb ((0 <? length (tg_DeviceType t))%nat && negb (containsStr (tg_DeviceType t) (d_DeviceType dev)))
  && negb (bool_decide (tg_Site t ≠ "") && bool_decide (tg_Site t ≠ d_Site dev))
  && negb (bool_decide (tg_MinSeverity t ≠ "") && (Rank (ev_Severity ev) <? Rank (tg_MinSeverity t))%Z)
  && forallb (HasTag dev) (tg_Tags t).

Definition Match (ps : Policies) (ev : Event) (dev : Device) : list Policy :=
  filter (λ p, trigger_matches (pl_Trigger p) ev dev = true) (ps_policies ps).
