(* ===== verification/PolicyFacts.v ===== *)
(** * Catalog, policies and maintenance windows: facts and theorems *)

From S2P Require Import Prelude GoLib GoFloat Domain Regexp State Policy.

Lemma first_error_None l : first_error l = None ↔ Forall (λ x, x = None) l.
Proof.
  unfold first_error. induction l as [|[e|] l IH]; simpl; [by split; [constructor|]| |].
  - split; [done|]. intros H. by apply Forall_cons in H as [? _].
  - rewrite Forall_cons. naive_solver.
Qed.

(** ** The catalog *)

(** What holds of every listed action holds of the catalog. *)
Lemma catalog_Forall (P : ActionSpec → Prop) : Forall P specs → map_Forall (λ _, P) Catalog.
Proof.
  unfold Catalog. generalize specs as l. intros l Hl. assert (map_Forall (λ _, P) (∅ : gmap string ActionSpec)) as Hbase by apply map_Forall_empty.
  revert Hbase. generalize (∅ : gmap string ActionSpec) as m. induction Hl as [|s l Hs _ IH]; intros m Hm; simpl; [done|].
  by apply IH, map_Forall_insert_2.
Qed.

(** Actions that need a target say what it looks like. *)
Lemma catalog_targets name spec : Catalog !! name = Some spec → as_NeedsTarget spec = true → is_Some (as_Target spec).
Proof.
  intros Hs. revert name spec Hs. apply (catalog_Forall (λ s, as_NeedsTarget s = true → is_Some (as_Target s))).
  unfold specs. repeat (apply Forall_cons; split; [simpl; intros; by eauto|]). constructor.
Qed.

Lemma target_problem_total name spec pr : Catalog !! name = Some spec → ∃ r, target_problem spec pr = Ok r.
Proof.
  intros Hs. unfold target_problem. destruct (as_NeedsTarget spec) eqn:Hn; [|case_match; eauto].
  case_match; [eauto|]. destruct (catalog_targets _ _ Hs Hn) as [re ->]. simpl. eauto.
Qed.

Lemma validateShape_total name spec pr : Catalog !! name = Some spec → ∃ r, validateShape spec pr = Ok r.
Proof.
  intros Hs. unfold validateShape, mbind, result_bind. destruct (target_problem_total name spec pr Hs) as [r ->]. eauto.
Qed.

Lemma Validate_total pr dev : ∃ r, Validate pr dev = Ok r.
Proof.
  unfold Validate. destruct (Catalog !! pr_Action pr) as [spec|] eqn:Hs; [|eauto].
  destruct (validateShape_total _ spec pr Hs) as [r ->]. simpl. eauto.
Qed.

(** What an accepted proposal satisfies. *)
Record acceptable (spec : ActionSpec) (pr : Proposal) (dev : Device) : Prop := {
  acc_target : if as_NeedsTarget spec then ∃ re, as_Target spec = Some re ∧ matches re (pr_Target pr) else pr_Target pr = "";
  acc_params k v : mget (pr_Params pr) k = Some v → ∃ ps, ps ∈ as_Params spec ∧ ps_Name ps = k ∧ matches (ps_Pattern ps) v;
  acc_required ps : ps ∈ as_Params spec → ps_Required ps = true → is_Some (mget (pr_Params pr) (ps_Name ps));
  acc_reason : (slen (pr_Reason pr) ≤ 240)%Z;
  acc_type : as_DeviceTypes spec = [] ∨ d_DeviceType dev ∈ as_DeviceTypes spec;
}.

Lemma target_problem_ok spec pr : target_problem spec pr = Ok None →
  if as_NeedsTarget spec then ∃ re, as_Target spec = Some re ∧ matches re (pr_Target pr) else pr_Target pr = "".
Proof.
  unfold target_problem. destruct (as_NeedsTarget spec).
  - case_bool_decide; [done|]. unfold match_opt. destruct (as_Target spec) as [re|]; [|done]. simpl.
    destruct (MatchString re _) eqn:Hm; [|done]. intros _. exists re. split; [done|]. by apply MatchString_matches.
  - case_bool_decide as Ht; [done|]. intros _. destruct (decide (pr_Target pr = "")); [done|]. by destruct Ht.
Qed.

Lemma param_problem_ok spec k v : param_problem spec (k, v) = None →
  ∃ ps, ps ∈ as_Params spec ∧ ps_Name ps = k ∧ matches (ps_Pattern ps) v.
Proof.
  unfold param_problem. destruct (List.find _ _) as [ps|] eqn:Hf; [|done]. simpl.
  apply List.find_some in Hf as [Hin Hn]. bool_to_prop. destruct (MatchString _ v) eqn:Hm; [|done].
  intros _. exists ps. split; [|split; [done|by apply MatchString_matches]].
  by rewrite <-list_elem_of_In, elem_of_reverse in Hin.
Qed.

Lemma Validate_acceptable pr dev : Validate pr dev = Ok None →
  ∃ spec, Catalog !! pr_Action pr = Some spec ∧ acceptable spec pr dev.
Proof.
  unfold Validate. destruct (Catalog !! pr_Action pr) as [spec|] eqn:Hs; [|done].
  unfold mbind, result_bind. destruct (validateShape spec pr) as [[e|]|] eqn:Hv; [done| |done].
  intros Ht. exists spec. split; [done|]. revert Hv. unfold validateShape, mbind, result_bind.
  destruct (target_problem spec pr) as [tp|] eqn:Htp; [|done]. intros [= Hv]. apply first_error_None in Hv.
  apply Forall_cons in Hv as [-> Hv]. rewrite !Forall_app in Hv. destruct Hv as (Hp & Hr & [Hlen _]%Forall_cons).
  constructor.
  - by apply target_problem_ok.
  - intros k v Hkv. apply param_problem_ok. rewrite Forall_fmap, Forall_forall in Hp. apply (Hp (k, v)).
    by apply elem_of_map_to_list.
  - intros ps Hps Hreq. rewrite Forall_fmap, Forall_forall in Hr. specialize (Hr ps Hps). simpl in Hr.
    unfold missing_param in Hr. rewrite Hreq in Hr. simpl in Hr. by destruct (mget _ _).
  - simpl in Hlen. destruct (Z.ltb_spec 240 (slen (pr_Reason pr))); [done|lia].
  - destruct (as_DeviceTypes spec) as [|t ts]; [by left|right]. simpl (0 <? _)%nat in Ht.
    destruct (existsb _ (t :: ts)) eqn:He; [|done]. apply existsb_exists in He as (x & Hin & Hx). bool_to_prop. subst.
    by apply list_elem_of_In.
Qed.

(** ** No shell metacharacters *)

(** Characters no target or parameter of the catalog may contain. *)
Definition dangerous : string :=
  ";|&$<>`*?!#%^=[]{}~" +:+ String (chr 34) (String (chr 92) (String (chr 10) (String (chr 13) (String (chr 9) (str1 (chr 0)))))).

Definition safe_char (c : ascii) : Prop := mem_char c dangerous = false.

Lemma within_upto P n r : within P r → within P (RUpTo n r).
Proof. intros Hr. induction n; simpl; auto. Qed.

Lemma within_text P s : all_chars P s → within P (RText s).
Proof. induction s as [|c s IH]; simpl; [done|]. intros [? ?]. split; [|auto]. intros d Hd. by bool_to_prop; subst. Qed.

(** All 256 characters, to decide a property of characters. *)
Lemma char_forall (P : ascii → bool) :
  forallb (λ n, P (chr (N.of_nat n))) (seq 0 256) = true → ∀ c, P c = true.
Proof.
  intros Hall c. rewrite forallb_forall in Hall. specialize (Hall (N.to_nat (byte_of c))).
  unfold chr, byte_of in *. rewrite N2Nat.id, ascii_N_embedding in Hall. apply Hall. apply in_seq.
  pose proof (N_ascii_bounded c). lia.
Qed.

Lemma class_safe (p : ascii → bool) :
  forallb (λ n, negb (p (chr (N.of_nat n))) || negb (mem_char (chr (N.of_nat n)) dangerous)) (seq 0 256) = true →
  within safe_char (RClass p).
Proof.
  intros Hall c Hp. pose proof (char_forall (λ c, negb (p c) || negb (mem_char c dangerous)) Hall c) as Hc.
  simpl in Hc. rewrite Hp in Hc. simpl in Hc. by apply negb_true_iff in Hc.
Qed.

Definition safe_spec (spec : ActionSpec) : Prop :=
  (∀ re, as_Target spec = Some re → within safe_char re) ∧ Forall (λ ps, within safe_char (ps_Pattern ps)) (as_Params spec).

Lemma patterns_safe :
  within safe_char reIface ∧ within safe_char reName ∧ within safe_char reText ∧ within safe_char reVLAN ∧
  within safe_char reEnpoint ∧ within safe_char reSeverity.
Proof.
  unfold reIface, reName, reText, reVLAN, reEnpoint, re_bounded.
  split_and!; try (split; [|apply within_upto]); try apply within_upto; try (apply class_safe; vm_compute; reflexivity).
  unfold reSeverity. split; [|split]; apply within_text; by repeat split.
Qed.

Lemma catalog_safe : map_Forall (λ _ s, safe_spec s) Catalog.
Proof.
  destruct patterns_safe as (Hi & Hn & Ht & Hv & He & Hs). apply catalog_Forall. unfold specs.
  repeat (apply Forall_cons; split;
    [split; [intros re Hre; cbn [as_Target] in Hre; by simplify_eq
            |cbn [as_Params]; repeat (apply Forall_cons; split; [assumption|]); constructor]|]).
  constructor.
Qed.

Lemma safe_string s : all_chars safe_char s → ∀ c, mem_char c dangerous = true → mem_char c s = false.
Proof.
  induction s as [|d s IH]; [done|]. intros [Hd Hs] c Hc. simpl. rewrite IH by done.
  rewrite bool_decide_eq_false_2; [done|]. intros ->. unfold safe_char in Hd. congruence.
Qed.

Lemma acceptable_safe name spec pr dev c :
  Catalog !! name = Some spec → acceptable spec pr dev → mem_char c dangerous = true →
  mem_char c (pr_Target pr) = false ∧ ∀ k v, mget (pr_Params pr) k = Some v → mem_char c v = false.
Proof.
  intros Hs [Ht Hp _ _ _] Hc. destruct (catalog_safe _ _ Hs) as [Hst Hsp]. split.
  - destruct (as_NeedsTarget spec); [|by rewrite Ht]. destruct Ht as (re & Hre & Hm).
    eapply safe_string; [|done]. eapply matches_within; [by apply Hst|done].
  - intros k v Hkv. destruct (Hp k v Hkv) as (ps & Hin & _ & Hm). rewrite Forall_forall in Hsp.
    eapply safe_string; [|done]. eapply matches_within; [by apply (Hsp ps)|done].
Qed.

(** ** Parsed policies *)

(** What every policy of a parsed file has: a tag gate, a positive cooldown, a timeout when a
    human must approve, and for scripts a non-empty bound within the catalog. *)
Record guarded (p : Policy) : Prop := {
  gd_tag : sf_RequireTag (pl_Safety p) ≠ "";
  gd_cooldown : (0 < sf_Cooldown (pl_Safety p))%Z;
  gd_timeout : sf_RequireApproval (pl_Safety p) = true → (0 < sf_ApprovalTimeout (pl_Safety p))%Z;
  gd_exclusive : isnil (pl_Action p) = negb (isnil (pl_Proposal p));
  gd_bounded pp : pl_Proposal p = Some pp → pp_AllowedActions pp ≠ [] ∧ Forall (λ a, is_Some (Catalog !! a)) (pp_AllowedActions pp);
}.

Lemma proposal_problems_nil pp : proposal_problems pp = [] →
  pp_AllowedActions pp ≠ [] ∧ Forall (λ a, is_Some (Catalog !! a)) (pp_AllowedActions pp).
Proof.
  unfold proposal_problems. intros [Hp Ha]%app_nil. apply problems_of_nil in Hp.
  apply Forall_cons in Hp as [_ [Hne _]%Forall_cons]. simpl in Hne. bool_to_prop. split; [done|].
  apply fmap_nil_inv in Ha. apply Forall_forall. intros a Hin. destruct (Catalog !! a) eqn:Hc; [by eauto|].
  assert (a ∈ filter (λ a, isnil (Catalog !! a) = true) (pp_AllowedActions pp)) as Hf; [|rewrite Ha in Hf; by apply elem_of_nil in Hf].
  apply list_elem_of_filter. by rewrite Hc.
Qed.

(** What [with_defaults] fills in. *)
Lemma with_defaults_safety pol :
  let s := pl_Safety (with_defaults pol) in
  sf_RequireTag s ≠ "" ∧ sf_Cooldown s ≠ 0%Z ∧ (sf_RequireApproval s = true → sf_ApprovalTimeout s ≠ 0%Z).
Proof.
  destruct pol as [i d t c a p [dry cool tag appr tmo]]. unfold with_defaults. cbn.
  destruct (bool_decide (tag = "")) eqn:Ht; cbn; destruct (cool =? 0)%Z eqn:Hc; cbn; destruct appr; cbn;
    try destruct (tmo =? 0)%Z eqn:Hm; cbn; bool_to_prop; split_and!; done.
Qed.

Lemma validatePolicy_guarded pol : validatePolicy (with_defaults pol) = Ok None → guarded (with_defaults pol).
Proof.
  destruct (with_defaults_safety pol) as (Htag & Hcool & Htmo). revert Htag Hcool Htmo. generalize (with_defaults pol) as q. clear pol.
  intros q Htag Hcool Htmo. unfold validatePolicy, mbind, result_bind.
  destruct (match pl_Action q with Some a => action_problems a | None => Ok [] end) as [acts|]; [|done].
  intros Hv. match type of Hv with Ok (match ?l with _ => _ end) = _ => destruct l eqn:Hp; [|done] end. clear Hv.
  apply app_nil in Hp as [_ Hp]. apply app_nil in Hp as [_ Hp]. apply app_nil in Hp as [Hx Hp].
  apply app_nil in Hp as [_ Hp]. apply app_nil in Hp as [Hprop Hneg].
  apply problems_of_nil in Hx, Hneg. apply Forall_cons in Hx as [_ [Hx _]%Forall_cons]. apply Forall_cons in Hneg as [Hneg _].
  cbn [fst] in Hx, Hneg. bool_to_prop. split; [done|lia|intros Ha; specialize (Htmo Ha); lia| |].
  - by destruct (isnil (pl_Action _)), (isnil (pl_Proposal _)).
  - intros pp Hpp. rewrite Hpp in Hprop. by apply proposal_problems_nil.
Qed.

(** Ids lead to the policies of the file, all of them guarded. *)
Definition policies_ok (ps : Policies) : Prop :=
  Forall guarded (ps_policies ps) ∧ ∀ id p, Get ps id = Some p ↔ p ∈ ps_policies ps ∧ pl_ID p = id.

Lemma Parse_policies_ok l ps ps' : policies_ok ps → Parse_policies ps l = Ok ps' → policies_ok ps'.
Proof.
  revert ps. induction l as [|pol l IH]; intros ps Hps; cbn [Parse_policies]; [by intros ?; simplify_eq|].
  unfold mbind, result_bind. destruct (validatePolicy (with_defaults pol)) as [[e|]|] eqn:Hv; [done| |done].
  destruct (ps_byID ps !! pl_ID (with_defaults pol)) eqn:Hid; [done|]. apply IH. destruct Hps as [Hg Hget].
  apply validatePolicy_guarded in Hv. revert Hv Hid. generalize (with_defaults pol) as q. intros q Hv Hid. split.
  - simpl. apply Forall_app. split; [done|]. by apply Forall_singleton.
  - intros id p. unfold Get in *. simpl. rewrite elem_of_app, list_elem_of_singleton.
    destruct (decide (pl_ID q = id)) as [<-|Hne].
    + rewrite lookup_insert_eq. split; [intros [= <-]; auto|]. intros [[Hin| ->] Hp]; [|done].
      assert (ps_byID ps !! pl_ID q = Some p) by (apply Hget; auto). congruence.
    + rewrite lookup_insert_ne, Hget by done. naive_solver.
Qed.

(** ** Recurring windows *)

(** Minutes since the start of the week (Sunday midnight). *)
Definition week_minutes : Z := 10080.

(** The window that starts on day [d] contains the minute [m] of the week. *)
Definition in_occurrence (start end_ d m : Z) : Prop :=
  ∃ off, (start ≤ off < (if start <=? end_ then end_ else end_ + 1440) ∧ (d * 1440 + off) mod week_minutes = m)%Z.

Lemma recurring_active_spec days start end_ wd cur :
  (0 ≤ start < 1440)%Z → (0 ≤ end_ < 1440)%Z → (0 ≤ wd < 7)%Z → (0 ≤ cur < 1440)%Z →
  recurring_active days start end_ wd cur = true ↔
  ∃ d, (0 ≤ d < 7)%Z ∧ dayOK days d = true ∧ in_occurrence start end_ d (wd * 1440 + cur).
Proof.
  intros Hs He Hw Hcur. unfold recurring_active, in_occurrence, week_minutes.
  assert (∀ d off, (0 ≤ d < 7 → 0 ≤ off < 2880 → (d * 1440 + off) mod 10080 = wd * 1440 + cur →
    (off < 1440 ∧ d = wd ∧ off = cur) ∨ (1440 ≤ off ∧ d = (wd + 6) mod 7 ∧ off = cur + 1440))%Z) as Huniq.
  { intros d off Hd Hoff Hm. destruct (Z.ltb_spec off 1440) as [Hlt|Hge].
    - left. rewrite Z.mod_small in Hm by lia. lia.
    - right. destruct (decide (d = 6%Z)) as [->|Hd6].
      + replace (6 * 1440 + off)%Z with (off - 1440 + 1 * 10080)%Z in Hm by lia.
        rewrite Z.mod_add, Z.mod_small in Hm by lia. assert (wd = 0%Z) as -> by lia. split_and!; [lia|done|lia].
      + rewrite Z.mod_small in Hm by lia. assert (wd = d + 1)%Z as -> by lia.
        replace (d + 1 + 6)%Z with (d + 1 * 7)%Z by lia. rewrite Z.mod_add, Z.mod_small by lia. lia. }
  destruct (Z.leb_spec start end_) as [Hle|Hgt].
  - rewrite !andb_true_iff, Z.leb_le, Z.ltb_lt. split.
    + intros [[Hd ?] ?]. exists wd. split_and!; [lia..|done|]. exists cur. split; [lia|]. apply Z.mod_small. lia.
    + intros (d & Hd & Hok & off & Hoff & Hm). destruct (Huniq d off) as [(? & -> & ->)|(? & ?)]; [lia..|done| |lia]. auto with lia.
  - split.
    + destruct (Z.leb_spec start cur) as [Hsc|Hsc]; [|destruct (Z.ltb_spec cur end_) as [Hce|Hce]; [|done]]; intros Hd.
      * exists wd. split_and!; [lia..|done|]. exists cur. split; [lia|]. apply Z.mod_small. lia.
      * exists ((wd + 6) mod 7)%Z. split_and!; [apply Z.mod_pos_bound; lia..|done|]. exists (cur + 1440)%Z. split; [lia|].
        destruct (decide (wd = 0%Z)) as [->|Hw0]; [|].
        -- change ((0 + 6) mod 7)%Z with 6%Z. replace (6 * 1440 + (cur + 1440))%Z with (cur + 1 * 10080)%Z by lia.
           rewrite Z.mod_add, Z.mod_small by lia. lia.
        -- replace (wd + 6)%Z with (wd - 1 + 1 * 7)%Z by lia. rewrite Z.mod_add, (Z.mod_small (wd - 1)) by lia.
           rewrite Z.mod_small by lia. lia.
    + intros (d & Hd & Hok & off & Hoff & Hm). destruct (Huniq d off) as [(? & -> & ->)|(? & -> & ->)]; [lia..|done| |].
      * by rewrite (proj2 (Z.leb_le _ _)) by lia.
      * rewrite (proj2 (Z.leb_gt _ _)), (proj2 (Z.ltb_lt _ _)) by lia. done.
Qed.

Lemma digit_value_range c x : digit_value c = Some x → (0 ≤ x ≤ 9)%Z.
Proof.
  unfold digit_value, cls_digit, in_range. destruct (_ && _)%N eqn:Hr; [|done]. intros [= <-].
  apply andb_true_iff in Hr as [H1%N.leb_le H2%N.leb_le]. change (byte_of "0") with 48%N in H1. change (byte_of "9") with 57%N in H2. lia.
Qed.

Lemma getnum_nonneg fixed s x rest : getnum fixed s = Some (x, rest) → (0 ≤ x)%Z.
Proof.
  unfold getnum. destruct s as [|a s]; [done|]. destruct (digit_value a) as [xa|] eqn:Ha; [|by destruct s].
  apply digit_value_range in Ha. destruct s as [|b s]; [destruct fixed; intros; simplify_eq; lia|].
  destruct (digit_value b) as [xb|] eqn:Hb; [apply digit_value_range in Hb; intros; simplify_eq; lia|].
  destruct fixed; intros; simplify_eq; lia.
Qed.

Lemma parseHM_range s m : parseHM s = Some m → (0 ≤ m < 1440)%Z.
Proof.
  unfold parseHM. destruct (getnum false s) as [[h rest]|] eqn:Hh; [|done]. apply getnum_nonneg in Hh.
  destruct rest as [|c rest]; [done|]. destruct (decide (c = ":"%char)) as [->|Hc].
  2: { intros Hp. exfalso. destruct c as [[] [] [] [] [] [] [] []]; simpl in Hp; done. }
  destruct (getnum true rest) as [[mm rest']|] eqn:Hm; [|done]. apply getnum_nonneg in Hm.
  destruct rest'; [|done]. destruct (Z.ltb_spec h 24), (Z.ltb_spec mm 60); simpl; intros; simplify_eq; lia.
Qed.

Lemma weekday_range t : (0 ≤ Weekday t < 7)%Z.
Proof. unfold Weekday. apply Z.mod_pos_bound. lia. Qed.
Lemma minute_of_day_range t : (0 ≤ time_Hour t * 60 + time_Minute t < 1440)%Z.
Proof.
  unfold time_Hour, time_Minute. assert (0 ≤ sec_of_day t < 86400)%Z as Hs.
  { unfold sec_of_day. pose proof (Z.mod_pos_bound t (24 * Hour) ltac:(unfold Hour; lia)) as Hb. unfold Hour, Second in *.
    split; [apply Z.div_pos; lia|apply Z.div_lt_upper_bound; lia]. }
  assert (sec_of_day t / 3600 < 24)%Z by (apply Z.div_lt_upper_bound; lia).
  assert (0 ≤ sec_of_day t / 3600)%Z by (apply Z.div_pos; lia).
  pose proof (Z.mod_pos_bound (sec_of_day t / 60) 60). lia.
Qed.

Lemma validateWindow_recurring `{TimeZones} w r :
  validateWindow w = None → w_Recurring w = Some r →
  IsZero (w_From w) = true ∧ IsZero (w_Until w) = true ∧
  ∃ start end_, parseHM (rc_Start r) = Some start ∧ parseHM (rc_End r) = Some end_.
Proof.
  unfold validateWindow. case_bool_decide; [done|]. case_match eqn:Hx; [done|]. intros Hv Hr. rewrite Hr in Hv, Hx.
  apply first_error_None in Hv. apply Forall_cons in Hv as [Hs Hv]. apply Forall_cons in Hv as [He _].
  destruct (parseHM (rc_Start r)), (parseHM (rc_End r)), (IsZero (w_From w)), (IsZero (w_Until w)); simpl in *; try done. eauto 6.
Qed.

Lemma Parse_ok `{TimeZones} yaml raw ps : Policy.Parse yaml raw = Ok ps → policies_ok ps.
Proof.
  unfold Policy.Parse, mbind, result_bind. destruct (yaml raw) as [f|]; [|done]. destruct (first_error _); [done|].
  apply Parse_policies_ok. split; [constructor|]. intros id p. unfold Get. simpl. rewrite lookup_empty. set_solver.
Qed.

(** ** Theorems *)

(** The catalog is closed: a proposal that passes [Validate], whoever made it, names a catalog
    action that applies to the device's type, its target and parameters match that action's
    patterns in full, nothing is missing and nothing extra, and neither target nor parameters
    contain any shell metacharacter, quote, control or template character. [Validate] itself
    never panics. *)
Theorem accepted_proposal_is_bounded pr dev :
  (∃ r, Validate pr dev = Ok r) ∧
  (Validate pr dev = Ok None →
   ∃ spec, Catalog !! pr_Action pr = Some spec ∧ acceptable spec pr dev ∧
     ∀ c, mem_char c dangerous = true →
       mem_char c (pr_Target pr) = false ∧ ∀ k v, mget (pr_Params pr) k = Some v → mem_char c v = false).
Proof.
  split; [apply Validate_total|]. intros (spec & Hs & Hacc)%Validate_acceptable. exists spec. split; [done|]. split; [done|].
  intros c. by eapply acceptable_safe.
Qed.

Definition ex_switch : Device :=
  MkDevice "sw1" "sw1.lab" "10.0.0.1" "switch" "acme" "m1" "" "lab" ["automation-enabled"] ["interface-admin"] "" true 0
    (MkCollectionSpec "snmp" "" 0) None.

Lemma accepted_proposal_is_bounded_witness :
  ∃ spec, Catalog !! "bounce_interface" = Some spec ∧ as_Disruptive spec = true.
Proof.
  destruct (accepted_proposal_is_bounded (MkProposal "bounce_interface" "Gi0/1" None "flapping") ex_switch) as [_ Hacc].
  destruct Hacc as (spec & Hs & _); [vm_compute; reflexivity|]. exists spec. split; [exact Hs|].
  assert (as_Disruptive <$> Catalog !! "bounce_interface" = Some true) as Hd by (vm_compute; reflexivity).
  change (Catalog !! "bounce_interface" = Some spec) in Hs. rewrite Hs in Hd. exact (f_equal (default false) Hd).
Defined.

(** A parsed policy file has no unguarded policy: every policy has a tag gate and a positive
    cooldown, an approval timeout when a human must approve, exactly one of a static action and
    a script, a non-empty bound within the catalog on what its script may propose; and looking
    a policy up by id finds exactly the policies of the file. *)
Theorem parsed_policies_are_guarded `{TimeZones} yaml raw ps :
  Policy.Parse yaml raw = Ok ps →
  Forall guarded (ps_policies ps) ∧ ∀ id p, Get ps id = Some p ↔ p ∈ ps_policies ps ∧ pl_ID p = id.
Proof. apply Parse_ok. Qed.

Definition ex_policy : Policy :=
  MkPolicy "bounce" "" (MkTrigger "interface.flapping" [] "" [] "") (MkConditions (5 * Minute) 3)
    (Some (MkActionRef "bounce_interface" "{interface}" None)) None (MkSafety (Some false) 0 "" true 0).
Definition ex_file : file := MkFile ["sw1"] [] [] [ex_policy].
Definition ex_utc : TimeZones := λ _, None.

Lemma parsed_policies_are_guarded_witness :
  ∃ ps, Policy.Parse (H:=ex_utc) (λ _, Ok ex_file) "" = Ok ps ∧ Forall guarded (ps_policies ps).
Proof.
  destruct (Policy.Parse (H:=ex_utc) (λ _, Ok ex_file) "") as [ps|] eqn:Hp; [|by vm_compute in Hp].
  exists ps. split; [done|]. exact (proj1 (parsed_policies_are_guarded (H:=ex_utc) (λ _, Ok ex_file) "" ps Hp)).
Defined.

(** Maintenance windows mean what they say, across midnight and across the week's end: a
    validated recurring window that covers the device is active exactly when some occurrence of
    it, starting on one of its days and ending at its end time (on the next day when that is
    earlier than its start), contains the local minute. *)
Theorem recurring_window_active_iff `{TimeZones} w r dev now start end_ :
  validateWindow w = None → w_Recurring w = Some r → covers w dev = true →
  parseHM (rc_Start r) = Some start → parseHM (rc_End r) = Some end_ →
  let offset := if bool_decide (rc_Timezone r ≠ "") then default (λ _, 0%Z) (LoadLocation (rc_Timezone r)) else λ _, 0%Z in
  let local := (now + offset now)%Z in
  Active w now dev = true ↔
  ∃ d, (0 ≤ d < 7)%Z ∧ dayOK (rc_Days r) d = true ∧
       in_occurrence start end_ d (Weekday local * 1440 + (time_Hour local * 60 + time_Minute local)).
Proof.
  intros Hv Hr Hc Hs He offset local. destruct (validateWindow_recurring w r Hv Hr) as (Hf & Hu & _).
  unfold Active. rewrite Hc, Hf, Hu, Hr, Hs, He. cbn [negb orb default]. fold offset. fold local.
  apply recurring_active_spec; eauto using parseHM_range, weekday_range, minute_of_day_range.
Qed.

(** Friday 22:00 to 02:00. *)
Definition ex_window : Window := MkWindow "patching" ["sw1"] "" [] (Some (MkRecurring ["fri"] "22:00" "02:00" "")) 0 0.

Lemma recurring_window_active_iff_witness :
  (* Saturday 6 January of year 1, 01:30 *)
  Active (H:=ex_utc) ex_window (5 * 24 * Hour + 90 * Minute) ex_switch = true.
Proof.
  apply (recurring_window_active_iff (H:=ex_utc) ex_window (MkRecurring ["fri"] "22:00" "02:00" "") ex_switch
    (5 * 24 * Hour + 90 * Minute) 1320 120); [reflexivity..|].
  exists 5%Z. split; [lia|]. split; [reflexivity|]. exists 1530%Z. split; [simpl; lia|]. reflexivity.
Defined.
