(* ===== verification/Engine.v ===== *)
(** * Package [automation]: the engine (src/internal/automation/engine.go, worker.go)

    Generic in the automation store ([AutoOps]). The engine's world is that store together with
    the log of adapter executions, so that what was executed, and how, can be stated. The clock
    ([e_now]) is read once per call of the engine. *)

From S2P Require Import Prelude GoLib GoFloat Domain State Schema Inventory Store AutoStore Pipeline Policy.

(** ** The engine and its world *)

(** [e_For] is [AdapterSet.For]: the error when there is no adapter for the device and action.
    [e_Execute] is the adapter's answer, which may depend on what was executed before. The
    proposer answers with a proposal, nil, or an error. *)
Record Engine := MkEngine {
  e_Policies : Policies;
  e_Devices : Reader;
  e_For : Device → string → option error;
  e_Execute : list (Device * Action) → Device → Action → ActionResult * option error;
  e_Proposer : option (Policy → Event → Device → res (option Proposal));
  e_GlobalDryRun : bool;
  e_Lease : Duration;
  e_BatchSize : Z;
  e_now : Time;
}.

Record world (Sto : Type) := MkWorld { w_store : Sto; w_calls : list (Device * Action) }.
Arguments MkWorld {Sto}.
Arguments w_store {Sto}.
Arguments w_calls {Sto}.

Definition lease (e : Engine) : Duration := if (0 <? e_Lease e)%Z then e_Lease e else 5 * Minute.
Definition engine_dryRun (e : Engine) (p : Policy) : bool := e_GlobalDryRun e || policy_dryRun p.

Section engine.
Context `{Sha256, TimeZones, Json AutomationRequest, Json AutomationResult, AutoOps Sto}.

Abbreviation M A := (ST (world Sto) error A).

(** Run a store operation in the world. *)
Definition on_store {A} (m : ST Sto error A) : M A := λ w,
  let '(r, s) := m (w_store w) in (r, MkWorld s (w_calls w)).

(** Run a computation and give its error as a value. *)
Definition try {A} (m : M A) : M (res A) := λ w, let '(r, w') := m w in (Ok r, w').

Definition requestID (policyID eventID : string) : string := StableID ["auto"; policyID; eventID].

Definition requestMessage (req : AutomationRequest) : res OutboxMessage :=
  payload ← Encode req;
  Ok (MkOutboxMessage 0 SubjectAutomationRequest (rq_RequestID req) payload
        (Some {[ HeaderSchema := AutomationRequestV1; HeaderCorrelationID := rq_CorrelationID req ]})).

Definition resultMessage (r : AutomationResult) : res OutboxMessage :=
  payload ← Encode r;
  Ok (MkOutboxMessage 0 SubjectAutomationResult (rs_RequestID r +:+ ".result") payload
        (Some {[ HeaderSchema := AutomationResultV1; HeaderCorrelationID := rs_CorrelationID r ]})).

(** Record a terminal outcome and its notification. *)
Definition finish (e : Engine) (req : AutomationRequest) (status : AutomationStatus) (message : string) (details : smap) : M bool :=
  let r := MkAutomationResult (rq_RequestID req) (rq_CorrelationID req) status (rq_DryRun req || e_GlobalDryRun e)
             message details (e_now e) (e_now e) in
  msg ← ST_lift (resultMessage r);
  on_store (CompleteAutomation r [msg]).

(** ** Stage one: requests *)

Definition propose (e : Engine) (pol : Policy) (ev : Event) (dev : Device) : res (option Proposal) :=
  match pl_Action pol with
  | Some a =>
      Ok (Some (MkProposal (ar_Type a) (expand (ar_Target a) ev) (Some ((λ v, expand v ev) <$> entries (ar_Params a)))
                  ("policy " +:+ pl_ID pol +:+ " reacting to " +:+ ev_Type ev)))
  | None =>
      match e_Proposer e with
      | None => Err (Errorf CategoryUnsupported ("policy " +:+ pl_ID pol +:+ " needs a script proposer but none is configured"))
      | Some proposer => proposer pol ev dev
      end
  end.

(** [Ok None] is the nil error. *)
Definition checkProposal (pol : Policy) (pr : Proposal) (dev : Device) : res (option error) :=
  if match pl_Proposal pol with Some pp => negb (containsStr (pp_AllowedActions pp) (pr_Action pr)) | None => false end
  then Ok (Some (Errorf CategoryValidation
         ("action " +:+ Quote (pr_Action pr) +:+ " is not among the actions policy " +:+ pl_ID pol +:+ " allows a script to propose")))
  else Policy.Validate pr dev.

(** The request for a policy and an event before its proposal is filled in. *)
Definition new_request (e : Engine) (pol : Policy) (ev : Event) (dev : Device) : AutomationRequest :=
  MkAutomationRequest (requestID (pl_ID pol) (ev_EventID ev)) (ev_CorrelationID ev) (pl_ID pol) (ev_EventID ev) (ev_AlertKey ev)
    (d_ID dev) "" "" None ""
    (match pl_Proposal pol with Some pp => "script:" +:+ pp_Script pp | None => "policy" end)
    (engine_dryRun e pol) AutomationPending (time_Add (ev_OccurredAt ev) (cn_Duration (pl_Conditions pol))) (e_now e) "".

(** The request with its proposal, and why it is denied, if it is. *)
Definition fill_request (pol : Policy) (dev : Device) (req : AutomationRequest) (prop : res Proposal) : res (AutomationRequest * option string) :=
  match prop with
  | Err perr => Ok (req, Some ("proposal failed: " +:+ error_text perr))
  | Ok pr =>
      let req := req <| rq_Action := pr_Action pr |> <| rq_Target := pr_Target pr |> <| rq_Params := pr_Params pr |>
                     <| rq_Reason := pr_Reason pr |> in
      err ← checkProposal pol pr dev;
      Ok (req, match err with Some err => Some ("proposal rejected: " +:+ error_text err) | None => None end)
  end.

Definition deny_request (e : Engine) (req : AutomationRequest) : AutomationRequest :=
  let req := req <| rq_Status := AutomationDenied |> <| rq_NotBefore := e_now e |> in
  if bool_decide (rq_Action req = "") then req <| rq_Action := "none" |> else req.

(** One matching policy: record its request, unless there is nothing to propose. *)
Definition handle_policy (e : Engine) (ev : Event) (dev : Device) (created : list AutomationRequest) (pol : Policy) : M (list AutomationRequest) :=
  let record (prop : res Proposal) : M (list AutomationRequest) :=
    filled ← ST_lift (fill_request pol dev (new_request e pol ev dev) prop);
    let req := match filled.2 with Some _ => deny_request e filled.1 | None => filled.1 end in
    msg ← ST_lift (requestMessage req);
    inserted ← on_store (InsertAutomationRequest req [msg]);
    if negb inserted then mret created
    else
      _ ← match filled.2 with
          | Some denied => finish e req AutomationDenied denied (Some {[ "gate" := "proposal" ]})
          | None => mret true
          end;
      mret (created ++ [req]) in
  match propose e pol ev dev with
  | Err perr => if IsRetryable (Some perr) then ST_fail perr else record (Err perr)
  | Ok None => mret created
  | Ok (Some pr) => record (Ok pr)
  end.

Definition HandleEvent (e : Engine) (ev : Event) : M (list AutomationRequest) :=
  if ev_Resolves ev || bool_decide (ev_AlertKey ev = "") then mret []
  else
    match rd_Get (e_Devices e) (ev_DeviceID ev) with
    | None => mret []
    | Some dev => ST_foldl (handle_policy e ev dev) [] (Match (e_Policies e) ev dev)
    end.

(** ** Stage two: gates and execution *)

Definition deny (e : Engine) (req : AutomationRequest) (gate message : string) : M unit :=
  _ ← finish e req AutomationDenied message (Some {[ "gate" := gate ]}); mret tt.

(** Put a claimed request back; the outcome of that is not looked at, the cause is reported. *)
Definition release {A} (req : AutomationRequest) (cause : error) : M A :=
  let back := if bool_decide (rq_ApprovedBy req ≠ "") then AutomationApproved else AutomationPending in
  _ ← try (on_store (SetAutomationStatus (rq_RequestID req) [AutomationExecuting] back));
  ST_fail cause.

(** A store read that releases the request when it fails. *)
Definition read_or_release {A} (req : AutomationRequest) (m : ST Sto error A) : M A :=
  r ← try (on_store m);
  match r with Ok a => mret a | Err err => release req err end.

Definition action_of (req : AutomationRequest) (dry : bool) : Action :=
  MkAction (rq_Action req) (rq_Target req) (rq_Params req) dry (rq_RequestID req) (rq_CorrelationID req).

(** The adapter's answer; the call is logged. *)
Definition run_adapter (e : Engine) (dev : Device) (a : Action) : M (ActionResult * option error) := λ w,
  (Ok (e_Execute e (w_calls w) dev a), MkWorld (w_store w) (w_calls w ++ [(dev, a)])).

Definition execute (e : Engine) (req : AutomationRequest) (dev : Device) (dry : bool) : M unit :=
  match e_For e dev (rq_Action req) with
  | Some err => deny e req "adapter" ("no adapter: " +:+ error_text err)
  | None =>
      answer ← run_adapter e dev (action_of req dry);
      let details := entries (ar_Details answer.1) in
      _ ← match answer.2 with
          | Some xerr =>
              finish e req AutomationFailed (error_text xerr)
                (Some (<["error_category" := Category_string (CategoryOf (Some xerr))]> details))
          | None =>
              finish e req (if dry then AutomationDryRun else AutomationSucceeded) (ar_Message answer.1)
                (Some (<["changed" := FormatBool (ar_Changed answer.1)]> details))
          end;
      mret tt
  end.

(** Gates that need no store: the first that refuses, with its message. [dry] is whether the
    execution would be a dry run. *)
Definition is_dry (e : Engine) (req : AutomationRequest) (pol : Policy) : bool :=
  rq_DryRun req || e_GlobalDryRun e || policy_dryRun pol.

Definition local_gates (e : Engine) (req : AutomationRequest) (pol : Policy) (dev : Device) (spec : ActionSpec) : option (string * string) :=
  let script := mread (rq_Params req) "script" in
  if match pl_Proposal pol with Some pp => negb (containsStr (pp_AllowedActions pp) (rq_Action req)) | None => false end
  then Some ("policy", "policy no longer allows " +:+ rq_Action req)
  else if bool_decide (rq_Action req = "invoke_extension") && negb (ExtensionApproved (e_Policies e) script)
  then Some ("extension", "script " +:+ Quote script +:+ " is not on the approved extension list")
  else if negb (HasTag dev (sf_RequireTag (pl_Safety pol)))
  then Some ("tag", "device lacks the required tag " +:+ Quote (sf_RequireTag (pl_Safety pol)))
  else if bool_decide (as_Capability spec ≠ "") && negb (HasCapability dev (as_Capability spec))
  then Some ("capability", "device does not advertise capability " +:+ Quote (as_Capability spec))
  else if negb (is_dry e req pol) && as_Disruptive spec && negb (Allowlisted (e_Policies e) (d_ID dev))
  then Some ("allowlist", "live mutation requires the device to be on the automation allowlist")
  else match InMaintenance (e_Policies e) (e_now e) dev with
       | Some id => Some ("maintenance", "device is in maintenance window " +:+ Quote id)
       | None => None
       end.

(** The cooldown and retry gates and the approval, then execution. *)
Definition history_gates (e : Engine) (req : AutomationRequest) (pol : Policy) (dev : Device) : M (option (string * string)) :=
  prior ← (if (0 <? sf_Cooldown (pl_Safety pol))%Z
           then read_or_release req (AutomationHistory (pl_ID pol) (d_ID dev) (rq_Target req)
                  (time_Add (e_now e) (- sf_Cooldown (pl_Safety pol))))
           else mret []);
  match last prior with
  | Some r => mret (Some ("cooldown", "cooldown of " +:+ DurationString (sf_Cooldown (pl_Safety pol)) +:+
                            " has not elapsed since request " +:+ rq_RequestID r))
  | None =>
      let limit := cn_RetriesBelow (pl_Conditions pol) in
      if (0 <? limit)%Z && bool_decide (rq_AlertKey req ≠ "") then
        n ← read_or_release req (AttemptsForAlert (pl_ID pol) (rq_AlertKey req));
        mret (if (limit <=? n)%Z
              then Some ("retries", "already attempted " +:+ FormatInt n +:+ " time(s) for this alert (limit " +:+ FormatInt limit +:+ ")")
              else None)
      else mret None
  end.

Definition process (e : Engine) (req : AutomationRequest) : M unit :=
  match Policy.Get (e_Policies e) (rq_PolicyID req) with
  | None => deny e req "policy" "policy no longer exists"
  | Some pol =>
      match rd_Get (e_Devices e) (rq_DeviceID req) with
      | None => deny e req "device" "device is unknown or disabled"
      | Some dev =>
          if negb (d_Enabled dev) then deny e req "device" "device is unknown or disabled"
          else
            firing ← (if bool_decide (rq_AlertKey req ≠ "") then read_or_release req (AlertFiring_ (rq_AlertKey req)) else mret true);
            if negb firing then
              _ ← finish e req AutomationExpired "the alert resolved before the action was due" (Some {[ "gate" := "alert" ]}); mret tt
            else
              verr ← ST_lift (Policy.Validate (MkProposal (rq_Action req) (rq_Target req) (rq_Params req) (rq_Reason req)) dev);
              match verr, Catalog !! rq_Action req with
              | Some err, _ => deny e req "validation" (error_text err)
              | None, None => ST_fail (EPanic "validated action is not in the catalog")
              | None, Some spec =>
                  match local_gates e req pol dev spec with
                  | Some (gate, message) => deny e req gate message
                  | None =>
                      refused ← history_gates e req pol dev;
                      match refused with
                      | Some (gate, message) => deny e req gate message
                      | None =>
                          if sf_RequireApproval (pl_Safety pol) && bool_decide (rq_ApprovedBy req = "") then
                            _ ← on_store (SetAutomationStatus (rq_RequestID req) [AutomationExecuting] AutomationAwaitingApproval); mret tt
                          else execute e req dev (is_dry e req pol)
                      end
                  end
              end
      end
  end.

(** ** Approvals and the tick *)

Definition expire_one (e : Engine) (req : AutomationRequest) : M unit :=
  let timeout := match Policy.Get (e_Policies e) (rq_PolicyID req) with
                 | Some pol => if (0 <? sf_ApprovalTimeout (pl_Safety pol))%Z then sf_ApprovalTimeout (pl_Safety pol) else DefaultApprovalTimeout
                 | None => DefaultApprovalTimeout
                 end in
  if (timeout <=? time_Sub (e_now e) (rq_CreatedAt req))%Z then
    _ ← finish e req AutomationExpired "approval not granted in time" (Some {[ "gate" := "approval" ]}); mret tt
  else mret tt.

Definition expireApprovals (e : Engine) : M unit :=
  waiting ← on_store (AwaitingApprovalBefore (e_now e));
  ST_foldl (λ _ req, expire_one e req) tt waiting.

Definition Approve (id by_ : string) : M unit :=
  if bool_decide (TrimSpace by_ = "") then ST_fail (Errorf CategoryValidation "an approver identity is required")
  else
    ok ← on_store (ApproveAutomation id by_);
    if negb ok then ST_fail (Errorf CategoryValidation ("request " +:+ id +:+ " is not awaiting approval")) else mret tt.

(** One due request: claim it, and if the claim succeeds, process it. *)
Definition tick_one (e : Engine) (n : Z) (req : AutomationRequest) : M Z :=
  ok ← on_store (ClaimAutomation (rq_RequestID req) (e_now e) (lease e));
  if negb ok then mret n else _ ← process e req; mret (int_incr n).

Definition Tick (e : Engine) : M Z :=
  _ ← expireApprovals e;
  let batch := if (e_BatchSize e <=? 0)%Z then 50%Z else e_BatchSize e in
  due ← on_store (DueAutomation (e_now e) (lease e) batch);
  ST_foldl (tick_one e) 0%Z due.

(** ** The event worker (worker.go) *)

(** [integrations] is the integration runner, when there is one. *)
Definition Worker_Handle `{Json Event} (e : Engine) (devices : Reader) (integrations : option (Event → Device → option error)) (data : string) : M unit :=
  ev ← ST_lift (Decode data (l_MaxMessageBytes DefaultLimits));
  if bool_decide (ev_EventID ev = "") || bool_decide (ev_DeviceID ev = "") || bool_decide (ev_Type ev = "")
  then ST_fail (Errorf CategoryValidation "event is missing event_id, device_id or type")
  else
    _ ← HandleEvent e ev;
    match integrations, rd_Get devices (ev_DeviceID ev) with
    | Some run, Some dev => match run ev dev with Some err => ST_fail err | None => mret tt end
    | _, _ => mret tt
    end.
End engine.
