(* ===== verification/EngineFacts.v ===== *)
(** * The automation engine on the in-memory store: gates, idempotence, audit *)

From S2P Require Import Prelude GoLib GoFloat Domain Regexp State Schema Inventory Store MemStore MemStoreFacts.
From S2P Require Import AutoStore AutoStoreFacts Pipeline Policy PolicyFacts Engine.

Abbreviation W := (world MemStore).

(** ** Relating the worlds before and after *)

(** A computation that takes every world to one related by [R], whether it succeeds or fails. *)
Class Evolves {A} (R : W → W → Prop) (m : ST W error A) : Prop := evolves w : R w (m w).2.
#[export] Hint Mode Evolves - - ! : typeclass_instances.

Section evolves.
Context (R : W → W → Prop) `{!PreOrder R}.
#[local] Set Default Proof Using "All".

#[export] Instance evolves_ret {A} (a : A) : Evolves R (mret a).
Proof. intros w. simpl. reflexivity. Qed.
#[export] Instance evolves_fail {A} e : Evolves R (ST_fail (A:=A) e).
Proof. intros w. simpl. reflexivity. Qed.
#[export] Instance evolves_lift {A} (r : res A) : Evolves R (ST_lift r).
Proof. intros w. simpl. reflexivity. Qed.
#[export] Instance evolves_bind {A B} (m : ST W error A) (f : A → ST W error B) :
  Evolves R m → (∀ a, Evolves R (f a)) → Evolves R (m ≫= f).
Proof.
  intros Hm Hf w. specialize (Hm w). unfold mbind, ST_bind. destruct (m w) as [[a|e] w1]; simpl in *; [|done].
  etrans; [exact Hm|apply Hf].
Qed.
#[export] Instance evolves_try {A} (m : ST W error A) : Evolves R m → Evolves R (try m).
Proof. intros Hm w. specialize (Hm w). unfold try. by destruct (m w). Qed.
#[export] Instance evolves_if {A} (b : bool) (m1 m2 : ST W error A) : Evolves R m1 → Evolves R m2 → Evolves R (if b then m1 else m2).
Proof. by destruct b. Qed.
#[export] Instance evolves_option {A B} (o : option B) (f : B → ST W error A) (m : ST W error A) :
  (∀ b, Evolves R (f b)) → Evolves R m → Evolves R (match o with Some b => f b | None => m end).
Proof. by destruct o. Qed.
#[export] Instance evolves_res {A B} (r : res B) (f : B → ST W error A) (g : error → ST W error A) :
  (∀ b, Evolves R (f b)) → (∀ e, Evolves R (g e)) → Evolves R (match r with Ok b => f b | Err e => g e end).
Proof. by destruct r. Qed.
#[export] Instance evolves_foldl {A B} (f : B → A → ST W error B) b l :
  (∀ b x, Evolves R (f b x)) → Evolves R (ST_foldl f b l).
Proof. intros Hf. revert b. induction l as [|x l IH]; intros b; cbn [ST_foldl]; apply _. Qed.
End evolves.

(** ** What is executed *)

(** Nothing is executed, and no alert is touched. *)
Definition quiet (w w' : W) : Prop := w_calls w' = w_calls w ∧ ms_alerts (w_store w') = ms_alerts (w_store w).
#[export] Instance quiet_preorder : PreOrder quiet.
Proof. split; [done|]. intros w1 w2 w3 [] []. split; congruence. Qed.

Lemma on_store_evolves {A} (P : W → W → Prop) (Q : MemStore → MemStore → Prop) (m : ST MemStore error A) :
  (∀ w s', Q (w_store w) s' → P w (MkWorld s' (w_calls w))) → (∀ s, Q s (m s).2) → Evolves P (on_store m).
Proof. intros HP Hm w. unfold on_store. specialize (Hm (w_store w)). destruct (m (w_store w)). by apply HP. Qed.
Lemma quiet_store {A} (m : ST MemStore error A) : (∀ s, ms_alerts (m s).2 = ms_alerts s) → Evolves quiet (on_store m).
Proof. intros Hm. apply (on_store_evolves _ (λ s s', ms_alerts s' = ms_alerts s)); [done|exact Hm]. Qed.

Lemma enqueue_alerts msgs s : ms_alerts (enqueueLocked msgs s) = ms_alerts s.
Proof. revert s. induction msgs as [|m msgs IH]; intros s; [done|]. exact (IH (enqueue_one s m)). Qed.

Ltac quiet_op := apply quiet_store; intros s; simpl; repeat case_match; simpl; rewrite ?enqueue_alerts; done.
#[export] Instance quiet_Insert req out : Evolves quiet (on_store (InsertAutomationRequest req out)).
Proof. simpl. unfold mem_InsertAutomationRequest. quiet_op. Qed.
#[export] Instance quiet_Complete r out : Evolves quiet (on_store (CompleteAutomation r out)).
Proof. simpl. unfold mem_CompleteAutomation. quiet_op. Qed.
#[export] Instance quiet_Claim id now l : Evolves quiet (on_store (ClaimAutomation id now l)).
Proof. simpl. unfold mem_ClaimAutomation. quiet_op. Qed.
#[export] Instance quiet_SetStatus id from to : Evolves quiet (on_store (SetAutomationStatus id from to)).
Proof. simpl. unfold mem_SetAutomationStatus. quiet_op. Qed.
#[export] Instance quiet_Approve id by_ : Evolves quiet (on_store (ApproveAutomation id by_)).
Proof. simpl. unfold mem_ApproveAutomation. quiet_op. Qed.

(** An operation that only looks at the store. *)
Class Reads {A} (m : ST MemStore error A) : Prop := reads s : (m s).2 = s.
#[export] Instance reads_Due now l n : Reads (DueAutomation now l n). Proof. done. Qed.
#[export] Instance reads_Awaiting now : Reads (AwaitingApprovalBefore now). Proof. done. Qed.
#[export] Instance reads_History p d t now : Reads (AutomationHistory p d t now). Proof. done. Qed.
#[export] Instance reads_Attempts p k : Reads (AttemptsForAlert p k). Proof. done. Qed.
#[export] Instance reads_Firing k : Reads (AlertFiring_ k). Proof. done. Qed.
#[export] Instance evolves_reads {A} R `{!PreOrder R} (m : ST MemStore error A) : Reads m → Evolves R (on_store m) | 2.
Proof.
  intros Hm w. unfold on_store. specialize (Hm (w_store w)). destruct (m (w_store w)) as [r s']. simpl in *. subst s'.
  destruct w. reflexivity.
Qed.

Section calls.
Context `{Sha256, TimeZones, Json AutomationRequest, Json AutomationResult}.

#[export] Instance quiet_finish e req st msg d : Evolves quiet (finish (Sto:=MemStore) e req st msg d).
Proof. unfold finish. apply _. Qed.
#[export] Instance quiet_deny e req g msg : Evolves quiet (deny (Sto:=MemStore) e req g msg).
Proof. unfold deny. apply _. Qed.
#[export] Instance quiet_read {A} req (m : ST MemStore error A) : Reads m → Evolves quiet (read_or_release req m).
Proof. intros Hm. unfold read_or_release, release. apply _. Qed.
#[export] Instance quiet_handle e ev dev created pol : Evolves quiet (handle_policy (Sto:=MemStore) e ev dev created pol).
Proof. unfold handle_policy. repeat case_match; apply _. Qed.
#[export] Instance quiet_HandleEvent e ev : Evolves quiet (HandleEvent (Sto:=MemStore) e ev).
Proof. unfold HandleEvent. apply _. Qed.
#[export] Instance quiet_expire e : Evolves quiet (expireApprovals (Sto:=MemStore) e).
Proof. unfold expireApprovals, expire_one. apply _. Qed.

(** A request that passed every gate, judged on the store [s]. *)
Record cleared (e : Engine) (s : MemStore) (req : AutomationRequest) (pol : Policy) (dev : Device) (spec : ActionSpec) : Prop := {
  cl_policy : Policy.Get (e_Policies e) (rq_PolicyID req) = Some pol;
  cl_device : rd_Get (e_Devices e) (rq_DeviceID req) = Some dev ∧ d_Enabled dev = true;
  cl_alert : rq_AlertKey req ≠ "" → firing (rq_AlertKey req) (ms_alerts s) = true;
  cl_valid : Policy.Validate (MkProposal (rq_Action req) (rq_Target req) (rq_Params req) (rq_Reason req)) dev = Ok None;
  cl_spec : Catalog !! rq_Action req = Some spec;
  cl_bound pp : pl_Proposal pol = Some pp → containsStr (pp_AllowedActions pp) (rq_Action req) = true;
  cl_extension : rq_Action req = "invoke_extension" → ExtensionApproved (e_Policies e) (mread (rq_Params req) "script") = true;
  cl_tag : HasTag dev (sf_RequireTag (pl_Safety pol)) = true;
  cl_capability : as_Capability spec ≠ "" → HasCapability dev (as_Capability spec) = true;
  cl_allowlist : is_dry e req pol = false → as_Disruptive spec = true → Allowlisted (e_Policies e) (d_ID dev) = true;
  cl_maintenance : InMaintenance (e_Policies e) (e_now e) dev = None;
  cl_cooldown : (0 < sf_Cooldown (pl_Safety pol))%Z →
    filter (λ r, in_history s (pl_ID pol) (d_ID dev) (rq_Target req) (time_Add (e_now e) (- sf_Cooldown (pl_Safety pol))) r = true)
      (requests_in_order s) = [];
  cl_approval : sf_RequireApproval (pl_Safety pol) = true → rq_ApprovedBy req ≠ "";
}.

(** Reading the store leaves it alone and does not fail. *)
Lemma read_ok {A} req (m : ST MemStore error A) a (w : W) :
  m (w_store w) = (Ok a, w_store w) → read_or_release (Sto:=MemStore) req m w = (Ok a, w).
Proof. intros Hm. unfold read_or_release, try, on_store, mbind, ST_bind. rewrite Hm. by destruct w. Qed.

Lemma local_gates_None e req pol dev spec :
  local_gates e req pol dev spec = None →
  (∀ pp, pl_Proposal pol = Some pp → containsStr (pp_AllowedActions pp) (rq_Action req) = true) ∧
  (rq_Action req = "invoke_extension" → ExtensionApproved (e_Policies e) (mread (rq_Params req) "script") = true) ∧
  HasTag dev (sf_RequireTag (pl_Safety pol)) = true ∧
  (as_Capability spec ≠ "" → HasCapability dev (as_Capability spec) = true) ∧
  (is_dry e req pol = false → as_Disruptive spec = true → Allowlisted (e_Policies e) (d_ID dev) = true) ∧
  InMaintenance (e_Policies e) (e_now e) dev = None.
Proof.
  unfold local_gates. destruct (match pl_Proposal pol with Some _ => _ | None => _ end) eqn:Hp; [done|].
  destruct (bool_decide _ && negb (ExtensionApproved _ _)) eqn:He; [done|].
  destruct (HasTag _ _) eqn:Ht; [|done]. simpl. destruct (bool_decide (as_Capability spec ≠ "") && _) eqn:Hc; [done|].
  destruct (negb (is_dry e req pol) && _ && _) eqn:Ha; [done|].
  destruct (InMaintenance _ _ _) eqn:Hm; [done|]. intros _. split_and!; try done.
  - intros pp Hpp. rewrite Hpp in Hp. by apply negb_false_iff in Hp.
  - intros Hx. rewrite bool_decide_eq_true_2 in He by done. by apply negb_false_iff in He.
  - intros Hx. rewrite bool_decide_eq_true_2 in Hc by done. by apply negb_false_iff in Hc.
  - intros Hd Hdis. rewrite Hd, Hdis in Ha. by apply negb_false_iff in Ha.
Qed.

Lemma history_gates_ok e req pol dev (w : W) :
  ∃ r, history_gates (Sto:=MemStore) e req pol dev w = (Ok r, w) ∧
    (r = None → (0 < sf_Cooldown (pl_Safety pol))%Z →
     filter (λ r, in_history (w_store w) (pl_ID pol) (d_ID dev) (rq_Target req) (time_Add (e_now e) (- sf_Cooldown (pl_Safety pol))) r = true)
       (requests_in_order (w_store w)) = []).
Proof.
  unfold history_gates. set (since := time_Add (e_now e) (- sf_Cooldown (pl_Safety pol))).
  set (l := filter (λ r, in_history (w_store w) (pl_ID pol) (d_ID dev) (rq_Target req) since r = true) (requests_in_order (w_store w))).
  set (prior := if (0 <? sf_Cooldown (pl_Safety pol))%Z then l else []).
  assert ((if (0 <? sf_Cooldown (pl_Safety pol))%Z
    then read_or_release req (AutomationHistory (pl_ID pol) (d_ID dev) (rq_Target req) since) else mret []) w = (Ok prior, w)) as Hrun.
  { subst prior. destruct (0 <? _)%Z; [|done]. by apply read_ok. }
  unfold mbind at 1, ST_bind at 1. rewrite Hrun. destruct (last prior) as [r|] eqn:Hlast; [by eexists; split|].
  apply last_None in Hlast. assert ((0 < sf_Cooldown (pl_Safety pol))%Z → l = []) as Hl.
  { intros Hpos. subst prior. by rewrite (proj2 (Z.ltb_lt _ _) Hpos) in Hlast. }
  destruct (_ && _); [|by eexists; split]. unfold mbind at 1, ST_bind at 1. erewrite read_ok by done. by eexists; split.
Qed.

Lemma execute_calls e req dev dry (w : W) :
  w_calls (execute (Sto:=MemStore) e req dev dry w).2 =
  w_calls w ++ match e_For e dev (rq_Action req) with Some _ => [] | None => [(dev, action_of req dry)] end.
Proof.
  unfold execute. destruct (e_For _ _ _); [rewrite app_nil_r; apply (proj1 (quiet_deny e req _ _ w))|].
  unfold mbind at 1, ST_bind at 1, run_adapter. cbv beta iota.
  match goal with |- w_calls (?m ?w1).2 = _ => assert (Evolves quiet m) as Hm by apply _; apply (proj1 (Hm w1)) end.
Qed.

(** What [process] does with a request it does not execute. *)
Inductive refusal (e : Engine) (req : AutomationRequest) : ST W error unit → Prop :=
| refuse_deny gate message : refusal e req (deny e req gate message)
| refuse_expired message d : refusal e req (_ ← finish e req AutomationExpired message d; mret tt)
| refuse_await : refusal e req (_ ← on_store (SetAutomationStatus (rq_RequestID req) [AutomationExecuting] AutomationAwaitingApproval); mret tt)
| refuse_error err : refusal e req (ST_fail err).

(** Either the request is refused, or it is executed with every gate passed. *)
Lemma process_cases e req (w : W) :
  (∃ m, refusal e req m ∧ process (Sto:=MemStore) e req w = m w) ∨
  ∃ pol dev spec, cleared e (w_store w) req pol dev spec ∧
    process (Sto:=MemStore) e req w = execute e req dev (is_dry e req pol) w.
Proof.
  unfold process. destruct (Policy.Get _ _) as [pol|] eqn:Hpol; [|left; eauto using refusal].
  destruct (rd_Get _ _) as [dev|] eqn:Hdev; [|left; eauto using refusal].
  destruct (d_Enabled dev) eqn:Hen; cbn [negb]; [|left; eauto using refusal].
  set (fires := if bool_decide (rq_AlertKey req ≠ "") then firing (rq_AlertKey req) (ms_alerts (w_store w)) else true).
  assert ((if bool_decide (rq_AlertKey req ≠ "") then read_or_release req (AlertFiring_ (rq_AlertKey req)) else mret true) w = (Ok fires, w)) as Hrun.
  { subst fires. case_bool_decide; [|done]. by apply read_ok. }
  rewrite (ST_bind_Ok _ _ w fires w Hrun).
  destruct fires eqn:Hfires; cbn [negb]; [|left; eauto using refusal].
  destruct (Policy.Validate _ dev) as [verr|err] eqn:Hval; [|left; by exists (ST_fail err); eauto using refusal].
  rewrite (ST_bind_Ok (ST_lift (Ok verr)) _ w verr w eq_refl).
  destruct verr as [err|]; [left; eauto using refusal|].
  destruct (Catalog !! rq_Action req) as [spec|] eqn:Hspec; [|left; eauto using refusal].
  destruct (local_gates e req pol dev spec) as [[gate message]|] eqn:Hlocal; [left; eauto using refusal|].
  destruct (history_gates_ok e req pol dev w) as (r & Hhist & Hcool). rewrite (ST_bind_Ok _ _ w r w Hhist).
  destruct r as [[gate message]|]; [left; eauto using refusal|].
  destruct (sf_RequireApproval _ && _) eqn:Happ; [left; eauto using refusal|].
  right. exists pol, dev, spec. split; [|done]. apply local_gates_None in Hlocal as (?&?&?&?&?&?). split; try done.
  - intros Hk. subst fires. by rewrite bool_decide_eq_true_2 in Hfires.
  - by apply Hcool.
  - intros Ha Hby. rewrite Ha, bool_decide_eq_true_2 in Happ by done. done.
Qed.

#[export] Instance quiet_refusal e req m : refusal e req m → Evolves quiet m.
Proof. intros []; apply _. Qed.

(** The request is claimed: no other worker holds it. *)
Definition claimed (s : MemStore) (req : AutomationRequest) : Prop :=
  ∃ r, ms_autoReq s !! rq_RequestID req = Some r ∧ rq_Status r = AutomationExecuting.

(** Every execution between [w] and [w'] was claimed and cleared, on the store reached by then. *)
Definition executions_cleared (e : Engine) (w w' : W) : Prop :=
  ms_alerts (w_store w') = ms_alerts (w_store w) ∧
  ∃ new, w_calls w' = w_calls w ++ new ∧
    Forall (λ c, ∃ s req pol dev spec, ms_alerts s = ms_alerts (w_store w) ∧ claimed s req ∧ cleared e s req pol dev spec ∧
                   c = (dev, action_of req (is_dry e req pol))) new.
#[export] Instance executions_cleared_preorder e : PreOrder (executions_cleared e).
Proof.
  split.
  - intros w. split; [done|]. exists []. by rewrite app_nil_r.
  - intros w1 w2 w3 (A12 & n1 & H12 & F1) (A23 & n2 & H23 & F2). split; [congruence|]. exists (n1 ++ n2).
    rewrite H23, H12, app_assoc. split; [done|]. apply Forall_app. split; [done|].
    eapply Forall_impl; [exact F2|]. intros c (s & req & pol & dev & spec & Ha & Hx). exists s, req, pol, dev, spec.
    by rewrite Ha.
Qed.
Lemma quiet_is_cleared e w w' : quiet w w' → executions_cleared e w w'.
Proof. intros [Hc Ha]. split; [done|]. exists []. rewrite app_nil_r. by split. Qed.
Lemma quiet_cleared {A} e (m : ST W error A) : Evolves quiet m → Evolves (executions_cleared e) m.
Proof. intros Hm w. apply quiet_is_cleared, Hm. Qed.

#[export] Instance evolves_pair {A B C} R `{!PreOrder R} (p : B * C) (f : B → C → ST W error A) :
  (∀ b c, Evolves R (f b c)) → Evolves R (let '(b, c) := p in f b c).
Proof. by destruct p. Qed.

(** Alerts are left alone, also by an execution. *)
Definition same_alerts (w w' : W) : Prop := ms_alerts (w_store w') = ms_alerts (w_store w).
#[export] Instance same_alerts_preorder : PreOrder same_alerts.
Proof. split; [done|]. unfold same_alerts. intros w1 w2 w3. congruence. Qed.
#[export] Instance same_alerts_quiet {A} (m : ST W error A) : Evolves quiet m → Evolves same_alerts m | 5.
Proof. intros Hm w. apply (Hm w). Qed.
#[export] Instance same_alerts_adapter e dev a : Evolves same_alerts (run_adapter (Sto:=MemStore) e dev a).
Proof. done. Qed.
#[export] Instance same_alerts_execute e req dev dry : Evolves same_alerts (execute (Sto:=MemStore) e req dev dry).
Proof. unfold execute. apply _. Qed.
Lemma Claim_claims id now l (w w' : W) :
  on_store (ClaimAutomation id now l) w = (Ok true, w') → ∃ r, ms_autoReq (w_store w') !! id = Some r ∧ rq_Status r = AutomationExecuting.
Proof.
  unfold on_store. simpl. destruct (mem_ClaimAutomation id now l (w_store w)) as [res s'] eqn:Hc. intros [= -> <-].
  apply claim_success in Hc as (r & _ & _ & Hr & _). by eexists.
Qed.

#[export] Instance cleared_tick_one e n req : Evolves (executions_cleared e) (tick_one (Sto:=MemStore) e n req).
Proof.
  intros w. unfold tick_one, mbind, ST_bind. pose proof (quiet_Claim (rq_RequestID req) (e_now e) (lease e) w) as Hq.
  apply (quiet_is_cleared e) in Hq.
  destruct (on_store (ClaimAutomation _ _ _) w) as [[[|]|] w1] eqn:Hc; [|apply Hq..]. cbn [negb].
  trans w1; [apply Hq|]. apply Claim_claims in Hc.
  assert (executions_cleared e w1 (process e req w1).2) as Hp.
  { destruct (process_cases e req w1) as [(m & Href & ->)|(pol & dev & spec & Hcl & ->)].
    - apply quiet_is_cleared. by apply (quiet_refusal e req m Href).
    - split; [apply (same_alerts_execute e req dev _ w1)|]. eexists. split; [apply execute_calls|].
      case_match; [constructor|]. apply Forall_singleton. exists (w_store w1), req, pol, dev, spec. done. }
  by destruct (process e req w1) as [[]].
Qed.
#[export] Instance cleared_Tick e : Evolves (executions_cleared e) (Tick (Sto:=MemStore) e).
Proof.
  unfold Tick. apply evolves_bind; [apply _|apply quiet_cleared, _|]. intros _.
  apply evolves_bind; [apply _|apply quiet_cleared, _|]. apply _.
Qed.
End calls.

(** ** Requests are recorded once *)

(** A request is never forgotten, and keeps its policy, device and target. *)
Definition same_aim (r r' : AutomationRequest) : Prop :=
  rq_PolicyID r' = rq_PolicyID r ∧ rq_DeviceID r' = rq_DeviceID r ∧ rq_Target r' = rq_Target r.
Definition recorded (s : MemStore) (req : AutomationRequest) : Prop :=
  ∃ r, ms_autoReq s !! rq_RequestID req = Some r ∧ same_aim req r.
Definition requests_stay (s s' : MemStore) : Prop :=
  ∀ id r, ms_autoReq s !! id = Some r → ∃ r', ms_autoReq s' !! id = Some r' ∧ same_aim r r'.
Definition keeps_requests (w w' : W) : Prop := requests_stay (w_store w) (w_store w').
#[export] Instance requests_stay_preorder : PreOrder requests_stay.
Proof.
  split; [intros s id r Hr; by exists r|]. intros s1 s2 s3 H12 H23 id r (r' & Hr' & ? & ? & ?)%H12.
  apply H23 in Hr' as (r'' & Hr'' & ? & ? & ?). exists r''. split; [done|]. split_and!; congruence.
Qed.
#[export] Instance keeps_requests_preorder : PreOrder keeps_requests.
Proof. split; [intros w; unfold keeps_requests; reflexivity|]. intros w1 w2 w3. unfold keeps_requests. by etrans. Qed.

Lemma requests_stay_insert s s' id r' :
  ms_autoReq s' = <[id := r']> (ms_autoReq s) → (∀ r, ms_autoReq s !! id = Some r → same_aim r r') → requests_stay s s'.
Proof.
  intros Hs' Hr id' r0 Hr0. rewrite Hs'. destruct (decide (id = id')) as [<-|]; [|rewrite lookup_insert_ne by done; by exists r0].
  rewrite lookup_insert_eq. exists r'. auto.
Qed.
Lemma requests_stay_enqueue msgs s s' : requests_stay s s' → requests_stay s (enqueueLocked msgs s').
Proof. intros Hs id r Hr. rewrite (proj1 (enqueue_keeps msgs s')). by apply Hs. Qed.

Ltac keeps_op :=
  apply (on_store_evolves _ requests_stay); [done|]; intros s; simpl;
  repeat case_match; simpl; try reflexivity; try apply requests_stay_enqueue.
#[export] Instance keeps_Complete r outbox : Evolves keeps_requests (on_store (CompleteAutomation r outbox)).
Proof. simpl. unfold mem_CompleteAutomation. keeps_op. eapply requests_stay_insert; [done|]. intros; by simplify_eq. Qed.
#[export] Instance keeps_Insert req outbox : Evolves keeps_requests (on_store (InsertAutomationRequest req outbox)).
Proof. simpl. unfold mem_InsertAutomationRequest. keeps_op. eapply requests_stay_insert; [done|]. intros; by simplify_eq. Qed.
#[export] Instance keeps_Claim id now l : Evolves keeps_requests (on_store (ClaimAutomation id now l)).
Proof. simpl. unfold mem_ClaimAutomation. keeps_op. eapply requests_stay_insert; [done|]. intros; by simplify_eq. Qed.
#[export] Instance keeps_SetStatus id from to : Evolves keeps_requests (on_store (SetAutomationStatus id from to)).
Proof. simpl. unfold mem_SetAutomationStatus. keeps_op. eapply requests_stay_insert; [done|]. intros; by simplify_eq. Qed.
#[export] Instance keeps_Approve id by_ : Evolves keeps_requests (on_store (ApproveAutomation id by_)).
Proof. simpl. unfold mem_ApproveAutomation. keeps_op. eapply requests_stay_insert; [done|]. intros; by simplify_eq. Qed.
#[export] Instance keeps_adapter e dev a : Evolves keeps_requests (run_adapter (Sto:=MemStore) e dev a).
Proof. intros w. unfold keeps_requests. reflexivity. Qed.

Section idempotence.
Context `{Sha256, TimeZones, Json AutomationRequest, Json AutomationResult}.
Context (e : Engine) (ev : Event) (dev : Device).

#[export] Instance keeps_finish req st msg d : Evolves keeps_requests (finish (Sto:=MemStore) e req st msg d).
Proof. unfold finish. apply _. Qed.
#[export] Instance keeps_process req : Evolves keeps_requests (process (Sto:=MemStore) e req).
Proof. unfold process, history_gates, read_or_release, release, execute, deny. apply _. Qed.
#[export] Instance keeps_tick_one n req : Evolves keeps_requests (tick_one (Sto:=MemStore) e n req).
Proof. unfold tick_one. apply _. Qed.
#[export] Instance keeps_handle_policy created pol : Evolves keeps_requests (handle_policy (Sto:=MemStore) e ev dev created pol).
Proof. unfold handle_policy. repeat case_match; apply _. Qed.

(** The same engine at another time. *)
Definition at_time (t : Time) : Engine :=
  MkEngine (e_Policies e) (e_Devices e) (e_For e) (e_Execute e) (e_Proposer e) (e_GlobalDryRun e) (e_Lease e) (e_BatchSize e) t.

(** Nothing happens: no effect on the world, and nothing created (an encoding failure is still possible). *)
Definition nothing {A} (a : A) (out : res A * W) (w : W) : Prop := out.2 = w ∧ ∀ a', out.1 = Ok a' → a' = a.

(** Handling the policy again does nothing. *)
Definition settled (pol : Policy) (w : W) : Prop :=
  ∀ t w' created, keeps_requests w w' → nothing created (handle_policy (Sto:=MemStore) (at_time t) ev dev created pol w') w'.

Lemma Insert_known req outbox (w : W) :
  is_Some (ms_autoReq (w_store w) !! rq_RequestID req) → on_store (InsertAutomationRequest req outbox) w = (Ok false, w).
Proof.
  intros [r Hr]. unfold on_store. simpl. unfold mem_InsertAutomationRequest. rewrite Hr. by destruct w.
Qed.

(** The store operation leaves the request recorded. *)
Lemma Insert_records req outbox (w w' : W) b :
  on_store (InsertAutomationRequest req outbox) w = (Ok b, w') → is_Some (ms_autoReq (w_store w') !! rq_RequestID req).
Proof.
  unfold on_store. simpl. unfold mem_InsertAutomationRequest. destruct (ms_autoReq (w_store w) !! _) eqn:Hr; intros ?; simplify_eq/=.
  - by rewrite Hr.
  - rewrite (proj1 (enqueue_keeps outbox _)). simpl. by rewrite lookup_insert_eq.
Qed.

(** The common part of [handle_policy]: record a request with a proposal or the failure to get one. *)
Definition record_request (e : Engine) (pol : Policy) (created : list AutomationRequest) (prop : res Proposal) : ST W error (list AutomationRequest) :=
  filled ← ST_lift (fill_request pol dev (new_request e pol ev dev) prop);
  let req := match filled.2 with Some _ => deny_request e filled.1 | None => filled.1 end in
  msg ← ST_lift (requestMessage req);
  inserted ← on_store (InsertAutomationRequest req [msg]);
  if negb inserted then mret created
  else
    _ ← match filled.2 with
        | Some denied => finish e req AutomationDenied denied (Some {[ "gate" := "proposal" ]})
        | None => mret true
        end;
    mret (created ++ [req]).

Lemma filled_id e' pol prop req denied :
  fill_request pol dev (new_request e' pol ev dev) prop = Ok (req, denied) →
  rq_RequestID (match denied with Some _ => deny_request e' req | None => req end) = requestID (pl_ID pol) (ev_EventID ev).
Proof.
  intros Hfill. transitivity (rq_RequestID req); [destruct denied; [unfold deny_request; by case_match|done]|].
  revert Hfill. unfold fill_request, mbind, result_bind. destruct prop; [|intros; by simplify_eq].
  destruct (checkProposal _ _ _); [|done]. intros ?; by simplify_eq.
Qed.

Lemma record_request_records e' pol created prop (w w' : W) created' :
  record_request e' pol created prop w = (Ok created', w') → is_Some (ms_autoReq (w_store w') !! requestID (pl_ID pol) (ev_EventID ev)).
Proof.
  unfold record_request. intros ([req denied] & w0 & Hfill & Hrun)%ST_bind_inv. unfold ST_lift in Hfill.
  injection Hfill as Hfill <-. cbn [fst snd] in Hrun. rewrite <- (filled_id e' pol prop req denied Hfill).
  apply ST_bind_inv in Hrun as (msg & ? & Hmsg & Hrun). unfold ST_lift in Hmsg. simplify_eq/=.
  apply ST_bind_inv in Hrun as (b & w1 & [r Hr]%Insert_records & Hrest).
  match type of Hrest with ?m w1 = _ => assert (Evolves keeps_requests m) as Hm by apply _ end.
  specialize (Hm w1). rewrite Hrest in Hm. apply Hm in Hr as (r' & Hr' & _). by exists r'.
Qed.

Lemma record_request_known e' pol created prop (w : W) :
  is_Some (ms_autoReq (w_store w) !! requestID (pl_ID pol) (ev_EventID ev)) →
  nothing created (record_request e' pol created prop w) w.
Proof.
  intros Hknown. unfold record_request, mbind, ST_bind, ST_lift.
  destruct (fill_request _ _ _ prop) as [[req denied]|] eqn:Hfill; [|done]. cbn [fst snd].
  destruct (requestMessage _) as [msg|]; [|done]. rewrite Insert_known; [by split; [|intros; simplify_eq/=]|].
  by rewrite (filled_id e' pol prop req denied Hfill).
Qed.

Lemma handle_policy_settles created pol (w w' : W) created' :
  handle_policy (Sto:=MemStore) e ev dev created pol w = (Ok created', w') → settled pol w'.
Proof.
  intros Hrun t w2 created2 Hkeep. unfold handle_policy. change (propose (at_time t) pol ev dev) with (propose e pol ev dev).
  revert Hrun. unfold handle_policy.
  destruct (propose e pol ev dev) as [[pr|]|perr]; [|by split; [|intros; simplify_eq/=]|destruct (IsRetryable _); [done|]].
  all: intros [r Hr]%record_request_records; apply Hkeep in Hr as (r' & Hr' & _); by eapply record_request_known.
Qed.

Lemma settled_later pol (w w' : W) : settled pol w → keeps_requests w w' → settled pol w'.
Proof. intros Hs Hk t w2 created Hk2. apply Hs. by etrans. Qed.

Lemma handle_policies_settle pols created (w w' : W) created' :
  ST_foldl (handle_policy (Sto:=MemStore) e ev dev) created pols w = (Ok created', w') → Forall (λ pol, settled pol w') pols.
Proof.
  revert created w. induction pols as [|pol pols IH]; intros created w; cbn [ST_foldl]; [constructor|].
  unfold mbind, ST_bind. destruct (handle_policy e ev dev created pol w) as [[c|] w1] eqn:Hpol; [|done]. intros Hrest.
  constructor; [|by eapply IH]. eapply settled_later; [by eapply handle_policy_settles|].
  assert (Evolves keeps_requests (ST_foldl (handle_policy e ev dev) c pols)) as Hm by apply _. specialize (Hm w1).
  by rewrite Hrest in Hm.
Qed.

Lemma settled_nothing pols created t (w : W) :
  Forall (λ pol, settled pol w) pols →
  nothing created (ST_foldl (handle_policy (Sto:=MemStore) (at_time t) ev dev) created pols w) w.
Proof.
  induction 1 as [|pol pols Hs _ IH]; cbn [ST_foldl]; [by split; [|intros; simplify_eq/=]|]. unfold mbind, ST_bind.
  destruct (Hs t w created) as [Hw Hc]; [reflexivity|].
  destruct (handle_policy (at_time t) ev dev created pol w) as [[c|] w1]; simpl in *; subst w1; [|done].
  by rewrite (Hc c eq_refl).
Qed.
End idempotence.

Section keeps.
Context `{TimeZones, Json AutomationResult}.
#[export] Instance keeps_Tick e : Evolves keeps_requests (Tick (Sto:=MemStore) e).
Proof. unfold Tick, expireApprovals, expire_one. apply _. Qed.
#[export] Instance keeps_Approve_ id by_ : Evolves keeps_requests (Approve (Sto:=MemStore) id by_).
Proof. unfold Approve. apply _. Qed.
End keeps.
