(* ===== verification/AuditFacts.v ===== *)
(** * The automation audit trail: results, statuses and cooldowns as an invariant of the store *)

From S2P Require Import Prelude GoLib GoFloat Domain Regexp State Schema Inventory Store MemStore MemStoreFacts.
From S2P Require Import AutoStore AutoStoreFacts Pipeline Policy PolicyFacts Engine EngineFacts.

(** ** The invariant *)

(** A result belongs to a request of the same, final, status; an executed request has its result. *)
Record audit_ok (s : MemStore) : Prop := {
  au_order : order_ok (ms_autoReq s) (ms_autoOrder s);
  au_ids : map_Forall (λ id r, rq_RequestID r = id) (ms_autoReq s);
  au_results id res : ms_autoRes s !! id = Some res →
    rs_RequestID res = id ∧ Terminal (rs_Status res) = true ∧
    ∃ r, ms_autoReq s !! id = Some r ∧ rq_Status r = rs_Status res;
  au_executed id r : ms_autoReq s !! id = Some r → executed (rq_Status r) = true → is_Some (ms_autoRes s !! id);
}.

(** Two executed requests of one policy on one target of one device. *)
Definition repeats (r1 r2 : AutomationRequest) : Prop :=
  rq_PolicyID r1 = rq_PolicyID r2 ∧ rq_DeviceID r1 = rq_DeviceID r2 ∧ rq_Target r1 = rq_Target r2 ∧
  executed (rq_Status r1) = true ∧ executed (rq_Status r2) = true.

(** Repeated executions finish more than the policy's cooldown apart. *)
Definition spaced (ps : Policies) (s : MemStore) : Prop :=
  ∀ id1 id2 r1 r2 res1 res2 pol, id1 ≠ id2 →
    ms_autoReq s !! id1 = Some r1 → ms_autoReq s !! id2 = Some r2 → repeats r1 r2 →
    ms_autoRes s !! id1 = Some res1 → ms_autoRes s !! id2 = Some res2 →
    Policy.Get ps (rq_PolicyID r1) = Some pol → (0 < sf_Cooldown (pl_Safety pol))%Z →
    (rs_FinishedAt res1 + sf_Cooldown (pl_Safety pol) < rs_FinishedAt res2)%Z ∨
    (rs_FinishedAt res2 + sf_Cooldown (pl_Safety pol) < rs_FinishedAt res1)%Z.

Definition audited (ps : Policies) (s : MemStore) : Prop := audit_ok s ∧ spaced ps s.
Definition keeps_audit (ps : Policies) (w w' : W) : Prop := audited ps (w_store w) → audited ps (w_store w').
#[export] Instance keeps_audit_preorder ps : PreOrder (keeps_audit ps).
Proof. split; [by intros w ?|]. intros w1 w2 w3 H1 H2 Hw. auto. Qed.

(** The invariant only looks at requests, results and the order. *)
Lemma audited_same ps s s' :
  ms_autoReq s' = ms_autoReq s → ms_autoRes s' = ms_autoRes s → ms_autoOrder s' = ms_autoOrder s → audited ps s → audited ps s'.
Proof.
  intros Hq Hr Ho [[] Hsp]. split; [split|]; rewrite ?Hq, ?Hr, ?Ho; try done.
  unfold spaced. by rewrite Hq, Hr.
Qed.
Lemma audited_enqueue ps msgs s : audited ps s → audited ps (enqueueLocked msgs s).
Proof. destruct (enqueue_keeps msgs s) as (? & ? & ? & ?). by apply audited_same. Qed.

Lemma keeps_audit_store {A} ps (m : ST MemStore error A) :
  (∀ s, audited ps s → audited ps (m s).2) → Evolves (keeps_audit ps) (on_store m).
Proof. intros Hm. apply (on_store_evolves _ (λ s s', audited ps s → audited ps s')); [done|exact Hm]. Qed.

Lemma order_ok_update {V} (m : gmap string V) order id v v' : m !! id = Some v → order_ok m order → order_ok (<[id := v']> m) order.
Proof.
  intros Hv [Hnd Hin]. split; [done|]. intros id'. rewrite Hin, lookup_insert_is_Some.
  destruct (decide (id = id')) as [->|]; naive_solver.
Qed.

(** A request without a result changes its status, to one that is not an execution, or is changed
    in what the invariant does not look at. *)
Lemma audited_set ps s id r r' :
  audited ps s → ms_autoReq s !! id = Some r → ms_autoRes s !! id = None →
  rq_RequestID r' = rq_RequestID r → executed (rq_Status r') = false →
  audited ps (set_request id r' s).
Proof.
  intros [[] Hsp] Hr Hnone Hid Hex. split; [split|]; simpl.
  - by eapply order_ok_update.
  - apply map_Forall_insert_2; [|done]. rewrite Hid. by apply (au_ids0 id r).
  - intros id' res Hres. destruct (au_results0 id' res Hres) as (? & ? & r0 & Hr0 & ?). split_and!; [done..|].
    exists r0. rewrite lookup_insert_ne; [done|]. congruence.
  - intros id' r0. destruct (decide (id' = id)) as [->|]; [rewrite lookup_insert_eq; congruence|].
    rewrite lookup_insert_ne by done. apply au_executed0.
  - intros id1 id2 r1 r2 res1 res2 pol Hne. simpl. intros H1 H2 Hrep. apply lookup_insert_Some in H1, H2.
    destruct H1 as [[<- <-]|[_ H1]]; [destruct Hrep as (_ & _ & _ & ? & _); congruence|].
    destruct H2 as [[<- <-]|[_ H2]]; [destruct Hrep as (_ & _ & _ & _ & ?); congruence|].
    by eapply Hsp.
Qed.

(** ** The operations keep it *)

Lemma no_result ps s id r : audited ps s → ms_autoReq s !! id = Some r → Terminal (rq_Status r) = false → ms_autoRes s !! id = None.
Proof.
  intros [[] _] Hr Ht. destruct (ms_autoRes s !! id) as [res|] eqn:Hres; [|done].
  destruct (au_results0 id res Hres) as (_ & ? & r0 & ? & ?). simplify_eq. congruence.
Qed.

Lemma audited_claim ps id now l s : audited ps s → audited ps (mem_ClaimAutomation id now l s).2.
Proof.
  intros Ha. unfold mem_ClaimAutomation. destruct (ms_autoReq s !! id) as [r|] eqn:Hr; [|done].
  destruct (claimable s id r now l) eqn:Hc; [|done]. simpl.
  apply (audited_same ps (set_request id (r <| rq_Status := AutomationExecuting |>) s)); [done..|].
  eapply audited_set; [done..| |done|done]. eapply no_result; [done..|]. unfold claimable in Hc. by destruct (rq_Status r).
Qed.

Lemma audited_status ps id to s :
  Terminal to = false → audited ps s → audited ps (mem_SetAutomationStatus id [AutomationExecuting] to s).2.
Proof.
  intros Ht Ha. unfold mem_SetAutomationStatus. destruct (ms_autoReq s !! id) as [r|] eqn:Hr; [|done]. simpl.
  destruct (bool_decide (rq_Status r = _)) eqn:Hst; simpl; [|done]. apply bool_decide_eq_true in Hst.
  eapply audited_set; [done..| |done|by destruct to]. eapply no_result; [done..|]. by rewrite Hst.
Qed.

Lemma audited_approve ps id by_ s : audited ps s → audited ps (mem_ApproveAutomation id by_ s).2.
Proof.
  intros Ha. unfold mem_ApproveAutomation. destruct (ms_autoReq s !! id) as [r|] eqn:Hr; [|done].
  destruct (bool_decide (rq_Status r ≠ _)) eqn:Hst; simpl; [done|]. apply bool_decide_eq_false, dec_stable in Hst.
  eapply audited_set; [done..| |done|done]. eapply no_result; [done..|]. by rewrite Hst.
Qed.

Lemma audited_insert ps req out s :
  executed (rq_Status req) = false → audited ps s → audited ps (mem_InsertAutomationRequest req out s).2.
Proof.
  intros Hex Ha. unfold mem_InsertAutomationRequest. destruct (ms_autoReq s !! _) as [r|] eqn:Hr; [done|].
  simpl. apply audited_enqueue. destruct Ha as [[] Hsp]. split; [split|]; simpl.
  - by apply order_ok_insert.
  - by apply map_Forall_insert_2.
  - intros id res Hres. destruct (au_results0 id res Hres) as (? & ? & r0 & Hr0 & ?). split_and!; [done..|].
    exists r0. rewrite lookup_insert_ne; [done|]. congruence.
  - intros id' r0 [[<- <-]|[_ ?]]%lookup_insert_Some; [congruence|]. by apply au_executed0.
  - intros id1 id2 r1 r2 res1 res2 pol Hne. simpl. intros H1 H2 Hrep. apply lookup_insert_Some in H1, H2.
    destruct H1 as [[<- <-]|[_ H1]]; [destruct Hrep as (_ & _ & _ & ? & _); congruence|].
    destruct H2 as [[<- <-]|[_ H2]]; [destruct Hrep as (_ & _ & _ & _ & ?); congruence|].
    by eapply Hsp.
Qed.

(** The cooldown gate, as the store is when a result is recorded: no execution of the policy on
    that target of that device finished within the cooldown. *)
Definition cooled (ps : Policies) (s : MemStore) (req : AutomationRequest) (now : Time) : Prop :=
  ∀ pol id r res, Policy.Get ps (rq_PolicyID req) = Some pol → (0 < sf_Cooldown (pl_Safety pol))%Z →
    ms_autoReq s !! id = Some r → rq_PolicyID r = rq_PolicyID req → rq_DeviceID r = rq_DeviceID req → rq_Target r = rq_Target req →
    executed (rq_Status r) = true → ms_autoRes s !! id = Some res → (rs_FinishedAt res + sf_Cooldown (pl_Safety pol) < now)%Z.

Lemma audited_complete ps res out s :
  Terminal (rs_Status res) = true →
  (executed (rs_Status res) = true → ∀ r, ms_autoReq s !! rs_RequestID res = Some r → cooled ps s r (rs_FinishedAt res)) →
  audited ps s → audited ps (mem_CompleteAutomation res out s).2.
Proof.
  intros Ht Hcool Ha. unfold mem_CompleteAutomation. destruct (ms_autoReq s !! _) as [r|] eqn:Hr; [|done].
  destruct (ms_autoRes s !! _) eqn:Hres; [done|]. simpl. apply audited_enqueue. destruct Ha as [[] Hsp].
  assert (∀ id r', <[rs_RequestID res := r <| rq_Status := rs_Status res |>]> (ms_autoReq s) !! id = Some r' →
    id = rs_RequestID res ∧ r' = r <| rq_Status := rs_Status res |> ∨ id ≠ rs_RequestID res ∧ ms_autoReq s !! id = Some r') as Hreq.
  { intros id r' [[<- <-]|[? ?]]%lookup_insert_Some; [by left|by right]. }
  split; [split|]; simpl.
  - by eapply order_ok_update.
  - apply map_Forall_insert_2; [|done]. simpl. by apply (au_ids0 _ r).
  - intros id res'. destruct (decide (id = rs_RequestID res)) as [->|].
    + rewrite !lookup_insert_eq. intros [= <-]. by eauto.
    + rewrite !lookup_insert_ne by done. apply au_results0.
  - intros id r' [[-> ->]|[Hne Hr']]%Hreq Hex; [rewrite lookup_insert_eq; by eauto|].
    rewrite lookup_insert_ne by done. by eapply au_executed0.
  - intros id1 id2 r1 r2 res1 res2 pol Hne. simpl. intros H1 H2 (Hp & Hd & Htg & Hx1 & Hx2) Hr1 Hr2 Hpol Hpos.
    apply Hreq in H1, H2. destruct H1 as [[-> ->]|[Hn1 H1]], H2 as [[-> ->]|[Hn2 H2]]; [by destruct Hne|..]; simpl in *.
    + rewrite lookup_insert_eq in Hr1. rewrite lookup_insert_ne in Hr2 by done. injection Hr1 as <-. right.
      eapply (Hcool Hx1 r eq_refl); eauto.
    + rewrite lookup_insert_ne in Hr1 by done. rewrite lookup_insert_eq in Hr2. injection Hr2 as <-. left.
      rewrite Hp in Hpol. eapply (Hcool Hx2 r eq_refl); eauto.
    + rewrite lookup_insert_ne in Hr1, Hr2 by done. eapply (Hsp id1 id2 r1 r2); [done..| |done|done|done|done]. done.
Qed.

(** ** The engine keeps it *)

Section engine_audit.
Context `{Sha256, TimeZones, Json AutomationRequest, Json AutomationResult}.
Context (ps : Policies).

#[export] Instance audit_Claim id now l : Evolves (keeps_audit ps) (on_store (ClaimAutomation id now l)).
Proof. apply keeps_audit_store, audited_claim. Qed.
#[export] Instance audit_Approve id by_ : Evolves (keeps_audit ps) (on_store (ApproveAutomation id by_)).
Proof. apply keeps_audit_store, audited_approve. Qed.
Lemma audit_Status id to : Terminal to = false → Evolves (keeps_audit ps) (on_store (SetAutomationStatus id [AutomationExecuting] to)).
Proof. intros Ht. apply keeps_audit_store. intros s. by apply audited_status. Qed.
Lemma audit_Insert req out : executed (rq_Status req) = false → Evolves (keeps_audit ps) (on_store (InsertAutomationRequest req out)).
Proof. intros Hex. apply keeps_audit_store. intros s. by apply audited_insert. Qed.
Lemma audit_finish e req st msg d :
  Terminal st = true → executed st = false → Evolves (keeps_audit ps) (finish (Sto:=MemStore) e req st msg d).
Proof.
  intros Ht Hex. unfold finish. apply evolves_bind; [apply _..|]. intros m. apply keeps_audit_store. intros s.
  apply audited_complete; [done|]. simpl. congruence.
Qed.
#[export] Instance audit_deny e req gate msg : Evolves (keeps_audit ps) (deny (Sto:=MemStore) e req gate msg).
Proof. unfold deny. apply evolves_bind; [apply _|by apply audit_finish|apply _]. Qed.
#[export] Instance audit_read {A} req (m : ST MemStore error A) : Reads m → Evolves (keeps_audit ps) (read_or_release req m).
Proof.
  intros Hm. unfold read_or_release. apply evolves_bind; [apply _..|]. intros [a|err]; [apply _|]. unfold release.
  apply evolves_bind; [apply _| |apply _]. apply evolves_try; [apply _|]. apply audit_Status. by case_bool_decide.
Qed.
#[export] Instance audit_handle_policy e ev dev created pol :
  Evolves (keeps_audit ps) (handle_policy (Sto:=MemStore) e ev dev created pol).
Proof.
  assert (∀ prop, Evolves (keeps_audit ps) (record_request ev dev e pol created prop)) as Hrec.
  { intros prop. unfold record_request. intros w.
    destruct (fill_request pol dev (new_request e pol ev dev) prop) as [[req denied]|] eqn:Hfill.
    2: { intros Ha. exact Ha. }
    rewrite (ST_bind_Ok _ _ _ (req, denied) w) by (unfold ST_lift; congruence). cbn [fst snd].
    match goal with |- keeps_audit _ _ (?m _).2 => enough (Evolves (keeps_audit ps) m) as Hm by apply Hm end.
    apply evolves_bind; [apply _..|]. intros msg. apply evolves_bind; [apply _|apply audit_Insert|].
    { destruct denied; [unfold deny_request; by case_match|].
      revert Hfill. unfold fill_request, mbind, result_bind. destruct prop; [|intros; by simplify_eq].
      destruct (checkProposal _ _ _); [|done]. intros ?; by simplify_eq. }
    intros b. apply evolves_if; [apply _..|]. apply evolves_bind; [apply _| |apply _].
    apply evolves_option; [apply _| |apply _]. intros d. by apply audit_finish. }
  unfold handle_policy. destruct (propose e pol ev dev) as [[pr|]|perr]; [apply Hrec|apply _|]. destruct (IsRetryable _); [apply _|apply Hrec].
Qed.
#[export] Instance audit_HandleEvent e ev : Evolves (keeps_audit ps) (HandleEvent (Sto:=MemStore) e ev).
Proof. unfold HandleEvent. apply _. Qed.
#[export] Instance audit_expire e : Evolves (keeps_audit ps) (expireApprovals (Sto:=MemStore) e).
Proof.
  unfold expireApprovals. apply evolves_bind; [apply _..|]. intros l. apply evolves_foldl; [apply _|]. intros _ req.
  unfold expire_one. apply evolves_if; [apply _| |apply _]. apply evolves_bind; [apply _|by apply audit_finish|apply _].
Qed.

(** Policies and devices are found under their own ids. *)
Definition policies_keyed (ps : Policies) : Prop := ∀ id pol, Policy.Get ps id = Some pol → pl_ID pol = id.
Definition devices_keyed (rd : Reader) : Prop := ∀ id dev, rd_Get rd id = Some dev → d_ID dev = id.

Lemma Registry_Reader_keyed r : keyed r → devices_keyed (Registry_Reader r).
Proof. intros Hk id dev. cbn [rd_Get Registry_Reader]. unfold Inventory.Get. intros (d & Hd & ->)%fmap_Some. by apply (Hk id d). Qed.
Lemma NewRegistry_keyed ds : keyed (NewRegistry ds).
Proof. apply Replace_keyed. Qed.

Lemma cleared_cooled e s req pol dev spec :
  policies_keyed (e_Policies e) → devices_keyed (e_Devices e) → audit_ok s → cleared e s req pol dev spec →
  cooled (e_Policies e) s req (e_now e).
Proof.
  intros Hpk Hdk [] Hcl pol' id r res Hpol' Hpos Hr Hp Hd Ht Hex Hres.
  destruct Hcl as [cl_policy0 [Hdev _] _ _ _ _ _ _ _ _ _ cl_cooldown0 _].
  rewrite cl_policy0 in Hpol'. injection Hpol' as <-. specialize (cl_cooldown0 Hpos).
  destruct (decide (rs_FinishedAt res + sf_Cooldown (pl_Safety pol) < e_now e)%Z) as [|Hrecent]; [done|exfalso].
  assert (r ∈ filter (λ r, in_history s (pl_ID pol) (d_ID dev) (rq_Target req) (time_Add (e_now e) (- sf_Cooldown (pl_Safety pol))) r = true)
    (requests_in_order s)) as Hin; [|rewrite cl_cooldown0 in Hin; by apply elem_of_nil in Hin].
  apply list_elem_of_filter. split.
  - unfold in_history. rewrite (au_ids0 id r Hr), Hres, Hp, Hd, Ht, Hex, (Hpk _ _ cl_policy0), (Hdk _ _ Hdev).
    rewrite !bool_decide_eq_true_2 by done. simpl. unfold Before, time_Add.
    destruct (Z.ltb_spec (rs_FinishedAt res) (e_now e + - sf_Cooldown (pl_Safety pol))); [lia|done].
  - unfold requests_in_order. apply list_elem_of_omap. exists id. split; [|done]. by apply au_order0.
Qed.

Lemma audit_execute e req dev dry (w : W) :
  recorded (w_store w) req → cooled ps (w_store w) req (e_now e) → audited ps (w_store w) →
  audited ps (w_store (execute (Sto:=MemStore) e req dev dry w).2).
Proof.
  intros (r & Hr & Hp & Hd & Ht) Hcool Ha. unfold execute. destruct (e_For _ _ _); [by apply audit_deny|].
  rewrite (ST_bind_Ok _ _ w (e_Execute e (w_calls w) dev (action_of req dry)) (MkWorld (w_store w) (w_calls w ++ [(dev, action_of req dry)]))) by done.
  assert (∀ st msg d, Terminal st = true → ∀ w1 : W, w_store w1 = w_store w →
    audited ps (w_store (finish (Sto:=MemStore) e req st msg d w1).2)) as Hfin.
  { intros st msg d Hterm w1 Hw1. unfold finish, mbind at 1, ST_bind at 1, ST_lift at 1.
    destruct (resultMessage _) as [m|]; simpl; [|by rewrite Hw1]. unfold on_store. rewrite Hw1.
    match goal with |- context [mem_CompleteAutomation ?res ?out _] => pose proof (audited_complete ps res out (w_store w) Hterm) as Hc end.
    destruct (mem_CompleteAutomation _ _ _) as [b s'] eqn:Hrun. simpl in *. apply Hc; [|done]. intros _ r0 Hr0. rewrite Hr in Hr0. injection Hr0 as <-.
    unfold cooled. rewrite Hp, Hd, Ht. exact Hcool. }
  unfold mbind, ST_bind. destruct (e_Execute _ _ _ _) as [out [xerr|]]; simpl;
    match goal with |- context [finish e req ?st ?msg ?d ?w1] => specialize (Hfin st msg d ltac:(by repeat case_match) w1 eq_refl); by destruct (finish e req st msg d w1) as [[]] end.
Qed.

Lemma audit_refusal e req m : refusal e req m → Evolves (keeps_audit ps) m.
Proof.
  intros []; [apply _| | |apply _].
  - apply evolves_bind; [apply _|by apply audit_finish|apply _].
  - apply evolves_bind; [apply _|by apply audit_Status|apply _].
Qed.

Context (e : Engine) (Hps : e_Policies e = ps) (Hpk : policies_keyed ps) (Hdk : devices_keyed (e_Devices e)).
#[local] Set Default Proof Using "All".

Lemma audit_process req (w : W) :
  recorded (w_store w) req → audited ps (w_store w) → audited ps (w_store (process (Sto:=MemStore) e req w).2).
Proof.
  intros Hrec Ha. destruct (process_cases e req w) as [(m & Href & ->)|(pol & dev & spec & Hcl & ->)].
  - by apply (audit_refusal e req m Href w).
  - apply audit_execute; [done| |done]. rewrite <- Hps. eapply cleared_cooled; [by rewrite Hps|done|apply Ha|exact Hcl].
Qed.

Lemma recorded_stays s s' req : requests_stay s s' → recorded s req → recorded s' req.
Proof.
  intros Hs (r & Hr & ? & ? & ?). apply Hs in Hr as (r' & Hr' & ? & ? & ?). exists r'. split; [done|]. split_and!; congruence.
Qed.

Lemma audit_tick_one n req (w : W) :
  recorded (w_store w) req → audited ps (w_store w) → audited ps (w_store (tick_one (Sto:=MemStore) e n req w).2).
Proof.
  intros Hrec Ha. unfold tick_one, mbind, ST_bind.
  pose proof (audit_Claim (rq_RequestID req) (e_now e) (lease e) w Ha) as Ha1.
  pose proof (recorded_stays _ _ req (keeps_Claim (rq_RequestID req) (e_now e) (lease e) w) Hrec) as Hr1.
  destruct (on_store _ w) as [[[|]|] w1]; [|done..]. cbn [negb snd] in *. specialize (audit_process req w1 Hr1 Ha1) as Ha2.
  by destruct (process e req w1) as [[]].
Qed.

Lemma audit_ticks l n (w : W) :
  Forall (recorded (w_store w)) l → audited ps (w_store w) → audited ps (w_store (ST_foldl (tick_one (Sto:=MemStore) e) n l w).2).
Proof.
  revert n w. induction l as [|req l IH]; intros n w Hl Ha; cbn [ST_foldl]; [done|].
  apply Forall_cons in Hl as [Hreq Hl]. unfold mbind, ST_bind. pose proof (audit_tick_one n req w Hreq Ha) as Ha1.
  pose proof (keeps_tick_one e n req w) as Hk. destruct (tick_one e n req w) as [[n1|] w1]; [|done].
  apply IH; [|done]. eapply Forall_impl; [exact Hl|]. intros r. by apply recorded_stays.
Qed.

#[export] Instance audit_Tick : Evolves (keeps_audit ps) (Tick (Sto:=MemStore) e).
Proof.
  unfold Tick. apply evolves_bind; [apply _..|]. intros _ w Ha. unfold on_store. cbn [DueAutomation MemStore_auto].
  unfold mbind, ST_bind, mem_DueAutomation. destruct w as [s calls]. apply audit_ticks; [|done]. cbn [w_store].
  apply Forall_forall. intros r Hr. assert (r ∈ requests_in_order s) as Hin.
  { apply (list_elem_of_filter (λ r, is_due s (e_now e) (lease e) r = true)). revert Hr. unfold take_limit.
    destruct (0 <? _)%Z; [apply subseteq_take|done]. }
  unfold requests_in_order in Hin. apply list_elem_of_omap in Hin as (id & _ & Hid). exists r.
  rewrite (au_ids s (proj1 Ha) id r Hid). done.
Qed.
End engine_audit.

(** ** Runs of the automation system *)

Section runs.
Context `{Sha256, TimeZones, Json AutomationRequest, Json AutomationResult}.

(** Any interleaving of events, ticks and approvals, over engines that share the policies (their
    clocks, inventories, adapters and modes may differ), and of whatever else uses the store but
    leaves the automation tables alone. Each step may fail. *)
Inductive auto_run (ps : Policies) : W → Prop :=
| run_init s calls : ms_autoReq s = ∅ → ms_autoRes s = ∅ → ms_autoOrder s = [] → auto_run ps (MkWorld s calls)
| run_event e ev w : auto_run ps w → e_Policies e = ps → devices_keyed (e_Devices e) → auto_run ps (HandleEvent e ev w).2
| run_tick e w : auto_run ps w → e_Policies e = ps → devices_keyed (e_Devices e) → auto_run ps (Tick e w).2
| run_approve id by_ w : auto_run ps w → auto_run ps (Approve id by_ w).2
| run_other w s' : auto_run ps w → ms_autoReq s' = ms_autoReq (w_store w) → ms_autoRes s' = ms_autoRes (w_store w) →
    ms_autoOrder s' = ms_autoOrder (w_store w) → auto_run ps (MkWorld s' (w_calls w)).

Lemma auto_run_audited ps w : policies_keyed ps → auto_run ps w → audited ps (w_store w).
Proof.
  intros Hpk. induction 1 as [s calls Hq Hr Ho|e ev w _ IH _ _|e w _ IH Hps Hdk|id by_ w _ IH|w s' _ IH Hq Hr Ho].
  - cbn [w_store]. split; [split|unfold spaced]; rewrite ?Hq, ?Hr, ?Ho; try (intros; by rewrite lookup_empty in *).
    + split; [constructor|]. intros id. rewrite lookup_empty. split; [by intros ?%elem_of_nil|by intros [? ?]].
    + apply map_Forall_empty.
  - by apply (audit_HandleEvent ps e ev w).
  - by apply (audit_Tick ps e Hps Hpk Hdk w).
  - unfold Approve. case_bool_decide; [done|]. unfold mbind, ST_bind. pose proof (audit_Approve ps id by_ w IH) as Ha.
    by destruct (on_store _ w) as [[[|]|] w1].
  - cbn [w_store]. by eapply audited_same.
Qed.
End runs.
