(* ===== verification/EngineThms.v ===== *)
(** * Theorems about the automation engine, on the in-memory store *)

From S2P Require Import Prelude GoLib GoFloat Domain Regexp State Schema Inventory Store MemStore MemStoreFacts.
From S2P Require Import StateFacts AutoStore AutoStoreFacts Pipeline Policy PolicyFacts Engine EngineFacts AuditFacts.

(** ** An example to run the theorems on *)

Definition ex_json_request : Json AutomationRequest :=
  {| json_Marshal r := Ok (rq_RequestID r); json_Decode _ := Err "not needed"; json_trailing _ := false |}.
Definition ex_json_result : Json AutomationResult :=
  {| json_Marshal r := Ok (rs_RequestID r); json_Decode _ := Err "not needed"; json_trailing _ := false |}.

Definition ex_policies : Policies :=
  match Policy.Parse (H:=ex_utc) (λ _, Ok ex_file) "" with Ok ps => ps | Err _ => MkPolicies [] [] [] [] ∅ end.
Definition ex_reader : Reader := Registry_Reader (NewRegistry [ex_switch]).

(** The example policy needs an approval; the switch is tagged, capable and on the allowlist. *)
Definition ex_engine (t : Time) : Engine :=
  MkEngine ex_policies ex_reader (λ _ _, None) (λ _ _ _, (MkActionResult "done" None true, None)) None false 0 0 t.
Definition ex_flap : Event :=
  MkEvent "ev1" "c1" "sw1" "interface.flapping" SeverityWarning "flapping" (Some {[ "interface" := "Gi0/1" ]}) (10 * Minute) "o1" "rule:flap"
    "flap/sw1/" false.
Definition ex_alerted : MemStore :=
  NewMemStore <| ms_alerts := [MkAlert "flap/sw1/" "sw1" "rule:flap" SeverityWarning AlertFiring "" None "ev1" (10 * Minute) 0] |>.

Abbreviation ex_HandleEvent := (HandleEvent (H:=sha_id) (H1:=ex_json_request) (H2:=ex_json_result)).
Abbreviation ex_Tick := (Tick (H0:=ex_utc) (H2:=ex_json_result)).

(** The world after the event, a tick that asks for approval, the approval, and the tick that executes. *)
Definition ex_start : W := MkWorld ex_alerted [].
Definition ex_recorded : W := (ex_HandleEvent (ex_engine (11 * Minute)) ex_flap ex_start).2.
Definition ex_approved : W :=
  (Approve (requestID (H:=sha_id) "bounce" "ev1") "alice" (ex_Tick (ex_engine (20 * Minute)) ex_recorded).2).2.
Definition ex_done : W := (ex_Tick (ex_engine (21 * Minute)) ex_approved).2.

(** Two hours later the interface flaps again. *)
Definition ex_flap2 : Event :=
  MkEvent "ev2" "c2" "sw1" "interface.flapping" SeverityWarning "flapping" (Some {[ "interface" := "Gi0/1" ]}) (130 * Minute) "o2" "rule:flap"
    "flap/sw1/" false.
Definition ex_recorded2 : W := (ex_HandleEvent (ex_engine (131 * Minute)) ex_flap2 ex_done).2.
Definition ex_approved2 : W :=
  (Approve (requestID (H:=sha_id) "bounce" "ev2") "alice" (ex_Tick (ex_engine (140 * Minute)) ex_recorded2).2).2.
Definition ex_done2 : W := (ex_Tick (ex_engine (141 * Minute)) ex_approved2).2.

(** ** Theorems *)

Section theorems.
Context `{Sha256, TimeZones, Json AutomationRequest, Json AutomationResult}.


(** Stage one only records: handling an event executes nothing and touches no alert, and a
    recovery event, an event without an alert and an event of an unknown device change nothing. *)
Theorem events_execute_nothing e ev (w : W) :
  quiet w (HandleEvent (Sto:=MemStore) e ev w).2 ∧
  (ev_Resolves ev = true ∨ ev_AlertKey ev = "" ∨ rd_Get (e_Devices e) (ev_DeviceID ev) = None →
   HandleEvent (Sto:=MemStore) e ev w = (Ok [], w)).
Proof.
  split; [apply quiet_HandleEvent|]. unfold HandleEvent. intros [-> | [-> | ->]]; [done| |by case_match].
  by rewrite bool_decide_eq_true_2, orb_true_r.
Qed.

(** A redelivered event is not acted on twice: once an event has been handled, handling it
    again, at any later time and whatever happened to its requests meanwhile, changes nothing
    and creates nothing. *)
Theorem redelivered_event_is_noop e ev (w w' w2 : W) created t :
  HandleEvent (Sto:=MemStore) e ev w = (Ok created, w') → requests_stay (w_store w') (w_store w2) →
  let out := HandleEvent (Sto:=MemStore) (at_time e t) ev w2 in
  out.2 = w2 ∧ ∀ created', out.1 = Ok created' → created' = [].
Proof.
  unfold HandleEvent. change (e_Devices (at_time e t)) with (e_Devices e). change (e_Policies (at_time e t)) with (e_Policies e).
  destruct (ev_Resolves ev || _); [intros _ _; by split; [|intros; simplify_eq/=]|].
  destruct (rd_Get _ _) as [dev|]; [|intros _ _; by split; [|intros; simplify_eq/=]].
  intros Hrun%handle_policies_settle Hstay. apply settled_nothing.
  eapply Forall_impl; [exact Hrun|]. intros pol Hs. eapply settled_later; [exact Hs|exact Hstay].
Qed.


(** C35. The audit trail is consistent over any run: results are filed under the id of an existing
    request, with a final status that the request carries too, and no request is marked as
    executed without its result. *)
Theorem audit_trail_consistent yaml raw ps (w : W) : Policy.Parse yaml raw = Ok ps → auto_run ps w → audit_ok (w_store w).
Proof.
  intros Hparse Hrun. apply (auto_run_audited ps w); [|done]. intros id p Hp.
  by apply (proj2 (Parse_ok yaml raw ps Hparse)) in Hp as [_ ?].
Qed.
End theorems.

(** ** The theorems on the example *)

Lemma ex_reader_keyed : devices_keyed ex_reader.
Proof. apply Registry_Reader_keyed, NewRegistry_keyed. Qed.


Lemma redelivered_event_is_noop_witness :
  (ex_HandleEvent (ex_engine (3 * Hour)) ex_flap ex_done).2 = ex_done.
Proof.
  destruct (ex_HandleEvent (ex_engine (11 * Minute)) ex_flap ex_start) as [r w'] eqn:Hrun.
  assert (∃ created, r = Ok created) as [created ->] by (vm_compute in Hrun; simplify_eq; by eexists).
  refine (proj1 (redelivered_event_is_noop (H:=sha_id) (H1:=ex_json_request) (H2:=ex_json_result)
    (ex_engine (11 * Minute)) ex_flap ex_start w' ex_done created (3 * Hour) Hrun _)).
  assert (w' = ex_recorded) as -> by (unfold ex_recorded; by rewrite Hrun).
  etrans; [apply (keeps_Tick (H:=ex_utc) (H0:=ex_json_result) (ex_engine (20 * Minute)) ex_recorded)|].
  etrans; [apply (keeps_Approve_ (requestID (H:=sha_id) "bounce" "ev1") "alice")|].
  apply (keeps_Tick (H:=ex_utc) (H0:=ex_json_result) (ex_engine (21 * Minute)) ex_approved).
Defined.

Lemma ex_run : auto_run (H:=sha_id) (H0:=ex_utc) (H1:=ex_json_request) (H2:=ex_json_result) ex_policies ex_done2.
Proof.
  unfold ex_done2, ex_approved2, ex_recorded2, ex_done, ex_approved, ex_recorded.
  do 2 (apply run_tick; [|done|apply ex_reader_keyed]; apply run_approve; apply run_tick; [|done|apply ex_reader_keyed];
        apply run_event; [|done|apply ex_reader_keyed]).
  by apply run_init.
Qed.


Lemma audit_trail_consistent_witness : audit_ok (w_store ex_done2).
Proof.
  apply (audit_trail_consistent (H:=sha_id) (H0:=ex_utc) (H1:=ex_json_request) (H2:=ex_json_result) (λ _, Ok ex_file) "" ex_policies);
    [vm_compute; reflexivity|exact ex_run].
Defined.

(** ** A dry run reported as live *)

(** The example policies after an operator switched the policy to dry runs. *)
Definition ex_dry_policies : Policies :=
  match Policy.Parse (H:=ex_utc) (λ _, Ok (MkFile ["sw1"] [] [] [ex_policy <| pl_Safety := MkSafety (Some true) 0 "" true 0 |>])) "" with
  | Ok ps => ps
  | Err _ => MkPolicies [] [] [] [] ∅
  end.
Definition ex_dry_engine (t : Time) : Engine :=
  MkEngine ex_dry_policies ex_reader (λ _ _, None) (λ _ _ _, (MkActionResult "done" None true, None)) None false 0 0 t.

(** The [dry_run] field of a result does not follow the execution: for a request recorded
    while its policy was live and executed after the policy was switched to dry runs, the adapter
    is called with DryRun and the status is DRY_RUN, but the result says [dry_run: false]. *)
Theorem switched_policy_result_says_live :
  let w := (ex_Tick (ex_dry_engine (21 * Minute)) ex_approved).2 in
  (λ c : Device * Action, ac_DryRun c.2) <$> w_calls w = [true] ∧
  (λ r, (rs_Status r, rs_DryRun r)) <$> (ms_autoRes (w_store w) !! requestID (H:=sha_id) "bounce" "ev1") = Some (AutomationDryRun, false).
Proof. split; vm_compute; reflexivity. Qed.
