(* ===== verification/Secrets.v ===== *)
(** * Package [secrets]: credential references and their values
    (src/internal/secrets/secrets.go)

    Devices hold references such as "snmp/lab-v3"; a reference is resolved at the moment of use,
    from the environment or from a file under a directory. *)

From S2P Require Import Prelude GoLib GoFloat Domain Regexp.

(** A bag of named values; it never prints its contents. *)
Abbreviation Secret := smap (only parsing).
Definition Secret_String (s : Secret) : string := "[redacted]".
Definition Secret_Get (s : Secret) (key : string) : string := mread s key.

(** [^[A-Za-z0-9][A-Za-z0-9._/-]*$] *)
Definition refPattern : regex :=
  RSeq (RClass cls_alnum) (RStar (RClass (λ c, cls_alnum c || cls_any "._/-" c))).

Definition ValidRef (ref : string) : bool := MatchString refPattern ref && negb (Contains ref "..").

(** The characters of an environment variable name; any other character becomes an underscore. *)
Definition env_char (c : ascii) : ascii := if cls_upper c || cls_digit c then c else "_".
Definition envName (ref : string) : string := "INFRA_OBSERVER_SECRET_" +:+ map_str env_char (ToUpper ref).

(** [parse]; decoding a JSON object of strings is a parameter. *)
Definition parse (unmarshal : string → res Secret) (raw origin : string) : res Secret :=
  let raw := TrimSpace raw in
  if HasPrefix raw "{" then
    match unmarshal raw with
    | Err e => Err (Errorf CategoryValidation (origin +:+ ": not a JSON object of strings: " +:+ error_text e))
    | Ok s => Ok s
    end
  else if bool_decide (raw = "") then Err (Errorf CategoryValidation (origin +:+ " is empty"))
  else Ok (Some {["value" := raw]}).

(** What reading a file under the directory gives. *)
Inductive file_read :=
| FileContent (b : string)
| FileNotExist
| FileError (e : error).

(** [EnvFile]: the directory, the environment and the file system below the directory. *)
Record EnvFile := MkEnvFile {
  ef_Dir : string;
  ef_Lookup : string → option string;
  ef_ReadFile : string → string → file_read;   (* directory, slash-separated path below it *)
  ef_Unmarshal : string → res Secret;
}.

Definition EnvFile_Resolve (r : EnvFile) (ref : string) : res Secret :=
  let not_found := Err (Errorf CategoryAuthentication ("credential reference " +:+ Quote ref +:+ " not found")) in
  if negb (ValidRef ref) then Err (Errorf CategoryValidation ("invalid credential reference " +:+ Quote ref))
  else
    match ef_Lookup r (envName ref) with
    | Some raw => parse (ef_Unmarshal r) raw ("environment " +:+ envName ref)
    | None =>
        if bool_decide (ef_Dir r = "") then not_found
        else
          match ef_ReadFile r (ef_Dir r) (ref +:+ ".json") with
          | FileContent b => parse (ef_Unmarshal r) b ("file for " +:+ ref)
          | FileNotExist => not_found
          | FileError e => Err (EDomain CategoryDependency "read secret file" e)
          end
    end.

(** [Static], a map of secrets for tests and simulations. *)
Definition Static_Resolve (s : gmap string Secret) (ref : string) : res Secret :=
  match s !! ref with
  | Some v => Ok v
  | None =>
      let e := Errorf CategoryAuthentication ("credential reference " +:+ Quote ref +:+ " not found") in
      Err (EWrapped (error_text e) e)
  end.

(** ** Facts *)

(** The components of a slash-separated path. *)
Fixpoint path_split (cur : string) (s : string) : list string :=
  match s with
  | "" => [cur]
  | String c s => if bool_decide (c = "/"%char) then cur :: path_split "" s else path_split (cur +:+ str1 c) s
  end.
Definition components (s : string) : list string := path_split "" s.

(** Walking a relative path from a directory: the depth below it, [None] once it leaves it. *)
Fixpoint walk_depth (d : nat) (l : list string) : option nat :=
  match l with
  | [] => Some d
  | c :: l =>
      if bool_decide (c = "" ∨ c = ".") then walk_depth d l
      else if bool_decide (c = "..") then match d with O => None | S d => walk_depth d l end
      else walk_depth (S d) l
  end.

Lemma walk_depth_inside d l : ".." ∉ l → is_Some (walk_depth d l).
Proof.
  revert d. induction l as [|c l IH]; intros d Hn; simpl; [eauto|].
  rewrite not_elem_of_cons in Hn. destruct Hn as [Hc Hl].
  case_bool_decide; [by apply IH|]. case_bool_decide; [congruence|by apply IH].
Qed.

Lemma Contains_app s t sub : Contains (s +:+ t) sub = false → Contains s sub = false ∧ Contains t sub = false.
Proof.
  assert (Contains "" sub = true → sub = "") as Hnil by by destruct sub.
  assert (∀ u, Contains u "" = true) as Hempty by by intros [].
  revert t. induction s as [|c s IH]; intros t; [rewrite append_nil_l|rewrite append_cons]; intros Ht.
  - split; [|done]. destruct (Contains "" sub) eqn:Hc; [|done]. rewrite Hnil in Ht by done. by rewrite Hempty in Ht.
  - cbn [Contains] in *. apply orb_false_iff in Ht as [Hp Ht]. apply IH in Ht as [Hs Ht]. split; [|done].
    rewrite Hs, orb_false_r. destruct (HasPrefix (String c s) sub) eqn:Hpre; [|done].
    apply HasPrefix_spec in Hpre as [r Hr]. rewrite <-Hp. symmetry. apply HasPrefix_spec.
    exists (r +:+ t). by rewrite <-append_assoc, <-Hr.
Qed.

Lemma components_parts s cur x : x ∈ path_split cur s → ∃ pre post, cur +:+ s = pre +:+ x +:+ post.
Proof.
  revert cur. induction s as [|c s IH]; intros cur; simpl.
  - intros ->%list_elem_of_singleton. exists "", "". by rewrite append_nil_l.
  - case_bool_decide as Hc.
    + intros [->|Hx]%elem_of_cons; [by exists "", (String c s)|].
      destruct (IH _ Hx) as (pre & post & Hs). exists (cur +:+ String c pre), post.
      rewrite append_nil_l in Hs. by rewrite Hs, append_assoc, append_cons.
    + intros Hx. destruct (IH _ Hx) as (pre & post & Hs). exists pre, post.
      by rewrite <-Hs, append_assoc.
Qed.

(** A reference that passes [ValidRef] names a file inside the secrets directory: it is not
    absolute, none of its path components is "..", so walking it never leaves the directory, and the
    only path [EnvFile_Resolve] ever reads is the reference with ".json" below its directory. *)
Theorem credential_reference_stays_inside ref :
  ValidRef ref = true →
  HasPrefix ref "/" = false ∧ (".." ∉ components ref) ∧ is_Some (walk_depth 0 (components ref)) ∧
  ∀ r read, read (ef_Dir r) (ref +:+ ".json") = ef_ReadFile r (ef_Dir r) (ref +:+ ".json") →
    EnvFile_Resolve (MkEnvFile (ef_Dir r) (ef_Lookup r) read (ef_Unmarshal r)) ref = EnvFile_Resolve r ref.
Proof.
  unfold ValidRef. intros [Hm Hc%negb_true_iff]%andb_true_iff.
  assert (".." ∉ components ref) as Hno.
  { intros (pre & post & Hs)%components_parts. rewrite append_nil_l in Hs. rewrite Hs in Hc.
    apply Contains_app in Hc as [_ Hc]. apply Contains_app in Hc as [Hc _]. discriminate. }
  split; [|split; [done|split; [by apply walk_depth_inside|]]].
  - destruct ref as [|c ref]; [done|]. cbn [HasPrefix]. destruct (decide ("/"%char = c)) as [<-|Hne]; [|by rewrite bool_decide_eq_false_2].
    apply MatchString_matches in Hm. inversion Hm as [| |r1 r2 x y Hx Hy Hr Heq| | | |]; subst.
    inversion Hx as [|q d Hd| | | | |]; subst. change (str1 d +:+ y) with (String d y) in Heq. by injection Heq as ->.
  - intros r read Hread. unfold EnvFile_Resolve. simpl. by rewrite Hread.
Qed.

Lemma credential_reference_stays_inside_witness :
  ValidRef "snmp/lab-v3" = true ∧ (".." ∉ components "snmp/lab-v3") ∧ ValidRef "snmp/../../etc/passwd" = false.
Proof.
  assert (ValidRef "snmp/lab-v3" = true) as H by (vm_compute; reflexivity). split; [exact H|]. split; [|vm_compute; reflexivity].
  apply (credential_reference_stays_inside _ H).
Defined.

(** Distinct references can share an environment variable: case and punctuation are lost. *)
Lemma env_names_collide : envName "snmp/lab.v3" = envName "SNMP-lab_v3" ∧ ValidRef "snmp/lab.v3" = true ∧ ValidRef "SNMP-lab_v3" = true.
Proof. vm_compute. done. Qed.
