(* ===== verification/Profile.v ===== *)
(** * Package [collector/snmp], profiles: what to collect from a kind of device
    (src/internal/collector/snmp/profile.go)

    A profile names scalar objects and table columns; profiles include each other. Loading
    validates every document and resolves the includes depth first. *)

From S2P Require Import Prelude GoLib GoFloat Domain Regexp.

(** ** Data *)

Abbreviation ValueType := string (only parsing).
Definition TypeInteger : ValueType := "integer".
Definition TypeGauge : ValueType := "gauge".
Definition TypeCounter : ValueType := "counter".
Definition TypeDuration : ValueType := "duration".
Definition TypeString : ValueType := "string".

Record TableSpec := MkTableSpec {
  ts_OID : string;
  ts_IndexLabel : string;
  ts_Labels : smap;
}.
#[export] Instance TableSpec_eq_dec : EqDecision TableSpec.
Proof. solve_decision. Defined.

Record Metric := MkMetric {
  mt_Name : string;
  mt_OID : string;
  mt_Table : option TableSpec;
  mt_Type : ValueType;
}.
#[export] Instance Metric_eq_dec : EqDecision Metric.
Proof. solve_decision. Defined.

Definition Metric0 : Metric := MkMetric "" "" None "".

Record Profile := MkProfile {
  pf_ID : string;
  pf_Description : string;
  pf_Include : list string;
  pf_SysObjectIDPrefix : string;
  pf_Metrics : list Metric;
}.
#[export] Instance eta_Profile : Eta Profile := λ p,
  MkProfile (pf_ID p) (pf_Description p) (pf_Include p) (pf_SysObjectIDPrefix p) (pf_Metrics p).
Definition Profile0 : Profile := MkProfile "" "" [] "" [].

(** [^\.?[0-9]+(\.[0-9]+)*$] *)
Definition oidPattern : regex :=
  RSeq (ROpt (RLit ".")) (RSeq (RPlus (RClass cls_digit)) (RStar (RSeq (RLit ".") (RPlus (RClass cls_digit))))).

Definition normOID (oid : string) : string := TrimPrefix oid ".".

(** ** Validation *)

Definition known_type (t : ValueType) : bool :=
  bool_decide (t ∈ [TypeInteger; TypeGauge; TypeCounter; TypeDuration; TypeString]).

(** The [merged] map and the [order] of names; the last metric of a name wins, at the place of the first. *)
Abbreviation merge_state := (gmap string Metric * list string)%type.

Section profiles.
Context {RO : RangeOrder}.

(** The last switch of the loop body: a metric is a scalar or a table, with well-formed OIDs. *)
Definition table_problems (where_ : string) (t : TableSpec) : list string :=
  problems_of [(negb (MatchString oidPattern (ts_OID t)), where_ +:+ ": malformed table.oid")]
  ++ (range_order (entries (ts_Labels t)) ≫= λ lo,
        problems_of [(negb (MatchString oidPattern lo.2), where_ +:+ ": malformed label oid for " +:+ Quote lo.1)]).

Definition shape_problems (where_ : string) (m : Metric) : list string :=
  if bool_decide (mt_OID m = "") then
    match mt_Table m with
    | None => [where_ +:+ ": exactly one of oid or table is required"]
    | Some t => table_problems where_ t
    end
  else
    match mt_Table m with
    | None => problems_of [(negb (MatchString oidPattern (mt_OID m)), where_ +:+ ": malformed oid")]
    | Some _ => [where_ +:+ ": exactly one of oid or table is required"]
    end.

(** The problems of the metric at index [i], given the names seen before it. *)
Definition metric_problems (seen : gset string) (i : nat) (m : Metric) : list string :=
  let at_ := "metrics[" +:+ FormatInt (Z.of_nat i) +:+ "]" in
  let where_ := at_ +:+ " (" +:+ mt_Name m +:+ ")" in
  problems_of
    [(bool_decide (mt_Name m = ""), at_ +:+ ": name is required");
     (negb (bool_decide (mt_Name m = "")) && bool_decide (mt_Name m ∈ seen), where_ +:+ ": duplicate metric name");
     (negb (known_type (mt_Type m)), where_ +:+ ": unknown type " +:+ Quote (mt_Type m))]
  ++ shape_problems where_ m.

Fixpoint metrics_problems (seen : gset string) (i : nat) (l : list Metric) : list string :=
  match l with
  | [] => []
  | m :: l => metric_problems seen i m ++ metrics_problems ({[mt_Name m]} ∪ seen) (S i) l
  end.

Definition validate (p : Profile) : option error :=
  match problems_of [(bool_decide (pf_ID p = ""), "id is required")] ++ metrics_problems ∅ 0 (pf_Metrics p) with
  | [] => None
  | problems => Some (Errorf CategoryValidation ("profile " +:+ Quote (pf_ID p) +:+ ": " +:+ Join problems "; "))
  end.

(** ** Includes *)

Definition merge_metric (st : merge_state) (m : Metric) : merge_state :=
  let '(merged, order) := st in
  (<[mt_Name m := m]> merged,
   match merged !! mt_Name m with Some _ => order | None => order ++ [mt_Name m] end).

Definition merge_metrics (st : merge_state) (ms : list Metric) : merge_state := foldl merge_metric st ms.

Definition in_order (st : merge_state) : list Metric := (λ n, default Metric0 (st.1 !! n)) <$> st.2.

(** The loop over the includes; [sub] flattens one of them, [None] is a recursion cut short. *)
Fixpoint merge_includes (sub : string → option (res Profile)) (st : merge_state) (incs : list string) : option (res merge_state) :=
  match incs with
  | [] => Some (Ok st)
  | inc :: incs =>
      match sub inc with
      | None => None
      | Some (Err e) => Some (Err e)
      | Some (Ok p) => merge_includes sub (merge_metrics st (pf_Metrics p)) incs
      end
  end.

Definition list_text (l : list string) : string := "[" +:+ Join l " " +:+ "]".

(** [flatten]; [fuel] bounds the depth of the recursion. *)
Fixpoint flatten (fuel : nat) (id : string) (raw : gmap string Profile) (stack : list string) : option (res Profile) :=
  match fuel with
  | O => None
  | S fuel =>
      if bool_decide (id ∈ stack) then
        Some (Err (Errorf CategoryValidation ("profile include cycle: " +:+ Join stack " -> " +:+ " -> " +:+ id)))
      else
        match raw !! id with
        | None => Some (Err (Errorf CategoryValidation ("profile " +:+ Quote id +:+ " not found (included from " +:+ list_text stack +:+ ")")))
        | Some p =>
            match merge_includes (λ inc, flatten fuel inc raw (stack ++ [id])) (∅, []) (pf_Include p) with
            | None => None
            | Some (Err e) => Some (Err e)
            | Some (Ok st) => Some (Ok (p <| pf_Metrics := in_order (merge_metrics st (pf_Metrics p)) |>))
            end
        end
  end.

(** The recursion is at most one deeper than there are profiles ([flatten_returns]). *)
Definition flatten_fuel (raw : gmap string Profile) : nat := S (size raw).

(** ** The loaded set *)

Record Profiles := MkProfiles { ps_byID : gmap string Profile }.

(** The first loop of [ParseProfiles]; the strict YAML decoder is a parameter. *)
Fixpoint parse_docs (yaml : string → res Profile) (raw : gmap string Profile) (docs : list string) : res (gmap string Profile) :=
  match docs with
  | [] => Ok raw
  | doc :: docs =>
      match yaml doc with
      | Err e => Err (Errorf CategoryValidation ("parse profile: " +:+ error_text e))
      | Ok p =>
          match validate p with
          | Some e => Err e
          | None =>
              match raw !! pf_ID p with
              | Some _ => Err (Errorf CategoryValidation ("duplicate profile id " +:+ Quote (pf_ID p)))
              | None => parse_docs yaml (<[pf_ID p := p]> raw) docs
              end
          end
      end
  end.

(** The second loop, over the ids in the order the map yields them. Running out of fuel would be
    the stack overflow that ends a Go program. *)
Fixpoint flatten_all (raw : gmap string Profile) (ids : list string) (byID : gmap string Profile) : res (gmap string Profile) :=
  match ids with
  | [] => Ok byID
  | id :: ids =>
      match flatten (flatten_fuel raw) id raw [] with
      | None => Err (EPanic "stack overflow")
      | Some (Err e) => Err e
      | Some (Ok flat) => flatten_all raw ids (<[id := flat]> byID)
      end
  end.

Definition ParseProfiles (yaml : string → res Profile) (docs : list string) : res Profiles :=
  match parse_docs yaml ∅ docs with
  | Err e => Err e
  | Ok raw =>
      match flatten_all raw (range_order raw).*1 ∅ with
      | Err e => Err e
      | Ok byID => Ok (MkProfiles byID)
      end
  end.

(** [LoadProfiles]; the directory listing and the file contents are parameters. *)
Fixpoint read_files (ReadFile : string → res string) (files : list string) : res (list string) :=
  match files with
  | [] => Ok []
  | f :: files =>
      match ReadFile f with
      | Err e => Err e
      | Ok b => match read_files ReadFile files with Err e => Err e | Ok bs => Ok (b :: bs) end
      end
  end.

Definition LoadProfiles (yaml : string → res Profile) (Glob : string → res (list string)) (ReadFile : string → res string) (dir : string) : res Profiles :=
  match Glob dir with
  | Err e => Err e
  | Ok [] => Err (EText ("no SNMP profiles found in " +:+ dir))
  | Ok files =>
      match read_files ReadFile (sort_strings files) with
      | Err e => Err e
      | Ok raws => ParseProfiles yaml raws
      end
  end.

Definition Profiles_Get (ps : Profiles) (id : string) : option Profile := ps_byID ps !! id.

Definition IDs (ps : Profiles) : list string := sort_strings (range_order (ps_byID ps)).*1.

(** [Match]: the best profile so far with the length of its prefix. *)
Definition match_step (sysObjectID : string) (best : Profile * Z) (p : Profile) : Profile * Z :=
  let pre := normOID (pf_SysObjectIDPrefix p) in
  if bool_decide (pre = "") || negb (HasPrefix sysObjectID pre) then best
  else if (best.2 <? slen pre)%Z then (p, slen pre) else best.

Definition Match (ps : Profiles) (sysObjectID : string) : option Profile :=
  let '(best, bestLen) := foldl (match_step (normOID sysObjectID)) (Profile0, -1)%Z (range_order (ps_byID ps)).*2 in
  if (0 <=? bestLen)%Z then Some best else None.
End profiles.
