(* ===== verification/ProfileFacts.v ===== *)
(** * Facts of SNMP profiles: validation, include resolution, matching *)

From S2P Require Import Prelude GoLib GoFloat Domain Regexp Profile.

(** ** Validation *)

(** A metric is well formed: named, of a known type, with exactly one of a scalar or a table. *)
Definition metric_wf (m : Metric) : Prop :=
  mt_Name m ≠ "" ∧ known_type (mt_Type m) = true ∧
  match mt_Table m with
  | None => mt_OID m ≠ "" ∧ MatchString oidPattern (mt_OID m) = true
  | Some t => mt_OID m = "" ∧ MatchString oidPattern (ts_OID t) = true
      ∧ map_Forall (λ _ o, MatchString oidPattern o = true) (entries (ts_Labels t))
  end.

Definition names (ms : list Metric) : list string := mt_Name <$> ms.

Definition profile_wf (p : Profile) : Prop :=
  pf_ID p ≠ "" ∧ Forall metric_wf (pf_Metrics p) ∧ NoDup (names (pf_Metrics p)).


Lemma list_bind_nil {A B} (f : A → list B) l : l ≫= f = [] ↔ Forall (λ x, f x = []) l.
Proof.
  induction l as [|x l IH]; simpl; [by split|]. rewrite Forall_cons, <-IH.
  change ((x :: l) ≫= f) with (f x ++ (l ≫= f)). by rewrite app_nil.
Qed.

Lemma problem_nil b p : problems_of [(b, p)] = [] ↔ b = false.
Proof. by destruct b. Qed.

Section facts.
Context {RO : RangeOrder}.

Lemma table_problems_nil w t :
  table_problems w t = [] ↔ MatchString oidPattern (ts_OID t) = true
    ∧ map_Forall (λ _ o, MatchString oidPattern o = true) (entries (ts_Labels t)).
Proof.
  unfold table_problems. rewrite app_nil, problem_nil, negb_false_iff, list_bind_nil, map_Forall_to_list, !Forall_forall.
  setoid_rewrite range_order_perm. setoid_rewrite problem_nil. setoid_rewrite negb_false_iff.
  split; (intros [? HF]; split; [done|]; intros [l o]; apply (HF (l, o))).
Qed.

Lemma shape_problems_nil w m :
  shape_problems w m = [] ↔
  match mt_Table m with
  | None => mt_OID m ≠ "" ∧ MatchString oidPattern (mt_OID m) = true
  | Some t => mt_OID m = "" ∧ MatchString oidPattern (ts_OID t) = true
      ∧ map_Forall (λ _ o, MatchString oidPattern o = true) (entries (ts_Labels t))
  end.
Proof.
  unfold shape_problems. case_bool_decide; destruct (mt_Table m) as [t|].
  - rewrite table_problems_nil. naive_solver.
  - naive_solver.
  - naive_solver.
  - rewrite problem_nil, negb_false_iff. naive_solver.
Qed.

Lemma metric_problems_nil seen i m :
  metric_problems seen i m = [] ↔ metric_wf m ∧ mt_Name m ∉ seen.
Proof.
  unfold metric_problems, metric_wf.
  rewrite app_nil, shape_problems_nil, problems_of_nil, !Forall_cons, Forall_nil. cbn [fst].
  rewrite bool_decide_eq_false, negb_false_iff, andb_false_iff, negb_false_iff, bool_decide_eq_true, bool_decide_eq_false.
  tauto.
Qed.

Lemma metrics_problems_nil seen i ms :
  metrics_problems seen i ms = [] ↔
  Forall metric_wf ms ∧ NoDup (names ms) ∧ (∀ n, n ∈ names ms → n ∉ seen).
Proof.
  revert seen i. induction ms as [|m ms IH]; intros seen i; simpl.
  - split; [intros _; repeat split; [done|constructor|by intros n ?%elem_of_nil]|done].
  - rewrite app_nil, metric_problems_nil, IH, Forall_cons, NoDup_cons. split.
    + intros [[Hm Hs] (Hms & Hnd & Hn)]. split; [done|]. split; [split; [|done]|].
      * intros Hin. apply (Hn _ Hin). set_solver.
      * intros n [->|Hin]%elem_of_cons; [done|]. specialize (Hn n Hin). set_solver.
    + intros [[Hm Hms] [[Hnin Hnd] Hn]]. split; [split; [done|]|split; [done|split; [done|]]].
      * apply Hn. left.
      * intros n Hin. specialize (Hn n). assert (n ≠ mt_Name m) by by intros ->.
        rewrite elem_of_union, elem_of_singleton. intros [?|?]; [done|]. apply Hn; [by right|done].
Qed.

(** Validation accepts exactly the well-formed profiles. *)
Lemma validate_wf p : validate p = None ↔ profile_wf p.
Proof.
  unfold validate, profile_wf.
  destruct (_ ++ _) as [|x l] eqn:Hp.
  - apply app_nil in Hp as [Hid Hms]. apply problem_nil, bool_decide_eq_false_1 in Hid.
    apply metrics_problems_nil in Hms. naive_solver.
  - split; [done|]. intros (Hid & Hms & Hnd). exfalso.
    assert (problems_of [(bool_decide (pf_ID p = ""), "id is required")] ++ metrics_problems ∅ 0 (pf_Metrics p) = []) as Hnil.
    { rewrite app_nil, problem_nil, metrics_problems_nil, bool_decide_eq_false. split; [done|split; [done|split; [done|set_solver]]]. }
    by rewrite Hnil in Hp.
Qed.

Lemma parse_docs_wf yaml raw docs raw' :
  map_Forall (λ id p, profile_wf p ∧ pf_ID p = id) raw → parse_docs yaml raw docs = Ok raw' →
  map_Forall (λ id p, profile_wf p ∧ pf_ID p = id) raw'.
Proof.
  revert raw. induction docs as [|d docs IH]; intros raw Hwf; simpl; [by intros [= <-]|].
  destruct (yaml d) as [p|e]; [|done]. destruct (validate p) eqn:Hv; [done|].
  destruct (raw !! pf_ID p) eqn:Hr; [done|]. apply IH. apply map_Forall_insert_2; [|done].
  split; [by apply validate_wf|done].
Qed.
End facts.

(** ** Merging *)

Lemma merge_metrics_app st ms1 ms2 : merge_metrics st (ms1 ++ ms2) = merge_metrics (merge_metrics st ms1) ms2.
Proof. apply foldl_app. Qed.

(** The invariant of the loop: [order] lists the names of [merged] once each, and [merged] is keyed by name. *)
Definition merge_ok (st : merge_state) : Prop :=
  NoDup st.2 ∧ (∀ n, n ∈ st.2 ↔ is_Some (st.1 !! n)) ∧ map_Forall (λ n m, mt_Name m = n) st.1.

Lemma merge_metric_ok st m : merge_ok st → merge_ok (merge_metric st m).
Proof.
  destruct st as [merged order]. intros (Hnd & Hdom & Hkey). unfold merge_ok; simpl in *. repeat split.
  - destruct (merged !! mt_Name m) eqn:Hm; [done|]. apply NoDup_app. repeat split; [done| |apply NoDup_singleton].
    intros n Hn ->%list_elem_of_singleton. apply Hdom in Hn as [? ?]. congruence.
  - intros Hn. destruct (decide (n = mt_Name m)) as [->|Hne]; [by rewrite lookup_insert_eq; eauto|].
    rewrite lookup_insert_ne by done. apply Hdom. destruct (merged !! mt_Name m); [done|].
    by apply elem_of_app in Hn as [?|?%list_elem_of_singleton].
  - intros [m' Hm']. destruct (decide (n = mt_Name m)) as [->|Hne].
    + destruct (merged !! mt_Name m) eqn:Hm; [apply Hdom; eauto|]. apply elem_of_app. right. by apply list_elem_of_singleton.
    + rewrite lookup_insert_ne in Hm' by done. assert (n ∈ order) by (apply Hdom; eauto).
      destruct (merged !! mt_Name m); [done|]. apply elem_of_app; by left.
  - by apply map_Forall_insert_2.
Qed.

Lemma merge_metrics_ok st ms : merge_ok st → merge_ok (merge_metrics st ms).
Proof. revert st. induction ms as [|m ms IH]; intros st Hok; [done|]. by apply IH, merge_metric_ok. Qed.

Lemma merge_empty_ok : merge_ok (∅, []).
Proof. repeat split; [constructor|by intros ?%elem_of_nil|by intros [? ?]|apply map_Forall_empty]. Qed.

(** [in_order] lists the merged metrics. *)
Lemma elem_of_in_order st m : merge_ok st → m ∈ in_order st ↔ st.1 !! mt_Name m = Some m.
Proof.
  intros (_ & Hdom & Hkey). unfold in_order. rewrite list_elem_of_fmap. split.
  - intros (n & -> & [m' Hm']%Hdom). rewrite Hm'. simpl. by rewrite (Hkey _ _ Hm').
  - intros Hm. exists (mt_Name m). rewrite Hm. split; [done|]. apply Hdom. eauto.
Qed.

Lemma names_in_order st : merge_ok st → names (in_order st) = st.2.
Proof.
  intros (_ & Hdom & Hkey). unfold names, in_order. rewrite <-list_fmap_compose.
  rewrite <-(list_fmap_id st.2) at 2. apply list_fmap_ext. intros i n Hi. simpl.
  apply list_elem_of_lookup_2, Hdom in Hi as [m Hm]. rewrite Hm. simpl. by apply Hkey in Hm.
Qed.

(** The last metric of a name in [ms] wins over what was merged before. *)
Lemma merge_metrics_lookup st ms n :
  (merge_metrics st ms).1 !! n =
  match list_find (λ m, mt_Name m = n) (reverse ms) with Some (_, m) => Some m | None => st.1 !! n end.
Proof.
  induction ms as [|m ms IH] using rev_ind; [done|].
  rewrite merge_metrics_app, reverse_snoc. simpl. destruct (merge_metrics st ms) as [merged order] eqn:Hms. simpl in *.
  case_decide as Hn.
  - subst n. by rewrite lookup_insert_eq.
  - rewrite lookup_insert_ne by done. rewrite IH. by destruct (list_find _ _) as [[]|].
Qed.

Lemma names_inj ms m m' : NoDup (names ms) → m ∈ ms → m' ∈ ms → mt_Name m = mt_Name m' → m = m'.
Proof.
  intros Hnd Hm Hm' Heq. apply list_elem_of_lookup_1 in Hm as [i Hi]. apply list_elem_of_lookup_1 in Hm' as [j Hj].
  assert (i = j) as ->; [|congruence]. eapply NoDup_lookup; [done| |]; unfold names; rewrite list_lookup_fmap.
  - by rewrite Hi.
  - by rewrite Hj, Heq.
Qed.

(** ** The include graph *)

Definition includes (raw : gmap string Profile) (x y : string) : Prop :=
  ∃ p, raw !! x = Some p ∧ y ∈ pf_Include p.

(** Everything reachable from [id] exists and lies on no cycle. *)
Definition resolvable (raw : gmap string Profile) (id : string) : Prop :=
  ∀ x, rtc (includes raw) id x → is_Some (raw !! x) ∧ ¬ tc (includes raw) x x.

Section flatten.
Context (raw : gmap string Profile).

(** What one call of [flatten] does with the results of the calls it makes. *)
Lemma merge_includes_some sub st incs :
  (∀ inc, inc ∈ incs → is_Some (sub inc)) → is_Some (merge_includes sub st incs).
Proof.
  revert st. induction incs as [|inc incs IH]; intros st Hsub; simpl; [eauto|].
  destruct (Hsub inc) as [[p|e] ->]; [left| |eauto]. apply IH. intros i Hi. apply Hsub. by right.
Qed.

Lemma merge_includes_ok sub st incs st' :
  merge_includes sub st incs = Some (Ok st') →
  ∃ subs, Forall2 (λ inc p, sub inc = Some (Ok p)) incs subs ∧ st' = merge_metrics st (subs ≫= pf_Metrics).
Proof.
  revert st. induction incs as [|inc incs IH]; intros st; simpl.
  - intros [= <-]. exists []. split; [constructor|done].
  - destruct (sub inc) as [[p|e]|] eqn:Hp; try done. intros (subs & Hsubs & ->)%IH.
    exists (p :: subs). split; [by constructor|].
    change ((p :: subs) ≫= pf_Metrics) with (pf_Metrics p ++ (subs ≫= pf_Metrics)). by rewrite merge_metrics_app.
Qed.

Lemma merge_includes_err sub st incs e :
  merge_includes sub st incs = Some (Err e) → ∃ inc, inc ∈ incs ∧ sub inc = Some (Err e).
Proof.
  revert st. induction incs as [|inc incs IH]; intros st; simpl; [done|].
  destruct (sub inc) as [[p|e']|] eqn:Hp; try done.
  - intros (i & Hi & He)%IH. exists i. split; [by right|done].
  - intros [= ->]. exists inc. split; [left|done].
Qed.

(** A call returns once the fuel exceeds the profiles not yet on the stack. *)
Lemma flatten_returns fuel id stack :
  NoDup stack → (∀ x, x ∈ stack → is_Some (raw !! x)) → size raw < fuel + length stack →
  is_Some (flatten fuel id raw stack).
Proof.
  revert id stack. induction fuel as [|fuel IH]; intros id stack Hnd Hin Hf.
  - exfalso. assert (size (list_to_set (C:=gset string) stack) ≤ size (dom raw)) as Hle.
    { apply subseteq_size. intros x Hx%elem_of_list_to_set. by apply elem_of_dom, Hin. }
    rewrite size_list_to_set, size_dom in Hle by done. simpl in Hf. lia.
  - simpl. case_bool_decide as Hst; [eauto|]. destruct (raw !! id) as [p|] eqn:Hid; [|eauto].
    destruct (merge_includes_some (λ inc, flatten fuel inc raw (stack ++ [id])) (∅, []) (pf_Include p)) as [[st|e] ->]; [|eauto..].
    intros inc _. apply IH.
    + apply NoDup_app. repeat split; [done| |apply NoDup_singleton]. by intros x Hx ->%list_elem_of_singleton.
    + intros x [Hx| ->%list_elem_of_singleton]%elem_of_app; eauto.
    + rewrite length_app. simpl. lia.
Qed.

(** More fuel does not change what a call returns. *)
Lemma merge_includes_mono sub sub' st incs r :
  (∀ inc q, sub inc = Some q → sub' inc = Some q) →
  merge_includes sub st incs = Some r → merge_includes sub' st incs = Some r.
Proof.
  intros Hsub. revert st. induction incs as [|inc incs IH]; intros st; simpl; [done|].
  destruct (sub inc) as [q|] eqn:Hq; [|done]. rewrite (Hsub _ _ Hq). destruct q; auto.
Qed.

Lemma flatten_mono fuel fuel' id stack r :
  fuel ≤ fuel' → flatten fuel id raw stack = Some r → flatten fuel' id raw stack = Some r.
Proof.
  revert fuel' id stack r. induction fuel as [|fuel IH]; intros [|fuel'] id stack r Hle; simpl; try (done || lia).
  case_bool_decide; [done|]. destruct (raw !! id) as [p|]; [|done].
  destruct (merge_includes (λ inc, flatten fuel inc raw (stack ++ [id])) _ _) as [q|] eqn:Hm; [|done].
  intros Hr. erewrite (merge_includes_mono _ (λ inc, flatten fuel' inc raw (stack ++ [id]))); [exact Hr| |exact Hm].
  intros inc q' Hq. apply IH; [lia|done].
Qed.

(** A successful call, opened up. *)
Lemma flatten_inv fuel id stack flat :
  flatten fuel id raw stack = Some (Ok flat) →
  ∃ fuel' p subs, fuel = S fuel' ∧ (id ∉ stack) ∧ raw !! id = Some p ∧
    Forall2 (λ inc q, flatten fuel' inc raw (stack ++ [id]) = Some (Ok q)) (pf_Include p) subs ∧
    flat = (p <| pf_Metrics := in_order (merge_metrics (∅, []) ((subs ≫= pf_Metrics) ++ pf_Metrics p)) |>).
Proof.
  destruct fuel as [|fuel]; simpl; [done|]. case_bool_decide as Hst; [done|].
  destruct (raw !! id) as [p|] eqn:Hid; [|done].
  destruct (merge_includes _ _ _) as [[st|e]|] eqn:Hm; try done. intros [= <-].
  apply merge_includes_ok in Hm as (subs & Hsubs & ->). rewrite <-merge_metrics_app. naive_solver.
Qed.

Lemma flatten_sub fuel id stack flat x :
  flatten fuel id raw stack = Some (Ok flat) → includes raw id x →
  ∃ fuel' q, flatten fuel' x raw (stack ++ [id]) = Some (Ok q).
Proof.
  intros (fuel' & p & subs & -> & _ & Hid & Hsubs & _)%flatten_inv (p' & Hp' & Hx). simplify_eq.
  apply list_elem_of_lookup_1 in Hx as [i Hi]. destruct (Forall2_lookup_l _ _ _ _ _ Hsubs Hi) as (q & _ & Hq). eauto.
Qed.

Lemma flatten_reach fuel id stack flat x :
  flatten fuel id raw stack = Some (Ok flat) → rtc (includes raw) id x →
  ∃ fuel' stack' q, flatten fuel' x raw stack' = Some (Ok q) ∧ (∀ y, y ∈ stack → y ∈ stack').
Proof.
  intros Hf Hr. revert fuel stack flat Hf. induction Hr as [x|x y z Hxy _ IH]; intros fuel stack flat Hf; [eauto 7|].
  destruct (flatten_sub _ _ _ _ _ Hf Hxy) as (f' & q & Hq). destruct (IH _ _ _ Hq) as (f2 & st2 & q2 & Hq2 & Hst).
  exists f2, st2, q2. split; [done|]. intros w Hw. apply Hst, elem_of_app. by left.
Qed.

Lemma flatten_ok_resolvable fuel id stack flat :
  flatten fuel id raw stack = Some (Ok flat) → resolvable raw id.
Proof.
  intros Hf x Hx. destruct (flatten_reach _ _ _ _ _ Hf Hx) as (f1 & st1 & q1 & Hq1 & _). split.
  - destruct (flatten_inv _ _ _ _ Hq1) as (? & p & _ & _ & _ & Hp & _). eauto.
  - intros Hc. assert (∃ y, includes raw x y ∧ rtc (includes raw) y x) as (y & Hxy & Hyx).
    { inversion Hc; subst; eauto using tc_rtc, rtc_refl. }
    destruct (flatten_sub _ _ _ _ _ Hq1 Hxy) as (f2 & q2 & Hq2).
    destruct (flatten_reach _ _ _ _ _ Hq2 Hyx) as (f3 & st3 & q3 & Hq3 & Hst).
    destruct (flatten_inv _ _ _ _ Hq3) as (? & ? & ? & _ & Hnin & _). apply Hnin, Hst, elem_of_app. right. by left.
Qed.

(** A failing call found a missing profile, a name already on the stack, or a cycle below. *)
Lemma flatten_err fuel id stack e :
  flatten fuel id raw stack = Some (Err e) →
  ∃ x, rtc (includes raw) id x ∧ (raw !! x = None ∨ x ∈ stack ∨ tc (includes raw) x x).
Proof.
  revert id stack. induction fuel as [|fuel IH]; intros id stack; simpl; [done|].
  case_bool_decide as Hst; [intros _; exists id; eauto using rtc_refl|].
  destruct (raw !! id) as [p|] eqn:Hid; [|intros _; exists id; eauto using rtc_refl].
  destruct (merge_includes _ _ _) as [[st|e']|] eqn:Hm; try done. intros [= ->].
  apply merge_includes_err in Hm as (inc & Hinc & He). assert (includes raw id inc) as Hedge by by exists p.
  destruct (IH _ _ He) as (x & Hx & Hcase). exists x. split; [by eapply rtc_l|].
  destruct Hcase as [?|[[?|Hid']%elem_of_app|?]]; [by left|by right; left| |by right; right].
  apply list_elem_of_singleton in Hid' as ->. right; right. eapply tc_rtc_r; [by apply tc_once|done].
Qed.

(** The metrics of a flattened profile are those of the profiles it reaches. *)
Lemma flatten_metrics fuel id stack flat :
  flatten fuel id raw stack = Some (Ok flat) →
  NoDup (names (pf_Metrics flat)) ∧
  (∀ m, m ∈ pf_Metrics flat → ∃ x q, rtc (includes raw) id x ∧ raw !! x = Some q ∧ m ∈ pf_Metrics q) ∧
  (∀ x q m, rtc (includes raw) id x → raw !! x = Some q → m ∈ pf_Metrics q → mt_Name m ∈ names (pf_Metrics flat)).
Proof.
  revert id stack flat. induction fuel as [|fuel IH]; intros id stack flat; [done|].
  intros (fuel' & p & subs & [= <-] & _ & Hid & Hsubs & ->)%flatten_inv.
  set (all := (subs ≫= pf_Metrics) ++ pf_Metrics p). cbn [pf_Metrics update_field].
  pose proof (merge_metrics_ok _ all merge_empty_ok) as Hok. repeat split.
  - rewrite names_in_order by done. apply Hok.
  - intros m Hm. apply elem_of_in_order in Hm; [|done]. rewrite merge_metrics_lookup in Hm.
    destruct (list_find _ _) as [[i m']|] eqn:Hfind; [|done]. simplify_eq.
    apply list_find_Some in Hfind as (Hi & _ & _). apply list_elem_of_lookup_2 in Hi. rewrite elem_of_reverse in Hi.
    apply elem_of_app in Hi as [Hi|Hi]; [|exists id, p; eauto using rtc_refl].
    apply list_elem_of_bind in Hi as (q & Hq & Hin). apply list_elem_of_lookup_1 in Hin as [j Hj].
    destruct (Forall2_lookup_r _ _ _ _ _ Hsubs Hj) as (inc & Hinc & Hflat).
    destruct (IH _ _ _ Hflat) as (_ & Hfrom & _). destruct (Hfrom m Hq) as (x & q' & Hx & Hq' & Hm').
    exists x, q'. split; [|done]. eapply rtc_l; [|done]. exists p. eauto using list_elem_of_lookup_2.
  - intros x q m Hx Hq Hm. rewrite names_in_order by done. apply Hok.
    assert (∃ m', m' ∈ all ∧ mt_Name m' = mt_Name m) as (m' & Hm' & Hname).
    { apply rtc_inv in Hx as [<-|(inc & (p' & Hp' & Hinc) & Hx)]; simplify_eq.
      - exists m. split; [|done]. apply elem_of_app; by right.
      - apply list_elem_of_lookup_1 in Hinc as [j Hj]. destruct (Forall2_lookup_l _ _ _ _ _ Hsubs Hj) as (q' & Hq' & Hflat).
        destruct (IH _ _ _ Hflat) as (_ & _ & Hall). specialize (Hall _ _ _ Hx Hq Hm).
        apply list_elem_of_fmap in Hall as (m' & Hname & Hm'). exists m'. split; [|done].
        apply elem_of_app; left. apply list_elem_of_bind. exists q'. eauto using list_elem_of_lookup_2. }
    rewrite merge_metrics_lookup. destruct (list_find _ _) as [[i mm]|] eqn:Hfind; [eauto|].
    apply list_find_None in Hfind. rewrite Forall_forall in Hfind. by destruct (Hfind m'); [rewrite elem_of_reverse|].
Qed.

(** The including profile's own metrics win. *)
Lemma flatten_own fuel id stack flat p :
  flatten fuel id raw stack = Some (Ok flat) → raw !! id = Some p → NoDup (names (pf_Metrics p)) →
  flat = (p <| pf_Metrics := pf_Metrics flat |>) ∧ ∀ m, m ∈ pf_Metrics p → m ∈ pf_Metrics flat.
Proof.
  intros (fuel' & p' & subs & -> & _ & Hid & Hsubs & ->)%flatten_inv Hp Hnd. simplify_eq. split; [done|].
  intros m Hm. cbn [pf_Metrics update_field]. apply elem_of_in_order; [apply merge_metrics_ok, merge_empty_ok|].
  rewrite merge_metrics_app, merge_metrics_lookup. destruct (list_find _ _) as [[i m']|] eqn:Hfind.
  - apply list_find_Some in Hfind as (Hi & Hname & _). apply list_elem_of_lookup_2 in Hi. rewrite elem_of_reverse in Hi.
    f_equal. by eapply names_inj.
  - apply list_find_None in Hfind. rewrite Forall_forall in Hfind. by destruct (Hfind m); [rewrite elem_of_reverse|].
Qed.
End flatten.

(** ** The loaded set *)

Lemma flatten_all_ok raw ids byID byID' :
  flatten_all raw ids byID = Ok byID' →
  (∀ id, byID' !! id = if decide (id ∈ ids)
                       then match flatten (flatten_fuel raw) id raw [] with Some (Ok p) => Some p | _ => None end
                       else byID !! id)
  ∧ (∀ id, id ∈ ids → ∃ p, flatten (flatten_fuel raw) id raw [] = Some (Ok p)).
Proof.
  revert byID. induction ids as [|x ids IH]; intros byID; cbn [flatten_all].
  - intros [= <-]. split; [intros id; by rewrite decide_False by by intros ?%elem_of_nil|by intros id ?%elem_of_nil].
  - destruct (flatten (flatten_fuel raw) x raw []) as [[p|e]|] eqn:Hp; try done. intros Hall.
    destruct (IH _ Hall) as [Hlook Hok]. split.
    + intros id. rewrite Hlook. destruct (decide (id ∈ ids)) as [Hin|Hnin].
      * by rewrite decide_True by by right.
      * destruct (decide (id = x)) as [->|Hne].
        -- rewrite lookup_insert_eq, decide_True by left. by rewrite Hp.
        -- rewrite lookup_insert_ne, decide_False by (done || by intros [?|?]%elem_of_cons). done.
    + intros id [->|Hin]%elem_of_cons; eauto.
Qed.

Lemma ParseProfiles_ok `{RangeOrder} yaml docs ps :
  ParseProfiles yaml docs = Ok ps →
  ∃ raw, parse_docs yaml ∅ docs = Ok raw ∧
    map_Forall (λ id p, profile_wf p ∧ pf_ID p = id) raw ∧
    ∀ id, match raw !! id with
          | Some _ => ∃ flat, ps_byID ps !! id = Some flat ∧ flatten (flatten_fuel raw) id raw [] = Some (Ok flat)
          | None => ps_byID ps !! id = None
          end.
Proof.
  unfold ParseProfiles. destruct (parse_docs yaml ∅ docs) as [raw|e] eqn:Hraw; [|done].
  destruct (flatten_all _ _ _) as [byID|e] eqn:Hall; [|done]. intros [= <-]. exists raw. split; [done|]. split.
  - eapply parse_docs_wf; [|done]. apply map_Forall_empty.
  - apply flatten_all_ok in Hall as [Hlook Hok]. intros id.
    assert (id ∈ (range_order raw).*1 ↔ is_Some (raw !! id)) as Hin.
    { rewrite list_elem_of_fmap. split.
      - intros ([k p] & -> & Hp). apply elem_of_range_order in Hp. eauto.
      - intros [p Hp]. exists (id, p). split; [done|]. by apply elem_of_range_order. }
    cbn [ps_byID]. rewrite Hlook. destruct (raw !! id) as [p|] eqn:Hid.
    + rewrite decide_True by (apply Hin; eauto). destruct (Hok id) as [flat Hflat]; [apply Hin; eauto|].
      exists flat. by rewrite Hflat.
    + rewrite decide_False; [done|]. rewrite Hin. by intros [? ?].
Qed.

(** ** Matching *)

Definition matches_prefix (oid : string) (p : Profile) : Prop :=
  normOID (pf_SysObjectIDPrefix p) ≠ "" ∧ HasPrefix (normOID oid) (normOID (pf_SysObjectIDPrefix p)) = true.
Definition prefix_len (p : Profile) : nat := String.length (normOID (pf_SysObjectIDPrefix p)).

(** The accumulator of the loop: no candidate yet, or the longest of those seen. *)
Definition best_of (oid : string) (seen : list Profile) (best : Profile * Z) : Prop :=
  (best.2 = -1 ∧ ∀ p, p ∈ seen → ¬ matches_prefix oid p)%Z ∨
  (best.1 ∈ seen ∧ matches_prefix oid best.1 ∧ best.2 = Z.of_nat (prefix_len best.1) ∧
   ∀ p, p ∈ seen → matches_prefix oid p → prefix_len p ≤ prefix_len best.1).

Lemma match_step_best oid seen best p :
  best_of oid seen best → best_of oid (seen ++ [p]) (match_step (normOID oid) best p).
Proof.
  unfold match_step. intros Hbest.
  assert (∀ q, q ∈ seen ++ [p] ↔ q ∈ seen ∨ q = p) as Hsnoc by (intros q; by rewrite elem_of_app, list_elem_of_singleton).
  destruct (bool_decide _ || _) eqn:Hskip.
  - assert (¬ matches_prefix oid p) as Hno.
    { intros [? HP]. rewrite HP, orb_false_r in Hskip. by apply bool_decide_eq_true_1 in Hskip. }
    unfold best_of in *. setoid_rewrite Hsnoc. naive_solver.
  - apply orb_false_iff in Hskip as [Hne%bool_decide_eq_false_1 HP%negb_false_iff].
    assert (matches_prefix oid p) as Hp by by split.
    unfold best_of in *. setoid_rewrite Hsnoc. unfold slen, prefix_len in *.
    destruct (Z.ltb_spec best.2 (Z.of_nat (String.length (normOID (pf_SysObjectIDPrefix p))))) as [Hlt|Hge]; right; cbn [fst snd].
    + split; [by right|]. split; [done|]. split; [done|].
      destruct Hbest as [[_ Hno]|(_ & _ & Hlen & Hmax)].
      * intros q [Hq| ->] Hm; [by destruct (Hno q Hq)|done].
      * intros q [Hq| ->] Hm; [|done]. specialize (Hmax q Hq Hm). lia.
    + destruct Hbest as [[H1 _]|(Hin & Hm & Hlen & Hmax)]; [lia|].
      split; [by left|]. split; [done|]. split; [done|]. intros q [Hq| ->] Hmq; [by apply Hmax|lia].
Qed.

Lemma match_fold_best oid seen best l :
  best_of oid seen best → best_of oid (seen ++ l) (foldl (match_step (normOID oid)) best l).
Proof.
  revert seen best. induction l as [|p l IH]; intros seen best Hb; simpl; [by rewrite app_nil_r|].
  rewrite cons_middle, app_assoc. by apply IH, match_step_best.
Qed.

Lemma Match_spec `{RangeOrder} ps oid :
  match Match ps oid with
  | Some p => (∃ id, ps_byID ps !! id = Some p) ∧ matches_prefix oid p ∧
      ∀ id q, ps_byID ps !! id = Some q → matches_prefix oid q → prefix_len q ≤ prefix_len p
  | None => ∀ id q, ps_byID ps !! id = Some q → ¬ matches_prefix oid q
  end.
Proof.
  unfold Match. pose proof (match_fold_best oid [] (Profile0, -1)%Z (range_order (ps_byID ps)).*2) as Hb.
  destruct (foldl _ _ _) as [best len]. simpl in Hb.
  assert (∀ q, q ∈ (range_order (ps_byID ps)).*2 ↔ ∃ id, ps_byID ps !! id = Some q) as Hin.
  { intros q. rewrite list_elem_of_fmap. setoid_rewrite <-elem_of_range_order. split.
    - intros ([id q'] & -> & Hq). by exists id.
    - intros [id Hq]. by exists (id, q). }
  destruct Hb as [[Hlen Hno]|(Hbest & Hm & Hlen & Hmax)]; simpl in *; [left; split; [done|by intros p ?%elem_of_nil]| |].
  - subst len. simpl. intros id q Hq. apply Hno, Hin. eauto.
  - rewrite Hlen. destruct (Z.leb_spec 0 (Z.of_nat (prefix_len best))); [|lia]. split; [by apply Hin|]. split; [done|].
    intros id q Hq. apply Hmax, Hin. eauto.
Qed.

(** ** Theorems *)

(** C30. Resolving includes terminates: with fuel above the number of profiles [flatten] returns,
    more fuel changes nothing, and it succeeds exactly when every profile reachable by includes
    exists and none lies on an include cycle. Loading therefore never overflows the stack. *)
Theorem include_resolution_terminates (raw : gmap string Profile) id fuel :
  size raw < fuel →
  (∃ r, flatten fuel id raw [] = Some r ∧ flatten (flatten_fuel raw) id raw [] = Some r) ∧
  ((∃ flat, flatten fuel id raw [] = Some (Ok flat)) ↔ resolvable raw id).
Proof.
  intros Hf. assert (∀ n, size raw < n → is_Some (flatten n id raw [])) as Hret.
  { intros n Hn. apply flatten_returns; [constructor|by intros x ?%elem_of_nil|simpl; lia]. }
  split.
  - destruct (Hret (flatten_fuel raw)) as [r Hr]; [unfold flatten_fuel; lia|].
    exists r. split; [|done]. eapply flatten_mono; [|done]. unfold flatten_fuel. lia.
  - split; [by intros [flat Hflat%flatten_ok_resolvable]|]. intros Hres.
    destruct (Hret fuel Hf) as [[flat|e] Hr]; [eauto|].
    apply flatten_err in Hr as (x & Hx & Hcase). destruct (Hres x Hx) as [[p Hp] Hc].
    destruct Hcase as [?|[?%elem_of_nil|?]]; congruence || done.
Qed.

(** Profiles for the examples: two vendors build on [interfaces], which builds on [system]. *)
Definition ex_sysName : Metric := MkMetric "sysName" "1.3.6.1.2.1.1.5.0" None TypeString.
Definition ex_ifOper : Metric :=
  MkMetric "ifOperStatus" "" (Some (MkTableSpec "1.3.6.1.2.1.2.2.1.8" "" (Some {["ifName" := "1.3.6.1.2.1.31.1.1.1.1"]}))) TypeInteger.
Definition ex_uptime : Metric := MkMetric "sysUpTime" ".1.3.6.1.2.1.1.3.0" None TypeDuration.
Definition ex_profile_system : Profile := MkProfile "system" "" [] "" [ex_sysName].
Definition ex_profile_interfaces : Profile := MkProfile "interfaces" "" ["system"] "" [ex_ifOper].
Definition ex_profile_cisco : Profile := MkProfile "cisco" "" ["interfaces"; "system"] "1.3.6.1.4.1.9" [ex_uptime].
Definition ex_yaml (doc : string) : res Profile :=
  if bool_decide (doc = "s") then Ok ex_profile_system
  else if bool_decide (doc = "i") then Ok ex_profile_interfaces
  else if bool_decide (doc = "c") then Ok ex_profile_cisco
  else Err (EText "yaml: line 1: could not find expected key").
Definition ex_raw : gmap string Profile :=
  <["system" := ex_profile_system]> (<["interfaces" := ex_profile_interfaces]> {["cisco" := ex_profile_cisco]}).

Lemma include_resolution_terminates_witness :
  size ex_raw < 4 ∧ resolvable ex_raw "cisco" ∧
  ∃ flat, flatten 4 "cisco" ex_raw [] = Some (Ok flat) ∧ names (pf_Metrics flat) = ["sysName"; "ifOperStatus"; "sysUpTime"].
Proof.
  assert (size ex_raw < 4) as Hs by (vm_compute; lia). split; [exact Hs|].
  assert (∃ flat, flatten 4 "cisco" ex_raw [] = Some (Ok flat) ∧ names (pf_Metrics flat) = ["sysName"; "ifOperStatus"; "sysUpTime"]) as He.
  { eexists. split; [vm_compute; reflexivity|vm_compute; reflexivity]. }
  split; [|exact He]. apply (include_resolution_terminates ex_raw "cisco" 4 Hs).
  destruct He as [flat [Hf _]]. exists flat. exact Hf.
Defined.

(** A loaded profile is the union of the profiles it includes, directly or not: metric names are
    unique, every metric is the profile's own or comes from a profile it reaches, no reachable name
    is lost, and the profile's own metrics win over included ones of the same name. *)
Theorem profiles_resolve_their_includes `{RangeOrder} yaml docs ps :
  ParseProfiles yaml docs = Ok ps →
  ∃ raw, parse_docs yaml ∅ docs = Ok raw ∧ dom (ps_byID ps) = dom raw ∧
  ∀ id own flat, raw !! id = Some own → Profiles_Get ps id = Some flat →
    NoDup (names (pf_Metrics flat)) ∧ Forall metric_wf (pf_Metrics flat) ∧
    (∀ m, m ∈ pf_Metrics own → m ∈ pf_Metrics flat) ∧
    (∀ m, m ∈ pf_Metrics flat → ∃ x q, rtc (includes raw) id x ∧ raw !! x = Some q ∧ m ∈ pf_Metrics q) ∧
    (∀ x q m, rtc (includes raw) id x → raw !! x = Some q → m ∈ pf_Metrics q → mt_Name m ∈ names (pf_Metrics flat)) ∧
    pf_ID flat = id ∧ pf_SysObjectIDPrefix flat = pf_SysObjectIDPrefix own.
Proof.
  intros (raw & Hraw & Hwf & Hall)%ParseProfiles_ok. exists raw. split; [done|]. split.
  - apply set_eq. intros id. rewrite !elem_of_dom. specialize (Hall id).
    destruct (raw !! id); [destruct Hall as (? & -> & _); split; eauto|by rewrite Hall].
  - intros id own flat Hown Hget. specialize (Hall id). rewrite Hown in Hall. destruct Hall as (flat' & Hget' & Hflat).
    unfold Profiles_Get in Hget. simplify_eq.
    destruct (Hwf _ _ Hown) as [(_ & _ & Hnd) Hid]. destruct (flatten_metrics _ _ _ _ _ Hflat) as (Hnames & Hfrom & Hto).
    destruct (flatten_own _ _ _ _ _ _ Hflat Hown Hnd) as [Heq Hwin]. split; [done|]. split; [|split; [done|split; [done|split; [done|]]]].
    + apply Forall_forall. intros m Hm. destruct (Hfrom m Hm) as (x & q & _ & Hq & Hin).
      destruct (Hwf _ _ Hq) as [(_ & Hms & _) _]. rewrite Forall_forall in Hms. auto.
    + rewrite Heq. by simpl.
Qed.

Lemma profiles_resolve_their_includes_witness :
  ∃ ps flat, ParseProfiles (RO:=stored_order) ex_yaml ["s"; "i"; "c"] = Ok ps ∧
    Profiles_Get ps "cisco" = Some flat ∧ ex_uptime ∈ pf_Metrics flat ∧ "sysName" ∈ names (pf_Metrics flat).
Proof.
  destruct (ParseProfiles (RO:=stored_order) ex_yaml ["s"; "i"; "c"]) as [ps|e] eqn:Hp; [|vm_compute in Hp; discriminate].
  destruct (@profiles_resolve_their_includes stored_order _ _ _ Hp) as (raw & Hraw & Hdom & Hall).
  vm_compute in Hp. injection Hp as <-.
  eexists _, _. split; [reflexivity|]. split; [vm_compute; reflexivity|].
  assert (parse_docs (RO:=stored_order) ex_yaml ∅ ["s"; "i"; "c"] = Ok ex_raw) as Hex by (vm_compute; reflexivity).
  rewrite Hex in Hraw. injection Hraw as <-.
  destruct (Hall "cisco" ex_profile_cisco _ eq_refl eq_refl) as (_ & _ & Hown & _ & Hto & _). split.
  - apply Hown. left.
  - apply (Hto "system" ex_profile_system ex_sysName); [|reflexivity|left].
    apply rtc_once. exists ex_profile_cisco. split; [reflexivity|right; left].
Defined.

(** Automatic profile selection picks a profile with the longest matching prefix and finds one
    whenever there is one; it does not depend on the order of the map unless two profiles declare
    the same prefix. *)
Theorem match_finds_longest_prefix (RO1 RO2 : RangeOrder) ps oid :
  match Match (RO:=RO1) ps oid with
  | Some p => (∃ id, ps_byID ps !! id = Some p) ∧ matches_prefix oid p ∧
      ∀ id q, ps_byID ps !! id = Some q → matches_prefix oid q → prefix_len q ≤ prefix_len p
  | None => ∀ id q, ps_byID ps !! id = Some q → ¬ matches_prefix oid q
  end ∧
  ((∀ i j p q, ps_byID ps !! i = Some p → ps_byID ps !! j = Some q → i ≠ j →
     normOID (pf_SysObjectIDPrefix p) ≠ "" → normOID (pf_SysObjectIDPrefix p) ≠ normOID (pf_SysObjectIDPrefix q)) →
   Match (RO:=RO1) ps oid = Match (RO:=RO2) ps oid).
Proof.
  pose proof (@Match_spec RO1 ps oid) as H1. pose proof (@Match_spec RO2 ps oid) as H2. split; [done|]. intros Hdistinct.
  destruct (Match (RO:=RO1) ps oid) as [p|], (Match (RO:=RO2) ps oid) as [q|]; [| | |done].
  - destruct H1 as ([i Hi] & [Hpn Hpp] & Hpmax), H2 as ([j Hj] & [Hqn Hqp] & Hqmax).
    destruct (decide (i = j)) as [->|Hne]; [congruence|]. exfalso. apply (Hdistinct _ _ _ _ Hi Hj Hne Hpn).
    eapply HasPrefix_same_length; [done..|]. apply Nat.le_antisymm; [by eapply Hqmax|by eapply Hpmax].
  - destruct H1 as ([i Hi] & Hm & _). by destruct (H2 i p Hi).
  - destruct H2 as ([i Hi] & Hm & _). by destruct (H1 i q Hi).
Qed.

Lemma match_finds_longest_prefix_witness :
  let ps := MkProfiles ex_raw in
  Match (RO:=stored_order) ps ".1.3.6.1.4.1.9.1.516" = Some ex_profile_cisco ∧
  (∀ RO, Match (RO:=RO) ps ".1.3.6.1.4.1.9.1.516" = Some ex_profile_cisco).
Proof.
  assert (Match (RO:=stored_order) (MkProfiles ex_raw) ".1.3.6.1.4.1.9.1.516" = Some ex_profile_cisco) as Hm by (vm_compute; reflexivity).
  split; [exact Hm|]. intros RO. rewrite <-Hm. apply (match_finds_longest_prefix RO stored_order).
  intros i j p q Hi Hj Hne. simpl in Hi, Hj. unfold ex_raw in *.
  repeat match goal with
  | H : <[?k := _]> _ !! _ = Some _ |- _ => apply lookup_insert_Some in H as [[? ?]|[? H]]; subst
  | H : {[?k := _]} !! _ = Some _ |- _ => apply lookup_singleton_Some in H as [? ?]; subst
  end;
  first [ contradiction Hne; reflexivity
        | intros Hn; exfalso; apply Hn; vm_compute; reflexivity
        | intros _; vm_compute; discriminate ].
Defined.

(** Matching compares text, not object identifiers: a prefix matches an OID whose next digits
    merely continue its last arc, so the profile of enterprise 9 is chosen for a device of
    enterprise 99. *)
Theorem match_crosses_arc_boundary `{RangeOrder} :
  Match (MkProfiles {["cisco" := ex_profile_cisco]}) "1.3.6.1.4.1.99.1.1" = Some ex_profile_cisco.
Proof.
  pose proof (Match_spec (MkProfiles {["cisco" := ex_profile_cisco]}) "1.3.6.1.4.1.99.1.1") as Hm.
  destruct (Match _ _) as [p|]; simpl in Hm.
  - destruct Hm as ([id Hid] & _ & _). by apply lookup_singleton_Some in Hid as [_ <-].
  - exfalso. apply (Hm "cisco" ex_profile_cisco); [by rewrite lookup_singleton_eq|]. split; [done|reflexivity].
Qed.
