(* ===== verification/Session.v ===== *)
(** * Package [collector/snmp], sessions: credentials, targets, PDUs and error categories
    (src/internal/collector/snmp/session.go)

    gosnmp, the protocol library, is a parameter ([GoSnmpLib]): connecting, requesting and walking
    act on a world [W] (the network and the agents). *)

From S2P Require Import Prelude GoLib GoFloat Domain Regexp Profile Secrets.

(** ** Data *)

Inductive Kind := KindMissing | KindNumber | KindString.
#[export] Instance Kind_eq_dec : EqDecision Kind.
Proof. solve_decision. Defined.

Record PDU := MkPDU {
  pd_OID : string;
  pd_Kind : Kind;
  pd_Num : float64;
  pd_Str : string;
}.

(** One connection to one device; requests act on the world and may fail. *)
Record Session (W : Type) := MkSession {
  se_Get : list string → ST W error (list PDU);
  se_Walk : string → ST W error (list PDU);
  se_Close : W → W;
}.
Arguments MkSession {W}.
Arguments se_Get {W}.
Arguments se_Walk {W}.
Arguments se_Close {W}.

Record Credential := MkCredential {
  cr_Version : string;
  cr_Community : string;
  cr_User : string;
  cr_Level : string;
  cr_AuthProtocol : string;
  cr_AuthPassphrase : string;
  cr_PrivProtocol : string;
  cr_PrivPassphrase : string;
}.
#[export] Instance eta_Credential : Eta Credential := λ c,
  MkCredential (cr_Version c) (cr_Community c) (cr_User c) (cr_Level c) (cr_AuthProtocol c)
    (cr_AuthPassphrase c) (cr_PrivProtocol c) (cr_PrivPassphrase c).

Definition Credential_String (c : Credential) : string := "snmp.Credential{redacted}".

Abbreviation Dialer W := (string → Credential → ST W error (Session W)).

(** ** Credentials *)

Definition CredentialFromSecret (s : smap) : res Credential :=
  let c := MkCredential (Secret_Get s "version") (Secret_Get s "community") (Secret_Get s "user")
             (Secret_Get s "level") (Secret_Get s "auth_protocol") (Secret_Get s "auth_passphrase")
             (Secret_Get s "priv_protocol") (Secret_Get s "priv_passphrase") in
  let c := if bool_decide (cr_Version c = "") then c <| cr_Version := "2c" |> else c in
  if bool_decide (cr_Version c = "2c") then
    if bool_decide (cr_Community c = "") then Err (Errorf CategoryValidation "snmp v2c credential needs a community")
    else Ok c
  else if bool_decide (cr_Version c = "3") then
    if bool_decide (cr_User c = "") then Err (Errorf CategoryValidation "snmp v3 credential needs a user")
    else
      let c := if bool_decide (cr_Level c = "") then c <| cr_Level := "noAuthNoPriv" |> else c in
      if bool_decide (cr_Level c = "noAuthNoPriv") then Ok c
      else if bool_decide (cr_Level c = "authNoPriv") then
        if bool_decide (cr_AuthPassphrase c = "")
        then Err (Errorf CategoryValidation ("snmp v3 " +:+ cr_Level c +:+ " needs auth_passphrase"))
        else Ok c
      else if bool_decide (cr_Level c = "authPriv") then
        if bool_decide (cr_AuthPassphrase c = "") || bool_decide (cr_PrivPassphrase c = "")
        then Err (Errorf CategoryValidation "snmp v3 authPriv needs auth and priv passphrases")
        else Ok c
      else Err (Errorf CategoryValidation ("unknown snmp v3 level " +:+ Quote (cr_Level c)))
  else Err (Errorf CategoryValidation ("unsupported snmp version " +:+ Quote (cr_Version c))).

(** ** Targets *)

Fixpoint LastIndexByte (s : string) (c : ascii) : option nat :=
  match s with
  | "" => None
  | String d s' =>
      match LastIndexByte s' c with
      | Some i => Some (S i)
      | None => if bool_decide (d = c) then Some O else None
      end
  end.
Fixpoint IndexByte (s : string) (c : ascii) : option nat :=
  match s with
  | "" => None
  | String d s' => if bool_decide (d = c) then Some O else S <$> IndexByte s' c
  end.

(** [net.SplitHostPort]; its errors only say that there is no port to split off. *)
Definition SplitHostPort (hostport : string) : option (string * string) :=
  match LastIndexByte hostport ":" with
  | None => None
  | Some i =>
      let port := drop_str (S i) hostport in
      if HasPrefix hostport "[" then
        match IndexByte hostport "]" with
        | None => None
        | Some e =>
            if bool_decide (S e = i) then
              if mem_char "[" (drop_str 1 hostport) || mem_char "]" (drop_str (S e) hostport) then None
              else Some (take_str (e - 1) (drop_str 1 hostport), port)
            else None
        end
      else
        let host := take_str i hostport in
        if mem_char ":" host || mem_char "[" hostport || mem_char "]" hostport then None
        else Some (host, port)
  end.

(** [strconv.ParseUint(s, 10, 16)]. *)
Fixpoint parse_digits (acc : Z) (s : string) : option Z :=
  match s with
  | "" => Some acc
  | String c s' => if cls_digit c then parse_digits (acc * 10 + (Z.of_N (byte_of c) - 48)) s' else None
  end.
Definition ParseUint (max : Z) (s : string) : option Z :=
  if bool_decide (s = "") then None
  else match parse_digits 0 s with Some n => if (n <=? max)%Z then Some n else None | None => None end.

Definition SplitTarget (target : string) : res (string * Z) :=
  match SplitHostPort target with
  | None => Ok (target, 161%Z)
  | Some (host, portStr) =>
      let invalid := Err (Errorf CategoryValidation ("invalid port in management address " +:+ Quote target)) in
      match ParseUint 65535 portStr with
      | None => invalid
      | Some p => if (p =? 0)%Z then invalid else Ok (host, p)
      end
  end.

(** ** Protocol names *)

Inductive SnmpV3AuthProtocol := NoAuth | MD5 | SHA | SHA224 | SHA256 | SHA384 | SHA512.
Inductive SnmpV3PrivProtocol := NoPriv | DES | AES | AES192 | AES256.

Definition authProtocol (name : string) : res SnmpV3AuthProtocol :=
  let n := ToUpper name in
  if bool_decide (n = "MD5") then Ok MD5
  else if bool_decide (n = "SHA" ∨ n = "SHA1" ∨ n = "") then Ok SHA
  else if bool_decide (n = "SHA224") then Ok SHA224
  else if bool_decide (n = "SHA256") then Ok SHA256
  else if bool_decide (n = "SHA384") then Ok SHA384
  else if bool_decide (n = "SHA512") then Ok SHA512
  else Err (Errorf CategoryValidation ("unknown auth protocol " +:+ Quote name)).

Definition privProtocol (name : string) : res SnmpV3PrivProtocol :=
  let n := ToUpper name in
  if bool_decide (n = "DES") then Ok DES
  else if bool_decide (n = "AES" ∨ n = "AES128" ∨ n = "") then Ok AES
  else if bool_decide (n = "AES192") then Ok AES192
  else if bool_decide (n = "AES256") then Ok AES256
  else Err (Errorf CategoryValidation ("unknown privacy protocol " +:+ Quote name)).

(** ** Errors *)

(** The platform category of a library error, by its text. *)
Definition classify (e : error) : error :=
  let msg := ToLower (error_text e) in
  if existsb (Contains msg) ["wrong digest"; "unknown user"; "authentication"; "unknownusername"; "decryption"; "unsupported security level"]
  then EDomain CategoryAuthentication "snmp" e
  else if existsb (Contains msg) ["timeout"; "deadline"; "i/o timeout"] then EDomain CategoryTimeout "snmp" e
  else EDomain CategoryTransient "snmp" e.

(** The error status of a response, as far as the code tells them apart, with its text. *)
Inductive SNMPError := StatusNoError | StatusNoSuchName | StatusNoAccess | StatusAuthorizationError | StatusOther (text : string).
Definition SNMPError_String (s : SNMPError) : string :=
  match s with
  | StatusNoError => "NoError" | StatusNoSuchName => "NoSuchName" | StatusNoAccess => "NoAccess"
  | StatusAuthorizationError => "AuthorizationError" | StatusOther text => text
  end.

Definition classifyStatus (s : SNMPError) : error :=
  let err := EText ("snmp error status " +:+ SNMPError_String s) in
  match s with
  | StatusNoAccess | StatusAuthorizationError => EDomain CategoryAuthentication "snmp" err
  | StatusNoSuchName => EDomain CategoryUnsupported "snmp" err
  | _ => EDomain CategoryTransient "snmp" err
  end.

(** ** Values of the library *)

(** The dynamic value of a variable: any of Go's integer types, a float, bytes, a string, or
    something else with the text [fmt.Sprint] gives it. *)
Inductive snmp_value :=
| SVInteger (n : Z)
| SVFloat (f : float64)
| SVBytes (s : string)
| SVString (s : string)
| SVOther (text : string).

(** The bytes of a [[]byte] in decimal between brackets. *)
Definition Sprint (v : snmp_value) : string :=
  match v with
  | SVInteger n => FormatInt n
  | SVFloat f => FormatFloat_g None f
  | SVBytes s => "[" +:+ Join ((λ c, FormatInt (Z.of_N (byte_of c))) <$> String.list_ascii_of_string s) " " +:+ "]"
  | SVString s => s
  | SVOther text => text
  end.

Inductive Asn1BER :=
| NoSuchObject | NoSuchInstance | EndOfMibView | Null | OctetString | ObjectIdentifier | IPAddress
| Integer | Counter32 | Gauge32 | TimeTicks | Counter64 | OtherType.

Record SnmpPDU := MkSnmpPDU { sp_Name : string; sp_Type : Asn1BER; sp_Value : snmp_value }.

Definition number (v : snmp_value) : option float64 :=
  match v with
  | SVInteger n => Some (f_of_int n)
  | SVFloat f => Some f
  | _ => None
  end.

Definition convert_one (v : SnmpPDU) : PDU :=
  let oid := normOID (sp_Name v) in
  match sp_Type v with
  | NoSuchObject | NoSuchInstance | EndOfMibView | Null => MkPDU oid KindMissing f_zero ""
  | OctetString => MkPDU oid KindString f_zero (match sp_Value v with SVBytes b => b | x => Sprint x end)
  | ObjectIdentifier | IPAddress => MkPDU oid KindString f_zero (normOID (Sprint (sp_Value v)))
  | _ =>
      match number (sp_Value v) with
      | Some n => MkPDU oid KindNumber n ""
      | None => MkPDU oid KindString f_zero (Sprint (sp_Value v))
      end
  end.
Definition convert (vars : list SnmpPDU) : list PDU := convert_one <$> vars.

(** ** The dialer *)

Inductive SnmpVersion := Version1 | Version2c | Version3.
Inductive SnmpV3MsgFlags := NoAuthNoPriv | AuthNoPriv | AuthPriv.

Record UsmSecurityParameters := MkUsm {
  us_UserName : string;
  us_AuthenticationProtocol : SnmpV3AuthProtocol;
  us_AuthenticationPassphrase : string;
  us_PrivacyProtocol : SnmpV3PrivProtocol;
  us_PrivacyPassphrase : string;
}.
#[export] Instance eta_Usm : Eta UsmSecurityParameters := λ u,
  MkUsm (us_UserName u) (us_AuthenticationProtocol u) (us_AuthenticationPassphrase u) (us_PrivacyProtocol u) (us_PrivacyPassphrase u).

Record GoSNMP := MkGoSNMP {
  gs_Target : string;
  gs_Port : Z;
  gs_Timeout : Duration;
  gs_Retries : Z;
  gs_MaxRepetitions : Z;
  gs_Version : SnmpVersion;
  gs_Community : string;
  gs_MsgFlags : SnmpV3MsgFlags;
  gs_SecurityParameters : option UsmSecurityParameters;
}.

Record SnmpPacket := MkSnmpPacket { pk_Error : SNMPError; pk_Variables : list SnmpPDU }.

(** The library's operations on a connection. *)
Record GoSnmpLib (W : Type) := MkGoSnmpLib {
  lib_Connect : GoSNMP → ST W error unit;
  lib_Get : GoSNMP → list string → ST W error SnmpPacket;
  lib_WalkAll : GoSNMP → string → ST W error (list SnmpPDU);
  lib_BulkWalkAll : GoSNMP → string → ST W error (list SnmpPDU);
  lib_Close : GoSNMP → W → W;
}.
Arguments lib_Connect {W}.
Arguments lib_Get {W}.
Arguments lib_WalkAll {W}.
Arguments lib_BulkWalkAll {W}.
Arguments lib_Close {W}.

Record GoSNMPDialer := MkGoSNMPDialer { gd_Timeout : Duration; gd_Retries : Z; gd_MaxRepetitions : Z }.

(** A failing operation of the library with its error classified. *)
Definition classified {W A} (m : ST W error A) : ST W error A := λ w,
  match m w with (Ok a, w') => (Ok a, w') | (Err e, w') => (Err (classify e), w') end.

Definition goSession {W} (lib : GoSnmpLib W) (g : GoSNMP) : Session W :=
  MkSession
    (λ oids, classified (lib_Get lib g oids) ≫= λ pkt,
       match pk_Error pkt with
       | StatusNoError => mret (convert (pk_Variables pkt))
       | s => ST_fail (classifyStatus s)
       end)
    (λ root, classified (match gs_Version g with Version1 => lib_WalkAll lib g root | _ => lib_BulkWalkAll lib g root end)
             ≫= λ vars, mret (convert vars))
    (lib_Close lib g).

(** The security parameters of a v3 credential. *)
Definition usm_of (cred : Credential) : res (SnmpV3MsgFlags * UsmSecurityParameters) :=
  let usm := MkUsm (cr_User cred) NoAuth "" NoPriv "" in
  let flags := if bool_decide (cr_Level cred = "authNoPriv") then AuthNoPriv
               else if bool_decide (cr_Level cred = "authPriv") then AuthPriv else NoAuthNoPriv in
  match flags with
  | NoAuthNoPriv => Ok (flags, usm)
  | _ =>
      match authProtocol (cr_AuthProtocol cred) with
      | Err e => Err e
      | Ok ap =>
          let usm := usm <| us_AuthenticationProtocol := ap |> <| us_AuthenticationPassphrase := cr_AuthPassphrase cred |> in
          match flags with
          | AuthPriv =>
              match privProtocol (cr_PrivProtocol cred) with
              | Err e => Err e
              | Ok pp => Ok (flags, usm <| us_PrivacyProtocol := pp |> <| us_PrivacyPassphrase := cr_PrivPassphrase cred |>)
              end
          | _ => Ok (flags, usm)
          end
      end
  end.

Definition dial_config (d : GoSNMPDialer) (host : string) (port : Z) (cred : Credential) : res GoSNMP :=
  let g := MkGoSNMP host port (gd_Timeout d) (gd_Retries d) (gd_MaxRepetitions d) in
  if bool_decide (cr_Version cred = "2c") then Ok (g Version2c (cr_Community cred) NoAuthNoPriv None)
  else if bool_decide (cr_Version cred = "3") then
    match usm_of cred with
    | Err e => Err e
    | Ok (flags, usm) => Ok (g Version3 "" flags (Some usm))
    end
  else Err (Errorf CategoryValidation ("unsupported snmp version " +:+ Quote (cr_Version cred))).

Definition Dial {W} (lib : GoSnmpLib W) (d : GoSNMPDialer) : Dialer W := λ target cred,
  ST_lift (SplitTarget target) ≫= λ '(host, port),
  ST_lift (dial_config d host port cred) ≫= λ g,
  classified (lib_Connect lib g) ≫= λ _,
  mret (goSession lib g).

(** ** Facts *)

Lemma authProtocol_real name ap : authProtocol name = Ok ap → ap ≠ NoAuth.
Proof. unfold authProtocol. cbv zeta. repeat case_bool_decide; by intros [= <-]. Qed.
Lemma privProtocol_real name pp : privProtocol name = Ok pp → pp ≠ NoPriv.
Proof. unfold privProtocol. cbv zeta. repeat case_bool_decide; by intros [= <-]. Qed.

(** What an accepted credential holds. *)
Lemma credential_complete s c :
  CredentialFromSecret s = Ok c →
  (cr_Version c = "2c" ∧ cr_Community c = Secret_Get s "community" ∧ cr_Community c ≠ "") ∨
  (cr_Version c = "3" ∧ cr_User c ≠ "" ∧
   ((cr_Level c = "noAuthNoPriv" ∧ (Secret_Get s "level" = "" ∨ Secret_Get s "level" = "noAuthNoPriv")) ∨
    (cr_Level c = "authNoPriv" ∧ Secret_Get s "level" = "authNoPriv" ∧ cr_AuthPassphrase c ≠ "") ∨
    (cr_Level c = "authPriv" ∧ Secret_Get s "level" = "authPriv" ∧ cr_AuthPassphrase c ≠ "" ∧ cr_PrivPassphrase c ≠ ""))).
Proof.
  unfold CredentialFromSecret. cbv zeta.
  generalize (Secret_Get s "version"), (Secret_Get s "community"), (Secret_Get s "user"), (Secret_Get s "level"),
    (Secret_Get s "auth_protocol"), (Secret_Get s "auth_passphrase"), (Secret_Get s "priv_protocol"), (Secret_Get s "priv_passphrase").
  intros v com u l ap apw pp ppw. intros Hc. cbn [cr_Version] in Hc. destruct (bool_decide (v = "")) eqn:Hv; bool_to_prop; simpl in Hc.
  { case_bool_decide; [discriminate Hc|]. injection Hc as <-. by left. }
  case_bool_decide as H2; [case_bool_decide; [done|]; injection Hc as <-; by left|].
  case_bool_decide as H3; [|done]. case_bool_decide as Hu; [done|]. right.
  cbn [cr_Level] in Hc. destruct (bool_decide (l = "")) eqn:Hl; bool_to_prop; simpl in Hc.
  { injection Hc as <-. split; [done|]. split; [done|]. left. split; [done|by left]. }
  case_bool_decide as Hn; [injection Hc as <-; split; [done|]; split; [done|]; left; split; [done|by right]|].
  case_bool_decide as Ha.
  { case_bool_decide; [done|]. injection Hc as <-. split; [done|]. split; [done|]. by right; left. }
  case_bool_decide as Hp; [|done]. destruct (_ || _) eqn:Hpw; [done|]. injection Hc as <-. bool_to_prop.
  split; [done|]. split; [done|]. by right; right.
Qed.

(** A session has exactly the security the secret asks for: a v2c session its community, a v3
    session the requested level and no lower one, with a real authentication protocol and a passphrase
    whenever the level authenticates, and a real privacy protocol and passphrase when it encrypts. *)
Theorem session_security_as_configured s c d host port g :
  CredentialFromSecret s = Ok c → dial_config d host port c = Ok g →
  (gs_Version g = Version2c ∧ gs_Community g = Secret_Get s "community" ∧ gs_Community g ≠ "") ∨
  (gs_Version g = Version3 ∧ ∃ usm, gs_SecurityParameters g = Some usm ∧ us_UserName usm ≠ "" ∧
    (gs_MsgFlags g = NoAuthNoPriv → Secret_Get s "level" = "" ∨ Secret_Get s "level" = "noAuthNoPriv") ∧
    (Secret_Get s "level" = "authNoPriv" → gs_MsgFlags g = AuthNoPriv) ∧
    (Secret_Get s "level" = "authPriv" → gs_MsgFlags g = AuthPriv) ∧
    (gs_MsgFlags g ≠ NoAuthNoPriv → us_AuthenticationProtocol usm ≠ NoAuth ∧ us_AuthenticationPassphrase usm ≠ "") ∧
    (gs_MsgFlags g = AuthPriv → us_PrivacyProtocol usm ≠ NoPriv ∧ us_PrivacyPassphrase usm ≠ "")).
Proof.
  intros Hc%credential_complete Hg. unfold dial_config in Hg. destruct Hc as [(Hv & Hcom & Hne)|(Hv & Hu & Hl)]; rewrite Hv in Hg.
  - injection Hg as <-. left. simpl. split; [done|]. by rewrite <-Hcom.
  - right. change (bool_decide ("3" = "2c")) with false in Hg. change (bool_decide ("3" = "3")) with true in Hg. cbv iota in Hg.
    unfold usm_of in Hg. destruct Hl as [(Hl & Hs)|[(Hl & Hs & Ha)|(Hl & Hs & Ha & Hp)]]; rewrite Hl in Hg; simpl in Hg.
    + injection Hg as <-. split; [done|]. eexists. split; [done|]. simpl. split_and!; intros; try (done || congruence); destruct Hs; congruence.
    + destruct (authProtocol _) as [ap|e] eqn:Hap; [|done]. injection Hg as <-. apply authProtocol_real in Hap.
      split; [done|]. eexists. split; [done|]. simpl. split_and!; intros; by (done || congruence).
    + destruct (authProtocol _) as [ap|e] eqn:Hap; [|done]. destruct (privProtocol _) as [pp|e] eqn:Hpp; [|done].
      injection Hg as <-. apply authProtocol_real in Hap. apply privProtocol_real in Hpp.
      split; [done|]. eexists. split; [done|]. simpl. split_and!; intros; by (done || congruence).
Qed.

Definition ex_v3_secret : smap :=
  Some (list_to_map [("version", "3"); ("user", "poller"); ("level", "authPriv"); ("auth_passphrase", "a-secret"); ("priv_passphrase", "p-secret")]).

Lemma session_security_as_configured_witness :
  ∃ c g, CredentialFromSecret ex_v3_secret = Ok c ∧ dial_config (MkGoSNMPDialer Second 1 10) "192.0.2.1" 161 c = Ok g ∧
    gs_Version g = Version3 ∧ gs_MsgFlags g = AuthPriv.
Proof.
  destruct (CredentialFromSecret ex_v3_secret) as [c|e] eqn:Hc; [|vm_compute in Hc; discriminate].
  destruct (dial_config (MkGoSNMPDialer Second 1 10) "192.0.2.1" 161 c) as [g|e] eqn:Hg;
    [|vm_compute in Hc; injection Hc as <-; vm_compute in Hg; discriminate].
  exists c, g. split; [reflexivity|]. split; [exact Hg|].
  destruct (session_security_as_configured _ _ _ _ _ _ Hc Hg) as [(Hv & _)|(Hv & usm & _ & _ & _ & _ & Hp & _)].
  - exfalso. vm_compute in Hc. injection Hc as <-. vm_compute in Hg. injection Hg as <-. discriminate.
  - split; [exact Hv|]. apply Hp. vm_compute. reflexivity.
Defined.
