(* ===== verification/Poller.v ===== *)
(** * Package [collector/snmp], poller: one collection cycle of one device
    (src/internal/collector/snmp/poller.go) *)

From S2P Require Import Prelude GoLib GoFloat Domain Regexp Inventory Profile Secrets Session.

Definition oidSysDescr : string := "1.3.6.1.2.1.1.1.0".
Definition oidSysObjectID : string := "1.3.6.1.2.1.1.2.0".
Definition oidSysName : string := "1.3.6.1.2.1.1.5.0".

Record Facts := MkFacts {
  fa_SysName : string;
  fa_SysDescr : string;
  fa_SysObjectID : string;
  fa_ProfileID : string;
}.
#[export] Instance eta_Facts : Eta Facts := λ f, MkFacts (fa_SysName f) (fa_SysDescr f) (fa_SysObjectID f) (fa_ProfileID f).

Record Result := MkResult {
  r_Observations : list Observation;
  r_Facts : Facts;
  r_Skipped : Z;
}.
#[export] Instance eta_Result : Eta Result := λ r, MkResult (r_Observations r) (r_Facts r) (r_Skipped r).
Definition Result0 : Result := MkResult [] (MkFacts "" "" "" "") 0.

(** ** Decoding *)

Definition decode (t : ValueType) (p : PDU) : option value :=
  if bool_decide (t = TypeString) then
    if bool_decide (pd_Kind p = KindString) then Some (VString (pd_Str p))
    else Some (VString (FormatFloat_f (pd_Num p)))
  else if bool_decide (t = TypeDuration) then
    if bool_decide (pd_Kind p = KindNumber) then Some (VFloat64 (f_div (pd_Num p) (f_of_int 100))) else None
  else if bool_decide (t = TypeInteger ∨ t = TypeGauge ∨ t = TypeCounter) then
    if bool_decide (pd_Kind p = KindNumber) then Some (VFloat64 (pd_Num p)) else None
  else None.

Definition indexPDUs (pdus : list PDU) : gmap string PDU := foldl (λ m p, <[pd_OID p := p]> m) ∅ pdus.

(** A row of the column [prefix]: its index, [None] for what is not a value below the column. *)
Definition row_index (prefix : string) (p : PDU) : option string :=
  if bool_decide (pd_Kind p = KindMissing) || negb (HasPrefix (pd_OID p) prefix) then None
  else Some (TrimPrefix (pd_OID p) prefix).

Definition rowStrings (pdus : list PDU) (colOID : string) : gmap string string :=
  let prefix := normOID colOID +:+ "." in
  foldl (λ out p,
    match row_index prefix p with
    | None => out
    | Some idx => <[idx := if bool_decide (pd_Kind p = KindString) then pd_Str p else FormatFloat_f (pd_Num p)]> out
    end) ∅ pdus.

(** [scalars[start:end]] for each round of the batch loop; [fuel] bounds the rounds. *)
Fixpoint batches {A} (fuel : nat) (batch : nat) (l : list A) : list (list A) :=
  match fuel, l with
  | S fuel, _ :: _ => take batch l :: batches fuel batch (drop batch l)
  | _, _ => []
  end.

Section poll.
Context `{Sha256} {RO : RangeOrder} {W : Type}.

(** What one poll holds: its result so far, the columns walked so far and the world. *)
Record PollState := MkPollState { pl_res : Result; pl_walks : gmap string (list PDU); pl_world : W }.
#[export] Instance eta_PollState : Eta PollState := λ s, MkPollState (pl_res s) (pl_walks s) (pl_world s).
Abbreviation M := (ST PollState error).

(** A request of the session, run on the world. *)
Definition on_world {A} (m : ST W error A) : M A := λ s,
  let '(r, w) := m (pl_world s) in (r, s <| pl_world := w |>).
Definition modify_res (f : Result → Result) : M unit := λ s, (Ok (), s <| pl_res := f (pl_res s) |>).

Definition skip (r : Result) : Result := r <| r_Skipped := int_incr (r_Skipped r) |>.

(** What is fixed during a poll: the cycle, the device, the profile and the time. *)
Section cycle.
Context (cycleID : string) (dev : Device) (profile : Profile) (observedAt : Time).

Definition observation (m : Metric) (oid : string) (v : value) (labels : smap) : Observation :=
  MkObservation (NewObservationID cycleID (d_ID dev) (mt_Name m) labels) cycleID (d_ID dev) "snmp" (mt_Name m) v
    labels observedAt time_zero (Some {["profile" := pf_ID profile; "oid" := oid]}).

Definition emit (m : Metric) (oid : string) (v : value) (labels : smap) (r : Result) : Result :=
  r <| r_Observations := r_Observations r ++ [observation m oid v labels] |>.

(** ** Scalars *)

Definition as_string (v : value) : string := match v with VString s => s | _ => "" end.

Definition learn_fact (oid : string) (v : value) (r : Result) : Result :=
  if bool_decide (oid = oidSysName) then r <| r_Facts := (r_Facts r) <| fa_SysName := as_string v |> |>
  else if bool_decide (oid = oidSysDescr) then r <| r_Facts := (r_Facts r) <| fa_SysDescr := as_string v |> |>
  else if bool_decide (oid = oidSysObjectID) then r <| r_Facts := (r_Facts r) <| fa_SysObjectID := as_string v |> |>
  else r.

Definition handle_scalar (byOID : gmap string PDU) (r : Result) (m : Metric) : Result :=
  let oid := normOID (mt_OID m) in
  match byOID !! oid with
  | None => skip r
  | Some pdu =>
      if bool_decide (pd_Kind pdu = KindMissing) then skip r
      else
        match decode (mt_Type m) pdu with
        | None => skip r
        | Some v => learn_fact oid v (emit m oid v None r)
        end
  end.

Definition poll_batch (sess : Session W) (ms : list Metric) : M unit :=
  on_world (se_Get sess (normOID ∘ mt_OID <$> ms)) ≫= λ pdus,
  modify_res (λ r, foldl (handle_scalar (indexPDUs pdus)) r ms).

Definition is_scalar (m : Metric) : bool := negb (bool_decide (mt_OID m = "")).
Definition scalars : list Metric := filter (λ m, Is_true (is_scalar m)) (pf_Metrics profile).

Definition batch_size (MaxOIDsPerGet : Z) : nat := Z.to_nat (if (MaxOIDsPerGet <=? 0)%Z then 10 else MaxOIDsPerGet).

Definition poll_scalars (sess : Session W) (MaxOIDsPerGet : Z) : M unit :=
  ST_foldl (λ _ ms, poll_batch sess ms) () (batches (length scalars) (batch_size MaxOIDsPerGet) scalars).

(** ** Tables *)

(** Each distinct column is walked once per poll. *)
Definition walk (sess : Session W) (root : string) : M (list PDU) := λ s,
  let root := normOID root in
  match pl_walks s !! root with
  | Some w => (Ok w, s)
  | None =>
      match on_world (se_Walk sess root) s with
      | (Err e, s) => (Err e, s)
      | (Ok w, s) => (Ok w, s <| pl_walks := <[root := w]> (pl_walks s) |>)
      end
  end.

Definition walk_labels (sess : Session W) (labels : smap) : M (gmap string (gmap string string)) :=
  ST_foldl (λ cols lo, walk sess lo.2 ≫= λ w, mret (<[lo.1 := rowStrings w lo.2]> cols)) ∅ (range_order (entries labels)).

Definition row_labels (indexLabel idx : string) (labelCols : gmap string (gmap string string)) : gmap string string :=
  foldl (λ labels lr, match lr.2 !! idx with Some s => <[lr.1 := s]> labels | None => labels end)
    {[indexLabel := idx]} (range_order labelCols).

Definition index_label (t : TableSpec) : string := if bool_decide (ts_IndexLabel t = "") then "index" else ts_IndexLabel t.

Definition handle_row (m : Metric) (t : TableSpec) (labelCols : gmap string (gmap string string)) (r : Result) (p : PDU) : Result :=
  match row_index (normOID (ts_OID t) +:+ ".") p with
  | None => r
  | Some idx =>
      match decode (mt_Type m) p with
      | None => skip r
      | Some v => emit m (pd_OID p) v (Some (row_labels (index_label t) idx labelCols)) r
      end
  end.

Definition poll_table (sess : Session W) (m : Metric) : M unit :=
  match mt_Table m with
  | None => mret ()
  | Some t =>
      walk sess (ts_OID t) ≫= λ col,
      walk_labels sess (ts_Labels t) ≫= λ labelCols,
      modify_res (λ r, foldl (handle_row m t labelCols) r col)
  end.

Definition poll_tables (sess : Session W) : M unit := ST_foldl (λ _ m, poll_table sess m) () (pf_Metrics profile).

Definition by_observation_id (o1 o2 : Observation) : bool := str_lt (o_ObservationID o1) (o_ObservationID o2).
Definition sort_result (r : Result) : Result := r <| r_Observations := sort_stable by_observation_id (r_Observations r) |>.

(** Everything after the profile is chosen. *)
Definition poll_profile (sess : Session W) (MaxOIDsPerGet : Z) : M unit :=
  modify_res (λ r, r <| r_Facts := (r_Facts r) <| fa_ProfileID := pf_ID profile |> |>) ≫= λ _,
  poll_scalars sess MaxOIDsPerGet ≫= λ _,
  poll_tables sess ≫= λ _,
  modify_res sort_result.
End cycle.

(** ** The whole poll *)

Record Poller := MkPoller {
  po_Dialer : Dialer W;
  po_Profiles : Profiles;
  po_Secrets : string → res smap;
  po_MaxOIDsPerGet : Z;
}.

Definition selectProfile (ps : Profiles) (sess : Session W) (dev : Device) : ST W error Profile :=
  let id := cs_Profile (d_Collection dev) in
  if negb (bool_decide (id = "")) && negb (bool_decide (id = "auto")) then
    match Profiles_Get ps id with
    | Some prof => mret prof
    | None => ST_fail (Errorf CategoryValidation ("device " +:+ d_ID dev +:+ ": unknown profile " +:+ Quote id))
    end
  else if bool_decide (id = "") then mret (default Profile0 (Profiles_Get ps "system"))
  else
    se_Get sess [oidSysObjectID] ≫= λ pdus,
    let matched :=
      match pdus with
      | [pdu] => if bool_decide (pd_Kind pdu = KindString) then Match ps (pd_Str pdu) else None
      | _ => None
      end in
    match matched with
    | Some prof => mret prof
    | None =>
        match Profiles_Get ps "system" with
        | Some prof => mret prof
        | None => ST_fail (Errorf CategoryUnsupported ("device " +:+ d_ID dev +:+ ": no profile matches and no fallback"))
        end
    end.

(** [Poll] returns what it has together with an error. [observedAt] is the clock's reading once the
    profile is chosen. The session is closed on every path that opened one. *)
Definition Poll (p : Poller) (observedAt : Time) (dev : Device) (cycleID : string) (w : W) : (Result * option error) * W :=
  match po_Secrets p (d_CredentialsRef dev) with
  | Err e => (Result0, Some e, w)
  | Ok secret =>
      match CredentialFromSecret secret with
      | Err e => (Result0, Some e, w)
      | Ok cred =>
          match po_Dialer p (d_ManagementAddress dev) cred w with
          | (Err e, w) => (Result0, Some e, w)
          | (Ok sess, w) =>
              match selectProfile (po_Profiles p) sess dev w with
              | (Err e, w) => (Result0, Some e, se_Close sess w)
              | (Ok profile, w) =>
                  match poll_profile cycleID dev profile observedAt sess (po_MaxOIDsPerGet p) (MkPollState Result0 ∅ w) with
                  | (Err e, s) => (pl_res s, Some e, se_Close sess (pl_world s))
                  | (Ok _, s) => (pl_res s, None, se_Close sess (pl_world s))
                  end
              end
          end
      end
  end.
End poll.
Arguments PollState : clear implicits.
Arguments Poller : clear implicits.
