(* ===== verification/PollerFacts.v ===== *)
(** * Facts of the SNMP poller

    The reference of a poll asks an agent one object at a time and walks a column whenever it is
    mentioned; the poller batches requests and caches walks. On an agent that answers each object
    independently of the others the two agree. *)

From S2P Require Import Prelude GoLib GoFloat Domain Regexp Inventory Profile ProfileFacts Secrets Session Poller.

(** ** Batches *)

Lemma batches_concat {A} fuel n (l : list A) : 0 < n → length l ≤ fuel → concat (batches fuel n l) = l.
Proof.
  intros Hn. revert l. induction fuel as [|fuel IH]; intros [|x l] Hl; simpl in *; try (done || lia).
  rewrite IH; [by rewrite take_drop|]. rewrite length_drop. simpl. lia.
Qed.

Lemma batches_elem {A} fuel n (l b : list A) x : b ∈ batches fuel n l → x ∈ b → x ∈ l.
Proof.
  revert l. induction fuel as [|fuel IH]; intros [|y l]; simpl; try by intros ?%elem_of_nil.
  intros [->|Hb]%elem_of_cons Hx.
  - by eapply subseteq_take.
  - by eapply (subseteq_drop n), IH.
Qed.

Lemma batches_bounded {A} fuel n (l b : list A) : b ∈ batches fuel n l → length b ≤ n.
Proof.
  revert l. induction fuel as [|fuel IH]; intros [|x l]; simpl; try by intros ?%elem_of_nil.
  intros [->|Hb]%elem_of_cons; [rewrite length_take; lia|eauto].
Qed.

Lemma batch_size_pos z : 0 < batch_size z.
Proof. unfold batch_size. destruct (Z.leb_spec z 0); lia. Qed.

(** ** Indexing responses *)

Lemma indexPDUs_lookup get oids oid :
  (∀ o, pd_OID (get o) = o) → indexPDUs (get <$> oids) !! oid = if decide (oid ∈ oids) then Some (get oid) else None.
Proof.
  intros Hget. unfold indexPDUs. induction oids as [|o oids IH] using rev_ind; [done|].
  rewrite fmap_app, foldl_app. simpl. rewrite Hget. destruct (decide (oid = o)) as [->|Hne].
  - rewrite lookup_insert_eq, decide_True; [done|]. apply elem_of_app. right. left.
  - rewrite lookup_insert_ne by done. rewrite IH.
    destruct (decide (oid ∈ oids)) as [Hin|Hnin].
    + rewrite decide_True; [done|]. apply elem_of_app. by left.
    + rewrite decide_False; [done|]. by intros [?|?%list_elem_of_singleton]%elem_of_app.
Qed.

(** ** Building a map by ranging over another *)

Lemma foldl_range {RO : RangeOrder} {A B} (g : A → option B) (m : gmap string A) (acc : gmap string B) :
  foldl (λ acc kv, match g kv.2 with Some v => <[kv.1 := v]> acc | None => acc end) acc (range_order m) = omap g m ∪ acc.
Proof.
  assert (∀ (l : list (string * A)) (m : gmap string A) (acc : gmap string B), NoDup l.*1 → list_to_map l = m →
    foldl (λ acc kv, match g kv.2 with Some v => <[kv.1 := v]> acc | None => acc end) acc l = omap g m ∪ acc) as Hl.
  { clear m acc. induction l as [|[k a] l IH]; intros m acc Hnd <-; simpl.
    - by rewrite omap_empty, (left_id_L ∅ (∪)).
    - apply NoDup_cons in Hnd as [Hk Hnd]. rewrite (IH _ _ Hnd eq_refl).
      assert (list_to_map (M:=gmap string A) l !! k = None) as Hnone by by apply not_elem_of_list_to_map.
      apply map_eq. intros j. rewrite !lookup_union, !lookup_omap. destruct (decide (j = k)) as [->|Hne].
      + rewrite Hnone, lookup_insert_eq. simpl. destruct (g a) as [b|]; simpl; [|done].
        rewrite lookup_insert_eq, (left_id_L None _). by destruct (acc !! k).
      + rewrite lookup_insert_ne by done. destruct (g a); [by rewrite lookup_insert_ne|done]. }
  apply Hl.
  - rewrite range_order_perm. apply NoDup_fst_map_to_list.
  - rewrite <-(list_to_map_to_list m) at 2. apply list_to_map_proper; [|apply range_order_perm].
    rewrite range_order_perm. apply NoDup_fst_map_to_list.
Qed.

Section facts.
Context `{Sha256} {RO : RangeOrder} {W : Type}.

(** An agent: a value for every object, a list of rows for every column. *)
Record Agent := MkAgent { ag_get : string → PDU; ag_walk : string → list PDU }.

(** The session talks to the agent: a response lists the requested objects in order, each with the
    value it has on its own, whatever else is requested and whatever state the network is in. *)
Definition talks_to (sess : Session W) (ag : Agent) : Prop :=
  (∀ oid, pd_OID (ag_get ag oid) = oid) ∧
  (∀ oids w, ∃ w', se_Get sess oids w = (Ok (ag_get ag <$> oids), w')) ∧
  (∀ root w, ∃ w', se_Walk sess root w = (Ok (ag_walk ag root), w')).

(** ** The reference *)

Section cycle.
Context (cycleID : string) (dev : Device) (profile : Profile) (observedAt : Time) (ag : Agent).
Abbreviation observation := (observation cycleID dev profile observedAt).
Abbreviation emit := (emit cycleID dev profile observedAt).

(** A scalar on its own. *)
Definition ref_scalar (r : Result) (m : Metric) : Result :=
  let oid := normOID (mt_OID m) in
  let pdu := ag_get ag oid in
  if bool_decide (pd_Kind pdu = KindMissing) then skip r
  else match decode (mt_Type m) pdu with
       | None => skip r
       | Some v => learn_fact oid v (emit m oid v None r)
       end.

(** The labels of a row: the label columns that have the row, over the index. *)
Definition ref_labels (t : TableSpec) (idx : string) : gmap string string :=
  omap (λ oid, rowStrings (ag_walk ag (normOID oid)) oid !! idx) (entries (ts_Labels t)) ∪ {[index_label t := idx]}.

Definition ref_row (m : Metric) (t : TableSpec) (r : Result) (p : PDU) : Result :=
  match row_index (normOID (ts_OID t) +:+ ".") p with
  | None => r
  | Some idx =>
      match decode (mt_Type m) p with
      | None => skip r
      | Some v => emit m (pd_OID p) v (Some (ref_labels t idx)) r
      end
  end.

Definition ref_table (r : Result) (m : Metric) : Result :=
  match mt_Table m with
  | None => r
  | Some t => foldl (ref_row m t) r (ag_walk ag (normOID (ts_OID t)))
  end.

Definition ref_poll : Result :=
  let r := Result0 <| r_Facts := (r_Facts Result0) <| fa_ProfileID := pf_ID profile |> |> in
  sort_result (foldl ref_table (foldl ref_scalar r (scalars profile)) (pf_Metrics profile)).

(** ** The poller computes the reference *)

Context (sess : Session W) (Hagent : talks_to sess ag).
#[local] Set Default Proof Using "All".

(** Steps of the poll, by what they do to the result; the walk cache only holds what the agent says. *)
Definition cache_ok (s : PollState W) : Prop := map_Forall (λ root w, w = ag_walk ag root) (pl_walks s).
Definition effect {A} (m : ST (PollState W) error A) (a : A) (f : Result → Result) : Prop :=
  ∀ s, cache_ok s → ∃ s', m s = (Ok a, s') ∧ pl_res s' = f (pl_res s) ∧ cache_ok s'.

Lemma effect_ret {A} (a : A) : effect (mret a) a id.
Proof. intros s Hs. by exists s. Qed.

Lemma effect_bind {A B} (m : ST (PollState W) error A) (k : A → ST (PollState W) error B) a b f g :
  effect m a f → effect (k a) b g → effect (m ≫= k) b (g ∘ f).
Proof.
  intros Hm Hk s Hs. destruct (Hm s Hs) as (s1 & H1 & Hr1 & Hs1). destruct (Hk s1 Hs1) as (s2 & H2 & Hr2 & Hs2).
  exists s2. rewrite (ST_bind_Ok _ _ _ _ _ H1). repeat split; [done| |done]. by rewrite Hr2, Hr1.
Qed.

Lemma effect_modify f : effect (modify_res f) () f.
Proof. intros s Hs. eexists. split; [reflexivity|]. by split. Qed.

Lemma effect_ext {A} (m : ST (PollState W) error A) a f g : (∀ r, f r = g r) → effect m a f → effect m a g.
Proof. intros Hfg Hm s Hs. destruct (Hm s Hs) as (s' & ? & Hr & ?). exists s'. by rewrite <-Hfg. Qed.

Lemma effect_foldl {A} (m : A → ST (PollState W) error unit) f l :
  (∀ x, x ∈ l → effect (m x) () (λ r, f r x)) → effect (ST_foldl (λ _ x, m x) () l) () (λ r, foldl f r l).
Proof.
  induction l as [|x l IH]; intros Hl; simpl; [apply effect_ret|].
  apply (effect_bind _ _ () () (λ r, f r x) (λ r, foldl f r l)); [apply Hl; left|].
  apply IH. intros y Hy. apply Hl. by right.
Qed.

Lemma poll_batch_effect ms :
  effect (poll_batch cycleID dev profile observedAt sess ms) () (λ r, foldl ref_scalar r ms).
Proof.
  destruct Hagent as (Hoid & Hget & _). intros s Hs. destruct (Hget (normOID ∘ mt_OID <$> ms) (pl_world s)) as [w' Hw].
  eexists. split.
  { unfold poll_batch. erewrite ST_bind_Ok; [reflexivity|]. unfold on_world. rewrite Hw. reflexivity. }
  split; [|done]. simpl.
  assert (∀ l r, l ⊆ ms → foldl (handle_scalar cycleID dev profile observedAt (indexPDUs (ag_get ag <$> (normOID ∘ mt_OID <$> ms)))) r l
                         = foldl ref_scalar r l) as Hl; [|by apply Hl].
  induction l as [|m l IH]; intros r Hsub; simpl; [done|]. rewrite IH by (intros x Hx; apply Hsub; by right). f_equal.
  unfold handle_scalar. rewrite indexPDUs_lookup, decide_True by (done || (apply list_elem_of_fmap; exists m; split; [done|apply Hsub; left])).
  done.
Qed.

Lemma poll_scalars_effect n :
  effect (poll_scalars cycleID dev profile observedAt sess n) () (λ r, foldl ref_scalar r (scalars profile)).
Proof.
  unfold poll_scalars. eapply effect_ext; [|apply (effect_foldl _ (foldl ref_scalar)); intros ms _; apply poll_batch_effect].
  intros r. simpl. rewrite <-(batches_concat (length (scalars profile)) (batch_size n) (scalars profile)) at 3 by (apply batch_size_pos || done).
  generalize (batches (length (scalars profile)) (batch_size n) (scalars profile)). intros bs. revert r.
  induction bs as [|b bs IH]; intros r; simpl; [done|]. by rewrite foldl_app, IH.
Qed.

Lemma walk_effect root : effect (walk sess root) (ag_walk ag (normOID root)) id.
Proof.
  destruct Hagent as (_ & _ & Hwalk). intros s Hs. unfold walk.
  destruct (pl_walks s !! normOID root) as [w|] eqn:Hw.
  - exists s. by rewrite (Hs _ _ Hw).
  - destruct (Hwalk (normOID root) (pl_world s)) as [w' Hw']. unfold on_world. rewrite Hw'. eexists. split; [reflexivity|].
    split; [done|]. by apply map_Forall_insert_2.
Qed.

Lemma walk_list_effect l (acc : gmap string (gmap string string)) :
  effect (ST_foldl (λ (cols : gmap string (gmap string string)) lo, walk sess lo.2 ≫= λ w, mret (<[lo.1 := rowStrings w lo.2]> cols)) acc l)
    (foldl (λ (cols : gmap string (gmap string string)) (lo : string * string), <[lo.1 := rowStrings (ag_walk ag (normOID lo.2)) lo.2]> cols) acc l) id.
Proof.
  revert acc. induction l as [|lo l IH]; intros acc; simpl; [apply effect_ret|].
  apply (effect_bind _ _ (<[lo.1 := rowStrings (ag_walk ag (normOID lo.2)) lo.2]> acc) _ id id); [|apply IH].
  apply (effect_bind _ _ (ag_walk ag (normOID lo.2)) _ id id); [apply walk_effect|apply effect_ret].
Qed.

Lemma walk_labels_effect labels :
  effect (walk_labels sess labels) ((λ oid, rowStrings (ag_walk ag (normOID oid)) oid) <$> entries labels) id.
Proof.
  pose proof (walk_list_effect (range_order (entries labels)) ∅) as He.
  rewrite (foldl_range (λ oid, Some (rowStrings (ag_walk ag (normOID oid)) oid)) (entries labels) ∅) in He.
  rewrite (right_id_L ∅ (∪)) in He. 
  assert ((λ oid, rowStrings (ag_walk ag (normOID oid)) oid) <$> entries labels =
          omap (λ oid, Some (rowStrings (ag_walk ag (normOID oid)) oid)) (entries labels)) as ->; [|exact He].
  apply map_eq. intros k. rewrite lookup_omap, lookup_fmap. by destruct (entries labels !! k).
Qed.

Lemma row_labels_ref t idx :
  row_labels (index_label t) idx ((λ oid, rowStrings (ag_walk ag (normOID oid)) oid) <$> entries (ts_Labels t)) = ref_labels t idx.
Proof.
  unfold row_labels, ref_labels. rewrite (foldl_range (λ rows : gmap string string, rows !! idx)). f_equal.
  apply map_eq. intros k. rewrite !lookup_omap, lookup_fmap. by destruct (entries (ts_Labels t) !! k).
Qed.

Lemma poll_table_effect m : effect (poll_table cycleID dev profile observedAt sess m) () (λ r, ref_table r m).
Proof.
  unfold poll_table, ref_table. destruct (mt_Table m) as [t|]; [|apply effect_ret].
  eapply effect_ext; [|eapply effect_bind; [apply walk_effect|eapply effect_bind; [apply walk_labels_effect|apply effect_modify]]].
  intros r. simpl. generalize (ag_walk ag (normOID (ts_OID t))). intros col. revert r.
  induction col as [|p col IH]; intros r; simpl; [done|]. rewrite IH. f_equal.
  unfold handle_row, ref_row. destruct (row_index _ p) as [idx|]; [|done]. by rewrite row_labels_ref.
Qed.

Lemma poll_profile_effect n :
  effect (poll_profile cycleID dev profile observedAt sess n) ()
    (λ r, sort_result (foldl ref_table
            (foldl ref_scalar
               (r <| r_Facts := (r_Facts r) <| fa_ProfileID := pf_ID profile |> |>) (scalars profile)) (pf_Metrics profile))).
Proof.
  unfold poll_profile. eapply effect_ext; [|eapply effect_bind; [apply effect_modify|eapply effect_bind; [apply poll_scalars_effect|
    eapply effect_bind; [apply effect_foldl; intros m _; apply poll_table_effect|apply effect_modify]]]].
  done.
Qed.
End cycle.
End facts.

(** ** What the reference contains *)

Section contents.
Context `{Sha256} {RO : RangeOrder}.
Context (cycleID : string) (dev : Device) (profile : Profile) (observedAt : Time) (ag : Agent).

(** The observation of one scalar and of one row, if it has one. *)
Definition scalar_obs (m : Metric) : option Observation :=
  let oid := normOID (mt_OID m) in
  let pdu := ag_get ag oid in
  if bool_decide (pd_Kind pdu = KindMissing) then None
  else (λ v, observation cycleID dev profile observedAt m oid v None) <$> decode (mt_Type m) pdu.

Definition row_obs (m : Metric) (t : TableSpec) (p : PDU) : option Observation :=
  idx ← row_index (normOID (ts_OID t) +:+ ".") p;
  v ← decode (mt_Type m) p;
  Some (observation cycleID dev profile observedAt m (pd_OID p) v (Some (ref_labels ag t idx))).

Definition table_obs (m : Metric) : list Observation :=
  match mt_Table m with
  | None => []
  | Some t => omap (row_obs m t) (ag_walk ag (normOID (ts_OID t)))
  end.

(** The rows that are values of the column but cannot be decoded. *)
Definition bad_row (m : Metric) (t : TableSpec) (p : PDU) : bool :=
  match row_index (normOID (ts_OID t) +:+ ".") p with
  | None => false
  | Some _ => match decode (mt_Type m) p with None => true | Some _ => false end
  end.
Definition bad_rows (m : Metric) : nat :=
  match mt_Table m with
  | None => 0
  | Some t => length (filter (λ p, Is_true (bad_row m t p)) (ag_walk ag (normOID (ts_OID t))))
  end.
Definition bad_scalar (m : Metric) : bool := match scalar_obs m with None => true | Some _ => false end.

Abbreviation ref_scalar := (ref_scalar cycleID dev profile observedAt ag).
Abbreviation ref_table := (ref_table cycleID dev profile observedAt ag).
Abbreviation ref_row := (ref_row cycleID dev profile observedAt ag).

(** A result extended by observations and by a number of skipped values; facts aside. *)
Definition extends (r r' : Result) (obs : list Observation) (n : nat) : Prop :=
  r_Observations r' = r_Observations r ++ obs ∧ r_Skipped r' = Nat.iter n int_incr (r_Skipped r).

Lemma extends_refl r : extends r r [] 0.
Proof. split; [by rewrite app_nil_r|done]. Qed.
Lemma extends_trans r1 r2 r3 o1 o2 n1 n2 : extends r1 r2 o1 n1 → extends r2 r3 o2 n2 → extends r1 r3 (o1 ++ o2) (n1 + n2).
Proof.
  intros [Ho1 Hn1] [Ho2 Hn2]. split; [by rewrite Ho2, Ho1, (assoc_L _)|].
  by rewrite Hn2, Hn1, (Nat.add_comm n1 n2), Nat.iter_add.
Qed.
Lemma extends_skip r : extends r (skip r) [] 1.
Proof. split; [by rewrite app_nil_r|done]. Qed.
Lemma extends_emit r m oid v labels :
  extends r (emit cycleID dev profile observedAt m oid v labels r) [observation cycleID dev profile observedAt m oid v labels] 0.
Proof. done. Qed.
Lemma learn_fact_keeps oid v r : r_Observations (learn_fact oid v r) = r_Observations r ∧ r_Skipped (learn_fact oid v r) = r_Skipped r.
Proof. unfold learn_fact. by repeat case_bool_decide. Qed.

Lemma skipped_wraps n : Nat.iter n int_incr 0%Z = wrap64 (Z.of_nat n).
Proof.
  induction n as [|n IH]; [done|]. cbn [Nat.iter nat_rect]. unfold int_incr at 1.
  change (nat_rect (λ _ : nat, Z) 0%Z (λ _ : nat, int_incr) n) with (Nat.iter n int_incr 0%Z). rewrite IH.
  unfold wrap64, int_min. f_equal. rewrite Nat2Z.inj_succ. Z.div_mod_to_equations. nia.
Qed.

Lemma ref_scalar_extends r m : extends r (ref_scalar r m) (option_list (scalar_obs m)) (if bad_scalar m then 1 else 0).
Proof.
  unfold bad_scalar, scalar_obs, PollerFacts.ref_scalar. case_bool_decide; [apply extends_skip|].
  destruct (decode _ _) as [v|]; simpl; [|apply extends_skip].
  destruct (learn_fact_keeps (normOID (mt_OID m)) v (emit cycleID dev profile observedAt m (normOID (mt_OID m)) v None r)) as [Ho Hs].
  split; [by rewrite Ho|by rewrite Hs].
Qed.

Lemma ref_scalars_extends r ms :
  extends r (foldl ref_scalar r ms) (omap scalar_obs ms) (length (filter (λ m, Is_true (bad_scalar m)) ms)).
Proof.
  revert r. induction ms as [|m ms IH]; intros r; [apply extends_refl|]. simpl.
  pose proof (extends_trans _ _ _ _ _ _ _ (ref_scalar_extends r m) (IH (ref_scalar r m))) as He.
  rewrite filter_cons. unfold bad_scalar in *. by destruct (scalar_obs m).
Qed.

Lemma ref_row_extends m t r p : extends r (ref_row m t r p) (option_list (row_obs m t p)) (if bad_row m t p then 1 else 0).
Proof.
  unfold bad_row, row_obs, PollerFacts.ref_row. destruct (row_index _ p) as [idx|]; simpl; [|apply extends_refl].
  destruct (decode _ _) as [v|]; simpl; [apply extends_emit|apply extends_skip].
Qed.

Lemma ref_rows_extends m t r ps :
  extends r (foldl (ref_row m t) r ps) (omap (row_obs m t) ps) (length (filter (λ p, Is_true (bad_row m t p)) ps)).
Proof.
  revert r. induction ps as [|p ps IH]; intros r; [apply extends_refl|]. simpl.
  pose proof (extends_trans _ _ _ _ _ _ _ (ref_row_extends m t r p) (IH (ref_row m t r p))) as He.
  rewrite filter_cons. destruct (row_obs m t p), (bad_row m t p); exact He.
Qed.

Lemma ref_table_extends r m : extends r (ref_table r m) (table_obs m) (bad_rows m).
Proof. unfold PollerFacts.ref_table, table_obs, bad_rows. destruct (mt_Table m); [apply ref_rows_extends|apply extends_refl]. Qed.

Lemma ref_tables_extends r ms : extends r (foldl ref_table r ms) (ms ≫= table_obs) (sum_list_with bad_rows ms).
Proof.
  revert r. induction ms as [|m ms IH]; intros r; [apply extends_refl|]. simpl.
  exact (extends_trans _ _ _ _ _ _ _ (ref_table_extends r m) (IH (ref_table r m))).
Qed.

(** Everything a poll of the agent produces. *)
Definition expected_observations : list Observation :=
  omap scalar_obs (scalars profile) ++ (pf_Metrics profile ≫= table_obs).
Definition expected_skipped : nat :=
  length (filter (λ m, Is_true (bad_scalar m)) (scalars profile)) + sum_list_with bad_rows (pf_Metrics profile).

Lemma ref_poll_contents :
  r_Observations (ref_poll cycleID dev profile observedAt ag) ≡ₚ expected_observations ∧
  r_Skipped (ref_poll cycleID dev profile observedAt ag) = wrap64 (Z.of_nat expected_skipped).
Proof.
  unfold ref_poll. cbv zeta. set (r0 := _ <| r_Facts := _ |>).
  destruct (extends_trans _ _ _ _ _ _ _ (ref_scalars_extends r0 (scalars profile))
              (ref_tables_extends (foldl ref_scalar r0 (scalars profile)) (pf_Metrics profile))) as [Ho Hs].
  unfold sort_result. cbn [r_Observations r_Skipped update_field]. rewrite sort_stable_perm, Ho, Hs. split; [done|].
  apply skipped_wraps.
Qed.
End contents.

(** ** Distinct observations *)

Definition obs_key (o : Observation) : string * smap := (o_Metric o, o_Labels o).

(** No label column takes the name of the index label. *)
Definition index_label_free (m : Metric) : Prop :=
  match mt_Table m with None => True | Some t => mget (ts_Labels t) (index_label t) = None end.

Section distinct.
Context `{Sha256} {RO : RangeOrder}.
Context (cycleID : string) (dev : Device) (profile : Profile) (observedAt : Time) (ag : Agent).
Context (Hwalk : ∀ root, NoDup (pd_OID <$> ag_walk ag root)).
#[local] Set Default Proof Using "All".

Abbreviation scalar_obs := (scalar_obs cycleID dev profile observedAt ag).
Abbreviation table_obs := (table_obs cycleID dev profile observedAt ag).
Abbreviation row_obs := (row_obs cycleID dev profile observedAt ag).

Lemma row_obs_key m t p o :
  row_obs m t p = Some o → ∃ idx, pd_OID p = normOID (ts_OID t) +:+ "." +:+ idx ∧ obs_key o = (mt_Name m, Some (ref_labels ag t idx)).
Proof.
  unfold PollerFacts.row_obs, row_index. destruct (bool_decide _ || _) eqn:Hp; simpl; [done|].
  destruct (decode _ _) as [v|]; simpl; [|done]. intros [= <-].
  apply orb_false_iff in Hp as [_ [idx Hidx]%negb_false_iff%HasPrefix_spec]. exists idx.
  rewrite Hidx, TrimPrefix_append, append_assoc. done.
Qed.

Lemma ref_labels_index t idx : mget (ts_Labels t) (index_label t) = None → ref_labels ag t idx !! index_label t = Some idx.
Proof.
  unfold ref_labels, mget. intros Hfree. rewrite lookup_union, lookup_omap, Hfree, lookup_singleton_eq. done.
Qed.

Lemma table_obs_distinct m : index_label_free m → NoDup (obs_key <$> table_obs m).
Proof.
  unfold index_label_free, PollerFacts.table_obs. destruct (mt_Table m) as [t|]; intros Hfree; [|constructor].
  pose proof (Hwalk (normOID (ts_OID t))) as Hnd. induction (ag_walk ag (normOID (ts_OID t))) as [|p ps IH]; [constructor|].
  apply NoDup_cons in Hnd as [Hp Hnd]. simpl. destruct (row_obs m t p) as [o|] eqn:Ho; [|by apply IH].
  apply NoDup_cons. split; [|by apply IH]. intros (o' & Hkey & Ho')%list_elem_of_fmap.
  apply list_elem_of_omap in Ho' as (p' & Hp' & Hrow).
  destruct (row_obs_key _ _ _ _ Ho) as (i & Hi & Hk). destruct (row_obs_key _ _ _ _ Hrow) as (j & Hj & Hk').
  rewrite Hk, Hk' in Hkey. injection Hkey as Hl. pose proof (ref_labels_index t i Hfree) as Hli.
  rewrite Hl, ref_labels_index in Hli by done. simplify_eq. apply Hp. rewrite Hi, <-Hj. apply list_elem_of_fmap. eauto.
Qed.

Lemma scalar_obs_key m o : scalar_obs m = Some o → obs_key o = (mt_Name m, None).
Proof.
  unfold PollerFacts.scalar_obs. case_bool_decide; [done|]. destruct (decode _ _); simpl; [|done]. by intros [= <-].
Qed.

Lemma table_obs_key m o : o ∈ table_obs m → ∃ l, obs_key o = (mt_Name m, Some l).
Proof.
  unfold PollerFacts.table_obs. destruct (mt_Table m) as [t|]; [|by intros ?%elem_of_nil].
  intros (p & _ & Ho)%list_elem_of_omap. destruct (row_obs_key _ _ _ _ Ho) as (i & _ & Hk). eauto.
Qed.

Lemma scalars_distinct ms : NoDup (names ms) → NoDup (obs_key <$> omap scalar_obs ms).
Proof.
  induction ms as [|m ms IH]; intros Hnd; [constructor|]. apply NoDup_cons in Hnd as [Hm Hnd]. simpl.
  destruct (scalar_obs m) as [o|] eqn:Ho; [|by apply IH]. apply NoDup_cons. split; [|by apply IH].
  intros (o' & Hkey & (m' & Hm' & Ho')%list_elem_of_omap)%list_elem_of_fmap.
  rewrite (scalar_obs_key _ _ Ho), (scalar_obs_key _ _ Ho') in Hkey. injection Hkey as Hname.
  apply Hm. rewrite Hname. apply list_elem_of_fmap. eauto.
Qed.

Lemma tables_distinct ms : NoDup (names ms) → Forall index_label_free ms → NoDup (obs_key <$> (ms ≫= table_obs)).
Proof.
  induction ms as [|m ms IH]; intros Hnd Hfree; [constructor|].
  apply NoDup_cons in Hnd as [Hm Hnd]. apply Forall_cons in Hfree as [Hf Hfree].
  change ((m :: ms) ≫= table_obs) with (table_obs m ++ (ms ≫= table_obs)). rewrite fmap_app. apply NoDup_app.
  split; [by apply table_obs_distinct|]. split; [|by apply IH].
  intros k (o & -> & Ho)%list_elem_of_fmap (o' & Hk & (m' & Ho' & Hm')%list_elem_of_bind)%list_elem_of_fmap.
  destruct (table_obs_key _ _ Ho) as [l Hl]. destruct (table_obs_key _ _ Ho') as [l' Hl'].
  rewrite Hl, Hl' in Hk. injection Hk as Hname _. apply Hm. rewrite Hname. apply list_elem_of_fmap. eauto.
Qed.

Lemma expected_distinct :
  NoDup (names (pf_Metrics profile)) → Forall index_label_free (pf_Metrics profile) →
  NoDup (obs_key <$> expected_observations cycleID dev profile observedAt ag).
Proof.
  intros Hnd Hfree. unfold expected_observations. rewrite fmap_app. apply NoDup_app. split; [|split].
  - apply scalars_distinct. unfold scalars, names in *. eapply sublist_NoDup; [exact Hnd|]. apply fmap_sublist, sublist_filter.
  - intros k (o & -> & (m & _ & Ho)%list_elem_of_omap)%list_elem_of_fmap (o' & Hk & (m' & Ho' & _)%list_elem_of_bind)%list_elem_of_fmap.
    destruct (table_obs_key _ _ Ho') as [l Hl]. rewrite Hl, (scalar_obs_key _ _ Ho) in Hk. done.
  - by apply tables_distinct.
Qed.
End distinct.
