(* ===== verification/PollerThms.v ===== *)
(** * Theorems of the SNMP poller: what a poll reports, and that it reports it once *)

From S2P Require Import Prelude GoLib GoFloat Domain Regexp Inventory Profile ProfileFacts Secrets Session Poller PollerFacts StateFacts.

Section polls.
Context `{Sha256} {RO : RangeOrder} {W : Type}.

(** The profile a poll can end up with: a loaded one, or the empty one of a device that names no
    profile where none is called "system". *)
Definition selectable (ps : Profiles) (profile : Profile) : Prop :=
  (∃ id, Profiles_Get ps id = Some profile) ∨ profile = Profile0.

Lemma selectProfile_selectable ps (sess : Session W) dev w profile w' :
  selectProfile ps sess dev w = (Ok profile, w') → selectable ps profile.
Proof.
  unfold selectProfile, selectable. destruct (_ && _) eqn:Hid.
  - destruct (Profiles_Get ps _) as [prof|] eqn:Hg; [|done]. intros [= <- <-]. eauto.
  - case_bool_decide.
    + intros [= <- <-]. destruct (Profiles_Get ps "system") as [prof|] eqn:Hg; simpl; eauto.
    + intros (pdus & w1 & _ & Hk)%ST_bind_inv.
      set (matched := match pdus with [pdu] => _ | _ => _ end) in Hk.
      destruct matched as [prof|] eqn:Hm.
      * injection Hk as <- <-. left. subst matched. destruct pdus as [|pdu [|? ?]]; try done. case_bool_decide; [|done].
        pose proof (Match_spec ps (pd_Str pdu)) as Hspec. rewrite Hm in Hspec. destruct Hspec as [[id Hid'] _]. by exists id.
      * destruct (Profiles_Get ps "system") as [prof|] eqn:Hg; [|done]. injection Hk as <- <-. eauto.
Qed.

(** A dialer whose every session talks to the agent. *)
Definition dials (d : Dialer W) (ag : Agent) : Prop :=
  ∀ target cred w, match d target cred w with (Ok sess, _) => talks_to sess ag | (Err _, _) => True end.

(** A poll of the agent fails before asking for a value, or computes the reference. *)
Lemma Poll_reference (p : Poller W) (ag : Agent) observedAt dev cycleID w :
  dials (po_Dialer p) ag →
  match Poll p observedAt dev cycleID w with
  | (r, Some _, _) => r = Result0
  | (r, None, _) => ∃ profile, selectable (po_Profiles p) profile ∧ r = ref_poll cycleID dev profile observedAt ag
  end.
Proof.
  intros Hdial. unfold Poll. destruct (po_Secrets p _) as [secret|e]; [|done].
  destruct (CredentialFromSecret secret) as [cred|e]; [|done].
  specialize (Hdial (d_ManagementAddress dev) cred w). destruct (po_Dialer p _ _ w) as [[sess|e] w1]; [|done].
  destruct (selectProfile _ sess dev w1) as [[profile|e] w2] eqn:Hsel; [|done].
  destruct (poll_profile_effect cycleID dev profile observedAt ag sess Hdial (po_MaxOIDsPerGet p) (MkPollState Result0 ∅ w2))
    as (s' & Hrun & Hres & _); [apply map_Forall_empty|].
  rewrite Hrun. exists profile. split; [by eapply selectProfile_selectable|exact Hres].
Qed.

(** C8. Batching requests and caching walks do not change what a poll reports. Against an agent that
    answers every object on its own, a poll either fails before it asks for a value and reports
    nothing, or succeeds with exactly the reference result of the chosen profile, for every batch
    size: one observation per scalar and per row that has a decodable value, and one count per value
    that has not. *)
Theorem poll_matches_reference (p : Poller W) (ag : Agent) observedAt dev cycleID w :
  dials (po_Dialer p) ag →
  match Poll p observedAt dev cycleID w with
  | (r, Some _, _) => r = Result0
  | (r, None, _) =>
      ∃ profile, selectable (po_Profiles p) profile ∧ r = ref_poll cycleID dev profile observedAt ag ∧
        r_Observations r ≡ₚ expected_observations cycleID dev profile observedAt ag ∧
        r_Skipped r = wrap64 (Z.of_nat (expected_skipped cycleID dev profile observedAt ag))
  end.
Proof.
  intros Hdial. pose proof (Poll_reference p ag observedAt dev cycleID w Hdial) as Href.
  destruct (Poll p observedAt dev cycleID w) as [[r [e|]] w']; [done|]. destruct Href as (profile & Hsel & ->).
  exists profile. split; [done|]. split; [done|]. apply ref_poll_contents.
Qed.

(** A poll reports each thing once: with unique metric names (which loaded profiles have), column
    walks that list each row once and no label column named like the index label, no two
    observations of a successful poll have the same metric and labels, so their ids differ unless
    the label rendering or the hash collides. *)
Theorem poll_observations_distinct (p : Poller W) (ag : Agent) observedAt dev cycleID w r w' :
  dials (po_Dialer p) ag →
  (∀ root, NoDup (pd_OID <$> ag_walk ag root)) →
  (∀ profile, selectable (po_Profiles p) profile → NoDup (names (pf_Metrics profile)) ∧ Forall index_label_free (pf_Metrics profile)) →
  Poll p observedAt dev cycleID w = (r, None, w') →
  NoDup (obs_key <$> r_Observations r).
Proof.
  intros Hdial Hwalk Hps Hrun. pose proof (Poll_reference p ag observedAt dev cycleID w Hdial) as Href.
  rewrite Hrun in Href. destruct Href as (profile & Hsel & ->). destruct (Hps profile Hsel) as [Hnd Hfree].
  rewrite (proj1 (ref_poll_contents cycleID dev profile observedAt ag)). by apply expected_distinct.
Qed.

(** ** Types of values, on any session *)

(** The Go type a metric's values have. *)
Definition value_typed (t : ValueType) (v : value) : Prop :=
  if bool_decide (t = TypeString) then ∃ s, v = VString s else ∃ f, v = VFloat64 f.

Lemma decode_typed t p v : decode t p = Some v → value_typed t v.
Proof.
  unfold decode, value_typed. repeat case_bool_decide; try done; intros [= <-]; eauto.
Qed.

(** The observation of a metric of the profile, in this cycle, with a value of the metric's type. *)
Definition observation_of (cycleID : string) (dev : Device) (profile : Profile) (observedAt : Time) (o : Observation) : Prop :=
  ∃ m oid v labels, m ∈ pf_Metrics profile ∧ value_typed (mt_Type m) v ∧ o = observation cycleID dev profile observedAt m oid v labels.

Section typed.
Context (cycleID : string) (dev : Device) (profile : Profile) (observedAt : Time) (sess : Session W).
Abbreviation observation_of := (observation_of cycleID dev profile observedAt).

Definition typed (r : Result) : Prop := Forall observation_of (r_Observations r).
Definition typed_state (s : PollState W) : Prop := typed (pl_res s).

Lemma typed_emit m oid v labels r :
  m ∈ pf_Metrics profile → value_typed (mt_Type m) v → typed r → typed (emit cycleID dev profile observedAt m oid v labels r).
Proof.
  intros Hm Hv Hr. unfold typed, emit. cbn [r_Observations update_field]. apply Forall_app. split; [done|].
  apply Forall_singleton. by exists m, oid, v, labels.
Qed.

Lemma typed_scalar byOID r m : m ∈ pf_Metrics profile → typed r → typed (handle_scalar cycleID dev profile observedAt byOID r m).
Proof.
  intros Hm Hr. unfold handle_scalar. destruct (byOID !! _) as [pdu|]; [|done]. case_bool_decide; [done|].
  destruct (decode _ pdu) as [v|] eqn:Hv; [|done]. unfold typed. rewrite (proj1 (learn_fact_keeps _ _ _)).
  apply typed_emit; [done|by eapply decode_typed|done].
Qed.

Lemma typed_row m t cols r p : m ∈ pf_Metrics profile → typed r → typed (handle_row cycleID dev profile observedAt m t cols r p).
Proof.
  intros Hm Hr. unfold handle_row. destruct (row_index _ p); [|done]. destruct (decode _ p) as [v|] eqn:Hv; [|done].
  apply typed_emit; [done|by eapply decode_typed|done].
Qed.

Lemma typed_foldl {A} (f : Result → A → Result) l r : (∀ r x, x ∈ l → typed r → typed (f r x)) → typed r → typed (foldl f r l).
Proof.
  revert r. induction l as [|x l IH]; intros r Hf Hr; simpl; [done|]. apply IH; [|apply Hf; [left|done]].
  intros r' y Hy. apply Hf. by right.
Qed.

Lemma wp_on_world {A} (m : ST W error A) s : typed_state s → wp (on_world m) (λ _, typed_state) s.
Proof. intros Hs. unfold wp, on_world. by destruct (m (pl_world s)) as [[a|e] w']. Qed.

Lemma wp_modify f s : (∀ r, typed r → typed (f r)) → typed_state s → wp (E:=error) (modify_res f) (λ _, typed_state) s.
Proof. intros Hf Hs. by apply Hf. Qed.

Lemma wp_walk root s : typed_state s → wp (walk sess root) (λ _, typed_state) s.
Proof.
  intros Hs. unfold wp, walk, on_world. destruct (pl_walks s !! _); [done|]. by destruct (se_Walk sess _ _) as [[w|e] w'].
Qed.

Lemma wp_fold_typed {A B} (f : B → A → ST (PollState W) error B) b l s :
  (∀ b x s, x ∈ l → typed_state s → wp (f b x) (λ _, typed_state) s) → typed_state s → wp (ST_foldl f b l) (λ _, typed_state) s.
Proof.
  revert b s. induction l as [|x l IH]; intros b s Hf Hs; simpl; [done|].
  apply wp_bind. eapply wp_mono; [|apply Hf; [left|done]]. intros b' s' Hs'. apply IH; [|done].
  intros b2 y s2 Hy. apply Hf. by right.
Qed.

Lemma poll_profile_typed n s : typed_state s → wp (poll_profile cycleID dev profile observedAt sess n) (λ _, typed_state) s.
Proof.
  intros Hs. unfold poll_profile. apply wp_bind. eapply wp_mono; [|by apply wp_modify]. intros ? s1 Hs1.
  apply wp_bind. eapply wp_mono; [|apply wp_fold_typed with (s:=s1); [|done]].
  2: { intros _ ms s2 Hms Hs2. apply wp_bind. eapply wp_mono; [|by apply wp_on_world]. intros pdus s3 Hs3.
       apply wp_modify; [|done]. intros r Hr. apply typed_foldl; [|done]. intros r' m Hm Hr'. apply typed_scalar; [|done].
       assert (m ∈ scalars profile) as Hin by by eapply batches_elem.
       unfold scalars in Hin. by apply list_elem_of_filter in Hin as [_ ?]. }
  intros ? s2 Hs2. apply wp_bind. eapply wp_mono; [|apply wp_fold_typed with (s:=s2); [|done]].
  2: { intros _ m s3 Hm Hs3. unfold poll_table. destruct (mt_Table m) as [t|]; [|done].
       apply wp_bind. eapply wp_mono; [|by apply wp_walk]. intros col s4 Hs4.
       apply wp_bind. eapply wp_mono; [|apply wp_fold_typed with (s:=s4); [|done]].
       2: { intros cols lo s5 _ Hs5. apply wp_bind. eapply wp_mono; [|by apply wp_walk]. done. }
       intros cols s5 Hs5. apply wp_modify; [|done]. intros r Hr. apply typed_foldl; [|done]. intros. by apply typed_row. }
  intros ? s3 Hs3. apply wp_modify; [|done]. intros r Hr. unfold typed, sort_result. cbn [r_Observations update_field].
  rewrite Forall_forall. intros o Ho%elem_of_sort_stable. unfold typed in Hr. rewrite Forall_forall in Hr. auto.
Qed.
End typed.

(** C34. Whatever the device answers, the observations of a successful poll are those of metrics of one
    loaded profile, for this device, cycle and time, with an id over exactly these and the labels,
    and their values have the declared type: strings for string metrics, floats for all others. *)
Theorem poll_values_are_typed (p : Poller W) observedAt dev cycleID w r w' :
  Poll p observedAt dev cycleID w = (r, None, w') →
  ∃ profile, selectable (po_Profiles p) profile ∧
    ∀ o, o ∈ r_Observations r →
      o_DeviceID o = d_ID dev ∧ o_CorrelationID o = cycleID ∧ o_Source o = "snmp" ∧ o_ObservedAt o = observedAt ∧
      o_ObservationID o = NewObservationID cycleID (d_ID dev) (o_Metric o) (o_Labels o) ∧
      ∃ m, m ∈ pf_Metrics profile ∧ o_Metric o = mt_Name m ∧ value_typed (mt_Type m) (o_Value o).
Proof.
  unfold Poll. intros Hrun. destruct (po_Secrets p _) as [secret|e]; [|done].
  destruct (CredentialFromSecret secret) as [cred|e]; [|done]. destruct (po_Dialer p _ _ w) as [[sess|e] w1]; [|done].
  destruct (selectProfile _ sess dev w1) as [[profile|e] w2] eqn:Hsel; [|done].
  destruct (poll_profile _ _ _ _ _ _ _) as [[[]|e] s] eqn:Hp; [|done]. injection Hrun as <- <-.
  exists profile. split; [by eapply selectProfile_selectable|].
  assert (typed_state cycleID dev profile observedAt s) as Hs.
  { eapply (wp_elim _ (λ _, typed_state cycleID dev profile observedAt)); [|exact Hp]. apply poll_profile_typed. constructor. }
  unfold typed_state, typed in Hs. rewrite Forall_forall in Hs. intros o Ho.
  destruct (Hs o Ho) as (m & oid & v & labels & Hm & Hv & ->). repeat split. by exists m.
Qed.
End polls.

(** ** Each column is walked once *)

(** A session that also records the columns it is asked to walk. *)
Definition logged {W} (sess : Session W) : Session (W * list string) :=
  MkSession
    (λ oids '(w, log), let '(r, w') := se_Get sess oids w in (r, (w', log)))
    (λ root '(w, log), let '(r, w') := se_Walk sess root w in (r, (w', log ++ [root])))
    (λ '(w, log), (se_Close sess w, log)).

Section walks.
Context `{Sha256} {RO : RangeOrder} {W : Type}.
Context (cycleID : string) (dev : Device) (profile : Profile) (observedAt : Time) (sess : Session W).
Abbreviation S := (PollState (W * list string)).

Definition walk_log (s : S) : list string := (pl_world s).2.
Definition log_cached (s : S) : Prop := NoDup (walk_log s) ∧ ∀ root, root ∈ walk_log s → is_Some (pl_walks s !! root).

(** A step keeps the log cached; a failing one still has no column twice. *)
Definition once {A} (m : ST S error A) : Prop := ∀ s, log_cached s →
  match m s with (Ok _, s') => log_cached s' | (Err _, s') => NoDup (walk_log s') end.

Lemma once_bind {A B} (m : ST S error A) (k : A → ST S error B) : once m → (∀ a, once (k a)) → once (m ≫= k).
Proof.
  intros Hm Hk s Hs. specialize (Hm s Hs). unfold mbind, ST_bind. destruct (m s) as [[a|e] s']; [by apply Hk|done].
Qed.
Lemma once_foldl {A B} (f : B → A → ST S error B) b l : (∀ b x, once (f b x)) → once (ST_foldl f b l).
Proof. intros Hf. revert b. induction l as [|x l IH]; intros b; simpl; [by intros s Hs|]. by apply once_bind. Qed.
Lemma once_modify f : once (modify_res f).
Proof. by intros s Hs. Qed.
Lemma once_get oids : once (on_world (se_Get (logged sess) oids)).
Proof.
  intros s [Hnd Hin]. unfold on_world. destruct s as [r walks [w log]]. simpl. destruct (se_Get sess oids w) as [[a|e] w']; done.
Qed.
Lemma once_walk root : once (walk (logged sess) root).
Proof.
  intros s [Hnd Hin]. unfold walk, on_world. destruct s as [r walks [w log]]. unfold walk_log in *. cbn [pl_world pl_walks snd] in *.
  destruct (walks !! normOID root) as [c|] eqn:Hc; [by split|]. cbn [se_Walk logged].
  assert (NoDup (log ++ [normOID root])) as Hnd'.
  { apply NoDup_app. split; [done|]. split; [|apply NoDup_singleton].
    intros x Hx ->%list_elem_of_singleton. destruct (Hin _ Hx). congruence. }
  destruct (se_Walk sess (normOID root) w) as [[c|e] w']; [|exact Hnd'].
  split; [exact Hnd'|]. unfold walk_log. cbn [pl_world pl_walks update_field snd].
  intros x Hx. destruct (decide (x = normOID root)) as [->|Hne]; [rewrite lookup_insert_eq; eauto|].
  rewrite lookup_insert_ne by done. apply Hin. by apply elem_of_app in Hx as [?|?%list_elem_of_singleton].
Qed.

(** Within a poll no column is walked twice, however many metrics and labels share it, whether
    the poll succeeds or fails. *)
Theorem columns_walked_once n w :
  NoDup (walk_log (poll_profile cycleID dev profile observedAt (logged sess) n (MkPollState Result0 ∅ (w, []))).2).
Proof.
  assert (once (poll_profile cycleID dev profile observedAt (logged sess) n)) as Hall.
  { apply once_bind; [apply once_modify|intros _]. apply once_bind.
    - apply once_foldl. intros _ ms. apply once_bind; [apply once_get|intros; apply once_modify].
    - intros _. apply once_bind; [|intros; apply once_modify]. apply once_foldl. intros _ m. unfold poll_table.
      destruct (mt_Table m) as [t|]; [|by intros s Hs]. apply once_bind; [apply once_walk|intros col].
      apply once_bind; [|intros; apply once_modify]. apply once_foldl. intros cols lo.
      apply once_bind; [apply once_walk|]. intros c s Hs. done. }
  assert (log_cached (MkPollState Result0 ∅ (w, []))) as H0 by (split; [constructor|by intros x ?%elem_of_nil]).
  specialize (Hall _ H0). destruct (poll_profile _ _ _ _ _ _ _) as [[a|e] s]; [apply Hall|exact Hall].
Qed.
End walks.

(** ** An index label that is also a label column *)

Definition ex_shadow : Metric :=
  MkMetric "ifInErrors" "" (Some (MkTableSpec "1.3.6.1.2.1.2.2.1.14" "" (Some {["index" := "1.3.6.1.2.1.2.2.1.3"]}))) TypeCounter.
Definition ex_shadow_profile : Profile := MkProfile "shadow" "" [] "" [ex_shadow].
Definition ex_shadow_agent : Agent := MkAgent
  (λ oid, MkPDU oid KindMissing f_zero "")
  (λ root, [MkPDU (root +:+ ".1") KindNumber (f_of_int 6) ""; MkPDU (root +:+ ".2") KindNumber (f_of_int 6) ""]).

(** Validation accepts a table whose label column is called like its index label. The column then
    replaces the index, and two rows with the same column value are reported under one observation
    id, so the pipeline keeps only one of them. *)
Theorem shadowed_index_merges_rows `{Sha256} {RO : RangeOrder} cycleID dev observedAt :
  validate ex_shadow_profile = None ∧
  ∃ o1 o2, expected_observations cycleID dev ex_shadow_profile observedAt ex_shadow_agent = [o1; o2] ∧
    o_Metadata o1 ≠ o_Metadata o2 ∧ o_ObservationID o1 = o_ObservationID o2.
Proof.
  split.
  - apply validate_wf. split; [done|]. split; [|apply NoDup_singleton]. apply Forall_singleton. split; [done|]. split; [done|].
    split; [done|]. split; [reflexivity|]. apply map_Forall_singleton. reflexivity.
  - eexists _, _. split; [reflexivity|]. split; [done|]. reflexivity.
Qed.

(** ** Examples *)

Definition ex_agent : Agent := MkAgent
  (λ oid, MkPDU oid KindString f_zero "core-1")
  (λ root, [MkPDU (root +:+ ".1") KindNumber (f_of_int 1) ""; MkPDU (root +:+ ".2") KindNumber (f_of_int 2) ""]).
Definition ex_agent_session : Session unit :=
  MkSession (λ oids w, (Ok (ag_get ex_agent <$> oids), w)) (λ root w, (Ok (ag_walk ex_agent root), w)) id.
Definition ex_poll_profile : Profile := MkProfile "interfaces" "" [] "" [ex_sysName; ex_ifOper].
Definition ex_poller : Poller unit :=
  MkPoller (λ _ _ w, (Ok ex_agent_session, w)) (MkProfiles {["interfaces" := ex_poll_profile]})
    (λ _, Ok (Some {["community" := "public"]})) 1.
Definition ex_polled : Device :=
  MkDevice "core-1" "core-1" "192.0.2.1" DeviceSwitch "" "" "" "" [] [] "snmp/lab" true time_zero
    (MkCollectionSpec "snmp" "interfaces" 0) None.

Lemma ex_dials : dials (po_Dialer ex_poller) ex_agent.
Proof. intros target cred w. split; [done|]. split; intros; by eexists. Qed.

Lemma ex_selectable profile : selectable (po_Profiles ex_poller) profile →
  NoDup (names (pf_Metrics profile)) ∧ Forall index_label_free (pf_Metrics profile).
Proof.
  intros [[id Hid]| ->]; [|split; constructor]. unfold Profiles_Get in Hid. simpl in Hid. apply lookup_singleton_Some in Hid as [_ <-]. split.
  - apply (bool_decide_unpack _). reflexivity.
  - repeat constructor.
Qed.

Lemma ex_agent_rows root : NoDup (pd_OID <$> ag_walk ex_agent root).
Proof.
  simpl. apply NoDup_cons. split; [|apply NoDup_singleton]. intros Heq%list_elem_of_singleton.
  induction root as [|c root IH]; [done|]. rewrite !append_cons in Heq. injection Heq as Heq. auto.
Qed.

Lemma poll_matches_reference_witness :
  ∃ r w' profile, Poll (H:=sha_id) (RO:=stored_order) ex_poller 7 ex_polled "c1" () = (r, None, w') ∧
    length (r_Observations r) = 3 ∧ r = ref_poll (H:=sha_id) "c1" ex_polled profile 7 ex_agent.
Proof.
  pose proof (poll_matches_reference (H:=sha_id) (RO:=stored_order) ex_poller ex_agent 7 ex_polled "c1" () ex_dials) as Href.
  destruct (Poll (H:=sha_id) (RO:=stored_order) ex_poller 7 ex_polled "c1" ()) as [[r [e|]] w'] eqn:Hp; [vm_compute in Hp; discriminate|].
  destruct Href as (profile & _ & Hr & _). exists r, w', profile. split; [reflexivity|]. split; [|exact Hr].
  clear Hr. vm_compute in Hp. injection Hp as <- <-. reflexivity.
Defined.

Lemma poll_observations_distinct_witness :
  ∃ r w', Poll (H:=sha_id) (RO:=stored_order) ex_poller 7 ex_polled "c1" () = (r, None, w') ∧ NoDup (obs_key <$> r_Observations r).
Proof.
  destruct (Poll (H:=sha_id) (RO:=stored_order) ex_poller 7 ex_polled "c1" ()) as [[r [e|]] w'] eqn:Hp; [vm_compute in Hp; discriminate|].
  exists r, w'. split; [reflexivity|].
  exact (poll_observations_distinct (H:=sha_id) (RO:=stored_order) ex_poller ex_agent 7 ex_polled "c1" () r w'
           ex_dials ex_agent_rows ex_selectable Hp).
Defined.

Lemma poll_values_are_typed_witness :
  ∃ r w', Poll (H:=sha_id) (RO:=stored_order) ex_poller 7 ex_polled "c1" () = (r, None, w') ∧
    ∀ o, o ∈ r_Observations r → o_Source o = "snmp".
Proof.
  destruct (Poll (H:=sha_id) (RO:=stored_order) ex_poller 7 ex_polled "c1" ()) as [[r [e|]] w'] eqn:Hp; [vm_compute in Hp; discriminate|].
  exists r, w'. split; [reflexivity|].
  destruct (poll_values_are_typed (H:=sha_id) (RO:=stored_order) ex_poller 7 ex_polled "c1" () r w' Hp) as (profile & _ & Hall).
  intros o Ho. apply (Hall o Ho).
Defined.
