(* ===== verification/Scheduler.v ===== *)
(** * Package [collector]: scheduling polls and publishing their outcome
    (src/internal/collector/scheduler.go, natssink.go)

    The scheduler is a dispatcher that walks the device list, and workers that poll. Its state is
    the due times, the in-flight marks, the device handed over next and the polls under way; the
    steps below interleave as the goroutines do. *)

From S2P Require Import Prelude GoLib GoFloat Domain Regexp Schema Inventory Profile Secrets Session Poller Store Pipeline Worker.

Definition MetricPollSuccess : string := "collector.poll_success".
Definition MetricPollDuration : string := "collector.poll_duration_seconds".

Record InventoryFact := MkInventoryFact {
  if_DeviceID : string;
  if_CorrelationID : string;
  if_SysName : string;
  if_SysDescr : string;
  if_SysObjectID : string;
  if_ProfileID : string;
  if_ObservedAt : Time;
}.

(** Where collector output goes; both operations act on a world and may fail. *)
Record Sink (W : Type) := MkSink {
  sk_Observations : list Observation → W → option error * W;
  sk_Inventory : InventoryFact → W → option error * W;
}.
Arguments MkSink {W}.
Arguments sk_Observations {W}.
Arguments sk_Inventory {W}.

Record PollEvent := MkPollEvent {
  pe_Device : Device;
  pe_Duration : Duration;
  pe_Err : option error;
  pe_Skipped : Z;
}.

(** ** Due times *)

Definition interval (DefaultInterval : Duration) (d : Device) : Duration :=
  if (0 <? cs_Interval (d_Collection d))%Z then cs_Interval (d_Collection d) else DefaultInterval.

(** The FNV-1a hash of the id modulo the interval; a remainder by zero panics. *)
Definition offset (id : string) (interval : Duration) : res Duration :=
  if (wrapu64 interval =? 0)%Z then Err (EPanic "runtime error: integer divide by zero")
  else Ok (wrap64 (fnv32a 2166136261 id mod wrapu64 interval)).

(** ** One collection cycle *)

(** [d.Seconds()] *)
Definition Seconds (d : Duration) : float64 :=
  f_add (f_of_int (Z.quot d Second)) (f_div (f_of_int (Z.rem d Second)) (f_of_int 1000000000)).

Section poll_once.
Context `{Sha256} {W : Type}.
Context (Poll : Device → string → W → (Result * option error) * W) (sink : Sink W).

Definition base_observation (dev : Device) (cycleID : string) (started : Time) (metric : string) (v : value) (metadata : smap) : Observation :=
  let labels := Some {["protocol" := "snmp"]} in
  MkObservation (NewObservationID cycleID (d_ID dev) metric labels) cycleID (d_ID dev) "snmp" metric v labels started time_zero metadata.

Definition success_observation (dev : Device) (cycleID : string) (started : Time) (err : option error) : Observation :=
  base_observation dev cycleID started MetricPollSuccess (VBool (bool_decide (err = None)))
    match err with
    | None => None
    | Some e =>
        let msg := error_text e in
        let msg := if (200 <? slen msg)%Z then take_str 200 msg else msg in
        Some {["error_category" := Category_string (CategoryOf err); "error" := msg]}
    end.

Definition duration_observation (dev : Device) (cycleID : string) (started : Time) (took : Duration) : Observation :=
  base_observation dev cycleID started MetricPollDuration (VFloat64 (Seconds took)) None.

(** What a cycle publishes: the poll's observations with its duration, or nothing but the failure. *)
Definition cycle_observations (dev : Device) (cycleID : string) (started : Time) (took : Duration) (r : Result) (err : option error) : list Observation :=
  match err with
  | Some _ => []
  | None => r_Observations r ++ [duration_observation dev cycleID started took]
  end ++ [success_observation dev cycleID started err].

Definition cycle_fact (dev : Device) (cycleID : string) (started : Time) (r : Result) (err : option error) : option InventoryFact :=
  if bool_decide (err = None) && (negb (bool_decide (fa_SysName (r_Facts r) = "")) || negb (bool_decide (fa_SysObjectID (r_Facts r) = "")))
  then Some (MkInventoryFact (d_ID dev) cycleID (fa_SysName (r_Facts r)) (fa_SysDescr (r_Facts r)) (fa_SysObjectID (r_Facts r))
               (fa_ProfileID (r_Facts r)) started)
  else None.

(** [PollOnce]; the fresh cycle id and the two readings of the clock are arguments, the event for the
    metrics hook is returned. *)
Definition PollOnce (cycleID : string) (started ended : Time) (dev : Device) (w : W) : PollEvent * W :=
  let '(r, err, w) := Poll dev cycleID w in
  let took := time_Sub ended started in
  let event := MkPollEvent dev took err (r_Skipped r) in
  let '(perr, w) := sk_Observations sink (cycle_observations dev cycleID started took r err) w in
  match perr with
  | Some _ => (event, w)
  | None =>
      match cycle_fact dev cycleID started r err with
      | None => (event, w)
      | Some fact => let '(_, w) := sk_Inventory sink fact w in (event, w)
      end
  end.
End poll_once.

(** ** Dispatching *)

Record SchedState := MkSchedState {
  sc_next : gmap string Time;            (* when each known device is due *)
  sc_inflight : gset string;             (* devices marked as being polled *)
  sc_now : Time;                         (* the reading of this round *)
  sc_wake : Time;                        (* when the next round starts *)
  sc_todo : list Device;                 (* devices this round still visits *)
  sc_handing : option Device;            (* the device the dispatcher offers to the workers *)
  sc_running : list Device;              (* devices the workers hold *)
  sc_dispatched : list (string * Time * Duration);  (* every dispatch so far: id, reading, interval *)
}.
#[export] Instance eta_SchedState : Eta SchedState := λ s,
  MkSchedState (sc_next s) (sc_inflight s) (sc_now s) (sc_wake s) (sc_todo s) (sc_handing s) (sc_running s) (sc_dispatched s).

Definition SchedState0 : SchedState := MkSchedState ∅ ∅ time_zero time_zero [] None [] [].

Record Scheduler := MkScheduler { sd_Workers : Z; sd_DefaultInterval : Duration }.
Definition worker_count (s : Scheduler) : nat := Z.to_nat (Z.max (sd_Workers s) 1).

Definition lower_wake (due : Time) (s : SchedState) : SchedState :=
  if Before due (sc_wake s) then s <| sc_wake := due |> else s.

(** A device with its due time. When it is due and not in flight it is marked and offered to the
    workers; when it is due and in flight it misses this cycle. *)
Definition check_due (sd : Scheduler) (dev : Device) (due : Time) (s : SchedState) : SchedState :=
  let now := sc_now s in
  if After due now then lower_wake due s
  else
    let iv := interval (sd_DefaultInterval sd) dev in
    let busy := bool_decide (d_ID dev ∈ sc_inflight s) in
    let due := time_Add now iv in
    let s := s <| sc_next := <[d_ID dev := due]> (sc_next s) |> in
    if busy then lower_wake due s
    else
      lower_wake due
        (s <| sc_inflight := {[d_ID dev]} ∪ sc_inflight s |>
           <| sc_handing := Some dev |>
           <| sc_dispatched := sc_dispatched s ++ [(d_ID dev, now, iv)] |>).

(** One device of the round; a device seen for the first time is due after its offset. *)
Definition visit (sd : Scheduler) (dev : Device) (s : SchedState) : res SchedState :=
  if negb (d_Enabled dev) || negb (bool_decide (cs_Protocol (d_Collection dev) = "snmp")) then Ok s
  else
    match sc_next s !! d_ID dev with
    | Some due => Ok (check_due sd dev due s)
    | None =>
        match offset (d_ID dev) (interval (sd_DefaultInterval sd) dev) with
        | Err e => Err e
        | Ok o =>
            let due := time_Add (sc_now s) o in
            Ok (check_due sd dev due (s <| sc_next := <[d_ID dev := due]> (sc_next s) |>))
        end
    end.

(** The steps of the system. A round starts when the timer fires, with a reading of the clock and the
    device list; the dispatcher visits devices one by one and is blocked while it offers one; a free
    worker takes the offer; a worker finishes its poll and clears the mark. *)
Inductive sched_step (sd : Scheduler) : SchedState → SchedState → Prop :=
| sched_round now devices s :
    sc_todo s = [] → sc_handing s = None →
    sched_step sd s (s <| sc_now := now |> <| sc_wake := time_Add now Second |> <| sc_todo := devices |>)
| sched_visit dev rest s s' :
    sc_todo s = dev :: rest → sc_handing s = None → visit sd dev (s <| sc_todo := rest |>) = Ok s' →
    sched_step sd s s'
| sched_hand dev s :
    sc_handing s = Some dev → length (sc_running s) < worker_count sd →
    sched_step sd s (s <| sc_handing := None |> <| sc_running := sc_running s ++ [dev] |>)
| sched_finish dev before after s :
    sc_running s = before ++ dev :: after →
    sched_step sd s (s <| sc_running := before ++ after |> <| sc_inflight := sc_inflight s ∖ {[d_ID dev]} |>).

Definition sched_reachable (sd : Scheduler) : SchedState → Prop := rtc (sched_step sd) SchedState0.

(** ** The production sink (natssink.go) *)

Definition SubjectRawPrefix : string := "telemetry.raw".
Definition SubjectInventoryObserved : string := "inventory.observed".

(** The part of the source before the first colon. *)
Fixpoint rootSource (source : string) : string :=
  match source with
  | "" => ""
  | String c s => if bool_decide (c = ":"%char) then "" else String c (rootSource s)
  end.

Section nats.
Context `{Sha256, Json Observation, Json InventoryFact} {W : Type}.
Context (PublishBatch : list OutMsg → W → option error * W).
Context (Publish : OutMsg → W → option error * W).

Definition observation_msg (o : Observation) : res OutMsg :=
  payload ← Encode o;
  mret (MkOutMsg (SubjectRawPrefix +:+ "." +:+ rootSource (o_Source o)) (o_ObservationID o) payload
         (Some {[HeaderSchema := ObservationV1; HeaderCorrelationID := o_CorrelationID o]})).

Fixpoint observation_msgs (obs : list Observation) : res (list OutMsg) :=
  match obs with
  | [] => Ok []
  | o :: obs => m ← observation_msg o; ms ← observation_msgs obs; mret (m :: ms)
  end.

Definition NATSSink_Observations (obs : list Observation) (w : W) : option error * W :=
  match observation_msgs obs with
  | Err e => (Some e, w)
  | Ok msgs => PublishBatch msgs w
  end.

Definition NATSSink_Inventory (f : InventoryFact) (w : W) : option error * W :=
  match Encode f with
  | Err e => (Some e, w)
  | Ok payload =>
      Publish (MkOutMsg SubjectInventoryObserved (StableID ["inv"; if_CorrelationID f; if_DeviceID f]) payload
                 (Some {[HeaderSchema := InventoryV1; HeaderCorrelationID := if_CorrelationID f]})) w
  end.

Definition NATSSink : Sink W := MkSink NATSSink_Observations NATSSink_Inventory.
End nats.
