(* ===== verification/SchedulerThms.v ===== *)
(** * Theorems of the collector: no overlapping polls, spaced cycles, every outcome reported *)

From S2P Require Import Prelude GoLib GoFloat Domain Regexp Schema Inventory Profile ProfileFacts Secrets Session Poller PollerFacts Store Pipeline Worker StateFacts PollerThms Scheduler.

(** ** Dispatching *)

Section dispatch.
Context (sd : Scheduler).

(** The devices the dispatcher has let go of and the workers have not finished. *)
Definition held (s : SchedState) : list string :=
  (d_ID <$> sc_running s) ++ match sc_handing s with Some dev => [d_ID dev] | None => [] end.

Definition sched_inv (s : SchedState) : Prop :=
  NoDup (held s) ∧ (∀ id, id ∈ held s ↔ id ∈ sc_inflight s) ∧ length (sc_running s) ≤ worker_count sd.

Lemma lower_wake_keeps due s :
  held (lower_wake due s) = held s ∧ sc_inflight (lower_wake due s) = sc_inflight s ∧ sc_running (lower_wake due s) = sc_running s
  ∧ sc_next (lower_wake due s) = sc_next s ∧ sc_dispatched (lower_wake due s) = sc_dispatched s ∧ sc_now (lower_wake due s) = sc_now s.
Proof. unfold lower_wake. by destruct (Before due (sc_wake s)). Qed.

(** What a visit does to the state: nothing, a new due time, a missed cycle or a dispatch. *)
Inductive visited (dev : Device) (s : SchedState) : SchedState → Prop :=
| visited_ignored s' :
    held s' = held s → sc_inflight s' = sc_inflight s → sc_running s' = sc_running s → sc_dispatched s' = sc_dispatched s →
    sc_next s' = sc_next s → visited dev s s'
| visited_new due s' :
    held s' = held s → sc_inflight s' = sc_inflight s → sc_running s' = sc_running s → sc_dispatched s' = sc_dispatched s →
    sc_next s !! d_ID dev = None → sc_next s' = <[d_ID dev := due]> (sc_next s) → visited dev s s'
| visited_busy s' :
    held s' = held s → sc_inflight s' = sc_inflight s → sc_running s' = sc_running s → sc_dispatched s' = sc_dispatched s →
    (∀ due, sc_next s !! d_ID dev = Some due → (due ≤ sc_now s)%Z) →
    sc_next s' = <[d_ID dev := (sc_now s + interval (sd_DefaultInterval sd) dev)%Z]> (sc_next s) → visited dev s s'
| visited_dispatched s' :
    held s' = (d_ID <$> sc_running s) ++ [d_ID dev] → (d_ID dev ∉ sc_inflight s) → sc_inflight s' = {[d_ID dev]} ∪ sc_inflight s →
    sc_running s' = sc_running s →
    sc_dispatched s' = sc_dispatched s ++ [(d_ID dev, sc_now s, interval (sd_DefaultInterval sd) dev)] →
    (∀ due, sc_next s !! d_ID dev = Some due → (due ≤ sc_now s)%Z) →
    sc_next s' = <[d_ID dev := (sc_now s + interval (sd_DefaultInterval sd) dev)%Z]> (sc_next s) → visited dev s s'.

Lemma check_due_visited dev due s : sc_next s !! d_ID dev = Some due → visited dev s (check_due sd dev due s).
Proof.
  intros Hnext. unfold check_due, After. cbv zeta. destruct (Z.ltb_spec (sc_now s) due) as [Hlt|Hle].
  - destruct (lower_wake_keeps due s) as (? & ? & ? & ? & ? & ?). by apply visited_ignored.
  - case_bool_decide as Hb.
    + match goal with |- context [lower_wake ?d ?s2] => destruct (lower_wake_keeps d s2) as (H1 & H2 & H3 & H4 & H5 & H6) end.
      apply visited_busy; [by rewrite H1|by rewrite H2|by rewrite H3|by rewrite H5|naive_solver|by rewrite H4].
    + match goal with |- context [lower_wake ?d ?s2] => destruct (lower_wake_keeps d s2) as (H1 & H2 & H3 & H4 & H5 & H6) end.
      apply visited_dispatched; [by rewrite H1|done|by rewrite H2|by rewrite H3|by rewrite H5|naive_solver|by rewrite H4].
Qed.

Lemma visit_visited dev s s' : visit sd dev s = Ok s' → visited dev s s'.
Proof.
  unfold visit. destruct (_ || _); [intros [= <-]; by constructor|].
  destruct (sc_next s !! d_ID dev) as [due|] eqn:Hnext.
  - intros [= <-]. by apply check_due_visited.
  - destruct (offset _ _) as [o|e]; [|done]. intros Heq. set (due := time_Add (sc_now s) o). set (s1 := s <| sc_next := <[d_ID dev := due]> (sc_next s) |>).
    assert (check_due sd dev due s1 = s') as <- by by injection Heq.
    assert (∀ v, <[d_ID dev := v]> (sc_next s1) = <[d_ID dev := v]> (sc_next s)) as Hins by (intros v; apply insert_insert_eq).
    assert (sc_next s1 !! d_ID dev = Some due) as Hs1 by apply lookup_insert_eq.
    assert (held s1 = held s ∧ sc_inflight s1 = sc_inflight s ∧ sc_running s1 = sc_running s ∧ sc_dispatched s1 = sc_dispatched s
            ∧ sc_now s1 = sc_now s ∧ sc_next s1 = <[d_ID dev := due]> (sc_next s)) as (E1 & E2 & E3 & E4 & E5 & E6) by done.
    clear Heq. clearbody s1. destruct (check_due_visited dev due s1 Hs1) as [s'|d s'|s'|s'].
    + apply (visited_new _ _ due); congruence.
    + congruence.
    + apply visited_busy; first [congruence | by rewrite Hnext | by rewrite <-Hins, <-E5].
    + apply visited_dispatched; first [congruence | by rewrite Hnext | by rewrite <-Hins, <-E5].
Qed.

Lemma sched_step_inv s s' : sched_inv s → sched_step sd s s' → sched_inv s'.
Proof.
  intros (Hnd & Hin & Hlen) Hstep. destruct Hstep as [now devices s Ht Hh|dev rest s s' Ht Hh Hv|dev s Hh Hw|dev before after s Hr].
  - done.
  - assert (held s = held (s <| sc_todo := rest |>)) as Heq by done.
    apply visit_visited in Hv. destruct Hv as [s' Hheld Hi Hr _ _|due s' Hheld Hi Hr _ _ _|s' Hheld Hi Hr _ _ _|s' Hheld Hnew Hi Hr _ _ _]; simpl in *.
    + unfold sched_inv. by rewrite Hheld, Hi, Hr, <-Heq.
    + unfold sched_inv. by rewrite Hheld, Hi, Hr, <-Heq.
    + unfold sched_inv. by rewrite Hheld, Hi, Hr, <-Heq.
    + assert (held s = d_ID <$> sc_running s) as Hrun by (unfold held; by rewrite Hh, app_nil_r).
      unfold sched_inv. rewrite Hheld, Hi, Hr, <-Hrun. split; [|split; [|done]].
      * apply NoDup_app. split; [done|]. split; [|apply NoDup_singleton]. intros x Hx ->%list_elem_of_singleton. by apply Hnew, Hin.
      * intros id. rewrite elem_of_app, list_elem_of_singleton, elem_of_union, elem_of_singleton, Hin. tauto.
  - unfold sched_inv, held in *. simpl. rewrite Hh in *. rewrite fmap_app, app_nil_r, length_app. simpl. split; [done|]. split; [done|]. lia.
  - unfold sched_inv, held in *. simpl. rewrite Hr in *.
    assert (d_ID <$> before ++ dev :: after ≡ₚ d_ID dev :: (d_ID <$> before ++ after)) as Hperm.
    { rewrite !fmap_app. simpl. by rewrite Permutation_middle. }
    rewrite Hperm in Hnd. setoid_rewrite Hperm in Hin. simpl in Hnd, Hin. apply NoDup_cons in Hnd as [Hnin Hnd]. split; [done|]. split.
    + intros id. rewrite elem_of_difference, elem_of_singleton, <-Hin, elem_of_cons. split; [|naive_solver].
      intros Hid. split; [by right|]. by intros ->.
    + rewrite length_app in *. simpl in Hlen. lia.
Qed.

Lemma sched_reachable_inv s : sched_reachable sd s → sched_inv s.
Proof.
  intros Hr. eapply (rtc_ind_r sched_inv SchedState0); [| |exact Hr].
  - split; [constructor|]. split; [intros id; unfold held; simpl; set_solver|simpl; lia].
  - intros s1 s2 _ Hstep IH. by eapply sched_step_inv.
Qed.


(** ** Spacing *)

(** Entries of one device in the dispatch log are an interval apart, and the device is not due before
    the interval of its last dispatch is over. *)
Definition spaced (log : list (string * Time * Duration)) : Prop :=
  ∀ i j id t1 iv1 t2 iv2, i < j → log !! i = Some (id, t1, iv1) → log !! j = Some (id, t2, iv2) → (t1 + iv1 ≤ t2)%Z.

Definition due_inv (s : SchedState) : Prop :=
  spaced (sc_dispatched s) ∧
  ∀ id t iv, (id, t, iv) ∈ sc_dispatched s → (0 < iv)%Z ∧ ∃ due, sc_next s !! id = Some due ∧ (t + iv ≤ due)%Z.

Context (Hdefault : (0 < sd_DefaultInterval sd)%Z).
#[local] Set Default Proof Using "All".

Lemma interval_pos dev : (0 < interval (sd_DefaultInterval sd) dev)%Z.
Proof. unfold interval. destruct (Z.ltb_spec 0 (cs_Interval (d_Collection dev))); lia. Qed.

Lemma visited_due_inv dev s s' : due_inv s → visited dev s s' → due_inv s'.
Proof.
  intros [Hsp Hdue] Hv. pose proof (interval_pos dev) as Hpos.
  assert (∀ s2, (∀ due, sc_next s !! d_ID dev = Some due → (due ≤ sc_now s)%Z) →
    sc_next s2 = <[d_ID dev := (sc_now s + interval (sd_DefaultInterval sd) dev)%Z]> (sc_next s) →
    ∀ id t iv, (id, t, iv) ∈ sc_dispatched s → (0 < iv)%Z ∧ ∃ due, sc_next s2 !! id = Some due ∧ (t + iv ≤ due)%Z) as Hlater.
  { intros s2 Hold -> id t iv Hin. destruct (Hdue _ _ _ Hin) as (Hiv & due & Hd & Hle). split; [done|].
    destruct (decide (id = d_ID dev)) as [->|Hne].
    - rewrite lookup_insert_eq. eexists. split; [done|]. specialize (Hold _ Hd). lia.
    - rewrite lookup_insert_ne by done. eauto. }
  destruct Hv as [s' _ _ _ Hlog Hn|due s' _ _ _ Hlog Hnone Hn|s' _ _ _ Hlog Hold Hn|s' _ _ _ _ Hlog Hold Hn]; unfold due_inv; rewrite Hlog.
  - by rewrite Hn.
  - split; [done|]. intros id t iv Hin. destruct (Hdue _ _ _ Hin) as (Hiv & due' & Hd & Hle). split; [done|].
    rewrite Hn, lookup_insert_ne by congruence. eauto.
  - split; [done|]. by apply Hlater.
  - split.
    + intros i j id t1 iv1 t2 iv2 Hij Hi Hj. apply lookup_app_Some in Hj as [Hj|[Hge Hj]].
      * rewrite lookup_app_l in Hi by (apply lookup_lt_Some in Hj; lia). by eapply (Hsp i j).
      * apply list_lookup_singleton_Some in Hj as [Hj0 Heq]. injection Heq as <- <- <-.
        rewrite lookup_app_l in Hi by lia. apply list_elem_of_lookup_2 in Hi.
        destruct (Hdue _ _ _ Hi) as (_ & due & Hd & Hle). specialize (Hold _ Hd). lia.
    + intros id t iv [Hin|Hin]%elem_of_app; [by apply Hlater|].
      apply list_elem_of_singleton in Hin as [= -> -> ->]. split; [done|]. rewrite Hn, lookup_insert_eq. eexists. split; [done|]. lia.
Qed.

Lemma sched_reachable_due s : sched_reachable sd s → due_inv s.
Proof.
  intros Hr. eapply (rtc_ind_r due_inv SchedState0); [| |exact Hr].
  - split; [intros i j id t1 iv1 t2 iv2 _ Hi; simpl in Hi; by rewrite lookup_nil in Hi|by intros id t iv ?%elem_of_nil].
  - intros s1 s2 _ Hstep IH. destruct Hstep as [| dev rest s3 s4 _ _ Hv%visit_visited| |]; try exact IH.
    by apply (visited_due_inv dev (s3 <| sc_todo := rest |>)).
Qed.

(** Two polls of one device are started at least the device's interval apart, by the readings of
    the clock on which they are started, whatever the clock does in between; and the first poll
    is due within one interval, since the offset of a device is below its interval. *)
Theorem cycles_are_spaced s :
  sched_reachable sd s →
  spaced (sc_dispatched s) ∧
  ∀ dev, (interval (sd_DefaultInterval sd) dev ≤ int_max)%Z →
    ∃ o, offset (d_ID dev) (interval (sd_DefaultInterval sd) dev) = Ok o ∧ (0 ≤ o < interval (sd_DefaultInterval sd) dev)%Z.
Proof.
  intros [Hsp _]%sched_reachable_due. split; [done|]. intros dev Hmax. pose proof (interval_pos dev) as Hpos.
  unfold offset. assert (wrapu64 (interval (sd_DefaultInterval sd) dev) = interval (sd_DefaultInterval sd) dev) as ->.
  { unfold wrapu64. apply Z.mod_small. unfold int_max in Hmax. lia. }
  destruct (Z.eqb_spec (interval (sd_DefaultInterval sd) dev) 0); [lia|].
  pose proof (Z.mod_pos_bound (fnv32a 2166136261 (d_ID dev)) _ Hpos) as Hm.
  eexists. split; [done|]. rewrite wrap64_small; [done|]. unfold int_min, int_max in *. lia.
Qed.
End dispatch.

(** ** The outcome of a cycle *)

Lemma length_take_str n s : String.length (take_str n s) = n `min` String.length s.
Proof. revert s. induction n as [|n IH]; intros [|c s]; simpl; [done..|]. by rewrite IH. Qed.

(** A sink that records what it is given; publishing succeeds. *)
Definition recording_sink : Sink (list (list Observation) * list InventoryFact) :=
  MkSink (λ obs '(o, f), (None, (o ++ [obs], f))) (λ fact '(o, f), (None, (o, f ++ [fact]))).

Section outcome.
Context `{Sha256} {W : Type}.

(** Running a poll beside the recording sink. *)
Definition beside (Poll : Device → string → W → (Result * option error) * W) :
  Device → string → W * (list (list Observation) * list InventoryFact) → (Result * option error) * (W * (list (list Observation) * list InventoryFact)) :=
  λ dev cycle '(w, l), let '(re, w') := Poll dev cycle w in (re, (w', l)).
Definition sink_beside : Sink (W * (list (list Observation) * list InventoryFact)) :=
  MkSink (λ obs '(w, l), let '(e, l') := sk_Observations recording_sink obs l in (e, (w, l')))
         (λ f '(w, l), let '(e, l') := sk_Inventory recording_sink f l in (e, (w, l'))).

(** A report of the collector about the cycle itself. *)
Definition is_success_report (dev : Device) (cycleID : string) (ok : bool) (o : Observation) : Prop :=
  o_Metric o = MetricPollSuccess ∧ o_Value o = VBool ok ∧ o_DeviceID o = d_ID dev ∧ o_CorrelationID o = cycleID ∧
  o_ObservationID o = NewObservationID cycleID (d_ID dev) MetricPollSuccess (o_Labels o).

(** Every cycle reports its outcome, once: whatever the poller does, one batch is handed to the
    sink, whose last observation says whether the poll succeeded. A failed poll reports nothing else,
    with the category of its error; a successful one reports all its observations and its duration.
    Identity facts are only published by successful polls that learned a name or an object id. *)
Theorem every_cycle_reports_outcome (Poll : Device → string → W → (Result * option error) * W) cycleID started ended dev w :
  let '(r, err, w1) := Poll dev cycleID w in
  ∃ o, (PollOnce (beside Poll) sink_beside cycleID started ended dev (w, ([], []))).2 =
         (w1, ([match err with None => r_Observations r ++ [duration_observation dev cycleID started (time_Sub ended started)] | Some _ => [] end ++ [o]],
               match cycle_fact dev cycleID started r err with Some f => [f] | None => [] end)) ∧
    is_success_report dev cycleID (bool_decide (err = None)) o ∧
    (∀ e, err = Some e → mread (o_Metadata o) "error_category" = Category_string (CategoryOf (Some e)) ∧
       (slen (mread (o_Metadata o) "error") ≤ 200)%Z) ∧
    (is_Some (cycle_fact dev cycleID started r err) → err = None).
Proof.
  destruct (Poll dev cycleID w) as [[r err] w1] eqn:Hp. exists (success_observation dev cycleID started err). split; [|split; [|split]].
  - unfold PollOnce, beside. rewrite Hp. cbn [sink_beside sk_Observations recording_sink].
    destruct (cycle_fact dev cycleID started r err) as [f|]; destruct err; reflexivity.
  - done.
  - intros e ->. unfold success_observation, base_observation. cbn [o_Metadata]. cbv zeta. unfold mread, mget, entries. cbn [default from_option id].
    rewrite lookup_insert_eq, lookup_insert_ne, lookup_singleton_eq by done. split; [done|]. cbn [default from_option id].
    destruct (Z.ltb_spec 200 (slen (error_text e))) as [Hlt|Hge]; [|done]. unfold slen in *. rewrite length_take_str. lia.
  - unfold cycle_fact. intros [f Hf]. by case_bool_decide.
Qed.
End outcome.

(** The pipeline accepts the outcome report of every cycle: for a device with an id, a fresh
    cycle id and a start time the clock tolerates, the observation passes the wire validation with
    the default limits, however long the error text of the poll is. *)
Theorem outcome_report_is_valid `{Sha256} dev cycleID started err now :
  (∀ s, String.length (sha256 s) = 32) → d_ID dev ≠ "" → cycleID ≠ "" →
  started ≠ time_zero → (started ≤ now + 5 * Minute)%Z →
  Validate (NewValidator now) (success_observation dev cycleID started err) = None.
Proof.
  intros Hsha Hdev Hcycle Hzero Hnow. apply Validate_well_formed.
  assert (∀ k v, MatchString keyPattern k = true → (slen k ≤ 64)%Z → (slen v ≤ 1024)%Z → good_entry DefaultLimits k v) as Hentry.
  { intros k v Hk%MatchString_matches Hk' Hv. done. }
  constructor; cbn [success_observation base_observation o_ObservationID o_CorrelationID o_DeviceID o_Source o_Metric o_Value o_Labels o_ObservedAt o_Metadata v_Limits NewValidator v_now].
  - unfold NewObservationID, StableID. generalize (hash_input ["obs"; cycleID; d_ID dev; MetricPollSuccess; LabelsKey (Some {["protocol" := "snmp"]})]).
    intros input Heq. specialize (Hsha input). by destruct (sha256 input) as [|c rest].
  - done.
  - done.
  - done.
  - split; [apply MatchString_matches; reflexivity|by vm_compute].
  - done.
  - done.
  - split; [by vm_compute|]. apply map_Forall_singleton. apply Hentry; [reflexivity|by vm_compute|by vm_compute].
  - destruct err as [e|]; [|split; [by vm_compute|apply map_Forall_empty]]. cbv zeta. split; [by vm_compute|].
    apply map_Forall_insert_2; [|apply map_Forall_singleton].
    + apply Hentry; [reflexivity|by vm_compute|]. by destruct (CategoryOf (Some e)); vm_compute.
    + apply Hentry; [reflexivity|by vm_compute|].
      destruct (Z.ltb_spec 200 (slen (error_text e))) as [Hlt|Hge]; [|lia]. unfold slen in *. rewrite length_take_str. lia.
Qed.

(** ** Examples *)

Lemma outcome_report_is_valid_witness :
  Validate (NewValidator 9) (success_observation (H:=λ _, String.concat "" (replicate 32 "x")) ex_polled "c1" 7 (Some EDeadlineExceeded)) = None.
Proof.
  apply (outcome_report_is_valid (H:=λ _, String.concat "" (replicate 32 "x")) ex_polled "c1" 7 (Some EDeadlineExceeded) 9).
  - intros s. vm_compute. reflexivity.
  - discriminate.
  - discriminate.
  - discriminate.
  - vm_compute. discriminate.
Defined.

(** A run: a round polls the device, the poll ends, a later round polls it again. *)
Definition ex_sched : Scheduler := MkScheduler 2 1.
Definition ex_run_state : SchedState :=
  MkSchedState {["core-1" := 16%Z]} {["core-1"]} 15 16 [] None [ex_polled] [("core-1", 10, 1)%Z; ("core-1", 15, 1)%Z].

Ltac sched_run :=
  first
    [ eapply rtc_l; [eapply (sched_visit ex_sched ex_polled []); [reflexivity|reflexivity|vm_compute; reflexivity]|]
    | eapply rtc_l; [eapply (sched_hand ex_sched ex_polled); [reflexivity|vm_compute; lia]|] ].

Lemma ex_run_reachable : sched_reachable ex_sched ex_run_state.
Proof.
  unfold sched_reachable. eapply rtc_l; [apply (sched_round ex_sched 10 [ex_polled]); reflexivity|].
  sched_run. sched_run. eapply rtc_l; [apply (sched_finish ex_sched ex_polled [] []); reflexivity|].
  eapply rtc_l; [apply (sched_round ex_sched 15 [ex_polled]); reflexivity|]. sched_run. sched_run.
  match goal with |- rtc _ ?s _ => assert (s = ex_run_state) as -> end; [|apply rtc_refl]. vm_compute. reflexivity.
Qed.


Lemma cycles_are_spaced_witness :
  (0 < sd_DefaultInterval ex_sched)%Z ∧ length (sc_dispatched ex_run_state) = 2 ∧ spaced (sc_dispatched ex_run_state).
Proof.
  assert (0 < sd_DefaultInterval ex_sched)%Z as Hpos by (vm_compute; reflexivity).
  split; [exact Hpos|]. split; [reflexivity|]. apply (cycles_are_spaced ex_sched Hpos ex_run_state ex_run_reachable).
Defined.
