(* ===== verification/ScriptModule.v ===== *)
(** * Package [scripting/runtime], module.go: from script source to a program
    (src/internal/scripting/runtime/module.go)

    Scripts declare their exports line by line; compiling rewrites the declarations into one
    function that returns them. The JavaScript compiler is a parameter. The expressions of the
    source all start at a line start and match blanks but no line ends, so they are matched
    line by line. *)

From S2P Require Import Prelude GoLib GoFloat Domain Regexp.

(** ** Scanning *)

Definition NL : ascii := chr 10.
Definition is_blank (c : ascii) : bool := bool_decide (c = " "%char) || bool_decide (c = chr 9).
(** [\w], and the characters of an identifier. *)
Definition is_word (c : ascii) : bool := cls_alnum c || bool_decide (c = "_"%char).
Definition ident_start (c : ascii) : bool := cls_alpha c || cls_any "_$" c.
Definition ident_char (c : ascii) : bool := is_word c || bool_decide (c = "$"%char).

Fixpoint lines_from (cur : string) (s : string) : list string :=
  match s with
  | "" => [cur]
  | String c s => if bool_decide (c = NL) then cur :: lines_from "" s else lines_from (cur +:+ str1 c) s
  end.
Definition lines (s : string) : list string := lines_from "" s.

Fixpoint span (p : ascii → bool) (s : string) : string * string :=
  match s with
  | "" => ("", "")
  | String c s' => if p c then let '(a, b) := span p s' in (String c a, b) else ("", s)
  end.

(** A literal at the front of the rest. *)
Definition lit (t : string) (s : string) : option string := if HasPrefix s t then Some (drop_str (String.length t) s) else None.
(** [[ \t]+] *)
Definition blanks1 (s : string) : option string :=
  match span is_blank s with ("", _) => None | (_, rest) => Some rest end.
(** [\b] after a word character. *)
Definition at_boundary (s : string) : bool := match s with "" => true | String c _ => negb (is_word c) end.
Definition keyword (t : string) (s : string) : option string :=
  rest ← lit t s; if at_boundary rest then Some rest else None.
(** A letter, an underscore or a dollar sign, then word characters and dollar signs. *)
Definition ident (s : string) : option string :=
  match s with
  | String c s' => if ident_start c then Some (String c (span ident_char s').1) else None
  | "" => None
  end.

(** [export[ \t]+] after the blanks of a line. *)
Definition after_export (line : string) : option string :=
  rest ← lit "export" (span is_blank line).2; blanks1 rest.

(** [exportFunc]: the exported name of the line. *)
Definition exportFunc (line : string) : option string :=
  rest ← after_export line;
  let rest := match (r ← lit "async" rest; blanks1 r) with Some r => r | None => rest end in
  rest ← lit "function" rest;
  let rest := default rest (lit "*" rest) in
  rest ← blanks1 rest;
  ident rest.

(** [exportConst] *)
Definition exportConst (line : string) : option string :=
  rest ← after_export line;
  rest ← match lit "const" rest with
         | Some r => Some r
         | None => match lit "let" rest with Some r => Some r | None => lit "var" rest end
         end;
  rest ← blanks1 rest;
  ident rest.

(** [exportStrip] with the replacement ["$1$2"]: the word and its blanks go, the declaration stays. *)
Definition declares (rest : string) : bool :=
  match (r ← lit "async" rest; r ← blanks1 r; keyword "function" r) with
  | Some _ => true
  | None => existsb (λ k, bool_decide (is_Some (keyword k rest))) ["function"; "const"; "let"; "var"]
  end.
Definition exportStrip (line : string) : string :=
  match after_export line with
  | Some rest => if declares rest then (span is_blank line).1 +:+ rest else line
  | None => line
  end.

(** [unsupported]: the syntax it finds in a line, without the blanks around it. *)
Definition unsupported (line : string) : option string :=
  let s := (span is_blank line).2 in
  let taken rest := Some (TrimSpace (take_str (String.length line - String.length rest) line)) in
  match (r ← lit "export" s; r ← blanks1 r; keyword "default" r) with
  | Some r => taken r
  | None =>
      match (r ← lit "export" s; lit "{" (span is_blank r).2) with
      | Some r => taken r
      | None =>
          match (r ← lit "export" s; lit "*" (span is_blank r).2) with
          | Some r => taken r
          | None => match keyword "import" s with Some r => taken r | None => None end
          end
      end
  end.

(** [midLine], anywhere in a line. *)
Fixpoint midLine (s : string) : option string :=
  match s with
  | "" => None
  | String c s' =>
      let here := if cls_any ";}" c then (r ← blanks1 s'; keyword "export" r) else None in
      match here with
      | Some rest => Some (TrimSpace (take_str (String.length s - String.length rest) s))
      | None => midLine s'
      end
  end.

(** The first line a scanner finds something in. *)
Fixpoint first_match (f : string → option string) (ls : list string) : option string :=
  match ls with [] => None | l :: ls => match f l with Some m => Some m | None => first_match f ls end end.

(** ** Compiling *)

Record Program (G : Type) := MkProgram { pg_ID : string; pg_Exports : list string; pg_prog : G }.
Arguments MkProgram {G}.
Arguments pg_ID {G}.
Arguments pg_Exports {G}.
Arguments pg_prog {G}.

(** Names in order of appearance, each once: functions first, then constants. *)
Definition add_name (names : list string) (n : string) : list string := if bool_decide (n ∈ names) then names else names ++ [n].
Definition export_names (source : string) : list string :=
  foldl add_name [] (omap exportFunc (lines source) ++ omap exportConst (lines source)).

Definition return_clause (names : list string) : string :=
  str1 NL +:+ ";return {" +:+ Join ((λ n, n +:+ ":" +:+ n) <$> names) "," +:+ "};})()".
Definition prologue : string := "(function(){" +:+ Quote "use strict" +:+ ";".
Definition wrapped (source : string) (names : list string) : string :=
  prologue +:+ Join (exportStrip <$> lines source) (str1 NL) +:+ return_clause names.

Definition HasExport {G} (p : Program G) (name : string) : bool := bool_decide (name ∈ pg_Exports p).

Section compile.
Context {G : Type} (goja_Compile : string → string → res G).

Definition Compile (id source : string) : res (Program G) :=
  match first_match unsupported (lines source) with
  | Some m => Err (EText ("unsupported module syntax " +:+ Quote m +:+ ": use `export function name()` / `export const name`; imports are not available"))
  | None =>
      match first_match midLine (lines source) with
      | Some m => Err (EText ("`export` must start a line (one exported declaration per line); found " +:+ Quote m))
      | None =>
          match export_names source with
          | [] => Err (EText "script exports nothing")
          | names =>
              match goja_Compile (id +:+ ".js") (wrapped source names) with
              | Err e => Err (EWrapped ("syntax error: " +:+ error_text e) e)
              | Ok prog => Ok (MkProgram id names prog)
              end
          end
      end
  end.
End compile.

(** ** Facts *)

(** A name that can only be an identifier. *)
Definition is_ident (n : string) : Prop :=
  match n with "" => False | String c s => ident_start c = true ∧ all_chars (λ d, ident_char d = true) s end.

Lemma span_all p s : all_chars (λ c, p c = true) (span p s).1.
Proof.
  induction s as [|c s IH]; simpl; [done|]. destruct (p c) eqn:Hc; [|done]. destruct (span p s) as [a b]. by split.
Qed.
Lemma ident_is_ident s n : ident s = Some n → is_ident n.
Proof.
  destruct s as [|c s]; simpl; [done|]. destruct (ident_start c) eqn:Hc; [|done]. intros [= <-]. split; [done|apply span_all].
Qed.
Lemma exportFunc_ident l n : exportFunc l = Some n → is_ident n.
Proof.
  unfold exportFunc. intros (r1 & _ & (r2 & _ & (r3 & _ & Hi)%bind_Some)%bind_Some)%bind_Some. by eapply ident_is_ident.
Qed.
Lemma exportConst_ident l n : exportConst l = Some n → is_ident n.
Proof.
  unfold exportConst. intros (r1 & _ & (r2 & _ & (r3 & _ & Hi)%bind_Some)%bind_Some)%bind_Some. by eapply ident_is_ident.
Qed.

Lemma add_names_spec l names :
  NoDup names → NoDup (foldl add_name names l) ∧ ∀ n, n ∈ foldl add_name names l ↔ n ∈ names ∨ n ∈ l.
Proof.
  revert names. induction l as [|x l IH]; intros names Hnd; simpl; [split; [done|set_solver]|].
  assert (NoDup (add_name names x) ∧ ∀ n, n ∈ add_name names x ↔ n ∈ names ∨ n = x) as [Hnd' Hin].
  { unfold add_name. case_bool_decide as Hx; [split; [done|naive_solver]|]. split.
    - apply NoDup_app. split; [done|]. split; [|apply NoDup_singleton]. by intros y Hy ->%list_elem_of_singleton.
    - intros n. by rewrite elem_of_app, list_elem_of_singleton. }
  destruct (IH _ Hnd') as [H1 H2]. split; [done|]. intros n. rewrite H2, Hin, elem_of_cons. tauto.
Qed.

(** A compiled script exports exactly the names its lines declare, each once and at least one, and
    every one is an identifier, so the clause that returns them cannot be injected into; no line
    of its source uses a default export, an export list or an import. *)
Theorem compiled_exports_are_declared {G} (goja : string → string → res G) id source p :
  Compile goja id source = Ok p →
  pg_ID p = id ∧ pg_Exports p ≠ [] ∧ NoDup (pg_Exports p) ∧ Forall is_ident (pg_Exports p) ∧
  (∀ n, HasExport p n = true ↔ ∃ l, l ∈ lines source ∧ (exportFunc l = Some n ∨ exportConst l = Some n)) ∧
  Forall (λ l, unsupported l = None ∧ midLine l = None) (lines source).
Proof.
  unfold Compile. intros Hc. destruct (first_match unsupported _) eqn:Hu; [done|]. destruct (first_match midLine _) eqn:Hm; [done|].
  destruct (export_names source) as [|x xs] eqn:Hnames; [done|]. destruct (goja _ _) as [g|e]; [|done]. injection Hc as <-.
  unfold HasExport. cbn [pg_ID pg_Exports]. rewrite <-Hnames.
  destruct (add_names_spec (omap exportFunc (lines source) ++ omap exportConst (lines source)) []) as [Hnd Hin]; [constructor|].
  assert (∀ n, n ∈ export_names source ↔ ∃ l, l ∈ lines source ∧ (exportFunc l = Some n ∨ exportConst l = Some n)) as Hspec.
  { intros n. unfold export_names. rewrite Hin, elem_of_nil, elem_of_app, !list_elem_of_omap. naive_solver. }
  split_and!; [done|by rewrite Hnames|exact Hnd| | |].
  - apply Forall_forall. intros n (l & _ & [Hl|Hl])%Hspec; eauto using exportFunc_ident, exportConst_ident.
  - intros n. by rewrite bool_decide_eq_true.
  - apply Forall_forall. clear -Hu Hm. induction (lines source) as [|l ls IH]; [by intros l ?%elem_of_nil|].
    simpl in Hu, Hm. destruct (unsupported l) eqn:Hul; [done|]. destruct (midLine l) eqn:Hml; [done|].
    intros l' [->|Hl]%elem_of_cons; [done|]. by apply IH.
Qed.

Definition ex_source : string :=
  "export const meta = {version: '1'};" +:+ str1 NL +:+ "export function transform(o) { return o }" +:+ str1 NL.

Lemma compiled_exports_are_declared_witness :
  ∃ p, Compile (λ _ s, Ok s) "transforms/t" ex_source = Ok p ∧ pg_Exports p = ["transform"; "meta"] ∧ Forall is_ident (pg_Exports p).
Proof.
  destruct (Compile (λ _ s, Ok s) "transforms/t" ex_source) as [p|e] eqn:Hc; [|vm_compute in Hc; discriminate].
  exists p. split; [reflexivity|]. split; [vm_compute in Hc; injection Hc as <-; reflexivity|].
  apply (compiled_exports_are_declared _ _ _ _ Hc).
Defined.
