(* ===== verification/ScriptRegistry.v ===== *)
(** * Package [scripting/registry]: scripts on disk and their lifecycle
    (src/internal/scripting/registry/registry.go)

    A script is active, switched off, quarantined after too many failures in a row, or failed to
    load. Workers follow the registry through its generation ([Source]). The file system, the
    JavaScript compiler and the configuration values of scripts are parameters. *)

From S2P Require Import Prelude GoLib GoFloat Domain Regexp Inventory ScriptModule.

(** ** Data *)

Definition KindTransform : string := "transforms".
Definition KindEnricher : string := "enrichers".
Definition KindAutomation : string := "automation".
Definition KindIntegration : string := "integrations".
Definition KindCollector : string := "collectors".

Definition Contract : gmap string string :=
  list_to_map [(KindTransform, "transform"); (KindEnricher, "enrich"); (KindAutomation, "proposeAutomation");
               (KindIntegration, "handleEvent"); (KindCollector, "collect")].

Inductive Status := StatusActive | StatusDisabled | StatusQuarantined | StatusFailed.
#[export] Instance Status_eq_dec : EqDecision Status.
Proof. solve_decision. Defined.
#[export] Instance Status_countable : Countable Status.
Proof.
  refine (inj_countable' (λ s, match s with StatusActive => 0 | StatusDisabled => 1 | StatusQuarantined => 2 | StatusFailed => 3 end)
            (λ n, match n with 0 => StatusActive | 1 => StatusDisabled | 2 => StatusQuarantined | _ => StatusFailed end) _).
  by intros [].
Defined.

(** Settings of one script in the configuration. *)
Record ScriptSettings (C : Type) := MkScriptSettings { ss_Enabled : option bool; ss_Config : C }.
Arguments ss_Enabled {C}.
Arguments ss_Config {C}.
Definition IsEnabled {C} (s : ScriptSettings C) : bool := default true (ss_Enabled s).

Section registry.
Context {G C : Type}.

Record Script := MkScript {
  sc_Key : string;
  sc_Kind : string;
  sc_ID : string;
  sc_Path : string;
  sc_Version : string;
  sc_Description : string;
  sc_Metrics : list string;
  sc_Events : list string;
  sc_MinSeverity : string;
  sc_Hash : string;
  sc_Status : Status;
  sc_Reason : string;
  sc_Config : option C;
  sc_Program : option (Program G);
  sc_ConsecutiveFailures : Z;
  sc_TotalFailures : Z;
  sc_TotalCalls : Z;
  sc_LastError : string;
  sc_LastFailureAt : Time;
  sc_QuarantinedAt : Time;
}.
#[export] Instance eta_Script : Eta Script := λ s,
  MkScript (sc_Key s) (sc_Kind s) (sc_ID s) (sc_Path s) (sc_Version s) (sc_Description s) (sc_Metrics s) (sc_Events s)
    (sc_MinSeverity s) (sc_Hash s) (sc_Status s) (sc_Reason s) (sc_Config s) (sc_Program s) (sc_ConsecutiveFailures s)
    (sc_TotalFailures s) (sc_TotalCalls s) (sc_LastError s) (sc_LastFailureAt s) (sc_QuarantinedAt s).

Record Report := MkReport { rp_Loaded : Z; rp_Failed : Z; rp_Disabled : Z; rp_Errors : list string }.
#[export] Instance eta_Report : Eta Report := λ r, MkReport (rp_Loaded r) (rp_Failed r) (rp_Disabled r) (rp_Errors r).

Record Registry := MkRegistry {
  rg_dirs : list string;
  rg_settings : gmap string (gmap string (ScriptSettings C));
  rg_threshold : Z;
  rg_scripts : gmap string Script;
  rg_gen : Z;
}.
#[export] Instance eta_Registry : Eta Registry := λ r,
  MkRegistry (rg_dirs r) (rg_settings r) (rg_threshold r) (rg_scripts r) (rg_gen r).

Definition New (dirs : list string) (settings : gmap string (gmap string (ScriptSettings C))) (threshold : Z) : Registry :=
  MkRegistry dirs settings (Z.max threshold 1) ∅ 0.

Definition Generation (r : Registry) : Z := rg_gen r.
Definition bump (r : Registry) : Registry := r <| rg_gen := wrapu64 (rg_gen r + 1) |>.

(** The scripts in key order; keys are visited in whatever order and sorted. *)
Definition sortedKeys (r : Registry) : list string := sort_strings (map_to_list (rg_scripts r)).*1.
Definition in_key_order (r : Registry) : list Script := omap (λ k, rg_scripts r !! k) (sortedKeys r).

Definition is_active (s : Script) : bool := bool_decide (sc_Status s = StatusActive).
Definition Programs (r : Registry) : list (Program G) :=
  omap (λ s, if is_active s then sc_Program s else None) (in_key_order r).
Definition ByKind (r : Registry) (kind : string) : list Script :=
  filter (λ s, sc_Kind s = kind ∧ sc_Status s = StatusActive) (in_key_order r).
Definition Get (r : Registry) (key : string) : option Script := rg_scripts r !! key.
Definition List_ (r : Registry) : list Script := in_key_order r.

(** ** Loading *)

Section loading.
Context `{Sha256} {RO : RangeOrder}.
Context (goja_Compile : string → string → res G).
Context (Glob : string → string → list string).       (* directory and kind: the paths of its scripts *)
Context (Base : string → string).                      (* the last element of a path *)
Context (ReadFile : string → res string).

(** Compiles the source and checks it against the contract of its kind. *)
Definition Validate (kind id src : string) : res (Program G) :=
  match Contract !! kind with
  | None => Err (EText ("unknown script kind " +:+ Quote kind))
  | Some fn =>
      match Compile goja_Compile (kind +:+ "/" +:+ id) src with
      | Err e => Err e
      | Ok prog =>
          if negb (HasExport prog fn)
          then Err (EText ("a " +:+ TrimSuffix kind "s" +:+ " script must export a function named " +:+ fn))
          else if negb (HasExport prog "meta")
          then Err (EText ("script must export `const meta = {version: " +:+ Quote "..." +:+ ", description: " +:+ Quote "..." +:+ "}`"))
          else Ok prog
      end
  end.

Definition new_script (kind path : string) : Script :=
  let id := TrimSuffix (Base path) ".js" in
  MkScript (kind +:+ "/" +:+ id) kind id path "" "" [] [] "" "" StatusActive "" None None 0 0 0 "" time_zero time_zero.

Definition with_settings (r : Registry) (s : Script) : Script :=
  match rg_settings r !! sc_Kind s ≫= λ byID, byID !! sc_ID s with
  | None => s
  | Some set =>
      let s := s <| sc_Config := Some (ss_Config set) |> in
      if IsEnabled set then s else s <| sc_Status := StatusDisabled |> <| sc_Reason := "disabled in configuration" |>
  end.

Definition script_hash (src : string) : string := hex_encode (take_str 8 (sha256 src)).

Definition loadFile (r : Registry) (kind path : string) : Script :=
  let s := with_settings r (new_script kind path) in
  match ReadFile path with
  | Err e => s <| sc_Status := StatusFailed |> <| sc_Reason := "read: " +:+ error_text e |>
  | Ok src =>
      let s := s <| sc_Hash := script_hash src |> in
      if bool_decide (sc_Status s = StatusDisabled) then s
      else
        match Validate kind (sc_ID s) src with
        | Err e => s <| sc_Status := StatusFailed |> <| sc_Reason := error_text e |>
        | Ok prog => s <| sc_Program := Some prog |>
        end
  end.

(** The scan: a later directory replaces a script of an earlier one. *)
Definition scan_kind (r : Registry) (dir : string) (found : gmap string Script) (kind : string) : gmap string Script :=
  foldl (λ found f, let s := loadFile r kind f in <[sc_Key s := s]> found) found (sort_strings (Glob dir kind)).
Definition scan (r : Registry) : gmap string Script :=
  foldl (λ found dir, foldl (scan_kind r dir) found (range_order Contract).*1) ∅ (rg_dirs r).

(** An unchanged script that loads keeps its counters and its quarantine. *)
Definition carry (old : option Script) (s : Script) : Script :=
  match old with
  | None => s
  | Some old =>
      if bool_decide (sc_Hash old = sc_Hash s) && is_active s then
        let s := s <| sc_ConsecutiveFailures := sc_ConsecutiveFailures old |> <| sc_TotalFailures := sc_TotalFailures old |>
                   <| sc_TotalCalls := sc_TotalCalls old |> <| sc_LastError := sc_LastError old |>
                   <| sc_LastFailureAt := sc_LastFailureAt old |> in
        if bool_decide (sc_Status old = StatusQuarantined)
        then s <| sc_Status := StatusQuarantined |> <| sc_Reason := sc_Reason old |> <| sc_QuarantinedAt := sc_QuarantinedAt old |>
        else s
      else s
  end.

Definition report_one (rep : Report) (s : Script) : Report :=
  match sc_Status s with
  | StatusActive | StatusQuarantined => rep <| rp_Loaded := int_incr (rp_Loaded rep) |>
  | StatusDisabled => rep <| rp_Disabled := int_incr (rp_Disabled rep) |>
  | StatusFailed =>
      rep <| rp_Failed := int_incr (rp_Failed rep) |> <| rp_Errors := rp_Errors rep ++ [sc_Key s +:+ ": " +:+ sc_Reason s] |>
  end.

Definition Reload (r : Registry) : Report * Registry :=
  let found := map_imap (λ key s, Some (carry (rg_scripts r !! key) s)) (scan r) in
  (foldl report_one (MkReport 0 0 0 []) (range_order found).*2, bump (r <| rg_scripts := found |>)).
End loading.

(** ** State changes *)

Definition MarkFailed (r : Registry) (key reason : string) : Registry :=
  match rg_scripts r !! key with
  | None => r
  | Some s => bump (r <| rg_scripts := <[key := s <| sc_Status := StatusFailed |> <| sc_Reason := reason |>]> (rg_scripts r) |>)
  end.

Definition SetMeta (r : Registry) (key version description : string) (metrics events : list string) (minSeverity : string) : Registry :=
  match rg_scripts r !! key with
  | None => r
  | Some s =>
      r <| rg_scripts := <[key := s <| sc_Version := version |> <| sc_Description := description |> <| sc_Metrics := metrics |>
                                    <| sc_Events := events |> <| sc_MinSeverity := minSeverity |>]> (rg_scripts r) |>
  end.

(** The counters of a failed invocation. *)
Definition count_failure (now : Time) (text : string) (s : Script) : Script :=
  s <| sc_TotalCalls := wrapu64 (sc_TotalCalls s + 1) |> <| sc_TotalFailures := wrapu64 (sc_TotalFailures s + 1) |>
    <| sc_ConsecutiveFailures := int_incr (sc_ConsecutiveFailures s) |> <| sc_LastError := text |> <| sc_LastFailureAt := now |>.

Definition RecordResult (now : Time) (r : Registry) (key : string) (err : option error) : bool * Registry :=
  match rg_scripts r !! key with
  | None => (false, r)
  | Some s =>
      match err with
      | None =>
          (false, r <| rg_scripts := <[key := s <| sc_TotalCalls := wrapu64 (sc_TotalCalls s + 1) |> <| sc_ConsecutiveFailures := 0%Z |>]> (rg_scripts r) |>)
      | Some e =>
          let s := count_failure now (error_text e) s in
          if is_active s && (rg_threshold r <=? sc_ConsecutiveFailures s)%Z then
            let s := s <| sc_Status := StatusQuarantined |>
                       <| sc_Reason := "quarantined after " +:+ FormatInt (sc_ConsecutiveFailures s) +:+ " consecutive failures; last: " +:+ error_text e |>
                       <| sc_QuarantinedAt := now |> in
            (true, bump (r <| rg_scripts := <[key := s]> (rg_scripts r) |>))
          else (false, r <| rg_scripts := <[key := s]> (rg_scripts r) |>)
      end
  end.

Definition SetEnabled (r : Registry) (key : string) (enabled : bool) : bool * Registry :=
  match rg_scripts r !! key with
  | None => (false, r)
  | Some s =>
      match sc_Program s with
      | None => (false, r)
      | Some _ =>
          if enabled && negb (is_active s) then
            (true, bump (r <| rg_scripts := <[key := s <| sc_Status := StatusActive |> <| sc_Reason := "" |> <| sc_ConsecutiveFailures := 0%Z |>]> (rg_scripts r) |>))
          else if negb enabled && is_active s then
            (true, bump (r <| rg_scripts := <[key := s <| sc_Status := StatusDisabled |> <| sc_Reason := "disabled by operator" |>]> (rg_scripts r) |>))
          else (true, r)
      end
  end.

Definition Counts (r : Registry) : gmap Status Z :=
  foldl (λ c s, <[sc_Status s := int_incr (default 0%Z (c !! sc_Status s))]> c) ∅ (map_to_list (rg_scripts r)).*2.
End registry.
Arguments Script : clear implicits.
Arguments Registry : clear implicits.
