(* ===== verification/ScriptRegistryFacts.v ===== *)
(** * Facts of the script registry: generations, quarantine, reload *)

From S2P Require Import Prelude GoLib GoFloat Domain Regexp Inventory ScriptModule ScriptRegistry.

(** ** Sorted keys *)

Lemma sort_strings_proper l1 l2 : l1 ≡ₚ l2 → sort_strings l1 = sort_strings l2.
Proof.
  intros Hp. apply (Sorted_unique String.le); [apply Sorted_merge_sort; apply _..|]. by rewrite !sort_strings_perm.
Qed.

Section facts.
Context {G C : Type}.
Abbreviation Registry := (Registry G C).
Abbreviation Script := (Script G C).

Lemma sortedKeys_dom (r1 r2 : Registry) : dom (rg_scripts r1) = dom (rg_scripts r2) → sortedKeys r1 = sortedKeys r2.
Proof.
  intros Hdom. apply sort_strings_proper. apply NoDup_Permutation; [apply NoDup_fst_map_to_list..|]. intros k.
  assert (∀ m : gmap string Script, k ∈ (map_to_list m).*1 ↔ k ∈ dom m) as Hk.
  { intros m. rewrite elem_of_dom, list_elem_of_fmap. split.
    - intros ([k' s] & -> & Hin%elem_of_map_to_list). eauto.
    - intros [s Hs]. exists (k, s). by rewrite elem_of_map_to_list. }
  by rewrite !Hk, Hdom.
Qed.

Lemma elem_of_in_key_order (r : Registry) s : s ∈ in_key_order r ↔ ∃ k, rg_scripts r !! k = Some s.
Proof.
  unfold in_key_order, sortedKeys. rewrite list_elem_of_omap. split.
  - intros (k & _ & Hk). eauto.
  - intros [k Hk]. exists k. split; [|done]. rewrite sort_strings_perm, list_elem_of_fmap.
    exists (k, s). by rewrite elem_of_map_to_list.
Qed.

(** What the workers see of a script. *)
Definition offered (s : Script) : option (Program G) := if is_active s then sc_Program s else None.

(** Changing a script in a way workers do not see leaves the programs alone. *)
Lemma Programs_insert (r : Registry) key s s' :
  rg_scripts r !! key = Some s → offered s' = offered s → Programs (r <| rg_scripts := <[key := s']> (rg_scripts r) |>) = Programs r.
Proof.
  intros Hs Ho. unfold Programs, in_key_order.
  rewrite (sortedKeys_dom (r <| rg_scripts := <[key := s']> (rg_scripts r) |>) r).
  2: { simpl. rewrite dom_insert_L. apply set_eq. intros k. rewrite elem_of_union, elem_of_singleton, elem_of_dom.
       split; [intros [->|?]; eauto|by right]. }
  induction (sortedKeys r) as [|k ks IH]; [done|]. simpl. destruct (decide (k = key)) as [->|Hne].
  - rewrite lookup_insert_eq, Hs. simpl. unfold offered in Ho. rewrite Ho. destruct (is_active s); [destruct (sc_Program s)|]; simpl; [f_equal|..]; exact IH.
  - rewrite lookup_insert_ne by done. destruct (rg_scripts r !! k) as [sk|]; simpl; [|exact IH].
    destruct (is_active sk); [destruct (sc_Program sk)|]; simpl; [f_equal|..]; exact IH.
Qed.

(** ** Every change of the registry *)

(** The operations other components call on the registry, with whatever they pass. *)
Inductive registry_op (r : Registry) : Registry → Prop :=
| op_reload (HS : Sha256) (RO : RangeOrder) goja glob base read : registry_op r (Reload goja glob base read r).2
| op_mark_failed key reason : registry_op r (MarkFailed r key reason)
| op_set_meta key version description metrics events sev : registry_op r (SetMeta r key version description metrics events sev)
| op_record now key err : registry_op r (RecordResult now r key err).2
| op_set_enabled key enabled : registry_op r (SetEnabled r key enabled).2.

(** One operation moves the generation on, or workers see the same programs. *)
Lemma registry_op_generation (r r' : Registry) :
  registry_op r r' →
  Generation r' = wrapu64 (Generation r + 1) ∨ (Generation r' = Generation r ∧ Programs r' = Programs r).
Proof.
  intros Hop. destruct Hop as [HS RO goja glob base read|key reason|key version description metrics events sev|now key err|key enabled].
  - by left.
  - unfold MarkFailed. destruct (rg_scripts r !! key); [by left|by right].
  - unfold SetMeta. destruct (rg_scripts r !! key) as [s|] eqn:Hs; [|by right]. right. split; [done|]. by apply (Programs_insert _ _ s).
  - unfold RecordResult. destruct (rg_scripts r !! key) as [s|] eqn:Hs; [|by right]. destruct err as [e|].
    + cbv zeta. destruct (_ && _); [by left|]. right. split; [done|]. by apply (Programs_insert _ _ s).
    + right. split; [done|]. by apply (Programs_insert _ _ s).
  - unfold SetEnabled. destruct (rg_scripts r !! key) as [s|] eqn:Hs; [|by right]. destruct (sc_Program s); [|by right].
    destruct (enabled && _); [by left|]. destruct (negb enabled && _); [by left|by right].
Qed.

Lemma threshold_op (r r' : Registry) : registry_op r r' → rg_threshold r' = rg_threshold r.
Proof.
  intros Hop. destruct Hop as [| | |now key err|key enabled]; [done|unfold MarkFailed|unfold SetMeta|unfold RecordResult|unfold SetEnabled];
    destruct (rg_scripts r !! _) as [s|]; try done.
  - destruct err; [|done]. cbv zeta. by destruct (_ && _).
  - destruct (sc_Program s); [|done]. destruct (enabled && _); [done|]. by destruct (negb enabled && _).
Qed.

(** ** Quarantine *)

(** Feed the outcomes of the invocations of one script, in order. *)
Fixpoint record_all (now : Time) (r : Registry) (key : string) (outs : list (option error)) : Registry :=
  match outs with [] => r | o :: outs => record_all now (RecordResult now r key o).2 key outs end.

(** The reference: the longest run of failures, given the run so far. *)
Fixpoint longest_run (cur : Z) (outs : list (option error)) : Z :=
  match outs with
  | [] => cur
  | None :: outs => Z.max cur (longest_run 0 outs)
  | Some _ :: outs => longest_run (cur + 1) outs
  end.

Lemma longest_run_ge cur outs : (cur ≤ longest_run cur outs)%Z.
Proof.
  revert cur. induction outs as [|[e|] outs IH]; intros cur; simpl; [lia| |lia]. specialize (IH (cur + 1)%Z). lia.
Qed.

Lemma record_all_quarantined now (r : Registry) key outs s :
  rg_scripts r !! key = Some s → sc_Status s = StatusQuarantined →
  ∃ s', rg_scripts (record_all now r key outs) !! key = Some s' ∧ sc_Status s' = StatusQuarantined.
Proof.
  revert r s. induction outs as [|o outs IH]; intros r s Hs Hq; simpl; [eauto|].
  unfold RecordResult. rewrite Hs. destruct o as [e|].
  - cbv zeta. assert (is_active (count_failure now (error_text e) s) = false) as Hna.
    { unfold is_active. simpl. rewrite Hq. done. }
    rewrite Hna. eapply IH; [simpl; apply lookup_insert_eq|done].
  - eapply IH; [simpl; apply lookup_insert_eq|done].
Qed.

Lemma record_all_run now (r : Registry) key outs s :
  rg_scripts r !! key = Some s → sc_Status s = StatusActive → (0 ≤ sc_ConsecutiveFailures s < rg_threshold r)%Z →
  (sc_ConsecutiveFailures s + Z.of_nat (length outs) ≤ int_max)%Z →
  ∃ s', rg_scripts (record_all now r key outs) !! key = Some s' ∧
    sc_Status s' = if decide (rg_threshold r ≤ longest_run (sc_ConsecutiveFailures s) outs)%Z then StatusQuarantined else StatusActive.
Proof.
  revert r s. induction outs as [|o outs IH]; intros r s Hs Ha Hcf Hmax; cbn [record_all longest_run].
  - exists s. split; [done|]. rewrite decide_False by lia. done.
  - unfold RecordResult. rewrite Hs. destruct o as [e|]; cbv zeta.
    + assert (is_active (count_failure now (error_text e) s) = true) as Hact by (unfold is_active; simpl; by rewrite Ha). rewrite Hact.
      assert (sc_ConsecutiveFailures (count_failure now (error_text e) s) = sc_ConsecutiveFailures s + 1)%Z as Hincr.
      { simpl. apply int_incr_small. unfold int_min, int_max in *. simpl in Hmax. lia. }
      rewrite Hincr. destruct (Z.leb_spec (rg_threshold r) (sc_ConsecutiveFailures s + 1)) as [Hle|Hgt]; cbn [andb].
      * pose proof (longest_run_ge (sc_ConsecutiveFailures s + 1) outs). rewrite decide_True by lia.
        eapply record_all_quarantined; [simpl; apply lookup_insert_eq|done].
      * destruct (IH (r <| rg_scripts := <[key := count_failure now (error_text e) s]> (rg_scripts r) |>)
                    (count_failure now (error_text e) s)) as (s' & Hs' & Hst); [simpl; apply lookup_insert_eq|done|simpl in *; lia|simpl in *; lia|].
        exists s'. split; [done|]. rewrite Hst, Hincr. done.
    + destruct (IH (r <| rg_scripts := <[key := s <| sc_TotalCalls := wrapu64 (sc_TotalCalls s + 1) |> <| sc_ConsecutiveFailures := 0%Z |>]> (rg_scripts r) |>)
                  (s <| sc_TotalCalls := wrapu64 (sc_TotalCalls s + 1) |> <| sc_ConsecutiveFailures := 0%Z |>))
        as (s' & Hs' & Hst); [simpl; apply lookup_insert_eq|done|simpl; lia|simpl in *; lia|].
      exists s'. split; [exact Hs'|]. rewrite Hst. simpl.
      destruct (decide (rg_threshold r ≤ longest_run 0 outs)%Z); [rewrite decide_True by lia|rewrite decide_False by lia]; done.
Qed.

(** ** Reload *)

Section reload.
Context `{Sha256} {RO : RangeOrder}.
Context (goja : string → string → res G) (glob : string → string → list string) (base : string → string) (read : string → res string).
Abbreviation loadFile := (loadFile goja base read).
Abbreviation scan := (scan goja glob base read).
Abbreviation Reload := (Reload goja glob base read).

Lemma scan_loaded (r : Registry) key s : scan r !! key = Some s → ∃ kind path, s = loadFile r kind path ∧ sc_Key s = key.
Proof.
  assert (∀ kind files (found : gmap string Script),
    map_Forall (λ k s, ∃ kind path, s = loadFile r kind path ∧ sc_Key s = k) found →
    map_Forall (λ k s, ∃ kind path, s = loadFile r kind path ∧ sc_Key s = k)
      (foldl (λ found f, let s := loadFile r kind f in <[sc_Key s := s]> found) found files)) as Hfiles.
  { intros kind files. induction files as [|f files IH]; intros found Hf; simpl; [done|]. apply IH.
    apply map_Forall_insert_2; [|done]. by exists kind, f. }
  assert (∀ dir kinds (found : gmap string Script),
    map_Forall (λ k s, ∃ kind path, s = loadFile r kind path ∧ sc_Key s = k) found →
    map_Forall (λ k s, ∃ kind path, s = loadFile r kind path ∧ sc_Key s = k) (foldl (scan_kind goja glob base read r dir) found kinds)) as Hkinds.
  { intros dir kinds. induction kinds as [|k kinds IH]; intros found Hf; simpl; [done|]. by apply IH, Hfiles. }
  assert (∀ dirs (found : gmap string Script),
    map_Forall (λ k s, ∃ kind path, s = loadFile r kind path ∧ sc_Key s = k) found →
    map_Forall (λ k s, ∃ kind path, s = loadFile r kind path ∧ sc_Key s = k)
      (foldl (λ found dir, foldl (scan_kind goja glob base read r dir) found (range_order Contract).*1) found dirs)) as Hdirs.
  { induction dirs as [|d dirs IH]; intros found Hf; simpl; [done|]. by apply IH, Hkinds. }
  intros Hs. by apply (Hdirs (rg_dirs r) ∅ (map_Forall_empty _)) in Hs.
Qed.

(** A freshly loaded script has no history, and a program exactly when it is active. *)
Lemma loadFile_fresh (r : Registry) kind path :
  let s := loadFile r kind path in
  sc_ConsecutiveFailures s = 0%Z ∧ sc_Metrics s = [] ∧ sc_Events s = [] ∧ sc_MinSeverity s = "" ∧
  (sc_Status s = StatusActive ↔ is_Some (sc_Program s)) ∧ sc_Status s ≠ StatusQuarantined.
Proof.
  unfold ScriptRegistry.loadFile. cbv zeta. set (s0 := with_settings r (new_script base kind path)).
  assert (sc_ConsecutiveFailures s0 = 0%Z ∧ sc_Metrics s0 = [] ∧ sc_Events s0 = [] ∧ sc_MinSeverity s0 = "" ∧ sc_Program s0 = None ∧
          (sc_Status s0 = StatusActive ∨ sc_Status s0 = StatusDisabled)) as (H1 & H2 & H3 & H4 & H5 & H6).
  { unfold s0, with_settings. destruct (_ ≫= _) as [set|]; simpl; [destruct (IsEnabled set); simpl|]; split_and!; auto. }
  destruct (read path) as [src|e]; [|simpl; split_and!; try done; rewrite H5; split; [done|by intros [? ?]]].
  case_bool_decide as Hd; [simpl in *; split_and!; try done; rewrite ?H5, ?Hd; [split; [done|by intros [? ?]]|done]|].
  destruct (Validate _ _ _ _) as [prog|e]; simpl in *; split_and!; try done.
  - split; [eauto|]. intros _. by destruct H6.
  - by destruct H6 as [->|?].
  - rewrite H5. split; [done|by intros [? ?]].
Qed.

Lemma Reload_lookup (r : Registry) key : Get (Reload r).2 key = carry (Get r key) <$> scan r !! key.
Proof. unfold Get, ScriptRegistry.Reload. simpl. rewrite map_lookup_imap. by destruct (scan r !! key). Qed.

Lemma carry_hash (old : option Script) s : sc_Hash (carry old s) = sc_Hash s.
Proof. unfold carry. destruct old as [o|]; [|done]. destruct (_ && _); [|done]. cbv zeta. by case_bool_decide. Qed.
End reload.
End facts.

(** ** Theorems *)

(** A script is quarantined exactly when it has failed [threshold] times in a row: after any
    sequence of results its status is quarantined if and only if the sequence contains such a run
    (counting the failures it already had), and active otherwise; one success in between resets it. *)
Theorem quarantine_after_consecutive_failures {G C} now (r : Registry G C) key outs s :
  Get r key = Some s → sc_Status s = StatusActive → (0 ≤ sc_ConsecutiveFailures s < rg_threshold r)%Z →
  (sc_ConsecutiveFailures s + Z.of_nat (length outs) ≤ int_max)%Z →
  ∃ s', Get (record_all now r key outs) key = Some s' ∧
    (sc_Status s' = StatusQuarantined ↔ rg_threshold r ≤ longest_run (sc_ConsecutiveFailures s) outs)%Z ∧
    (sc_Status s' = StatusActive ↔ longest_run (sc_ConsecutiveFailures s) outs < rg_threshold r)%Z.
Proof.
  intros Hs Ha Hcf Hmax. destruct (record_all_run now r key outs s Hs Ha Hcf Hmax) as (s' & Hs' & Hst).
  exists s'. split; [done|]. rewrite Hst. destruct (decide _); split; split; (done || lia).
Qed.

(** Reloading never un-quarantines an unchanged script, and a script whose file changed starts
    with a clean record: after a reload a script with the same content as a quarantined one is not
    active, and one with other content has no failures counted. *)
Theorem reload_respects_quarantine {G C} `{Sha256} {RO : RangeOrder} goja glob base read (r : Registry G C) key old s' :
  Get r key = Some old → Get (Reload goja glob base read r).2 key = Some s' →
  (sc_Hash s' = sc_Hash old → sc_Status old = StatusQuarantined → sc_Status s' ≠ StatusActive) ∧
  (sc_Hash s' ≠ sc_Hash old → sc_ConsecutiveFailures s' = 0%Z ∧ sc_Status s' ≠ StatusQuarantined).
Proof.
  intros Hold Hs'. rewrite Reload_lookup, Hold in Hs'. apply fmap_Some in Hs' as (s & Hscan & ->).
  assert (sc_Hash (carry (Some old) s) = sc_Hash s) as Hh by apply carry_hash. rewrite Hh. split.
  - intros Heq Hq. unfold carry. rewrite bool_decide_eq_true_2 by done. destruct (is_active s) eqn:Ha; cbn [andb].
    + cbv zeta. by rewrite bool_decide_eq_true_2.
    + unfold is_active in Ha. by apply bool_decide_eq_false_1 in Ha.
  - intros Hne. unfold carry. rewrite bool_decide_eq_false_2 by congruence. cbn [andb].
    apply scan_loaded in Hscan as (kind & path & -> & _). destruct (loadFile_fresh goja base read r kind path) as (Hcf & _ & _ & _ & _ & Hnq).
    done.
Qed.

(** Enabling a script that was marked as failed succeeds and makes it active, although the switch is
    documented to return false for a script that failed to load: the check looks at the program, which
    a script rejected for its metadata still has. *)
Theorem failed_script_can_be_enabled {G C} (r : Registry G C) key reason s p :
  Get r key = Some s → sc_Program s = Some p →
  let '(ok, r') := SetEnabled (MarkFailed r key reason) key true in
  ok = true ∧ ∃ s', Get r' key = Some s' ∧ sc_Status s' = StatusActive ∧ sc_Program s' = Some p ∧ sc_Metrics s' = sc_Metrics s.
Proof.
  intros Hs Hp. unfold Get in Hs. unfold SetEnabled, MarkFailed. rewrite Hs. cbn [bump rg_scripts update_field].
  rewrite lookup_insert_eq. simpl. rewrite Hp. split; [done|]. eexists. split; [unfold Get; simpl; apply lookup_insert_eq|]. done.
Qed.

(** A reload forgets the operator's switch: a script the operator disabled is active again after a
    reload that loads its file, changed or not. *)
Theorem reload_forgets_operator_switch {G C} `{Sha256} {RO : RangeOrder} goja glob base read (r : Registry G C) key s :
  Get r key = Some s → sc_Status s = StatusActive → is_Some (sc_Program s) →
  (∃ s1, scan goja glob base read r !! key = Some s1 ∧ sc_Status s1 = StatusActive) →
  let r1 := (SetEnabled r key false).2 in
  (∃ s1, Get r1 key = Some s1 ∧ sc_Status s1 = StatusDisabled) ∧
  ∃ s2, Get (Reload goja glob base read r1).2 key = Some s2 ∧ sc_Status s2 = StatusActive.
Proof.
  intros Hs Ha [p Hp] (s1 & Hscan & Hs1). cbv zeta.
  set (s0 := s <| sc_Status := StatusDisabled |> <| sc_Reason := "disabled by operator" |>).
  set (r1 := bump (r <| rg_scripts := <[key := s0]> (rg_scripts r) |>)).
  assert (SetEnabled r key false = (true, r1)) as ->.
  { unfold SetEnabled, is_active. unfold Get in Hs. by rewrite Hs, Hp, Ha. }
  assert (Get r1 key = Some s0) as Hget by apply lookup_insert_eq. split; [by exists s0|].
  assert (scan goja glob base read r1 = scan goja glob base read r) as Hsame by done.
  cbn [snd]. rewrite Reload_lookup, Hsame, Hscan, Hget. eexists. split; [reflexivity|]. unfold carry. destruct (_ && _); done.
Qed.
