(* ===== verification/ScriptPool.v ===== *)
(** * Package [scripting/runtime], pool.go: running scripts on isolated interpreters
    (src/internal/scripting/runtime/pool.go)

    A worker owns one interpreter and rebuilds it when it was interrupted or when its source of
    programs has changed. The interpreter itself (goja) is a parameter: what it does on a program,
    a call or a value is arbitrary, panics included. *)

From S2P Require Import Prelude GoLib GoFloat Domain Regexp ScriptModule.

(** ** Failure kinds *)

Definition KindException : string := "exception".
Definition KindTimeout : string := "timeout".
Definition KindPanic : string := "panic".
Definition KindOutput : string := "output".
Definition KindLoad : string := "load".
Definition KindMissing : string := "missing".

Definition ErrSaturated : error := Errorf CategoryTransient "script executor saturated".

(** ** The source of programs *)

Class Source (R G : Type) := {
  Programs : R → list (Program G);
  Generation : R → Z;
}.

(** What a source promises: each of its changes moves the generation on by one, modulo 2^64, or keeps
    the programs. *)
Class SourceSpec (R G : Type) `{Source R G} := {
  source_op : R → R → Prop;
  source_op_generation r r' : source_op r r' →
    Generation r' = wrapu64 (Generation r + 1) ∨ (Generation r' = Generation r ∧ Programs r' = Programs r);
}.

(** ** The interpreter *)

(** Running JavaScript: a value, an interrupt with its reason, an exception with its text, another
    error, or a panic of the host. *)
Inductive js (A : Type) :=
| JSRet (a : A)
| JSInterrupted (reason : string)
| JSException (text : string)
| JSError (e : error)
| JSPanic (text : string).
Arguments JSRet {A}.
Arguments JSInterrupted {A}.
Arguments JSException {A}.
Arguments JSError {A}.
Arguments JSPanic {A}.

(** The interpreter: machines [V], export objects [O], values [X]; [D] is the per-call data the host
    functions work on. *)
Record Goja (G V O X D : Type) := MkGoja {
  gj_New : V;                                            (* host objects installed and frozen *)
  gj_RunProgram : G → V → js O * V;
  gj_HasFunction : O → string → V → bool;
  gj_Parse : string → V → js X * V;
  gj_Apply : O → string → list X → V → D → js X * V * D;
  gj_IsUndefined : X → bool;
  gj_Stringify : X → V → js X * V;
  gj_String : X → string;
}.
Arguments gj_New {G V O X D}.
Arguments gj_RunProgram {G V O X D}.
Arguments gj_HasFunction {G V O X D}.
Arguments gj_Parse {G V O X D}.
Arguments gj_Apply {G V O X D}.
Arguments gj_IsUndefined {G V O X D}.
Arguments gj_Stringify {G V O X D}.
Arguments gj_String {G V O X D}.

(** ** Options and counters *)

Record Options := MkOptions { op_Workers : Z; op_QueueSize : Z; op_Timeout : Duration; op_QueueWait : Duration; op_MaxOutput : Z }.

(** The defaults [NewPool] fills in. *)
Definition pool_options (o : Options) : Options :=
  MkOptions (if (op_Workers o <? 1)%Z then 1 else op_Workers o) (if (op_QueueSize o <? 1)%Z then 1 else op_QueueSize o)
    (if (op_Timeout o <=? 0)%Z then 250 * Millisecond else op_Timeout o)
    (if (op_QueueWait o <=? 0)%Z then 2 * Second else op_QueueWait o)
    (if (op_MaxOutput o <=? 0)%Z then Z.shiftl 1 20 else op_MaxOutput o).

Record Stats := MkStats { st_Calls : Z; st_Failures : Z; st_Timeouts : Z; st_Panics : Z; st_Saturations : Z; st_Rebuilds : Z }.
#[export] Instance eta_Stats : Eta Stats := λ s,
  MkStats (st_Calls s) (st_Failures s) (st_Timeouts s) (st_Panics s) (st_Saturations s) (st_Rebuilds s).
Definition incr (n : Z) : Z := wrapu64 (n + 1).

(** ** Errors *)

Fixpoint firstLine (s : string) : string :=
  match s with "" => "" | String c s' => if bool_decide (c = NL) then "" else String c (firstLine s') end.

Definition script_kind (e : error) : option string := match e with EScript _ kind _ => Some kind | _ => None end.

(** [translate], on what running JavaScript can report besides a value. *)
Definition translate {A} (scriptID fn : string) (r : js A) : error :=
  match r with
  | JSInterrupted reason => EScript scriptID KindTimeout (fn +:+ " exceeded its execution deadline (" +:+ reason +:+ ")")
  | JSException text => EScript scriptID KindException (firstLine text)
  | JSError (EScript id kind msg) => EScript id kind msg
  | JSError e => EScript scriptID KindException (firstLine (error_text e))
  | JSRet _ | JSPanic _ => EScript scriptID KindPanic ""
  end.

(** [guard] after the body has run: the outcome and whether the interpreter may still be used.
    [ctx] is the error of the caller's context at that moment, if it has ended. *)
Definition guard {A} (ctx : option error) (scriptID fn : string) (r : js A) : res A * bool :=
  match r with
  | JSRet a => (Ok a, false)
  | JSPanic text => (Err (EScript scriptID KindPanic text), true)
  | _ =>
      let te := translate scriptID fn r in
      let kind := script_kind te in
      let dirty := bool_decide (kind = Some KindTimeout) || bool_decide (kind = Some KindPanic) in
      match ctx with
      | Some ce => if bool_decide (kind = Some KindTimeout)
                   then (Err (EDomain CategoryTimeout "script call cancelled by caller" ce), dirty) else (Err te, dirty)
      | None => (Err te, dirty)
      end
  end.

Section pool.
Context {R G V O X D A : Type} `{Source R G} (gj : Goja G V O X D).
Context (marshal : A → result string string).      (* arguments to JSON *)

(** ** Workers *)

Record worker := MkWorker {
  wk_vm : option V;
  wk_gen : Z;
  wk_exports : gmap string O;
  wk_loadErr : gmap string string;
  wk_dirty : bool;
}.
#[export] Instance eta_worker : Eta worker := λ w, MkWorker (wk_vm w) (wk_gen w) (wk_exports w) (wk_loadErr w) (wk_dirty w).
Definition new_worker : worker := MkWorker None 0 ∅ ∅ false.

(** [load]: the top level of a program runs under the deadline. *)
Definition load (vw : V * worker) (prog : Program G) : V * worker :=
  let '(vm, w) := vw in
  let '(r, vm) := gj_RunProgram gj (pg_prog prog) vm in
  let '(out, dirty) := guard None (pg_ID prog) "<load>" r in
  let w := w <| wk_dirty := wk_dirty w || dirty |> in
  match out with
  | Ok obj => (vm, w <| wk_exports := <[pg_ID prog := obj]> (wk_exports w) |>)
  | Err e => (vm, w <| wk_loadErr := <[pg_ID prog := error_text e]> (wk_loadErr w) |>)
  end.

Definition build (src : R) : V * worker :=
  let '(vm, w) := foldl load (gj_New gj, MkWorker None (Generation src) ∅ ∅ false) (Programs src) in
  (vm, w <| wk_vm := Some vm |>).

(** The arguments, marshalled and parsed one by one. *)
Fixpoint parse_args (scriptID : string) (args : list A) (vm : V) : js (list X) * V :=
  match args with
  | [] => (JSRet [], vm)
  | a :: args =>
      match marshal a with
      | Err text => (JSError (EScript scriptID KindOutput ("argument is not serialisable: " +:+ text)), vm)
      | Ok b =>
          match gj_Parse gj b vm with
          | (JSRet v, vm) =>
              match parse_args scriptID args vm with
              | (JSRet vs, vm) => (JSRet (v :: vs), vm)
              | other => other
              end
          | (JSInterrupted r, vm) => (JSInterrupted r, vm)
          | (JSException t, vm) => (JSException t, vm)
          | (JSError e, vm) => (JSError e, vm)
          | (JSPanic t, vm) => (JSPanic t, vm)
          end
      end
  end.

(** The body of a call: arguments in, function, result out as JSON within the limit. *)
Definition serialise (maxOutput : Z) (scriptID : string) (ret : X) (vm : V) : js string * V :=
  if gj_IsUndefined gj ret then (JSRet "null", vm)
  else
    match gj_Stringify gj ret vm with
    | (JSRet s, vm) =>
        if gj_IsUndefined gj s then (JSError (EScript scriptID KindOutput "return value is not JSON-serialisable"), vm)
        else
          let str := gj_String gj s in
          if (maxOutput <? slen str)%Z
          then (JSError (EScript scriptID KindOutput ("result is " +:+ FormatInt (slen str) +:+ " bytes, limit " +:+ FormatInt maxOutput)), vm)
          else (JSRet str, vm)
    | (JSInterrupted r, vm) => (JSInterrupted r, vm)
    | (JSException t, vm) => (JSException t, vm)
    | (JSError e, vm) => (JSError e, vm)
    | (JSPanic t, vm) => (JSPanic t, vm)
    end.

Definition invoke (maxOutput : Z) (scriptID fn : string) (obj : O) (args : list A) (vm : V) (d : D) : js string * V * D :=
  match parse_args scriptID args vm with
  | (JSRet xs, vm) =>
      match gj_Apply gj obj fn xs vm d with
      | (JSRet ret, vm, d) => let '(r, vm) := serialise maxOutput scriptID ret vm in (r, vm, d)
      | (JSInterrupted r, vm, d) => (JSInterrupted r, vm, d)
      | (JSException t, vm, d) => (JSException t, vm, d)
      | (JSError e, vm, d) => (JSError e, vm, d)
      | (JSPanic t, vm, d) => (JSPanic t, vm, d)
      end
  | (JSInterrupted r, vm) => (JSInterrupted r, vm, d)
  | (JSException t, vm) => (JSException t, vm, d)
  | (JSError e, vm) => (JSError e, vm, d)
  | (JSPanic t, vm) => (JSPanic t, vm, d)
  end.

(** The interpreter a call runs on, and whether it was rebuilt for it. *)
Definition ready (src : R) (w : worker) : V * worker * bool :=
  match wk_vm w with
  | Some vm => if wk_dirty w || negb (wk_gen w =? Generation src)%Z then (build src, true) else (vm, w, false)
  | None => (build src, true)
  end.

Record job := MkJob { jb_scriptID : string; jb_fn : string; jb_args : list A; jb_data : D }.

(** [call]: [ctx] is the error of the caller's context once the function is done, if it has ended. *)
Definition call (maxOutput : Z) (ctx : option error) (src : R) (j : job) (w : worker) : res string * D * worker * bool :=
  let '(vm, w, rebuilt) := ready src w in
  let id := jb_scriptID j in
  match wk_loadErr w !! id with
  | Some msg => (Err (EScript id KindLoad msg), jb_data j, w, rebuilt)
  | None =>
      match wk_exports w !! id with
      | None => (Err (EScript id KindMissing "script is not loaded"), jb_data j, w, rebuilt)
      | Some obj =>
          if negb (gj_HasFunction gj obj (jb_fn j) vm)
          then (Err (EScript id KindMissing ("script does not export a function " +:+ Quote (jb_fn j))), jb_data j, w, rebuilt)
          else
            let '(r, vm, d) := invoke maxOutput id (jb_fn j) obj (jb_args j) vm (jb_data j) in
            let '(out, dirty) := guard ctx id (jb_fn j) r in
            (out, d, w <| wk_vm := Some vm |> <| wk_dirty := wk_dirty w || dirty |>, rebuilt)
      end
  end.

(** [run] with the pool's counters. *)
Definition count_outcome {B} (r : res B) (s : Stats) : Stats :=
  match r with
  | Ok _ => s
  | Err e =>
      let s := s <| st_Failures := incr (st_Failures s) |> in
      match script_kind e with
      | Some kind =>
          if bool_decide (kind = KindTimeout) then s <| st_Timeouts := incr (st_Timeouts s) |>
          else if bool_decide (kind = KindPanic) then s <| st_Panics := incr (st_Panics s) |> else s
      | None => s
      end
  end.

Definition run (maxOutput : Z) (ctx : option error) (src : R) (j : job) (w : worker) (s : Stats) : res string * D * worker * Stats :=
  let s := s <| st_Calls := incr (st_Calls s) |> in
  let '(out, d, w, rebuilt) := call maxOutput ctx src j w in
  let s := if rebuilt then s <| st_Rebuilds := incr (st_Rebuilds s) |> else s in
  (out, d, w, count_outcome out s).

(** ** Calls *)

(** How a call reaches a worker: its context has ended before, a worker takes it, its context ends or
    the patience of the queue runs out while it waits. *)
Inductive admission := AlreadyEnded (e : error) | Taken | EndedWaiting (e : error) | QueueTimeout.

Definition Pool_Call (o : Options) (adm : admission) (ctx : option error) (src : R) (j : job) (w : worker) (s : Stats)
  : res string * D * worker * Stats :=
  match adm with
  | AlreadyEnded e => (Err (EDomain CategoryTimeout "script call" e), jb_data j, w, s)
  | EndedWaiting e => (Err (EDomain CategoryTimeout "script queue" e), jb_data j, w, s)
  | QueueTimeout => (Err ErrSaturated, jb_data j, w, s <| st_Saturations := incr (st_Saturations s) |>)
  | Taken => run (op_MaxOutput o) ctx src j w s
  end.

(** [ReadExport]: one exported value of a program, as JSON, in a scratch interpreter. *)
Definition ReadExport (get : O → string → V → option X) (scratch : V) (p : Program G) (name : string) : res string :=
  let fail {B} (fn : string) (r : js B) : res string :=
    match r with JSPanic text => Err (EScript (pg_ID p) KindPanic text) | _ => Err (translate (pg_ID p) fn r) end in
  match gj_RunProgram gj (pg_prog p) scratch with
  | (JSRet obj, vm) =>
      match get obj name vm with
      | None => Ok "null"
      | Some v =>
          match gj_Stringify gj v vm with
          | (JSRet s, _) => Ok (gj_String gj s)
          | (r, _) => fail name r
          end
      end
  | (r, _) => fail "<load>" r
  end.
End pool.
