(* ===== verification/ScriptPoolThms.v ===== *)
(** * Theorems of the script pool: which scripts run, and whose fault a failure is *)

From S2P Require Import Prelude GoLib GoFloat Domain Regexp ScriptModule ScriptPool.

(** ** Generations *)

Section generations.
Context {R G : Type} `{SourceSpec R G}.

Lemma nsteps_generation n r0 r :
  nsteps source_op n r0 r → (0 ≤ Generation r0 < 18446744073709551616)%Z →
  ∃ k, k ≤ n ∧ Generation r = ((Generation r0 + Z.of_nat k) mod 18446744073709551616)%Z ∧ (k = 0 → Programs r = Programs r0).
Proof.
  intros Hn. induction Hn as [r|n r0 r1 r Hop _ IH]; intros Hrange.
  - exists 0. split; [lia|]. split; [|done]. by rewrite Z.add_0_r, Z.mod_small.
  - destruct (source_op_generation _ _ Hop) as [Hgen|[Hgen Hprog]].
    + destruct IH as (k & Hk & Hg & _); [rewrite Hgen; apply Z.mod_pos_bound; lia|].
      exists (S k). split; [lia|]. split; [|lia]. rewrite Hg, Hgen. unfold wrapu64. rewrite Zplus_mod_idemp_l. f_equal. lia.
    + destruct IH as (k & Hk & Hg & Hp); [by rewrite Hgen|]. exists k. split; [lia|]. split; [by rewrite Hg, Hgen|].
      intros Hk0. by rewrite (Hp Hk0).
Qed.

(** Within 2^64 changes an unchanged generation means unchanged programs. *)
Lemma same_generation_same_programs n r0 r :
  nsteps source_op n r0 r → (0 ≤ Generation r0 < 18446744073709551616)%Z → (Z.of_nat n < 18446744073709551616)%Z →
  Generation r = Generation r0 → Programs r = Programs r0.
Proof.
  intros Hn Hrange Hlt Heq. destruct (nsteps_generation n r0 r Hn Hrange) as (k & Hk & Hg & Hp).
  apply Hp. rewrite Heq in Hg. destruct (decide (k = 0)) as [|Hne]; [done|]. exfalso.
  destruct (Z_lt_ge_dec (Generation r0 + Z.of_nat k) 18446744073709551616) as [Hs|Hb].
  - rewrite Z.mod_small in Hg by lia. lia.
  - rewrite <-(Z_mod_plus_full _ (-1)) in Hg. rewrite Z.mod_small in Hg by lia. lia.
Qed.
End generations.

Section pool.
Context {R G V O X D A : Type} `{SourceSpec R G} (gj : Goja G V O X D) (marshal : A → result string string).
Abbreviation worker := (worker (V:=V) (O:=O)).

(** ** What a worker has loaded *)

Definition ids (progs : list (Program G)) : list string := pg_ID <$> progs.

Lemma load_ids vw prog id :
  is_Some (wk_exports (load gj vw prog).2 !! id) ∨ is_Some (wk_loadErr (load gj vw prog).2 !! id) →
  id = pg_ID prog ∨ is_Some (wk_exports vw.2 !! id) ∨ is_Some (wk_loadErr vw.2 !! id).
Proof.
  destruct vw as [vm w]. unfold load. destruct (gj_RunProgram gj _ vm) as [r vm']. destruct (guard None _ _ r) as [[obj|e] dirty]; simpl;
    (destruct (decide (id = pg_ID prog)) as [->|Hne]; [by left|]; rewrite lookup_insert_ne by done; by right).
Qed.

Lemma load_gen vw prog : wk_gen (load gj vw prog).2 = wk_gen vw.2.
Proof. destruct vw as [vm w]. unfold load. destruct (gj_RunProgram gj _ vm) as [r vm']. by destruct (guard None _ _ r) as [[obj|e] dirty]. Qed.

(** A worker built from a source holds nothing but its programs, under its generation. *)
Definition built_from (r : R) (w : worker) : Prop :=
  wk_gen w = Generation r ∧ ∀ id, is_Some (wk_exports w !! id) ∨ is_Some (wk_loadErr w !! id) → id ∈ ids (Programs r).

Lemma build_built r : built_from r (build gj r).2 ∧ wk_vm (build gj r).2 = Some (build gj r).1.
Proof.
  unfold build. assert (∀ progs vw, wk_gen (foldl (load gj) vw progs).2 = wk_gen vw.2 ∧
    ∀ id, is_Some (wk_exports (foldl (load gj) vw progs).2 !! id) ∨ is_Some (wk_loadErr (foldl (load gj) vw progs).2 !! id) →
      id ∈ ids progs ∨ is_Some (wk_exports vw.2 !! id) ∨ is_Some (wk_loadErr vw.2 !! id)) as Hfold.
  { induction progs as [|p progs IH]; intros vw; simpl; [split; [done|by right]|]. destruct (IH (load gj vw p)) as [Hg Hi]. split.
    - by rewrite Hg, load_gen.
    - intros id Hid. destruct (Hi id Hid) as [?|[->|?]%load_ids]; [left; by right|left; left|by right]. }
  destruct (Hfold (Programs r) (gj_New gj, MkWorker None (Generation r) ∅ ∅ false)) as [Hg Hi].
  destruct (foldl (load gj) _ (Programs r)) as [vm w]. simpl in *. split; [|done]. split; [done|].
  intros id Hid. destruct (Hi id Hid) as [?|[[? Hl]|[? Hl]]]; [done|by rewrite lookup_empty in Hl..].
Qed.

(** ** Runs of one worker beside a changing source *)

Inductive pool_trace : nat → R → worker → Prop :=
| trace_start r : (0 ≤ Generation r < 18446744073709551616)%Z → pool_trace 0 r new_worker
| trace_source n r r' w : pool_trace n r w → source_op r r' → pool_trace (S n) r' w
| trace_call n r w maxOutput ctx j out d w' rebuilt :
    pool_trace n r w → call gj marshal maxOutput ctx r j w = (out, d, w', rebuilt) → pool_trace n r w'.

(** The interpreter in use was built from a source state some changes ago. *)
Definition synced (n : nat) (r : R) (w : worker) : Prop :=
  is_Some (wk_vm w) → ∃ m r0, m ≤ n ∧ nsteps source_op m r0 r ∧ (0 ≤ Generation r0 < 18446744073709551616)%Z ∧ built_from r0 w.

Lemma op_range r r' : source_op r r' → (0 ≤ Generation r < 18446744073709551616)%Z → (0 ≤ Generation r' < 18446744073709551616)%Z.
Proof. intros [-> |[-> _]]%source_op_generation Hr; [apply Z.mod_pos_bound; lia|done]. Qed.

Lemma ready_synced n r w :
  synced n r w → (0 ≤ Generation r < 18446744073709551616)%Z → (Z.of_nat n < 18446744073709551616)%Z →
  let '(vm, w', rebuilt) := ready gj r w in
  wk_vm w' = Some vm ∧ (rebuilt = false → w' = w ∧ wk_dirty w = false) ∧ synced n r w' ∧
  ∀ id, is_Some (wk_exports w' !! id) ∨ is_Some (wk_loadErr w' !! id) → id ∈ ids (Programs r).
Proof.
  intros Hs Hrange Hn. assert (let '(vm, w') := build gj r in wk_vm w' = Some vm ∧ synced n r w' ∧
    ∀ id, is_Some (wk_exports w' !! id) ∨ is_Some (wk_loadErr w' !! id) → id ∈ ids (Programs r)) as Hbuild.
  { destruct (build_built r) as [Hb Hvm]. destruct (build gj r) as [vm w']. split; [done|]. split; [|apply Hb].
    intros _. exists 0, r. split; [lia|]. split; [constructor|]. by split. }
  unfold ready. destruct (wk_vm w) as [vm|] eqn:Hvm; [|destruct (build gj r) as [vm w']; naive_solver].
  destruct (wk_dirty w || _) eqn:Hd; [destruct (build gj r) as [vm' w']; naive_solver|].
  apply orb_false_iff in Hd as [Hd Hg%negb_false_iff%Z.eqb_eq]. split; [done|]. split; [done|]. split; [done|].
  destruct Hs as (m & r0 & Hm & Hsteps & Hr0 & Hg0 & Hids); [eauto|]. intros id Hid.
  rewrite (same_generation_same_programs m r0 r); [by apply Hids|done|done|lia|congruence].
Qed.

Lemma call_frame maxOutput ctx r j w :
  let '(_, _, w', rebuilt) := call gj marshal maxOutput ctx r j w in
  let '(_, w0, b) := ready gj r w in
  rebuilt = b ∧ wk_gen w' = wk_gen w0 ∧ wk_exports w' = wk_exports w0 ∧ wk_loadErr w' = wk_loadErr w0.
Proof.
  unfold call. destruct (ready gj r w) as [[vm w0] b]. destruct (wk_loadErr w0 !! _); [done|]. destruct (wk_exports w0 !! _); [|done].
  destruct (negb _); [done|]. destruct (invoke _ _ _ _ _ _ _ _ _) as [[rr vm'] d]. by destruct (guard ctx _ _ rr) as [out dirty].
Qed.

Lemma pool_trace_synced n r w :
  pool_trace n r w → (Z.of_nat n < 18446744073709551616)%Z → synced n r w ∧ (0 ≤ Generation r < 18446744073709551616)%Z.
Proof.
  induction 1 as [r Hr|n r r' w Ht IH Hop|n r w maxOutput ctx j out d w' rebuilt Ht IH Hcall]; intros Hn.
  - split; [|done]. by intros [vm Hvm].
  - destruct IH as [Hs Hr]; [lia|]. split; [|by eapply op_range]. intros Hvm. destruct (Hs Hvm) as (m & r0 & Hm & Hsteps & Hr0 & Hb).
    exists (S m), r0. split; [lia|]. split; [by eapply nsteps_r|]. by split.
  - destruct IH as [Hs Hr]; [done|]. split; [|done]. pose proof (ready_synced n r w Hs Hr Hn) as Hready.
    pose proof (call_frame maxOutput ctx r j w) as Hframe. rewrite Hcall in Hframe.
    destruct (ready gj r w) as [[vm w0] b]. destruct Hready as (Hvm & _ & Hs0 & _). destruct Hframe as (_ & Hg & He & Hl).
    intros _. destruct Hs0 as (m & r0 & Hm & Hsteps & Hr0 & Hg0 & Hids); [eauto|]. exists m, r0. split; [done|]. split; [done|]. split; [done|].
    split; [congruence|]. intros id. rewrite He, Hl. apply Hids.
Qed.

(** C16. A worker never runs a script the registry does not offer: after any history of changes of
    the source (fewer than 2^64) and calls, a call of a script that is not among the current programs
    (disabled, quarantined, failed or removed) ends with the "missing" error, touches nothing of the
    call's data, and so executes none of its code, although workers never ask the registry about
    single scripts but only compare generations. *)
Theorem only_offered_scripts_run n r w maxOutput ctx j :
  pool_trace n r w → (Z.of_nat n < 18446744073709551616)%Z → jb_scriptID j ∉ ids (Programs r) →
  ∃ w' rebuilt, call gj marshal maxOutput ctx r j w =
    (Err (EScript (jb_scriptID j) KindMissing "script is not loaded"), jb_data j, w', rebuilt).
Proof.
  intros Ht Hn Hid. destruct (pool_trace_synced n r w Ht Hn) as [Hs Hr].
  pose proof (ready_synced n r w Hs Hr Hn) as Hready. unfold call. destruct (ready gj r w) as [[vm w0] b].
  destruct Hready as (_ & _ & _ & Hids). destruct (wk_loadErr w0 !! jb_scriptID j) eqn:Hl; [destruct Hid; apply Hids; eauto|].
  destruct (wk_exports w0 !! jb_scriptID j) eqn:He; [destruct Hid; apply Hids; eauto|]. eauto.
Qed.

(** ** Whose fault it is *)

Lemma translate_script {B} id fn (r : js B) : CategoryOf (Some (translate id fn r)) = CategoryScript.
Proof. by destruct r as [| | |[]|]. Qed.

Lemma guard_category {B} ctx id fn (r : js B) e dirty :
  guard ctx id fn r = (Err e, dirty) →
  CategoryOf (Some e) = CategoryScript ∨
  (CategoryOf (Some e) = CategoryTimeout ∧ ∃ ce, ctx = Some ce ∧ e = EDomain CategoryTimeout "script call cancelled by caller" ce).
Proof.
  pose proof (translate_script id fn r) as Ht. unfold guard. destruct r as [a|reason|text|e0|text]; try done.
  1-3: cbv zeta; destruct ctx as [ce|]; [case_bool_decide; intros [= <- _]; [right; split; [done|by exists ce]|by left]|intros [= <- _]; by left].
  intros [= <- _]. by left.
Qed.

Lemma guard_dirty {B} ctx id fn (r : js B) e dirty :
  guard ctx id fn r = (Err e, dirty) →
  script_kind e = Some KindTimeout ∨ script_kind e = Some KindPanic ∨ CategoryOf (Some e) = CategoryTimeout → dirty = true.
Proof.
  pose proof (translate_script id fn r) as Ht. unfold guard. intros Hg Hkind. destruct r as [a|reason|text|e0|text]; [done| | | |by injection Hg].
  all: cbv zeta in Hg; set (te := translate id fn _) in *; clearbody te.
  all: destruct (bool_decide (script_kind te = Some KindTimeout)) eqn:Hto.
  all: destruct ctx; simplify_eq; try done; bool_to_prop; simpl.
  all: apply bool_decide_eq_true; destruct Hkind as [?|[?|?]]; congruence.
Qed.

Lemma call_category maxOutput ctx r j w e d w' rebuilt :
  call gj marshal maxOutput ctx r j w = (Err e, d, w', rebuilt) →
  CategoryOf (Some e) = CategoryScript ∨
  (CategoryOf (Some e) = CategoryTimeout ∧ ∃ ce, ctx = Some ce ∧ e = EDomain CategoryTimeout "script call cancelled by caller" ce).
Proof.
  unfold call. destruct (ready gj r w) as [[vm w0] b]. destruct (wk_loadErr w0 !! _); [intros [= <- _ _ _]; by left|].
  destruct (wk_exports w0 !! _); [|intros [= <- _ _ _]; by left]. destruct (negb _); [intros [= <- _ _ _]; by left|].
  destruct (invoke _ _ _ _ _ _ _ _ _) as [[rr vm'] d']. destruct (guard ctx _ _ rr) as [[o'|e'] dirty] eqn:Hg; [done|].
  intros [= <- _ _ _]. by eapply guard_category.
Qed.

(** Failures are attributed to the right party: an error of a pool call is either the script's own
    (category script, never retried) or a condition of the platform that is worth retrying: the
    caller's context ended, or the queue stayed full. While the caller's context is alive and a worker
    takes the call, every failure is the script's. *)
Theorem failures_are_attributed o adm ctx r j w s e d w' s' :
  Pool_Call gj marshal o adm ctx r j w s = (Err e, d, w', s') →
  (CategoryOf (Some e) = CategoryScript ∧ adm = Taken ∨ IsRetryable (Some e) = true ∧ (adm = Taken → is_Some ctx)) ∧
  (adm = Taken → ctx = None → CategoryOf (Some e) = CategoryScript).
Proof.
  destruct adm as [e0| |e0|]; simpl.
  - intros [= <- _ _ _]. split; [by right|done].
  - unfold run. destruct (call gj marshal _ ctx r j w) as [[[out d'] w0] b] eqn:Hc. intros [= -> _ _ _].
    destruct (call_category _ _ _ _ _ _ _ _ _ Hc) as [Hs|(Ht & ce & -> & ->)]; [by auto|].
    split; [right; split; [done|eauto]|done].
  - intros [= <- _ _ _]. split; [by right|done].
  - intros [= <- _ _ _]. split; [by right|done].
Qed.

(** ** Interpreters that were interrupted *)

(** A result is small and an interpreter is not reused after an interrupt or a panic: a successful
    call returns "null" or at most the configured number of bytes; after a call that was interrupted,
    cancelled or panicked, the worker's next call, whatever it is, runs on a rebuilt interpreter. *)
Theorem interrupted_interpreter_is_rebuilt maxOutput ctx r j w out d w' rebuilt maxOutput2 ctx2 r2 j2 :
  call gj marshal maxOutput ctx r j w = (out, d, w', rebuilt) →
  (∀ s, out = Ok s → s = "null" ∨ (slen s ≤ maxOutput)%Z) ∧
  (∀ e, out = Err e → script_kind e = Some KindTimeout ∨ script_kind e = Some KindPanic ∨ CategoryOf (Some e) = CategoryTimeout →
     (call gj marshal maxOutput2 ctx2 r2 j2 w').2 = true).
Proof.
  intros Hc. split.
  - intros s ->. unfold call in Hc. destruct (ready gj r w) as [[vm w0] b]. destruct (wk_loadErr w0 !! _); [done|].
    destruct (wk_exports w0 !! _); [|done]. destruct (negb _); [done|].
    destruct (invoke _ _ _ _ _ _ _ _ _) as [[rr vm'] d'] eqn:Hi. destruct (guard ctx _ _ rr) as [[o'|e'] dirty] eqn:Hg; [|done].
    injection Hc as <- _ _ _. destruct rr as [a|reason|text|e0|text]; cbn [guard] in Hg; cbv zeta in Hg; try (destruct ctx; repeat case_bool_decide; done).
    injection Hg as -> _. unfold invoke in Hi. destruct (parse_args _ _ _ _ _) as [[xs| | | |] vm1]; try done.
    destruct (gj_Apply _ _ _ _ _ _) as [[[ret| | | |] vm2] d2]; try done. unfold serialise in Hi.
    destruct (gj_IsUndefined gj ret); [injection Hi as <- _ _; by left|].
    destruct (gj_Stringify gj ret vm2) as [[str| | | |] vm3]; try done. destruct (gj_IsUndefined gj str); [done|].
    destruct (Z.ltb_spec maxOutput (slen (gj_String gj str))); [done|]. injection Hi as <- _ _. right. lia.
  - intros e -> Hkind. assert (wk_dirty w' = true) as Hd.
    { unfold call in Hc. destruct (ready gj r w) as [[vm w0] b].
      destruct (wk_loadErr w0 !! _); [injection Hc as <- _ _ _; exfalso; clear -Hkind; by destruct Hkind as [?|[?|?]]|].
      destruct (wk_exports w0 !! _); [|injection Hc as <- _ _ _; exfalso; clear -Hkind; by destruct Hkind as [?|[?|?]]].
      destruct (negb _); [injection Hc as <- _ _ _; exfalso; clear -Hkind; by destruct Hkind as [?|[?|?]]|].
      destruct (invoke _ _ _ _ _ _ _ _ _) as [[rr vm'] d']. destruct (guard ctx _ _ rr) as [[o'|e'] dirty] eqn:Hg; [done|].
      injection Hc as <- _ <- _. simpl. by rewrite (guard_dirty _ _ _ _ _ _ Hg Hkind), orb_true_r. }
    unfold call, ready. destruct (wk_vm w') as [vm|]; [rewrite Hd; simpl|];
      destruct (build gj r2) as [vm2 w2]; destruct (wk_loadErr w2 !! _); try done; destruct (wk_exports w2 !! _); try done;
      destruct (negb _); try done; destruct (invoke _ _ _ _ _ _ _ _ _) as [[rr vm'] d']; by destruct (guard ctx2 _ _ rr) as [out' dirty'].
Qed.
End pool.
