(* ===== verification/ScriptApi.v ===== *)
(** * Package [scripting/api]: what a script can ask of the platform
    (src/internal/scripting/api/api.go, readonly.go, controlled.go)

    Each host function works on the call in progress, checks the permissions of the script's kind and
    its budget, validates what it is given, and records what the script asked for. A thrown JavaScript
    error is its text. Decoding of JavaScript values, URL parsing and the HTTP client are parameters. *)

From S2P Require Import Prelude GoLib GoFloat Domain Regexp Schema Inventory ScriptModule ScriptRegistry.

(** ** Limits and permissions *)

Definition MaxLogLines : Z := 20.
Definition MaxHTTPCalls : Z := 3.
Definition MaxEvents : nat := 10.
Definition MaxObservations : nat := 100.
Definition MaxLookupResults : nat := 200.
Definition MaxRequestBody : Z := Z.shiftl 64 10.
Definition MaxResponseBody : Z := Z.shiftl 256 10.
Definition MaxLogMessage : Z := 512.
Definition MaxLogFields : Z := 16.
Definition MaxLogFieldValue : Z := 256.
Definition defaultHTTPTimeout : Duration := 2 * Second.

Record Permission := MkPermission { pm_HTTP : bool; pm_Events : bool; pm_Metrics : bool }.
Definition no_permission : Permission := MkPermission false false false.
(** A kind that is not listed has none. *)
Definition permissions (kind : string) : Permission :=
  if bool_decide (kind = KindIntegration) then MkPermission true true true
  else if bool_decide (kind = KindCollector) then MkPermission true false true
  else no_permission.

(** ** Calls *)

(** Values of a script's configuration, as far as the host looks at them. *)
Inductive cfg_value := CfgString (s : string) | CfgList (l : list (option string)) | CfgOther (text : string).
Abbreviation Config := (gmap string cfg_value).

Record ScriptInfo := MkScriptInfo {
  si_Key : string; si_Kind : string; si_ID : string; si_Version : string; si_Config : Config }.

Record Call := MkCall {
  cl_Script : ScriptInfo;
  cl_CorrelationID : string;
  cl_Trigger : string;
  cl_DeviceID : string;
  cl_logLines : Z;
  cl_httpCalls : Z;
  cl_events : list Event;
  cl_observations : list Observation;
}.
#[export] Instance eta_Call : Eta Call := λ c,
  MkCall (cl_Script c) (cl_CorrelationID c) (cl_Trigger c) (cl_DeviceID c) (cl_logLines c) (cl_httpCalls c) (cl_events c) (cl_observations c).

Definition NewCall (info : ScriptInfo) (correlationID trigger deviceID : string) : Call :=
  MkCall info correlationID trigger deviceID 0 0 [] [].
Definition Events (c : Call) : list Event := cl_events c.
Definition Observations (c : Call) : list Observation := cl_observations c.

(** A host function: it may throw, and keeps the call as it has changed it by then. *)
Abbreviation H := (ST Call string).
Definition throw {A} (text : string) : H A := ST_fail text.
Definition when_ (b : bool) (text : string) : H unit := if b then throw text else mret ().

Definition require (allowed : bool) (fn : string) : H unit := λ c,
  when_ (negb allowed) (fn +:+ " is not available to " +:+ si_Kind (cl_Script c) +:+ " scripts") c.

(** ** Devices (readonly.go) *)

(** What a script may learn about a device: everything but how it is authenticated and collected. *)
Record DeviceView := MkDeviceView {
  dv_ID : string; dv_Hostname : string; dv_ManagementAddress : string; dv_DeviceType : string; dv_Vendor : string;
  dv_Model : string; dv_SerialNumber : string; dv_Site : string; dv_Tags : list string; dv_Capabilities : list string;
  dv_Enabled : bool; dv_LastSeen : string; dv_Attributes : gmap string string }.

Definition ViewOf (d : Device) : DeviceView :=
  MkDeviceView (d_ID d) (d_Hostname d) (d_ManagementAddress d) (d_DeviceType d) (d_Vendor d) (d_Model d) (d_SerialNumber d)
    (d_Site d) (d_Tags d) (d_Capabilities d) (d_Enabled d)
    (if IsZero (d_LastSeen d) then "" else FormatRFC3339 (d_LastSeen d)) (entries (d_Attributes d)).

(** [device.get] and [inventory.lookup]; an absent inventory answers nothing. *)
Definition device_get (inv : option Reader) (id : string) : option DeviceView :=
  match inv with None => None | Some inv => ViewOf <$> rd_Get inv id end.
Definition inventory_lookup (inv : option Reader) (q : Query) : list DeviceView :=
  match inv with None => [] | Some inv => ViewOf <$> take MaxLookupResults (rd_Lookup inv q) end.

(** The budget of [log.*]: over it, lines are dropped silently. *)
Definition log_line (msg : string) : H (option string) := λ c,
  if (MaxLogLines <=? cl_logLines c)%Z then (Ok None, c)
  else (Ok (Some (if (MaxLogMessage <? slen msg)%Z then take_str (Z.to_nat MaxLogMessage) msg else msg)),
        c <| cl_logLines := int_incr (cl_logLines c) |>).

(** [state.get]: [labels] is absent, does not decode, or is a map; a nil map is an empty one. *)
Definition state_get (latest : option (string → string → smap → res (option Observation))) (deviceID metric : string)
  (labels : option (result string smap)) : H (option (value * smap * string)) :=
  match latest with
  | None => mret None
  | Some Latest =>
      let query (l : smap) : H (option (value * smap * string)) :=
        match Latest deviceID metric l with
        | Err _ => throw "state.get: unavailable"
        | Ok None => mret None
        | Ok (Some o) => mret (Some (o_Value o, o_Labels o, FormatRFC3339 (o_ObservedAt o)))
        end in
      match labels with
      | None => query None
      | Some (Err _) => throw "state.get: labels must be an object of strings"
      | Some (Ok l) => query (Some (entries l))
      end
  end.

(** [config.get]: the calling script's own settings. *)
Definition config_get (key : string) : H (option cfg_value) := λ c, (Ok (si_Config (cl_Script c) !! key), c).

(** ** Events and observations (controlled.go) *)

Record requestedEvent := MkRequestedEvent {
  re_Type : string; re_Severity : string; re_Message : string; re_DeviceID : string; re_Labels : smap }.
#[export] Instance eta_requestedEvent : Eta requestedEvent := λ r,
  MkRequestedEvent (re_Type r) (re_Severity r) (re_Message r) (re_DeviceID r) (re_Labels r).
Record requestedMetric := MkRequestedMetric { rm_Metric : string; rm_Value : value; rm_Labels : smap; rm_DeviceID : string }.

(** [^[a-z][a-z0-9_]*(\.[a-z0-9_]+)+$] *)
Definition cls_lword (c : ascii) : bool := cls_lower c || cls_digit c || cls_any "_" c.
Definition eventTypeRe : regex :=
  RSeq (RClass cls_lower) (RSeq (RStar (RClass cls_lword)) (RPlus (RSeq (RLit ".") (RPlus (RClass cls_lword))))).

Section host.
Context {SHA : Sha256} {RO : RangeOrder}.

Definition bad_label (k v : string) : bool := bool_decide (k = "") || (64 <? slen k)%Z || (MaxLogFieldValue <? slen v)%Z.
Definition validLabels (l : smap) : option string :=
  if (MaxLogFields <? mlen l)%Z then Some ("at most " +:+ FormatInt MaxLogFields +:+ " labels")
  else
    match list_find (λ kv, Is_true (bad_label kv.1 kv.2)) (range_order (entries l)) with
    | Some (_, kv) => Some ("label " +:+ Quote kv.1 +:+ " is too long or empty")
    | None => None
    end.

Context (inv : option Reader) (now : Time) (validator : Validator).

Definition knownDevice (id : string) : bool :=
  match inv with None => true | Some inv => bool_decide (is_Some (rd_Get inv id)) end.

Definition or_default (s d : string) : string := if bool_decide (s = "") then d else s.

Definition script_event (c : Call) (r : requestedEvent) : Event :=
  MkEvent (StableID ["evt"; "script"; si_Key (cl_Script c); re_DeviceID r; re_Type r; LabelsKey (re_Labels r); cl_Trigger c])
    (cl_CorrelationID c) (re_DeviceID r) (re_Type r) (re_Severity r) (re_Message r) (re_Labels r) now "" ("script:" +:+ si_ID (cl_Script c)) "" false.

(** [events.emit] on the decoded argument. *)
Definition events_emit (decoded : result string requestedEvent) : H unit := λ c,
  (require (pm_Events (permissions (si_Kind (cl_Script c)))) "events.emit" ≫= λ _,
   match decoded with
   | Err e => throw ("events.emit: " +:+ e)
   | Ok r =>
       when_ (MaxEvents <=? length (cl_events c))%nat ("events.emit: at most " +:+ FormatInt (Z.of_nat MaxEvents) +:+ " events per invocation") ≫= λ _,
       let r := r <| re_DeviceID := or_default (re_DeviceID r) (cl_DeviceID c) |> in
       when_ (negb (MatchString eventTypeRe (re_Type r))) "events.emit: type must be dotted lower-case, e.g. ticket.created" ≫= λ _,
       when_ (negb (Severity_Valid (re_Severity r))) "events.emit: severity must be info, warning or critical" ≫= λ _,
       when_ (bool_decide (re_DeviceID r = "") || negb (knownDevice (re_DeviceID r))) ("events.emit: unknown device " +:+ Quote (re_DeviceID r)) ≫= λ _,
       when_ (MaxLogMessage <? slen (re_Message r))%Z "events.emit: message too long" ≫= λ _,
       match validLabels (re_Labels r) with
       | Some e => throw ("events.emit: " +:+ e)
       | None => λ c, (Ok (), c <| cl_events := cl_events c ++ [script_event c r] |>)
       end
   end) c.

Definition script_observation (c : Call) (r : requestedMetric) : Observation :=
  let dev := or_default (rm_DeviceID r) (cl_DeviceID c) in
  let corr := if bool_decide (cl_CorrelationID c = "") then StableID ["corr"; si_Key (cl_Script c); cl_Trigger c] else cl_CorrelationID c in
  MkObservation (NewObservationID (StableID [si_Key (cl_Script c); cl_Trigger c]) dev (rm_Metric r) (rm_Labels r)) corr dev
    ("script:" +:+ si_ID (cl_Script c)) (rm_Metric r) (rm_Value r) (rm_Labels r) now time_zero None.

(** [metrics.emit] on the decoded argument. *)
Definition metrics_emit (decoded : result string requestedMetric) : H unit := λ c,
  (require (pm_Metrics (permissions (si_Kind (cl_Script c)))) "metrics.emit" ≫= λ _,
   match decoded with
   | Err e => throw ("metrics.emit: " +:+ e)
   | Ok r =>
       when_ (MaxObservations <=? length (cl_observations c))%nat ("metrics.emit: at most " +:+ FormatInt (Z.of_nat MaxObservations) +:+ " observations per invocation") ≫= λ _,
       when_ (negb (knownDevice (or_default (rm_DeviceID r) (cl_DeviceID c))))
         ("metrics.emit: unknown device " +:+ Quote (or_default (rm_DeviceID r) (cl_DeviceID c))) ≫= λ _,
       match Schema.Validate validator (script_observation c r) with
       | Some e => throw ("metrics.emit: " +:+ error_text e)
       | None => λ c, (Ok (), c <| cl_observations := cl_observations c ++ [script_observation c r] |>)
       end
   end) c.

(** ** Outbound requests *)

Record requestedHTTP := MkRequestedHTTP {
  rh_Endpoint : string; rh_Method : string; rh_Path : string; rh_Headers : smap; rh_Body : string; rh_TimeoutMS : Z }.
Record Endpoint := MkEndpoint { ep_URLRef : string; ep_Timeout : Duration }.
Record URL := MkURL { ur_Scheme : string; ur_Host : string; ur_Path : string; ur_RawQuery : string }.
#[export] Instance eta_URL : Eta URL := λ u, MkURL (ur_Scheme u) (ur_Host u) (ur_Path u) (ur_RawQuery u).
(** The request as it is sent. *)
Record Request := MkRequest { rq_Method : string; rq_URL : URL; rq_Header : gmap string string; rq_Body : option string; rq_Timeout : Duration }.
Record Response := MkResponse { rs_Status : Z; rs_Body : string; rs_ContentType : string }.
Record HTTPResult := MkHTTPResult { hr_status : Z; hr_ok : bool; hr_body : string; hr_truncated : bool; hr_content_type : string }.

Definition allowedHeaders : gmap string string :=
  list_to_map [("content-type", "Content-Type"); ("accept", "Accept"); ("x-request-id", "X-Request-Id")].

(** The endpoints a configuration authorises. *)
Definition AllowedEndpoints (cfg : Config) : list string :=
  range_order cfg ≫= λ kv,
    if HasSuffix kv.1 "endpoint_ref" then match kv.2 with CfgString s => [s] | _ => [] end
    else if HasSuffix kv.1 "endpoint_refs" then match kv.2 with CfgList l => omap id l | _ => [] end
    else [].

Definition bad_path (path : string) : bool :=
  negb (HasPrefix path "/") || HasPrefix path "//" || Contains path "://" || ContainsAny path (str1 (chr 13) +:+ str1 (chr 10) +:+ " ").

(** The headers of the request: known names only, in canonical form. *)
Fixpoint request_headers (l : list (string * string)) (hdrs : gmap string string) : result string (gmap string string) :=
  match l with
  | [] => Ok hdrs
  | (k, v) :: l =>
      match allowedHeaders !! ToLower k with
      | None => Err ("http.request: header " +:+ Quote k +:+ " is not allowed")
      | Some canon => request_headers l (<[canon := v]> hdrs)
      end
  end.

Fixpoint trim_slashes (s : string) : string :=
  match s with
  | "" => ""
  | String c s' => match trim_slashes s' with "" => if bool_decide (c = "/"%char) then "" else str1 c | t => String c t end
  end.
(** [strings.SplitN(path, "?", 2)] *)
Fixpoint split_query (s : string) : string * option string :=
  match s with
  | "" => ("", None)
  | String c s' => if bool_decide (c = "?"%char) then ("", Some s') else let '(a, b) := split_query s' in (String c a, b)
  end.
Definition target_url (bu : URL) (path : string) : URL :=
  match split_query path with
  | (p, Some q) => bu <| ur_Path := trim_slashes (ur_Path bu) +:+ p |> <| ur_RawQuery := q |>
  | (_, None) => bu <| ur_Path := trim_slashes (ur_Path bu) +:+ path |>
  end.

(** The body with the content type it implies; [json_string] decodes a JSON string. *)
Definition request_body (json_string : string → option string) (body : string) (hdrs : gmap string string)
  : result string (option string * gmap string string) :=
  if bool_decide (body = "") || bool_decide (body = "null") then Ok (None, hdrs)
  else
    let '(payload, hdrs) :=
      match json_string body with
      | Some s => (s, hdrs)
      | None => (body, if bool_decide (default "" (hdrs !! "Content-Type") = "") then <["Content-Type" := "application/json"]> hdrs else hdrs)
      end in
    if (MaxRequestBody <? slen payload)%Z then Err ("http.request: body exceeds " +:+ FormatInt MaxRequestBody +:+ " bytes") else Ok (Some payload, hdrs).

(** The headers the platform adds: the credential, the agent, the idempotency key, the correlation. *)
Definition platform_headers (c : Call) (token : string) (hdrs : gmap string string) : gmap string string :=
  let hdrs := if bool_decide (token = "") then hdrs else <["Authorization" := "Bearer " +:+ token]> hdrs in
  let hdrs := <["User-Agent" := "infra-observer-script/1"]> hdrs in
  let hdrs := if bool_decide (cl_Trigger c = "") then hdrs else <["Idempotency-Key" := StableID ["idem"; si_Key (cl_Script c); cl_Trigger c]]> hdrs in
  if negb (bool_decide (cl_CorrelationID c = "")) && bool_decide (default "" (hdrs !! "X-Request-Id") = "")
  then <["X-Request-Id" := cl_CorrelationID c]> hdrs else hdrs.

Definition http_method (m : string) : string := if bool_decide (m = "") then "GET" else ToUpper m.

Definition request_timeout (ep : Endpoint) (r : requestedHTTP) : Duration :=
  let t := if (ep_Timeout ep <=? 0)%Z then defaultHTTPTimeout else ep_Timeout ep in
  let asked := wrap64 (rh_TimeoutMS r * Millisecond) in
  if (0 <? rh_TimeoutMS r)%Z && (asked <? t)%Z then asked else t.

Context (endpoints : gmap string Endpoint) (resolve : option (string → res smap)).
Context (url_Parse : string → option URL) (json_string : string → option string).

(** Everything up to sending: the request, or the thrown text. *)
Definition build_request (r : requestedHTTP) : H Request := λ c,
  let unavailable {A} : H A := throw ("http.request: endpoint " +:+ Quote (rh_Endpoint r) +:+ " is not available to this script") in
  match endpoints !! rh_Endpoint r, resolve, bool_decide (rh_Endpoint r ∈ AllowedEndpoints (si_Config (cl_Script c))) with
  | Some ep, Some Resolve, true =>
      let method := http_method (rh_Method r) in
      (when_ (negb (bool_decide (method ∈ ["GET"; "POST"; "PUT"]))) ("http.request: method " +:+ Quote (rh_Method r) +:+ " is not allowed (GET, POST, PUT)") ≫= λ _,
       when_ (bad_path (rh_Path r)) "http.request: path must be an absolute path such as /v1/events" ≫= λ _,
       ST_lift (request_headers (range_order (entries (rh_Headers r))) ∅) ≫= λ hdrs,
       ST_lift (request_body json_string (rh_Body r) hdrs) ≫= λ '(body, hdrs),
       match Resolve (ep_URLRef ep) with
       | Err _ => unavailable
       | Ok secret =>
           let base := or_default (mread secret "url") (mread secret "value") in
           match url_Parse base with
           | None => throw ("http.request: endpoint " +:+ Quote (rh_Endpoint r) +:+ " is misconfigured")
           | Some bu =>
               when_ (negb (bool_decide (ur_Scheme bu = "http" ∨ ur_Scheme bu = "https")) || bool_decide (ur_Host bu = ""))
                 ("http.request: endpoint " +:+ Quote (rh_Endpoint r) +:+ " is misconfigured") ≫= λ _,
               let target := target_url bu (rh_Path r) in
               when_ (negb (bool_decide (ur_Host target = ur_Host bu))) "http.request: request would leave the endpoint" ≫= λ _,
               mret (MkRequest method target (platform_headers c (mread secret "token") hdrs) body (request_timeout ep r))
           end
       end) c
  | _, _, _ => unavailable c
  end.

(** What the script gets of a response. *)
Definition http_result (resp : Response) : HTTPResult :=
  let truncated := (MaxResponseBody <? slen (rs_Body resp))%Z in
  MkHTTPResult (rs_Status resp) ((200 <=? rs_Status resp)%Z && (rs_Status resp <? 300)%Z)
    (if truncated then take_str (Z.to_nat MaxResponseBody) (rs_Body resp) else rs_Body resp) truncated (rs_ContentType resp).

(** [http.request]: [NewRequest] says whether the library accepts the method and URL; the client answers, or the request fails with a kind that does not reveal the URL. *)
Definition http_request (NewRequest : Request → bool) (Do : Request → result string Response) (decoded : result string requestedHTTP) : H (Request * HTTPResult) := λ c,
  (require (pm_HTTP (permissions (si_Kind (cl_Script c)))) "http.request" ≫= λ _,
   match decoded with
   | Err e => throw ("http.request: " +:+ e)
   | Ok r =>
       when_ (MaxHTTPCalls <=? cl_httpCalls c)%Z ("http.request: at most " +:+ FormatInt MaxHTTPCalls +:+ " requests per invocation") ≫= λ _,
       (λ c, (Ok (), c <| cl_httpCalls := int_incr (cl_httpCalls c) |>)) ≫= λ _,
       build_request r ≫= λ req,
       when_ (negb (NewRequest req)) "http.request: cannot build request" ≫= λ _,
       match Do req with
       | Err kind => throw ("http.request: request to endpoint " +:+ Quote (rh_Endpoint r) +:+ " failed (" +:+ kind +:+ ")")
       | Ok resp => mret (req, http_result resp)
       end
   end) c.
End host.
