(* ===== verification/ScriptApiThms.v ===== *)
(** * Theorems of the script host API: budgets, permissions, outbound requests *)

From S2P Require Import Prelude GoLib GoFloat Domain Regexp Schema Inventory ScriptModule ScriptRegistry ScriptApi StateFacts.

Lemma when_inv b text c c' : when_ b text c = (Ok (), c') → b = false ∧ c' = c.
Proof. unfold when_. destruct b; [done|]. by intros [= <-]. Qed.

Section effects.
Context {SHA : Sha256} {RO : RangeOrder} (inv : option Reader) (now : Time) (validator : Validator).
Context (endpoints : gmap string Endpoint) (resolve : option (string → res smap)).
Context (url_Parse : string → option URL) (json_string : string → option string).

(** ** Any sequence of host calls *)

(** One host call of a script, whatever its argument decodes to and whether it throws. *)
Inductive host_step (c : Call) : Call → Prop :=
| host_event decoded : host_step c (events_emit inv now decoded c).2
| host_metric decoded : host_step c (metrics_emit inv now validator decoded c).2
| host_http NewRequest Do decoded : host_step c (http_request endpoints resolve url_Parse json_string NewRequest Do decoded c).2
| host_log msg : host_step c (log_line msg c).2
| host_config key : host_step c (config_get key c).2
| host_state latest deviceID metric labels : host_step c (state_get latest deviceID metric labels c).2.

(** An event a script was allowed to emit. *)
Definition event_ok (c : Call) (ev : Event) : Prop :=
  Severity_Valid (ev_Severity ev) = true ∧ MatchString eventTypeRe (ev_Type ev) = true ∧ ev_DeviceID ev ≠ "" ∧
  knownDevice inv (ev_DeviceID ev) = true ∧ (slen (ev_Message ev) ≤ MaxLogMessage)%Z ∧
  ev_CorrelationID ev = cl_CorrelationID c ∧ ev_Source ev = "script:" +:+ si_ID (cl_Script c) ∧
  ev_AlertKey ev = "" ∧ ev_Resolves ev = false.

(** An observation a script was allowed to emit. *)
Definition observation_ok (c : Call) (o : Observation) : Prop :=
  Schema.Validate validator o = None ∧ knownDevice inv (o_DeviceID o) = true ∧ o_Source o = "script:" +:+ si_ID (cl_Script c).

Definition same_identity (c c' : Call) : Prop :=
  cl_Script c' = cl_Script c ∧ cl_CorrelationID c' = cl_CorrelationID c ∧ cl_Trigger c' = cl_Trigger c ∧ cl_DeviceID c' = cl_DeviceID c.

Lemma require_inv allowed fn c c' : require allowed fn c = (Ok (), c') → allowed = true ∧ c' = c.
Proof. unfold require. intros [?%negb_false_iff ->]%when_inv. done. Qed.

Lemma guard_keeps {A} b text (k : unit → H A) c : (when_ b text ≫= k) c = if b then (Err text, c) else k () c.
Proof. unfold when_, mbind, ST_bind, throw, ST_fail. by destruct b. Qed.
Lemma require_keeps {A} allowed fn (k : unit → H A) c :
  (require allowed fn ≫= k) c =
  if allowed then k () c else (Err (fn +:+ " is not available to " +:+ si_Kind (cl_Script c) +:+ " scripts"), c).
Proof. unfold require, when_, mbind, ST_bind, throw, ST_fail. by destruct allowed. Qed.

(** What emitting an event does to the call. *)
Lemma events_emit_effect decoded c :
  (events_emit inv now decoded c).2 = c ∨
  ∃ ev, (events_emit inv now decoded c).2 = c <| cl_events := cl_events c ++ [ev] |> ∧ event_ok c ev ∧
    length (cl_events c) < MaxEvents ∧ pm_Events (permissions (si_Kind (cl_Script c))) = true.
Proof.
  unfold events_emit. rewrite require_keeps. destruct (pm_Events _) eqn:Hp; [|by left]. destruct decoded as [r|e]; [|by left].
  rewrite guard_keeps. destruct (Nat.leb_spec MaxEvents (length (cl_events c))) as [|Hlen]; [by left|].
  cbv zeta. set (r' := r <| re_DeviceID := _ |>).
  rewrite guard_keeps. destruct (MatchString eventTypeRe (re_Type r')) eqn:Ht; cbn [negb]; [|left; reflexivity].
  rewrite guard_keeps. destruct (Severity_Valid (re_Severity r')) eqn:Hs; cbn [negb]; [|left; reflexivity].
  rewrite guard_keeps. destruct (bool_decide (re_DeviceID r' = "") || _) eqn:Hd; [by left|].
  rewrite guard_keeps. destruct (Z.ltb_spec MaxLogMessage (slen (re_Message r'))) as [|Hm]; [by left|].
  destruct (validLabels (re_Labels r')); [by left|]. right. bool_to_prop.
  exists (script_event now c r'). by split_and!.
Qed.

Lemma metrics_emit_effect decoded c :
  (metrics_emit inv now validator decoded c).2 = c ∨
  ∃ o, (metrics_emit inv now validator decoded c).2 = c <| cl_observations := cl_observations c ++ [o] |> ∧ observation_ok c o ∧
    length (cl_observations c) < MaxObservations ∧ pm_Metrics (permissions (si_Kind (cl_Script c))) = true.
Proof.
  unfold metrics_emit. rewrite require_keeps. destruct (pm_Metrics _) eqn:Hp; [|by left]. destruct decoded as [r|e]; [|by left].
  rewrite guard_keeps. destruct (Nat.leb_spec MaxObservations (length (cl_observations c))) as [|Hlen]; [by left|].
  rewrite guard_keeps. destruct (knownDevice inv _) eqn:Hd; cbn [negb]; [|left; reflexivity].
  destruct (Schema.Validate validator _) eqn:Hv; [by left|]. right. exists (script_observation now c r). by split_and!.
Qed.

(** Building a request only reads the call. *)
Lemma build_request_pure r c : (build_request endpoints resolve url_Parse json_string r c).2 = c.
Proof.
  unfold build_request. cbv zeta. destruct (endpoints !! _) as [ep|]; [|done]. destruct resolve as [Rs|]; [|done]. destruct (bool_decide _); [|done].
  rewrite !guard_keeps. destruct (negb _); [done|]. destruct (bad_path _); [done|].
  unfold mbind at 1, ST_bind, ST_lift. destruct (request_headers _ _) as [hdrs|e]; [|done].
  unfold mbind, ST_bind. destruct (request_body _ _ _) as [[body hdrs']|e]; [|done]. destruct (Rs _); [|done].
  destruct (url_Parse _) as [bu|]; [|done]. unfold when_. destruct (_ || _); [done|]. simpl. by destruct (negb _).
Qed.

Lemma http_request_effect NewRequest Do decoded c :
  (http_request endpoints resolve url_Parse json_string NewRequest Do decoded c).2 = c ∨
  (http_request endpoints resolve url_Parse json_string NewRequest Do decoded c).2 = c <| cl_httpCalls := int_incr (cl_httpCalls c) |> ∧
    (cl_httpCalls c < MaxHTTPCalls)%Z ∧ pm_HTTP (permissions (si_Kind (cl_Script c))) = true.
Proof.
  unfold http_request. rewrite require_keeps. destruct (pm_HTTP _) eqn:Hp; [|by left]. destruct decoded as [r|e]; [|by left].
  rewrite guard_keeps. destruct (Z.leb_spec MaxHTTPCalls (cl_httpCalls c)) as [|Hlt]; [by left|]. right. split; [|done].
  set (c1 := c <| cl_httpCalls := _ |>). erewrite (ST_bind_Ok _ _ c () c1) by reflexivity. unfold mbind, ST_bind.
  pose proof (build_request_pure r c1) as Hpure. destruct (build_request _ _ _ _ r c1) as [[req|e] c2]; simpl in Hpure; subst c2; [|done].
  unfold when_. destruct (negb _); [done|]. simpl. by destruct (Do req).
Qed.

(** ** Budgets *)

Definition within_budget (c0 c : Call) : Prop :=
  same_identity c0 c ∧ length (cl_events c) ≤ MaxEvents ∧ Forall (event_ok c0) (cl_events c) ∧
  length (cl_observations c) ≤ MaxObservations ∧ Forall (observation_ok c0) (cl_observations c) ∧
  (0 ≤ cl_httpCalls c ≤ MaxHTTPCalls)%Z ∧ (0 ≤ cl_logLines c ≤ MaxLogLines)%Z ∧
  let p := permissions (si_Kind (cl_Script c0)) in
  (pm_Events p = false → cl_events c = []) ∧ (pm_Metrics p = false → cl_observations c = []) ∧ (pm_HTTP p = false → cl_httpCalls c = 0%Z).

Lemma host_step_budget c0 c c' : within_budget c0 c → host_step c c' → within_budget c0 c'.
Proof.
  intros Hb Hstep. pose proof Hb as ((Hs & Hc & Ht & Hd) & He & HeF & Ho & HoF & Hh & Hl & Hpe & Hpo & Hph). destruct Hstep as [decoded|decoded|NewRequest Do decoded|msg|key|latest dev metric labels].
  - destruct (events_emit_effect decoded c) as [->|(ev & -> & Hev & Hlen & Hperm)]; [done|]. rewrite Hs in Hperm.
    unfold within_budget, same_identity. simpl. rewrite length_app. simpl. unfold event_ok in Hev. rewrite Hs, Hc in Hev.
    split_and!; try done; [lia|apply Forall_app; split; [done|by apply Forall_singleton]|lia|lia|lia|lia|congruence].
  - destruct (metrics_emit_effect decoded c) as [->|(o & -> & Hob & Hlen & Hperm)]; [done|]. rewrite Hs in Hperm.
    unfold within_budget, same_identity. simpl. rewrite length_app. simpl. unfold observation_ok in Hob. rewrite Hs in Hob.
    split_and!; try done; [lia|apply Forall_app; split; [done|by apply Forall_singleton]|lia|lia|lia|lia|congruence].
  - destruct (http_request_effect NewRequest Do decoded c) as [->|(-> & Hlt & Hperm)]; [done|]. rewrite Hs in Hperm.
    unfold within_budget, same_identity. simpl. unfold MaxHTTPCalls in *. rewrite int_incr_small by (unfold int_min, int_max; lia).
    split_and!; try done; try lia. congruence.
  - unfold log_line. destruct (Z.leb_spec MaxLogLines (cl_logLines c)); [done|].
    unfold within_budget, same_identity. simpl. unfold MaxLogLines in *. rewrite int_incr_small by (unfold int_min, int_max; lia).
    split_and!; try done; lia.
  - done.
  - unfold state_get. destruct latest as [Latest|]; [|done]. cbv zeta.
    destruct labels as [[l|e]|]; [destruct (Latest dev metric _) as [[o|]|e]; done|done|destruct (Latest dev metric _) as [[o|]|e]; done].
Qed.

(** C32. Whatever a script does during one invocation, its side effects are bounded and vetted: after
    any sequence of host calls it has asked for at most 10 events, 100 observations, 3 requests and 20
    log lines; every event has a valid severity and type, a known device and no power over alerts,
    every observation passes the wire validation, both are marked with the script as their source;
    and kinds without a permission have no such effect at all (transforms, enrichers and proposers
    none). *)
Theorem script_effects_are_bounded info correlationID trigger deviceID c :
  rtc host_step (NewCall info correlationID trigger deviceID) c →
  within_budget (NewCall info correlationID trigger deviceID) c.
Proof.
  intros Hr. eapply (rtc_ind_r (within_budget _) (NewCall info correlationID trigger deviceID)); [| |exact Hr].
  - unfold within_budget, same_identity. simpl. split_and!; try done; try constructor; unfold MaxEvents, MaxObservations, MaxHTTPCalls, MaxLogLines; lia.
  - intros c1 c2 _ Hstep Hb. by eapply host_step_budget.
Qed.

(** ** Outbound requests *)

(** The header names a request can carry: the three a script may set and the three of the platform. *)
Definition header_names : gset string :=
  {["Content-Type"; "Accept"; "X-Request-Id"; "Authorization"; "User-Agent"; "Idempotency-Key"]}.
Definition script_header_names : gset string := {["Content-Type"; "Accept"; "X-Request-Id"]}.

Lemma allowedHeaders_names k canon : allowedHeaders !! k = Some canon → canon ∈ script_header_names.
Proof.
  unfold allowedHeaders, script_header_names. intros Hk%elem_of_list_to_map_2. clear -Hk. set_unfold in Hk. set_solver.
Qed.

Lemma request_headers_names l hdrs hdrs' :
  dom hdrs ⊆ script_header_names → request_headers l hdrs = Ok hdrs' → dom hdrs' ⊆ script_header_names.
Proof.
  revert hdrs. induction l as [|[k v] l IH]; intros hdrs Hd; simpl; [by intros [= <-]|].
  destruct (allowedHeaders !! ToLower k) as [canon|] eqn:Hc; [|done]. apply IH. rewrite dom_insert_L.
  apply allowedHeaders_names in Hc. clear -Hd Hc. set_solver.
Qed.

Lemma request_body_ok body hdrs payload hdrs' :
  dom hdrs ⊆ script_header_names → request_body json_string body hdrs = Ok (payload, hdrs') →
  dom hdrs' ⊆ script_header_names ∧ ∀ b, payload = Some b → (slen b ≤ MaxRequestBody)%Z.
Proof.
  intros Hd. unfold request_body. destruct (_ || _); [intros [= <- <-]; by split|].
  destruct (json_string body) as [s|].
  - destruct (Z.ltb_spec MaxRequestBody (slen s)); [done|]. intros [= <- <-]. split; [done|]. by intros b [= <-].
  - destruct (Z.ltb_spec MaxRequestBody (slen body)); [done|]. intros [= <- <-]. split; [|by intros b [= <-]].
    case_bool_decide; [rewrite dom_insert_L; clear -Hd; unfold script_header_names in *; set_solver|done].
Qed.

(** The parts of a request that was built. *)
Lemma build_request_inv r c req c' :
  build_request endpoints resolve url_Parse json_string r c = (Ok req, c') →
  ∃ ep Resolve secret bu hdrs body,
    endpoints !! rh_Endpoint r = Some ep ∧ resolve = Some Resolve ∧ rh_Endpoint r ∈ AllowedEndpoints (si_Config (cl_Script c)) ∧
    http_method (rh_Method r) ∈ ["GET"; "POST"; "PUT"] ∧ bad_path (rh_Path r) = false ∧
    Resolve (ep_URLRef ep) = Ok secret ∧ url_Parse (or_default (mread secret "url") (mread secret "value")) = Some bu ∧
    (ur_Scheme bu = "http" ∨ ur_Scheme bu = "https") ∧ ur_Host bu ≠ "" ∧
    dom hdrs ⊆ script_header_names ∧ (∀ b, body = Some b → (slen b ≤ MaxRequestBody)%Z) ∧
    req = MkRequest (http_method (rh_Method r)) (target_url bu (rh_Path r)) (platform_headers c (mread secret "token") hdrs) body (request_timeout ep r).
Proof.
  unfold build_request. cbv zeta. intros Hb. destruct (endpoints !! _) as [ep|] eqn:Hep; [|done]. destruct resolve as [Rs|] eqn:Hres; [|done].
  destruct (bool_decide (rh_Endpoint r ∈ _)) eqn:Hall; [|done]. bool_to_prop.
  rewrite guard_keeps in Hb. destruct (bool_decide (http_method _ ∈ _)) eqn:Hm; cbn [negb] in Hb; [|done]. bool_to_prop.
  rewrite guard_keeps in Hb. destruct (bad_path _) eqn:Hpath; [done|].
  apply ST_bind_inv in Hb as (hdrs & c1 & Hh & Hb). unfold ST_lift in Hh. injection Hh as Hh <-.
  apply ST_bind_inv in Hb as ([body hdrs'] & c2 & Hbody & Hb). unfold ST_lift in Hbody. injection Hbody as Hbody <-.
  apply request_headers_names in Hh; [|by rewrite dom_empty_L]. destruct (request_body_ok _ _ _ _ Hh Hbody) as [Hh' Hsize].
  destruct (Rs (ep_URLRef ep)) as [secret|e] eqn:Hsec; [|done]. destruct (url_Parse _) as [bu|] eqn:Hbu; [|done].
  rewrite guard_keeps in Hb. destruct (negb _ || _) eqn:Hs; [done|].
  rewrite guard_keeps in Hb. destruct (negb (bool_decide (ur_Host _ = _))); [done|]. injection Hb as <- _. bool_to_prop.
  by exists ep, Rs, secret, bu, hdrs', body.
Qed.

Lemma target_url_host bu path : ur_Host (target_url bu path) = ur_Host bu ∧ ur_Scheme (target_url bu path) = ur_Scheme bu.
Proof. unfold target_url. destruct (split_query path) as [p [q|]]; done. Qed.

Lemma platform_headers_names c token hdrs : dom hdrs ⊆ script_header_names → dom (platform_headers c token hdrs) ⊆ header_names.
Proof.
  intros Hd. unfold platform_headers. cbv zeta. unfold script_header_names, header_names in *.
  repeat case_bool_decide; cbn [negb andb]; rewrite ?dom_insert_L; clear -Hd; set_solver.
Qed.

Lemma platform_headers_auth c token hdrs :
  dom hdrs ⊆ script_header_names →
  platform_headers c token hdrs !! "Authorization" = if bool_decide (token = "") then None else Some ("Bearer " +:+ token).
Proof.
  intros Hd. assert (hdrs !! "Authorization" = None) as Hn by (apply not_elem_of_dom; clear -Hd; unfold script_header_names in *; set_solver).
  unfold platform_headers. cbv zeta. repeat case_bool_decide; cbn [negb andb];
    repeat first [rewrite lookup_insert_ne by discriminate | rewrite lookup_insert_eq]; done.
Qed.

(** C40. A request a script makes goes where configuration allows and nowhere else: the endpoint is
    configured and authorised for this script, scheme and host are those of the endpoint's own URL,
    the method is GET, POST or PUT, no header outside the known six is set, the credential is
    exactly the endpoint's token and never the script's choice, the body and the patience are
    bounded. *)
Theorem outbound_requests_stay_on_endpoint r c req c' :
  build_request endpoints resolve url_Parse json_string r c = (Ok req, c') →
  rh_Endpoint r ∈ AllowedEndpoints (si_Config (cl_Script c)) ∧ rq_Method req ∈ ["GET"; "POST"; "PUT"] ∧
  ∃ ep Resolve secret bu, endpoints !! rh_Endpoint r = Some ep ∧ resolve = Some Resolve ∧ Resolve (ep_URLRef ep) = Ok secret ∧
    url_Parse (or_default (mread secret "url") (mread secret "value")) = Some bu ∧
    ur_Host (rq_URL req) = ur_Host bu ∧ ur_Host bu ≠ "" ∧ ur_Scheme (rq_URL req) = ur_Scheme bu ∧ (ur_Scheme bu = "http" ∨ ur_Scheme bu = "https") ∧
    dom (rq_Header req) ⊆ header_names ∧
    rq_Header req !! "Authorization" = (if bool_decide (mread secret "token" = "") then None else Some ("Bearer " +:+ mread secret "token")) ∧
    (∀ b, rq_Body req = Some b → (slen b ≤ MaxRequestBody)%Z) ∧
    (rq_Timeout req ≤ if (ep_Timeout ep <=? 0)%Z then defaultHTTPTimeout else ep_Timeout ep)%Z.
Proof.
  intros (ep & Rs & secret & bu & hdrs & body & Hep & Hres & Hall & Hm & Hp & Hsec & Hbu & Hsch & Hhost & Hh & Hsize & ->)%build_request_inv.
  destruct (target_url_host bu (rh_Path r)) as [Ht1 Ht2]. split; [done|]. split; [done|]. exists ep, Rs, secret, bu.
  cbn [rq_Method rq_URL rq_Header rq_Body rq_Timeout]. rewrite Ht1, Ht2. split_and!; try done.
  - by apply platform_headers_names.
  - by apply platform_headers_auth.
  - unfold request_timeout. cbv zeta. destruct (_ && _) eqn:Hlt; [|done]. apply andb_true_iff in Hlt as [_ Hlt]. bool_to_prop. lia.
Qed.

Lemma platform_headers_idem c token hdrs :
  cl_Trigger c ≠ "" → platform_headers c token hdrs !! "Idempotency-Key" = Some (StableID ["idem"; si_Key (cl_Script c); cl_Trigger c]).
Proof.
  intros Ht. unfold platform_headers. cbv zeta. rewrite (bool_decide_eq_false_2 (cl_Trigger c = "")) by done.
  destruct (negb _ && _); [rewrite lookup_insert_ne by discriminate|]; apply lookup_insert_eq.
Qed.

(** All requests of one invocation carry the same idempotency key, even to different paths with
    different bodies, although a script may make three of them: a receiver that honours the key as
    documented drops all but the first. *)
Theorem requests_share_idempotency_key r1 r2 c c2 req1 req2 c1' c2' :
  build_request endpoints resolve url_Parse json_string r1 c = (Ok req1, c1') →
  build_request endpoints resolve url_Parse json_string r2 c2 = (Ok req2, c2') →
  same_identity c c2 → cl_Trigger c ≠ "" →
  is_Some (rq_Header req1 !! "Idempotency-Key") ∧ rq_Header req1 !! "Idempotency-Key" = rq_Header req2 !! "Idempotency-Key".
Proof.
  intros (? & ? & ? & ? & ? & ? & _ & _ & _ & _ & _ & _ & _ & _ & _ & _ & _ & ->)%build_request_inv.
  intros (? & ? & ? & ? & ? & ? & _ & _ & _ & _ & _ & _ & _ & _ & _ & _ & _ & ->)%build_request_inv.
  intros (Hs & _ & Ht & _) Htr. cbn [rq_Header]. rewrite platform_headers_idem by done. rewrite platform_headers_idem by congruence.
  rewrite Hs, Ht. split; [eauto|done].
Qed.
End effects.

(** ** Examples *)

Definition ex_info : ScriptInfo := MkScriptInfo "integrations/ticket" KindIntegration "ticket" "1" {["endpoint_ref" := CfgString "desk"]}.
Definition ex_call : Call := NewCall ex_info "corr-1" "evt-1" "core-1".
Definition ex_event_request : requestedEvent := MkRequestedEvent "ticket.created" "info" "opened" "" None.
Definition ex_endpoints : gmap string Endpoint := {["desk" := MkEndpoint "desk" 0]}.
Definition ex_resolve : option (string → res smap) := Some (λ _, Ok (Some {["url" := "https://desk.example"; "token" := "s3cret"]})).
Definition ex_url (s : string) : option URL := Some (MkURL "https" "desk.example" "" "").
Definition ex_http (path body : string) : requestedHTTP := MkRequestedHTTP "desk" "post" path None body 0.
Definition ex_build (r : requestedHTTP) (c : Call) : result string Request * Call :=
  build_request (SHA:=sha_id) (RO:=stored_order) ex_endpoints ex_resolve ex_url (λ _, None) r c.

Lemma script_effects_are_bounded_witness :
  let c := (events_emit (SHA:=sha_id) (RO:=stored_order) None 7 (Ok ex_event_request) ex_call).2 in
  length (cl_events c) = 1 ∧ within_budget None (NewValidator 7) ex_call c.
Proof.
  cbv zeta. split; [vm_compute; reflexivity|].
  apply (script_effects_are_bounded (SHA:=sha_id) (RO:=stored_order) None 7 (NewValidator 7) ex_endpoints ex_resolve ex_url (λ _, None)
           ex_info "corr-1" "evt-1" "core-1").
  apply rtc_once. apply host_event.
Defined.

Lemma outbound_requests_stay_on_endpoint_witness :
  ∃ req c', ex_build (ex_http "/v1/tickets" "{}") ex_call = (Ok req, c') ∧ rq_Method req ∈ ["GET"; "POST"; "PUT"].
Proof.
  destruct (ex_build (ex_http "/v1/tickets" "{}") ex_call) as [[req|e] c'] eqn:Hb; [|vm_compute in Hb; discriminate].
  exists req, c'. split; [reflexivity|].
  apply (outbound_requests_stay_on_endpoint (SHA:=sha_id) (RO:=stored_order) ex_endpoints ex_resolve ex_url (λ _, None) _ _ _ _ Hb).
Defined.

Lemma requests_share_idempotency_key_witness :
  ∃ req1 req2 c1 c2, ex_build (ex_http "/v1/tickets" "{}") ex_call = (Ok req1, c1) ∧ ex_build (ex_http "/v1/pages" "[]") ex_call = (Ok req2, c2) ∧
    rq_URL req1 ≠ rq_URL req2 ∧ rq_Header req1 !! "Idempotency-Key" = rq_Header req2 !! "Idempotency-Key".
Proof.
  destruct (ex_build (ex_http "/v1/tickets" "{}") ex_call) as [[req1|e] c1] eqn:Hb1; [|vm_compute in Hb1; discriminate].
  destruct (ex_build (ex_http "/v1/pages" "[]") ex_call) as [[req2|e] c2] eqn:Hb2; [|vm_compute in Hb2; discriminate].
  exists req1, req2, c1, c2. split; [reflexivity|]. split; [reflexivity|]. split.
  - vm_compute in Hb1, Hb2. injection Hb1 as <- _. injection Hb2 as <- _. discriminate.
  - apply (requests_share_idempotency_key (SHA:=sha_id) (RO:=stored_order) ex_endpoints ex_resolve ex_url (λ _, None) _ _ _ _ _ _ _ _ Hb1 Hb2).
    + repeat split.
    + discriminate.
Defined.
