(* ===== verification/Scripting.v ===== *)
(** * Package [scripting]: contracts between scripts and the platform
    (src/internal/scripting/service.go, contracts.go, proposer.go)

    The service runs scripts through the pool and records every outcome in the registry; the
    extensions decode and check what scripts return. The pool is an interface ([ScriptRunner]) with
    its laws; [ScriptPool] implements it. *)

From S2P Require Import Prelude GoLib GoFloat Domain Regexp Schema Inventory Policy ScriptModule ScriptRegistry ScriptPool ScriptApi.

(** ** The pool as the service sees it *)

(** What is passed to a script. *)
Inductive arg :=
| ArgObservation (o : Observation)
| ArgEvent (ev : Event)
| ArgDevice (v : DeviceView)
| ArgDeviceContext (v : DeviceView)                     (* {device: ...} *)
| ArgPolicy (policyID : string) (allowed : list string).

Abbreviation Registry G := (ScriptRegistry.Registry G Config).
Abbreviation Script G := (ScriptRegistry.Script G Config).

(** A call on a pool in state [P]: the script's id, the function, its arguments and the call record. *)
Class ScriptRunner (G P : Type) := {
  run_script : Registry G → string → string → list arg → Call → P → res string * Call * P;
}.

(** ** The service (service.go) *)

Record Service (G P S : Type) := MkService {
  sv_Registry : Registry G;
  sv_Pool : P;
  sv_Store : S;            (* where emitted events are persisted *)
}.
Arguments MkService {G P S}.
Arguments sv_Registry {G P S}.
Arguments sv_Pool {G P S}.
Arguments sv_Store {G P S}.
#[export] Instance eta_Service {G P S} : Eta (Service G P S) := λ s, MkService (sv_Registry s) (sv_Pool s) (sv_Store s).

(** The metadata a script exports. *)
Record Meta := MkMeta {
  me_Version : string; me_Description : string; me_Metrics : list string; me_Events : list string; me_MinSeverity : string }.

Definition meta_problem (kind : string) (meta : option Meta) : result string Meta :=
  match meta with
  | None => Err "meta.version is required"
  | Some m =>
      if bool_decide (me_Version m = "") then Err "meta.version is required"
      else if bool_decide (kind = KindTransform) && bool_decide (me_Metrics m = [])
      then Err "transform scripts must declare meta.metrics (metric names, or prefixes ending in *)"
      else if bool_decide (kind = KindIntegration) && bool_decide (me_Events m = [])
      then Err "integration scripts must declare meta.events (event types, or prefixes ending in *)"
      else if negb (bool_decide (me_MinSeverity m = "")) && negb (Severity_Valid (me_MinSeverity m))
      then Err "meta.min_severity must be info, warning or critical"
      else Ok m
  end.

Section service.
Context {G P S : Type} `{Sha256} {RO : RangeOrder} `{ScriptRunner G P}.
Abbreviation Service := (Service G P S).
Abbreviation Registry := (Registry G).
Abbreviation Script := (Script G).

Section reload.
Context (goja_Compile : string → string → res G) (Glob : string → string → list string) (Base : string → string) (ReadFile : string → res string).
Context (ReadMeta : Program G → res string) (unmarshal : string → option Meta).

Definition mark_failed (rep : Report) (reg : Registry) (sc : Script) (reason : string) : Report * Registry :=
  (rep <| rp_Failed := int_incr (rp_Failed rep) |> <| rp_Loaded := wrap64 (rp_Loaded rep - 1) |>
       <| rp_Errors := rp_Errors rep ++ [sc_Key sc +:+ ": " +:+ reason] |>,
   MarkFailed reg (sc_Key sc) reason).

(** The body of the loop over the loaded scripts. *)
Definition check_meta (st : Report * Registry) (sc : Script) : Report * Registry :=
  let '(rep, reg) := st in
  match sc_Program sc with
  | None => (rep, reg)
  | Some prog =>
      if negb (is_active sc) then (rep, reg)
      else
        match ReadMeta prog with
        | Err e => mark_failed rep reg sc (error_text e)
        | Ok raw =>
            match meta_problem (sc_Kind sc) (unmarshal raw) with
            | Err problem => mark_failed rep reg sc problem
            | Ok m => (rep, SetMeta reg (sc_Key sc) (me_Version m) (me_Description m) (me_Metrics m) (me_Events m) (me_MinSeverity m))
            end
        end
  end.

Definition reload_registry (reg : Registry) : Report * Registry :=
  let '(rep, reg) := Reload goja_Compile Glob Base ReadFile reg in
  let '(rep, reg) := foldl check_meta (rep, reg) (List_ reg) in
  (rep <| rp_Errors := sort_strings (rp_Errors rep) |>, reg).

Definition Service_Reload (s : Service) : Report * Service :=
  let '(rep, reg) := reload_registry (sv_Registry s) in (rep, s <| sv_Registry := reg |>).
End reload.

(** [finish]: an outcome that is the script's is recorded, once. *)
Definition finish (now : Time) (key : string) (err : option error) (s : Service) : Service :=
  match err with
  | Some e => if bool_decide (CategoryOf err = CategoryScript) then s <| sv_Registry := (RecordResult now (sv_Registry s) key err).2 |> else s
  | None => s <| sv_Registry := (RecordResult now (sv_Registry s) key None).2 |>
  end.

Definition not_active (key : string) : error := EWrapped ("script not active: " +:+ key) ENotActive.

(** [CallChecked]; the check also yields what the caller captures of the result. The clock is read
    when the outcome is recorded. *)
Definition CallChecked {A} (now : Time) (key fn : string) (call : Call) (check : string → res A) (args : list arg) (s : Service)
  : res A * Call * Service :=
  match Get (sv_Registry s) key with
  | None => (Err (not_active key), call, s)
  | Some sc =>
      if negb (is_active sc) then (Err (not_active key), call, s)
      else
        match sc_Program sc with
        | None => (Err (EPanic "invalid memory address or nil pointer dereference"), call, s)
        | Some prog =>
            let '(out, call, p) := run_script (sv_Registry s) (pg_ID prog) fn args call (sv_Pool s) in
            let s := s <| sv_Pool := p |> in
            let r := match out with Ok raw => check raw | Err e => Err e end in
            (r, call, finish now key (match r with Ok _ => None | Err e => Some e end) s)
        end
  end.

Definition Service_Call (now : Time) (key fn : string) (call : Call) (args : list arg) (s : Service) : res string * Call * Service :=
  CallChecked now key fn call Ok args s.

Record Health := MkHealth { he_Loaded : Z; he_Disabled : Z; he_Quarantined : Z; he_Failed : Z }.
Definition Service_Health (s : Service) : Health :=
  let c := Counts (sv_Registry s) in
  let n st := default 0%Z (c !! st) in
  MkHealth (n StatusActive) (n StatusDisabled) (n StatusQuarantined) (n StatusFailed).

(** ** Extensions (contracts.go) *)

(** Exact names, or prefixes ending in "*"; an empty list matches everything. *)
Definition matches (patterns : list string) (metric : string) : bool :=
  match patterns with
  | [] => true
  | _ => existsb (λ p, bool_decide (p = metric) || HasSuffix p "*" && HasPrefix metric (TrimSuffix p "*")) patterns
  end.

Definition info (sc : Script) : ScriptInfo := MkScriptInfo (sc_Key sc) (sc_Kind sc) (sc_ID sc) (sc_Version sc) (default ∅ (sc_Config sc)).

Definition platformError (e : error) : bool := negb (error_is ENotActive e) && negb (bool_decide (CategoryOf (Some e) = CategoryScript)).

Definition scriptOutputError (id text : string) : error := EScript id KindOutput text.

Definition transformImmutable : list string := ["observation_id"; "correlation_id"; "device_id"; "source"; "observed_at"; "received_at"].

(** An observation as a generic JSON map, with comparable values [J]. *)
Context {J : Type} `{EqDecision J} (asMap : Observation → gmap string J).

Definition changed (before after : Observation) (fields : list string) : option string :=
  snd <$> list_find (λ f, asMap before !! f ≠ asMap after !! f) fields.

Definition changedExcept (before after : Observation) (allowed : list string) : option string :=
  let keys : gmap string () := (λ _, ()) <$> (asMap before ∪ asMap after) in
  snd <$> list_find (λ k, (k ∉ allowed) ∧ asMap before !! k ≠ asMap after !! k) (range_order keys).*1.

Context `{Json Observation, Json Proposal} (validator : Validator) (now : Time).

Definition decodeTransform (before : Observation) (raw : string) : res (Observation * bool) :=
  if bool_decide (raw = "null") then Ok (before, false)
  else
    match Decode raw (l_MaxMessageBytes (v_Limits validator)) with
    | Err e => Err (scriptOutputError "transform" ("returned a value that is not an observation: " +:+ error_text e))
    | Ok after =>
        match Schema.Validate validator after with
        | Some e => Err (scriptOutputError "transform" ("returned an invalid observation: " +:+ error_text e))
        | None =>
            match changed before after transformImmutable with
            | Some field => Err (scriptOutputError "transform" ("changed " +:+ field +:+ ", which transforms may not modify"))
            | None => Ok (after, true)
            end
        end
    end.

Definition RunTransform (sc : Script) (obs : Observation) (s : Service) : res (Observation * bool) * Service :=
  let call := NewCall (info sc) (o_CorrelationID obs) (o_ObservationID obs) (o_DeviceID obs) in
  let '(r, _, s) := CallChecked now (sc_Key sc) "transform" call (decodeTransform obs) [ArgObservation obs] s in (r, s).

(** The loop of [Transform] over the active scripts of the kind, taken when it starts. *)
Fixpoint transform_loop (scripts : list Script) (obs : Observation) (s : Service) : res (Observation * bool) * Service :=
  match scripts with
  | [] => (Ok (obs, true), s)
  | sc :: scripts =>
      if negb (matches (sc_Metrics sc) (o_Metric obs)) then transform_loop scripts obs s
      else
        match RunTransform sc obs s with
        | (Err e, s) => if platformError e then (Err e, s) else transform_loop scripts obs s
        | (Ok (next, true), s) => transform_loop scripts next s
        | (Ok (_, false), s) => (Ok (obs, false), s)
        end
  end.
Definition Transform (obs : Observation) (s : Service) : res (Observation * bool) * Service :=
  transform_loop (ByKind (sv_Registry s) KindTransform) obs s.

Definition decodeEnrich (before : Observation) (raw : string) : res Observation :=
  if bool_decide (raw = "null") then Err (scriptOutputError "enrich" "returned null; enrichers must return the observation")
  else
    match Decode raw (l_MaxMessageBytes (v_Limits validator)) with
    | Err e => Err (scriptOutputError "enrich" ("returned a value that is not an observation: " +:+ error_text e))
    | Ok after =>
        match Schema.Validate validator after with
        | Some e => Err (scriptOutputError "enrich" ("returned an invalid observation: " +:+ error_text e))
        | None =>
            match changedExcept before after ["metadata"] with
            | Some field => Err (scriptOutputError "enrich" ("changed " +:+ field +:+ "; enrichers may only change metadata"))
            | None => Ok after
            end
        end
    end.

Definition RunEnrich (sc : Script) (obs : Observation) (dev : Device) (s : Service) : res Observation * Service :=
  let call := NewCall (info sc) (o_CorrelationID obs) (o_ObservationID obs) (o_DeviceID obs) in
  let '(r, _, s) := CallChecked now (sc_Key sc) "enrich" call (decodeEnrich obs) [ArgObservation obs; ArgDeviceContext (ViewOf dev)] s in (r, s).

Fixpoint enrich_loop (scripts : list Script) (obs : Observation) (dev : Device) (s : Service) : res Observation * Service :=
  match scripts with
  | [] => (Ok obs, s)
  | sc :: scripts =>
      if negb (matches (sc_Metrics sc) (o_Metric obs)) then enrich_loop scripts obs dev s
      else
        match RunEnrich sc obs dev s with
        | (Err e, s) => if platformError e then (Err e, s) else enrich_loop scripts obs dev s
        | (Ok next, s) => enrich_loop scripts next dev s
        end
  end.
Definition Enrich (obs : Observation) (dev : Device) (s : Service) : res Observation * Service :=
  enrich_loop (ByKind (sv_Registry s) KindEnricher) obs dev s.

(** ** Proposers and integrations (proposer.go) *)

Definition decode_proposal (id raw : string) : res (option Proposal) :=
  if bool_decide (raw = "null") then Ok None
  else
    match Decode raw (Z.shiftl 16 10) with
    | Err e => Err (scriptOutputError id ("returned something that is not a proposal (want {action, target?, params?, reason?} or null): " +:+ error_text e))
    | Ok p => Ok (Some p)
    end.

Definition RunPropose (sc : Script) (policyID : string) (allowed : list string) (ev : Event) (dev : Device) (s : Service)
  : res (option Proposal) * Service :=
  let call := NewCall (info sc) (ev_CorrelationID ev) (ev_EventID ev) (ev_DeviceID ev) in
  let '(r, _, s) := CallChecked now (sc_Key sc) "proposeAutomation" call (decode_proposal (sc_ID sc))
                      [ArgEvent ev; ArgDevice (ViewOf dev); ArgPolicy policyID allowed] s in (r, s).

(** [Propose]; the engine only calls it for a policy with a proposal reference. *)
Definition Propose (pol : Policy) (ev : Event) (dev : Device) (s : Service) : res (option Proposal) * Service :=
  match pl_Proposal pol with
  | None => (Err (EPanic "invalid memory address or nil pointer dereference"), s)
  | Some pp =>
      let key := KindAutomation +:+ "/" +:+ pp_Script pp in
      match Get (sv_Registry s) key with
      | None => (Err (not_active key), s)
      | Some sc =>
          if negb (is_active sc) then (Err (not_active key), s)
          else RunPropose sc (pl_ID pol) (pp_AllowedActions pp) ev dev s
      end
  end.

Record IntegrationResult := MkIntegrationResult { ir_OK : bool; ir_Message : string }.
Record IntegrationOutcome := MkIntegrationOutcome {
  io_Script : string; io_Result : IntegrationResult; io_Emitted : list Event; io_Err : option error }.

Context `{Json IntegrationResult}.

Definition decode_result (id raw : string) : res IntegrationResult :=
  match Decode raw (Z.shiftl 16 10) with
  | Ok r => if bool_decide (raw = "null") then Err (scriptOutputError id "must return {ok: boolean, message?: string}") else Ok r
  | Err _ => Err (scriptOutputError id "must return {ok: boolean, message?: string}")
  end.

Definition RunHandle (sc : Script) (ev : Event) (dev : Device) (s : Service) : res (IntegrationResult * list Event) * Service :=
  let call := NewCall (info sc) (ev_CorrelationID ev) (ev_EventID ev) (ev_DeviceID ev) in
  match CallChecked now (sc_Key sc) "handleEvent" call (decode_result (sc_ID sc)) [ArgEvent ev; ArgDeviceContext (ViewOf dev)] s with
  | (Err e, _, s) => (Err e, s)
  | (Ok r, call, s) => (Ok (r, Events call), s)
  end.

(** Whether an integration wants the event. *)
Definition interested (sc : Script) (ev : Event) : bool :=
  matches (sc_Events sc) (ev_Type ev) &&
  negb (negb (bool_decide (sc_MinSeverity sc = "")) && (Rank (ev_Severity ev) <? Rank (sc_MinSeverity sc))%Z).

Fixpoint handle_loop (scripts : list Script) (ev : Event) (dev : Device) (out : list IntegrationOutcome) (s : Service)
  : (list IntegrationOutcome * option error) * Service :=
  match scripts with
  | [] => (out, None, s)
  | sc :: scripts =>
      if negb (interested sc ev) then handle_loop scripts ev dev out s
      else
        match RunHandle sc ev dev s with
        | (Err e, s) =>
            if platformError e then (out, Some e, s)
            else handle_loop scripts ev dev (out ++ [MkIntegrationOutcome (sc_Key sc) (MkIntegrationResult false "") [] (Some e)]) s
        | (Ok (r, emitted), s) => handle_loop scripts ev dev (out ++ [MkIntegrationOutcome (sc_Key sc) r emitted None]) s
        end
  end.
Definition HandleEvent (ev : Event) (dev : Device) (s : Service) : (list IntegrationOutcome * option error) * Service :=
  handle_loop (ByKind (sv_Registry s) KindIntegration) ev dev [] s.

(** [IntegrationRunner]: emitted events are persisted, where there is somewhere to persist them. *)
Context (Persist : option (Event → S → option error * S)).

Fixpoint persist_all (evs : list Event) (s : Service) : option error * Service :=
  match evs with
  | [] => (None, s)
  | ev :: evs =>
      match Persist with
      | None => persist_all evs s
      | Some persist =>
          let '(err, st) := persist ev (sv_Store s) in
          let s := s <| sv_Store := st |> in
          match err with Some e => (Some e, s) | None => persist_all evs s end
      end
  end.

Definition IntegrationRunner_Run (ev : Event) (dev : Device) (s : Service) : option error * Service :=
  match HandleEvent ev dev s with
  | (_, Some e, s) => (Some e, s)
  | (outcomes, None, s) => persist_all (outcomes ≫= λ o, if bool_decide (io_Err o = None) then io_Emitted o else []) s
  end.

Definition invoke_event (requestID correlationID : string) (dev : Device) (params : smap) : Event :=
  MkEvent (StableID ["evt"; "invoke"; requestID]) correlationID (d_ID dev) "automation.invoked" SeverityInfo
    "extension invoked by an automation policy" params now "" "automation" "" false.

Definition Invoke (script : string) (dev : Device) (requestID correlationID : string) (params : smap) (s : Service) : res string * Service :=
  let key := KindIntegration +:+ "/" +:+ script in
  match Get (sv_Registry s) key with
  | None => (Err (not_active key), s)
  | Some sc =>
      if negb (is_active sc) then (Err (not_active key), s)
      else
        match RunHandle sc (invoke_event requestID correlationID dev params) dev s with
        | (Err e, s) => (Err e, s)
        | (Ok (r, emitted), s) =>
            match persist_all emitted s with
            | (Some e, s) => (Err e, s)
            | (None, s) =>
                if negb (ir_OK r) then (Err (Errorf CategoryPermanent ("extension " +:+ script +:+ " reported failure: " +:+ ir_Message r)), s)
                else if bool_decide (ir_Message r = "") then (Ok ("extension " +:+ script +:+ " completed"), s)
                else (Ok (ir_Message r), s)
            end
        end
  end.
End service.
