(* ===== verification/ScriptingFacts.v ===== *)
(** * Facts of the scripting service: the registry's invariant, contracts of the extension points *)

From S2P Require Import Prelude GoLib GoFloat Domain Regexp Schema Inventory Policy ScriptModule ScriptRegistry ScriptRegistryFacts ScriptPool ScriptPoolThms ScriptApi Scripting.

(** ** The registry as a source of programs *)

#[export] Instance registry_source {G C} : Source (ScriptRegistry.Registry G C) G :=
  {| Programs := ScriptRegistry.Programs; Generation := ScriptRegistry.Generation |}.
#[export] Instance registry_source_spec {G C} : SourceSpec (ScriptRegistry.Registry G C) G :=
  {| source_op := registry_op; source_op_generation := registry_op_generation |}.

(** ** An active script has a program *)

Definition registry_ok {G C} (r : ScriptRegistry.Registry G C) : Prop :=
  (1 ≤ rg_threshold r)%Z ∧
  map_Forall (λ k s, sc_Key s = k ∧ (sc_Status s = StatusActive → is_Some (sc_Program s))) (rg_scripts r).

Lemma registry_ok_insert {G C} (r : ScriptRegistry.Registry G C) key s s' :
  registry_ok r → rg_scripts r !! key = Some s → sc_Key s' = sc_Key s → (sc_Status s' = StatusActive → is_Some (sc_Program s')) →
  ∀ g, registry_ok (r <| rg_scripts := <[key := s']> (rg_scripts r) |> <| rg_gen := g |>).
Proof.
  intros [Ht Hok] Hs Hk Hp g. split; [done|]. apply map_Forall_insert_2; [|done]. destruct (Hok _ _ Hs) as [<- _]. by split.
Qed.

Lemma carry_ok {G C} (old : option (ScriptRegistry.Script G C)) s :
  sc_Key (carry old s) = sc_Key s ∧ sc_Program (carry old s) = sc_Program s ∧
  (sc_Status (carry old s) = StatusActive → sc_Status s = StatusActive).
Proof.
  unfold carry. destruct old as [o|]; [|done]. destruct (bool_decide _); simpl andb; [|done]. destruct (is_active s) eqn:Ha; [|done].
  apply bool_decide_eq_true_1 in Ha. cbv zeta. by case_bool_decide.
Qed.

(** Every operation keeps the registry well formed. *)
Lemma registry_op_ok {G C} (r r' : ScriptRegistry.Registry G C) : registry_op r r' → registry_ok r → registry_ok r'.
Proof.
  intros Hop Hok. pose proof (threshold_op _ _ Hop) as Hthr.
  destruct Hop as [HS RO goja glob base read|key reason|key version description metrics events sev|now key err|key enabled].
  - destruct Hok as [Ht _]. split; [done|]. intros key s Hs. change (Get (Reload goja glob base read r).2 key = Some s) in Hs.
    rewrite Reload_lookup in Hs. apply fmap_Some in Hs as (s0 & Hscan & ->).
    apply scan_loaded in Hscan as (kind & path & -> & Hkey).
    destruct (carry_ok (Get r key) (loadFile goja base read r kind path)) as (-> & -> & Hst). split; [done|].
    intros Ha%Hst. by apply (loadFile_fresh goja base read r kind path).
  - unfold MarkFailed in *. destruct (rg_scripts r !! key) as [s|] eqn:Hs; [|done]. by eapply (registry_ok_insert r key s).
  - unfold SetMeta in *. destruct (rg_scripts r !! key) as [s|] eqn:Hs; [|done].
    eapply (registry_ok_insert r key s _ Hok Hs) with (g := rg_gen r); [done|]. destruct Hok as [_ Hok]. apply (Hok _ _ Hs).
  - unfold RecordResult in *. destruct (rg_scripts r !! key) as [s|] eqn:Hs; [|done].
    assert (sc_Status s = StatusActive → is_Some (sc_Program s)) as Hp by (destruct Hok as [_ Hok]; apply (Hok _ _ Hs)).
    destruct err as [e|]; cbv zeta; [destruct (_ && _)|]; eapply (registry_ok_insert r key s _ Hok Hs) with (g := _); done.
  - unfold SetEnabled in *. destruct (rg_scripts r !! key) as [s|] eqn:Hs; [|done]. destruct (sc_Program s) as [p|] eqn:Hp; [|done].
    destruct (enabled && _); [eapply (registry_ok_insert r key s _ Hok Hs); [done|intros _; simpl; rewrite Hp; eauto]|].
    destruct (negb enabled && _); [|done]. by eapply (registry_ok_insert r key s).
Qed.

Lemma New_ok {G C} dirs settings threshold : registry_ok (New (G:=G) (C:=C) dirs settings threshold).
Proof. split; [simpl; lia|apply map_Forall_empty]. Qed.

(** ** The pool's promise to the service *)

(** A failed call is the script's fault or a condition worth retrying. *)
Class ScriptRunnerSpec (G P : Type) `{ScriptRunner G P} := {
  run_attributed reg id fn args call p e call' p' :
    run_script reg id fn args call p = (Err e, call', p') →
    CategoryOf (Some e) = CategoryScript ∨ IsRetryable (Some e) = true;
}.

(** ** JSON views of observations *)

(** What the generic JSON map says about an observation that came over the wire: a field of the map
    determines the field of the observation. Numbers of different Go types can look the same, so
    the value is determined as JSON only. *)
Class ObservationMapSpec {J} (asMap : Observation → gmap string J) `{Json Observation} := {
  wire_ok : Observation → Prop;
  decoded_wire_ok data o : json_Decode data = Ok o → wire_ok o;
  asMap_inj o1 o2 : wire_ok o1 → wire_ok o2 →
    (asMap o1 !! "observation_id" = asMap o2 !! "observation_id" → o_ObservationID o1 = o_ObservationID o2) ∧
    (asMap o1 !! "correlation_id" = asMap o2 !! "correlation_id" → o_CorrelationID o1 = o_CorrelationID o2) ∧
    (asMap o1 !! "device_id" = asMap o2 !! "device_id" → o_DeviceID o1 = o_DeviceID o2) ∧
    (asMap o1 !! "source" = asMap o2 !! "source" → o_Source o1 = o_Source o2) ∧
    (asMap o1 !! "observed_at" = asMap o2 !! "observed_at" → o_ObservedAt o1 = o_ObservedAt o2) ∧
    (asMap o1 !! "received_at" = asMap o2 !! "received_at" → o_ReceivedAt o1 = o_ReceivedAt o2) ∧
    (asMap o1 !! "metric" = asMap o2 !! "metric" → o_Metric o1 = o_Metric o2) ∧
    (asMap o1 !! "labels" = asMap o2 !! "labels" → entries (o_Labels o1) = entries (o_Labels o2));
}.

(** The fields that carry idempotency, tracing and routing. *)
Definition same_origin (o1 o2 : Observation) : Prop :=
  o_ObservationID o1 = o_ObservationID o2 ∧ o_CorrelationID o1 = o_CorrelationID o2 ∧ o_DeviceID o1 = o_DeviceID o2 ∧
  o_Source o1 = o_Source o2 ∧ o_ObservedAt o1 = o_ObservedAt o2 ∧ o_ReceivedAt o1 = o_ReceivedAt o2.

#[export] Instance same_origin_equiv : Equivalence same_origin.
Proof. split; unfold same_origin; red; intros; destruct_and?; split_and!; congruence. Qed.

Section contracts.
Context {G P S J : Type} {SHA : Sha256} {RO : RangeOrder} `{HJ : EqDecision J} (asMap : Observation → gmap string J).
Context `{HO : Json Observation} `{HP : Json Proposal} `{HI : Json IntegrationResult}.
Context `{HM : !ObservationMapSpec asMap} (validator : Validator) (now : Time).

Lemma changed_none before after fields :
  changed asMap before after fields = None → ∀ f, f ∈ fields → asMap before !! f = asMap after !! f.
Proof.
  unfold changed. intros Hn f Hf. destruct (list_find _ fields) as [[i x]|] eqn:Hfind; [done|].
  apply list_find_None in Hfind. rewrite Forall_forall in Hfind. specialize (Hfind f Hf). by apply dec_stable.
Qed.

Lemma changedExcept_none before after allowed :
  changedExcept asMap before after allowed = None → ∀ f, f ∉ allowed → asMap before !! f = asMap after !! f.
Proof.
  unfold changedExcept. cbv zeta. intros Hn f Hf. destruct (list_find _ _) as [[i x]|] eqn:Hfind; [done|].
  apply list_find_None in Hfind. rewrite Forall_forall in Hfind. apply dec_stable. intros Hne.
  assert (is_Some ((asMap before ∪ asMap after) !! f)) as [v Hv].
  { rewrite lookup_union. destruct (asMap before !! f), (asMap after !! f); simpl; by eauto. }
  apply (Hfind f); [|by split]. apply list_elem_of_fmap. exists (f, ()). split; [done|].
  apply elem_of_range_order. rewrite lookup_fmap, Hv. done.
Qed.

Lemma Decode_wire data max o : Decode data max = Ok o → wire_ok o.
Proof.
  unfold Decode. destruct (_ && _); [done|]. destruct (json_Decode data) as [o'|e] eqn:Hd; [|done]. destruct (json_trailing data); [done|].
  intros [= <-]. by eapply decoded_wire_ok.
Qed.

(** What a transform's output satisfies when it is accepted. *)
Lemma decodeTransform_ok before raw next keep :
  wire_ok before → decodeTransform asMap validator before raw = Ok (next, keep) →
  wire_ok next ∧ same_origin before next ∧ (keep = true → Schema.Validate validator next = None) ∧ (keep = false → next = before).
Proof.
  intros Hw. unfold decodeTransform. case_bool_decide; [intros [= <- <-]; by split_and!|].
  destruct (Decode raw _) as [o|e] eqn:Hd; [|done]. destruct (Schema.Validate validator o) eqn:Hv; [done|].
  destruct (changed asMap before o transformImmutable) eqn:Hch; [done|]. intros [= <- <-].
  pose proof (Decode_wire _ _ _ Hd) as Hwo. split; [done|]. split; [|by split].
  destruct (asMap_inj before o Hw Hwo) as (H1 & H2 & H3 & H4 & H5 & H6 & _).
  assert (∀ f, f ∈ transformImmutable → asMap before !! f = asMap o !! f) as Heq by by apply changed_none.
  unfold same_origin. split_and!; [apply H1|apply H2|apply H3|apply H4|apply H5|apply H6]; apply Heq; set_solver.
Qed.

Lemma decodeTransform_err before raw e : decodeTransform asMap validator before raw = Err e → CategoryOf (Some e) = CategoryScript.
Proof.
  unfold decodeTransform. case_bool_decide; [done|]. destruct (Decode raw _); [|by intros [= <-]].
  destruct (Schema.Validate validator _); [by intros [= <-]|]. destruct (changed _ _ _ _); [by intros [= <-]|done].
Qed.

(** What an enricher's output satisfies. *)
Definition only_metadata (o1 o2 : Observation) : Prop :=
  same_origin o1 o2 ∧ o_Metric o1 = o_Metric o2 ∧ entries (o_Labels o1) = entries (o_Labels o2) ∧ asMap o1 !! "value" = asMap o2 !! "value".

Lemma only_metadata_refl o : only_metadata o o.
Proof. by split_and!. Qed.
Lemma only_metadata_trans o1 o2 o3 : only_metadata o1 o2 → only_metadata o2 o3 → only_metadata o1 o3.
Proof. intros (H1 & H2 & H3 & H4) (K1 & K2 & K3 & K4). split_and!; [by etrans|congruence..]. Qed.

Lemma decodeEnrich_ok before raw next :
  wire_ok before → decodeEnrich asMap validator before raw = Ok next →
  wire_ok next ∧ only_metadata before next ∧ Schema.Validate validator next = None.
Proof.
  intros Hw. unfold decodeEnrich. case_bool_decide; [done|].
  destruct (Decode raw _) as [o|e] eqn:Hd; [|done]. destruct (Schema.Validate validator o) eqn:Hv; [done|].
  destruct (changedExcept asMap before o ["metadata"]) eqn:Hch; [done|]. intros [= <-].
  pose proof (Decode_wire _ _ _ Hd) as Hwo. split; [done|]. split; [|done].
  destruct (asMap_inj before o Hw Hwo) as (H1 & H2 & H3 & H4 & H5 & H6 & H7 & H8).
  assert (∀ f, f ∉ ["metadata"] → asMap before !! f = asMap o !! f) as Heq by by apply changedExcept_none.
  unfold only_metadata, same_origin.
  split_and!; [apply H1|apply H2|apply H3|apply H4|apply H5|apply H6|apply H7|apply H8|]; apply Heq; rewrite list_elem_of_singleton; discriminate.
Qed.

Lemma decodeEnrich_err before raw e : decodeEnrich asMap validator before raw = Err e → CategoryOf (Some e) = CategoryScript.
Proof.
  unfold decodeEnrich. case_bool_decide; [by intros [= <-]|]. destruct (Decode raw _); [|by intros [= <-]].
  destruct (Schema.Validate validator _); [by intros [= <-]|]. destruct (changedExcept _ _ _ _); [by intros [= <-]|done].
Qed.

Lemma decode_proposal_err id raw e : decode_proposal id raw = Err e → CategoryOf (Some e) = CategoryScript.
Proof. unfold decode_proposal. case_bool_decide; [done|]. destruct (Decode raw _); [done|]. by intros [= <-]. Qed.

Lemma decode_result_err id raw e : decode_result id raw = Err e → CategoryOf (Some e) = CategoryScript.
Proof. unfold decode_result. destruct (Decode raw _); [case_bool_decide; [by intros [= <-]|done]|by intros [= <-]]. Qed.
End contracts.
