(* ===== verification/ScriptingThms.v ===== *)
(** * Theorems of the scripting service: what scripts can change, and what their failures cannot *)

From S2P Require Import Prelude GoLib GoFloat Domain Regexp Schema Inventory Policy ScriptModule ScriptRegistry ScriptRegistryFacts ScriptPool ScriptPoolThms ScriptApi Scripting ScriptingFacts StateFacts.

Section service.
Context {G P S J : Type} {SHA : Sha256} {RO : RangeOrder} `{HJ : EqDecision J} (asMap : Observation → gmap string J).
Context `{HO : Json Observation} `{HP : Json Proposal} `{HI : Json IntegrationResult}.
Context `{HM : !ObservationMapSpec asMap} (validator : Validator) (now : Time).
Context `{HR : ScriptRunner G P} `{HRS : !ScriptRunnerSpec G P}.
#[local] Set Default Proof Using "Type HRS".
Abbreviation Service := (Service G P S).
Abbreviation Script := (Script G).

(** ** One call *)

(** The registry after a call: as before, or with one result recorded for the called script. *)
Lemma CallChecked_registry {A} key fn call (check : string → res A) args (s : Service) r call' s' :
  CallChecked now key fn call check args s = (r, call', s') →
  sv_Store s' = sv_Store s ∧
  (sv_Registry s' = sv_Registry s ∨ ∃ err, sv_Registry s' = (RecordResult now (sv_Registry s) key err).2).
Proof.
  unfold CallChecked. destruct (Get _ key) as [sc|]; [|intros [= _ _ <-]; auto]. destruct (negb _); [intros [= _ _ <-]; auto|].
  destruct (sc_Program sc) as [prog|]; [|intros [= _ _ <-]; auto].
  destruct (run_script _ _ _ _ _ _) as [[out c1] p1]. cbv zeta. intros [= _ _ <-]. unfold finish.
  destruct out as [raw|e]; [destruct (check raw) as [a|e]|]; try (simpl; eauto; done); case_bool_decide; simpl; eauto.
Qed.

Lemma CallChecked_ok {A} key fn call (check : string → res A) args (s : Service) r call' s' :
  registry_ok (sv_Registry s) → CallChecked now key fn call check args s = (r, call', s') → registry_ok (sv_Registry s').
Proof.
  intros Hok Hc. destruct (CallChecked_registry _ _ _ _ _ _ _ _ _ Hc) as [_ [->|[err ->]]]; [done|].
  eapply registry_op_ok; [apply op_record|done].
Qed.

(** The error of a call: the script is not active, the script's fault, or worth retrying. *)
Lemma CallChecked_err {A} key fn call (check : string → res A) args (s : Service) e call' s' :
  registry_ok (sv_Registry s) → (∀ raw e, check raw = Err e → CategoryOf (Some e) = CategoryScript) →
  CallChecked now key fn call check args s = (Err e, call', s') →
  error_is ENotActive e = true ∨ CategoryOf (Some e) = CategoryScript ∨ IsRetryable (Some e) = true.
Proof.
  intros [_ Hok] Hcheck. unfold CallChecked. destruct (Get _ key) as [sc|] eqn:Hg; [|intros [= <- _ _]; by left].
  destruct (is_active sc) eqn:Ha; cbn [negb]; [|intros [= <- _ _]; by left]. apply bool_decide_eq_true_1 in Ha.
  destruct (Hok _ _ Hg) as [_ Hp]. destruct (Hp Ha) as [prog ->].
  destruct (run_script _ _ _ _ _ _) as [[[raw|e1] c1] p1] eqn:Hrun; cbv zeta; intros [= He _ _].
  - right; left. by eapply Hcheck.
  - subst e1. right. by eapply run_attributed.
Qed.

Lemma platform_retryable e :
  error_is ENotActive e = true ∨ CategoryOf (Some e) = CategoryScript ∨ IsRetryable (Some e) = true →
  platformError e = true → IsRetryable (Some e) = true.
Proof.
  unfold platformError. intros [Hn|[Hs|Hr]] Hp; [by rewrite Hn in Hp|by rewrite Hs, andb_false_r in Hp|done].
Qed.

(** ** Transforms *)

Lemma RunTransform_spec sc obs (s : Service) r s' :
  registry_ok (sv_Registry s) → RunTransform asMap validator now sc obs s = (r, s') →
  registry_ok (sv_Registry s') ∧
  match r with
  | Ok (next, keep) => wire_ok obs → wire_ok next ∧ same_origin obs next ∧ (keep = true → Schema.Validate validator next = None)
  | Err e => error_is ENotActive e = true ∨ CategoryOf (Some e) = CategoryScript ∨ IsRetryable (Some e) = true
  end.
Proof.
  intros Hok. unfold RunTransform. cbv zeta.
  destruct (CallChecked now _ _ _ _ _ s) as [[r0 c0] s0] eqn:Hc. intros [= <- <-]. split; [by eapply CallChecked_ok|].
  destruct r0 as [[next keep]|e].
  - intros Hw. unfold CallChecked in Hc. destruct (Get _ _) as [sc0|]; [|done]. destruct (negb _); [done|].
    destruct (sc_Program sc0); [|done]. destruct (run_script _ _ _ _ _ _) as [[[raw|e1] c1] p1]; cbv zeta in Hc; injection Hc as Hd _ _; [|done].
    destruct (decodeTransform_ok asMap validator obs raw next keep Hw Hd) as (? & ? & ? & ?). done.
  - eapply CallChecked_err; [done| |exact Hc]. intros raw e'. apply decodeTransform_err.
Qed.

Lemma transform_loop_spec scripts obs (s : Service) r s' :
  registry_ok (sv_Registry s) → transform_loop asMap validator now scripts obs s = (r, s') →
  registry_ok (sv_Registry s') ∧
  match r with
  | Ok (o, _) => wire_ok obs → wire_ok o ∧ same_origin obs o ∧ (o = obs ∨ Schema.Validate validator o = None)
  | Err e => IsRetryable (Some e) = true
  end.
Proof.
  revert obs s. induction scripts as [|sc scripts IH]; intros obs s Hok; simpl.
  - intros [= <- <-]. split; [done|]. intros Hw. split; [done|]. split; [done|by left].
  - destruct (negb _); [by apply IH|]. destruct (RunTransform asMap validator now sc obs s) as [[[next keep]|e] s1] eqn:Hrun.
    + destruct (RunTransform_spec _ _ _ _ _ Hok Hrun) as [Hok1 Hspec]. destruct keep.
      * intros Hloop. destruct (IH next s1 Hok1 Hloop) as [Hok' Hr]. split; [done|]. destruct r as [[o k]|e]; [|done].
        intros Hw. destruct (Hspec Hw) as (Hwn & Hsn & Hv). destruct (Hr Hwn) as (Hwo & Hso & Ho). split; [done|].
        split; [by etrans|]. right. destruct Ho as [->|?]; [by apply Hv|done].
      * intros [= <- <-]. split; [done|]. intros Hw. split; [done|]. split; [done|by left].
    + destruct (RunTransform_spec _ _ _ _ _ Hok Hrun) as [Hok1 Herr]. destruct (platformError e) eqn:Hp; [|by apply IH].
      intros [= <- <-]. split; [done|]. by apply platform_retryable.
Qed.

(** C22. Transform scripts cannot forge observations: whatever the scripts return, the observation that
    leaves the transform stage has the identity, tracing, device, source and times of the one that
    entered, and it is the same observation or one that passes the wire validation. *)
Theorem transforms_keep_identity obs (s : Service) o keep s' :
  registry_ok (sv_Registry s) → wire_ok obs → Transform asMap validator now obs s = (Ok (o, keep), s') →
  same_origin obs o ∧ (o = obs ∨ Schema.Validate validator o = None).
Proof.
  intros Hok Hw Ht. destruct (transform_loop_spec _ _ _ _ _ Hok Ht) as [_ Hspec]. by destruct (Hspec Hw) as (_ & ? & ?).
Qed.

(** ** Enrichers *)

Lemma enrich_loop_spec scripts obs dev (s : Service) r s' :
  registry_ok (sv_Registry s) → enrich_loop asMap validator now scripts obs dev s = (r, s') →
  registry_ok (sv_Registry s') ∧
  match r with
  | Ok o => wire_ok obs → wire_ok o ∧ only_metadata asMap obs o ∧ (o = obs ∨ Schema.Validate validator o = None)
  | Err e => IsRetryable (Some e) = true
  end.
Proof.
  revert obs s. induction scripts as [|sc scripts IH]; intros obs s Hok; simpl.
  - intros [= <- <-]. split; [done|]. intros Hw. split; [done|]. split; [apply only_metadata_refl|by left].
  - destruct (negb _); [by apply IH|]. destruct (RunEnrich asMap validator now sc obs dev s) as [r1 s1] eqn:Hrun.
    unfold RunEnrich in Hrun. cbv zeta in Hrun. destruct (CallChecked now _ _ _ _ _ s) as [[r0 c0] s0] eqn:Hc. injection Hrun as -> ->.
    pose proof (CallChecked_ok _ _ _ _ _ _ _ _ _ Hok Hc) as Hok1. destruct r1 as [next|e].
    + intros Hloop. destruct (IH next s1 Hok1 Hloop) as [Hok' Hr]. split; [done|]. destruct r as [o|e]; [|done]. intros Hw.
      unfold CallChecked in Hc. destruct (Get _ _) as [sc0|]; [|done]. destruct (negb _); [done|].
      destruct (sc_Program sc0); [|done]. destruct (run_script _ _ _ _ _ _) as [[[raw|e1] c1] p1]; cbv zeta in Hc; injection Hc as Hd _ _; [|done].
      destruct (decodeEnrich_ok asMap validator obs raw next Hw Hd) as (Hwn & Hm & Hv). destruct (Hr Hwn) as (Hwo & Hmo & Ho). split; [done|].
      split; [by eapply only_metadata_trans|]. right. by destruct Ho as [->|?].
    + assert (error_is ENotActive e = true ∨ CategoryOf (Some e) = CategoryScript ∨ IsRetryable (Some e) = true) as Herr.
      { eapply CallChecked_err; [exact Hok| |exact Hc]. intros raw e'. apply decodeEnrich_err. }
      destruct (platformError e) eqn:Hp; [|by apply IH]. intros [= <- <-]. split; [done|]. by apply platform_retryable.
Qed.

(** Enrichers only touch metadata: whatever they return, the observation that leaves the enrich stage
    agrees with the one that entered in everything but its metadata (the value as JSON, so a number
    may change its Go type but not its digits). *)
Theorem enrichers_change_only_metadata obs dev (s : Service) o s' :
  registry_ok (sv_Registry s) → wire_ok obs → Enrich asMap validator now obs dev s = (Ok o, s') →
  same_origin obs o ∧ o_Metric obs = o_Metric o ∧ entries (o_Labels obs) = entries (o_Labels o) ∧ asMap obs !! "value" = asMap o !! "value" ∧
  (o = obs ∨ Schema.Validate validator o = None).
Proof.
  intros Hok Hw Ht. destruct (enrich_loop_spec _ _ _ _ _ _ Hok Ht) as [_ Hspec].
  by destruct (Hspec Hw) as (_ & (? & ? & ? & ?) & ?).
Qed.

(** ** Integrations *)

Lemma handle_loop_spec scripts ev dev out (s : Service) out' err s' :
  registry_ok (sv_Registry s) → handle_loop now scripts ev dev out s = (out', err, s') →
  registry_ok (sv_Registry s') ∧
  match err with
  | Some e => IsRetryable (Some e) = true
  | None => io_Script <$> out' = (io_Script <$> out) ++ (sc_Key <$> filter (λ sc, Is_true (interested sc ev)) scripts)
  end.
Proof.
  revert out s. induction scripts as [|sc scripts IH]; intros out s Hok; simpl.
  - intros [= <- <- <-]. split; [done|]. by rewrite app_nil_r.
  - rewrite filter_cons. destruct (interested sc ev) eqn:Hint; cbn [negb]; [|rewrite decide_False by (intros []); by apply IH].
    rewrite decide_True by done. destruct (RunHandle now sc ev dev s) as [r1 s1] eqn:Hrun.
    unfold RunHandle in Hrun. cbv zeta in Hrun. destruct (CallChecked now _ _ _ _ _ s) as [[r0 c0] s0] eqn:Hc.
    pose proof (CallChecked_ok _ _ _ _ _ _ _ _ _ Hok Hc) as Hok1. destruct r0 as [res|e]; injection Hrun as <- <-.
    + intros Hloop. destruct (IH _ _ Hok1 Hloop) as [Hok' Hr]. split; [done|]. destruct err; [done|].
      rewrite Hr, fmap_app. simpl. by rewrite <-(assoc_L (++)).
    + assert (error_is ENotActive e = true ∨ CategoryOf (Some e) = CategoryScript ∨ IsRetryable (Some e) = true) as Herr.
      { eapply CallChecked_err; [exact Hok| |exact Hc]. intros raw e'. apply decode_result_err. }
      destruct (platformError e) eqn:Hp; [intros [= <- <- <-]; split; [done|by apply platform_retryable]|].
      intros Hloop. destruct (IH _ _ Hok1 Hloop) as [Hok' Hr]. split; [done|]. destruct err; [done|].
      rewrite Hr, fmap_app. simpl. by rewrite <-(assoc_L (++)).
Qed.

(** A broken script never breaks the pipeline: an error of the transform stage, of the enrich stage or
    of event handling is always one worth retrying (saturation, cancellation), never one that sends the
    message to the dead letters; and when event handling succeeds, every active integration that
    is interested in the event has exactly one outcome, in order, whether its script failed or not. *)
Theorem script_failures_are_isolated obs dev ev (s : Service) :
  registry_ok (sv_Registry s) →
  (∀ e s', Transform asMap validator now obs s = (Err e, s') → IsRetryable (Some e) = true) ∧
  (∀ e s', Enrich asMap validator now obs dev s = (Err e, s') → IsRetryable (Some e) = true) ∧
  (∀ out err s', HandleEvent now ev dev s = (out, err, s') →
     match err with
     | Some e => IsRetryable (Some e) = true
     | None => io_Script <$> out = sc_Key <$> filter (λ sc, Is_true (interested sc ev)) (ByKind (sv_Registry s) KindIntegration)
     end).
Proof using Type HM HRS.
  intros Hok. split; [|split].
  - intros e s' Ht. by destruct (transform_loop_spec _ _ _ _ _ Hok Ht).
  - intros e s' Ht. by destruct (enrich_loop_spec _ _ _ _ _ _ Hok Ht).
  - intros out err s' Hh. by destruct (handle_loop_spec _ _ _ _ _ _ _ _ Hok Hh).
Qed.

(** ** A script that keeps failing *)

Section failing.
Context {A : Type} (key fn : string) (call : Call) (check : string → res A) (args : list arg).

Definition call_times (n : nat) (s : Service) : Service := Nat.iter n (λ s, (CallChecked now key fn call check args s).2) s.

(** The script's record after [n] failures in a row. *)
Definition failed_times (thr : Z) (n : nat) (s : Service) : Prop :=
  rg_threshold (sv_Registry s) = thr ∧
  ∃ sc, Get (sv_Registry s) key = Some sc ∧
    if decide (Z.of_nat n < thr)%Z
    then sc_Status sc = StatusActive ∧ sc_ConsecutiveFailures sc = Z.of_nat n
    else sc_Status sc = StatusQuarantined.

(** The call fails, and it is the script's (or its output's) fault. *)
Definition fails (s : Service) : Prop :=
  ∃ e c s', CallChecked now key fn call check args s = (Err e, c, s') ∧ CategoryOf (Some e) = CategoryScript.

Lemma failing_call thr n (s : Service) :
  (thr ≤ int_max)%Z → failed_times thr n s → (Z.of_nat n < thr → fails s)%Z →
  failed_times thr (Datatypes.S n) (CallChecked now key fn call check args s).2.
Proof using Type.
  intros Hmax [Hthr (sc & Hg & Hsc)] Hf. destruct (decide _) as [Hlt|Hge].
  - destruct Hsc as (Ha & Hcf). destruct (Hf Hlt) as (e & c' & s' & Hc & He). rewrite Hc. cbn [snd]. revert Hc.
    unfold CallChecked. rewrite Hg. unfold is_active at 1. rewrite bool_decide_eq_true_2 by done. cbn [negb].
    destruct (sc_Program sc) as [prog|]; [|by intros [= <- _ _]].
    destruct (run_script _ _ _ _ _ _) as [[out c1] p1]. cbv zeta. intros [= Hr _ <-]. rewrite Hr. unfold finish.
    rewrite bool_decide_eq_true_2 by done. cbn [sv_Registry update_field]. unfold RecordResult, Get in *. rewrite Hg. cbv zeta.
    assert (sc_ConsecutiveFailures (count_failure now (error_text e) sc) = Z.of_nat (Datatypes.S n)) as Hincr.
    { simpl. rewrite int_incr_small; unfold int_min, int_max in *; lia. }
    assert (is_active (count_failure now (error_text e) sc) = true) as -> by (apply bool_decide_eq_true_2; exact Ha).
    rewrite Hincr, Hthr. cbn [andb]. destruct (Z.leb_spec thr (Z.of_nat (Datatypes.S n))) as [Hle|Hgt].
    + split; [exact Hthr|]. eexists. split; [unfold Get; cbn; apply lookup_insert_eq|]. by rewrite decide_False by lia.
    + split; [exact Hthr|]. eexists. split; [unfold Get; cbn; apply lookup_insert_eq|]. rewrite decide_True by lia. done.
  - unfold CallChecked. rewrite Hg. unfold is_active. rewrite Hsc. cbn [negb bool_decide]. split; [exact Hthr|].
    exists sc. split; [done|]. by rewrite decide_False by lia.
Qed.

(** C23. A script that keeps failing is shut off: if its first [threshold] calls all fail by its own
    fault, it stays active up to the last of them, and from then on every call is refused without
    running it and without changing anything. *)
Theorem failing_script_is_shut_off (s : Service) sc n :
  Get (sv_Registry s) key = Some sc → sc_Status sc = StatusActive → sc_ConsecutiveFailures sc = 0%Z →
  (1 ≤ rg_threshold (sv_Registry s) ≤ int_max)%Z →
  (∀ i, Z.of_nat i < rg_threshold (sv_Registry s) → fails (call_times i s))%Z →
  (Z.of_nat n < rg_threshold (sv_Registry s) → ∃ sc', Get (sv_Registry (call_times n s)) key = Some sc' ∧ sc_Status sc' = StatusActive)%Z ∧
  (rg_threshold (sv_Registry s) ≤ Z.of_nat n →
   CallChecked now key fn call check args (call_times n s) = (Err (not_active key), call, call_times n s))%Z.
Proof using Type.
  intros Hg Ha Hcf Hthr Hfail.
  assert (failed_times (rg_threshold (sv_Registry s)) n (call_times n s)) as [_ (sc' & Hg' & Hsc')].
  { induction n as [|n IH]; [split; [done|]; exists sc; split; [done|]; by rewrite decide_True by lia|].
    apply failing_call; [lia|done|]. apply Hfail. }
  split; intros Hn; [rewrite decide_True in Hsc' by lia; naive_solver|]. rewrite decide_False in Hsc' by lia.
  unfold CallChecked. rewrite Hg'. unfold is_active. by rewrite Hsc'.
Qed.
End failing.
End service.
