(* ===== verification/ScriptReloadThms.v ===== *)
(** * Theorems of reloading scripts: metadata of active scripts *)

From S2P Require Import Prelude GoLib GoFloat Domain Regexp Schema Inventory Policy ScriptModule ScriptRegistry ScriptRegistryFacts ScriptPool ScriptApi Scripting ScriptingFacts.

Section reload.
Context {G : Type} {SHA : Sha256} {RO : RangeOrder}.
Context (goja : string → string → res G) (glob : string → string → list string) (base : string → string) (read : string → res string).
Context (readMeta : Program G → res string) (unmarshal : string → option Meta).
Abbreviation Registry := (Registry G).
Abbreviation Script := (Script G).
Abbreviation check_meta := (check_meta readMeta unmarshal).
Abbreviation reload_registry := (reload_registry goja glob base read readMeta unmarshal).

(** What the service requires of the metadata of a script that runs. *)
Definition described (sc : Script) : Prop :=
  sc_Version sc ≠ "" ∧ (sc_Kind sc = KindTransform → sc_Metrics sc ≠ []) ∧ (sc_Kind sc = KindIntegration → sc_Events sc ≠ []) ∧
  (sc_MinSeverity sc = "" ∨ Severity_Valid (sc_MinSeverity sc) = true).

Lemma meta_problem_ok kind m m' :
  meta_problem kind m = Ok m' →
  me_Version m' ≠ "" ∧ (kind = KindTransform → me_Metrics m' ≠ []) ∧ (kind = KindIntegration → me_Events m' ≠ []) ∧
  (me_MinSeverity m' = "" ∨ Severity_Valid (me_MinSeverity m') = true).
Proof.
  unfold meta_problem. destruct m as [m|]; [|done]. case_bool_decide as Hv; [done|].
  destruct (bool_decide (kind = KindTransform) && _) eqn:Ht; [done|]. destruct (bool_decide (kind = KindIntegration) && _) eqn:Hi; [done|].
  destruct (negb _ && _) eqn:Hs; [done|]. intros [= <-]. split; [done|]. split_and!.
  - intros -> Hm. by rewrite !bool_decide_eq_true_2 in Ht.
  - intros -> Hm. by rewrite !bool_decide_eq_true_2 in Hi.
  - apply andb_false_iff in Hs as [Hs|Hs]; apply negb_false_iff in Hs; [left; by apply bool_decide_eq_true_1 in Hs|by right].
Qed.

(** One step of the loop touches the entry of its script only. *)
Lemma check_meta_other rep (reg : Registry) sc key :
  key ≠ sc_Key sc → Get (check_meta (rep, reg) sc).2 key = Get reg key.
Proof.
  intros Hne. unfold Scripting.check_meta, mark_failed, MarkFailed, SetMeta, Get.
  destruct (sc_Program sc); [|done]. destruct (negb _); [done|].
  destruct (readMeta _); [destruct (meta_problem _ _)|]; simpl; destruct (rg_scripts reg !! sc_Key sc); simpl; by rewrite ?lookup_insert_ne.
Qed.

(** The entry of its script: inactive, or described. *)
Lemma check_meta_own rep (reg : Registry) sc cur :
  Get reg (sc_Key sc) = Some cur → sc_Kind cur = sc_Kind sc → (sc_Status sc = StatusActive → is_Some (sc_Program sc)) →
  ∃ cur', Get (check_meta (rep, reg) sc).2 (sc_Key sc) = Some cur' ∧ sc_Key cur' = sc_Key cur ∧ sc_Kind cur' = sc_Kind cur ∧
    (sc_Status cur' = StatusActive → described cur' ∨ (cur' = cur ∧ sc_Status sc ≠ StatusActive)).
Proof.
  intros Hg Hk Hp. unfold Scripting.check_meta. unfold is_active. unfold Get in *.
  case_bool_decide as Ha; cbn [negb].
  2: { exists cur. destruct (sc_Program sc); cbn [snd]; (split; [done|]; split; [done|]; split; [done|]; intros ?; by right). }
  destruct (Hp Ha) as [prog ->]. unfold mark_failed, MarkFailed, SetMeta.
  destruct (readMeta prog) as [raw|e]; [destruct (meta_problem _ _) as [m|problem] eqn:Hm|]; simpl; rewrite Hg;
    (eexists; split; [simpl; apply lookup_insert_eq|]; split; [done|]; split; [done|]; try done).
  intros _. left. unfold described. simpl. rewrite Hk. by apply meta_problem_ok in Hm.
Qed.

(** What holds of the registry while the scripts [l] are still to be checked. *)
Definition checked_but (l : list Script) (reg : Registry) : Prop :=
  (∀ key s, Get reg key = Some s → sc_Key s = key ∧ (sc_Status s = StatusActive → described s ∨ s ∈ l)) ∧
  Forall (λ x, (sc_Status x = StatusActive → is_Some (sc_Program x)) ∧ ∃ y, Get reg (sc_Key x) = Some y ∧ sc_Kind y = sc_Kind x) l.

Lemma check_meta_step rep (reg : Registry) sc l : checked_but (sc :: l) reg → checked_but l (check_meta (rep, reg) sc).2.
Proof.
  intros [Hent Hall]. apply Forall_cons_1 in Hall as [[Hp (cur & Hcur & Hkind)] Hall].
  destruct (check_meta_own rep reg sc cur Hcur Hkind Hp) as (cur' & Hcur' & Hkey' & Hkind' & Hact). split.
  - intros key s Hs. destruct (decide (key = sc_Key sc)) as [->|Hne].
    + rewrite Hcur' in Hs. injection Hs as <-. destruct (Hent _ _ Hcur) as [Hkc Hd]. split; [congruence|]. intros Ha.
      destruct (Hact Ha) as [?|[-> Hna]]; [by left|]. destruct (Hd Ha) as [?|[->|?]%elem_of_cons]; [by left|done|by right].
    + rewrite check_meta_other in Hs by done. destruct (Hent _ _ Hs) as [Hks Hd]. split; [done|]. intros Ha.
      destruct (Hd Ha) as [?|[->|?]%elem_of_cons]; [by left|done|by right].
  - eapply Forall_impl; [exact Hall|]. intros x [Hpx (y & Hy & Hky)]. split; [done|].
    destruct (decide (sc_Key x = sc_Key sc)) as [Heq|Hne]; [|exists y; by rewrite check_meta_other].
    exists cur'. rewrite Heq. split; [done|]. rewrite Heq, Hcur in Hy. injection Hy as <-. congruence.
Qed.

Lemma check_meta_all l rep (reg : Registry) : checked_but l reg → checked_but [] (foldl check_meta (rep, reg) l).2.
Proof.
  revert rep reg. induction l as [|sc l IH]; intros rep reg Hc; [done|]. cbn [foldl].
  pose proof (check_meta_step rep reg sc l Hc) as Hstep. destruct (check_meta (rep, reg) sc) as [rep' reg']. by apply IH.
Qed.

Lemma List_checked (reg : Registry) : registry_ok reg → checked_but (List_ reg) reg.
Proof.
  intros [_ Hok]. split.
  - intros key s Hs. split; [apply (Hok _ _ Hs)|]. intros _. right. apply elem_of_in_key_order. eauto.
  - apply Forall_forall. intros x (k & Hx)%elem_of_in_key_order. destruct (Hok _ _ Hx) as [Hk Hp]. split; [done|]. rewrite Hk. eauto.
Qed.

Lemma Reload_ok (r : Registry) : registry_ok r → registry_ok (Reload goja glob base read r).2.
Proof. apply registry_op_ok. apply op_reload. Qed.

(** After a reload every script that can run has acceptable metadata: a version, the metrics a
    transform applies to, the event types an integration wants, and a valid minimum severity; a
    script without them is not active. *)
Theorem reloaded_scripts_are_described (r : Registry) key s :
  registry_ok r → Get (reload_registry r).2 key = Some s → sc_Status s = StatusActive → described s.
Proof.
  intros Hok%Reload_ok. unfold Scripting.reload_registry. destruct (Reload goja glob base read r) as [rep reg]. cbn [snd] in Hok.
  pose proof (check_meta_all _ rep _ (List_checked _ Hok)) as [Hent _].
  destruct (foldl check_meta (rep, reg) (List_ reg)) as [rep' reg']. cbn [snd]. intros Hg Ha.
  destruct (Hent _ _ Hg) as [_ Hd]. by destruct (Hd Ha) as [?|?%elem_of_nil].
Qed.

(** The loop leaves scripts that are not active alone. *)
Lemma check_meta_inactive l rep (reg : Registry) key :
  Forall (λ x, sc_Key x = key → sc_Status x ≠ StatusActive) l → Get (foldl check_meta (rep, reg) l).2 key = Get reg key.
Proof.
  revert rep reg. induction l as [|sc l IH]; intros rep reg Hall; [done|]. apply Forall_cons_1 in Hall as [Hsc Hall]. cbn [foldl].
  assert (Get (check_meta (rep, reg) sc).2 key = Get reg key) as Hsame.
  { destruct (decide (key = sc_Key sc)) as [->|Hne]; [|by apply check_meta_other]. unfold Scripting.check_meta, is_active.
    rewrite bool_decide_eq_false_2 by by apply Hsc. by destruct (sc_Program sc). }
  destruct (check_meta (rep, reg) sc) as [rep' reg']. rewrite IH by done. exact Hsame.
Qed.

(** A quarantined script that is reloaded unchanged and then switched on again runs with no metadata:
    it applies to every metric and every event, although the metadata check is there so that a
    script says what it applies to. The reload builds a fresh entry, reads the metadata of active
    scripts only, and the switch does not read it. *)
Theorem released_script_matches_everything (r : Registry) key old s1 :
  registry_ok r → Get r key = Some old → sc_Status old = StatusQuarantined →
  scan goja glob base read r !! key = Some s1 → sc_Status s1 = StatusActive → sc_Hash s1 = sc_Hash old →
  let '(ok, r2) := SetEnabled (reload_registry r).2 key true in
  ok = true ∧ ∃ s2, Get r2 key = Some s2 ∧ sc_Status s2 = StatusActive ∧
    (∀ metric, matches (sc_Metrics s2) metric = true) ∧ (∀ ev, interested s2 ev = true).
Proof.
  intros Hok Hold Hq Hscan Ha Hh.
  assert (Get (reload_registry r).2 key = Some (carry (Some old) s1)) as Hg.
  { unfold Scripting.reload_registry. pose proof (Reload_lookup goja glob base read r key) as Hl. rewrite Hold, Hscan in Hl.
    pose proof (Reload_ok r Hok) as [_ Hok']. destruct (Reload goja glob base read r) as [rep reg]. cbn [snd fmap option_fmap option_map] in *.
    assert (Get (foldl check_meta (rep, reg) (List_ reg)).2 key = Get reg key) as Hsame.
    { apply check_meta_inactive. apply Forall_forall. intros x (k & Hx)%elem_of_in_key_order Hk. destruct (Hok' _ _ Hx) as [Hkx _].
      unfold Get in Hl. assert (k = key) as -> by congruence. rewrite Hl in Hx. injection Hx as <-. unfold carry, is_active.
      rewrite !bool_decide_eq_true_2 by done. done. }
    destruct (foldl check_meta (rep, reg) (List_ reg)) as [rep' reg']. cbn [snd] in *. congruence. }
  destruct (scan_loaded goja glob base read r key s1 Hscan) as (kind & path & Hs1 & Hkey).
  destruct (loadFile_fresh goja base read r kind path) as (_ & Hm & He & Hms & Hprog & _). rewrite <-Hs1 in Hm, He, Hms, Hprog.
  destruct (proj1 Hprog Ha) as [p Hp].
  assert (carry (Some old) s1 = s1 <| sc_ConsecutiveFailures := sc_ConsecutiveFailures old |> <| sc_TotalFailures := sc_TotalFailures old |>
                   <| sc_TotalCalls := sc_TotalCalls old |> <| sc_LastError := sc_LastError old |>
                   <| sc_LastFailureAt := sc_LastFailureAt old |> <| sc_Status := StatusQuarantined |>
                   <| sc_Reason := sc_Reason old |> <| sc_QuarantinedAt := sc_QuarantinedAt old |>) as Hc.
  { unfold carry, is_active. by rewrite !bool_decide_eq_true_2. }
  unfold SetEnabled. unfold Get in Hg. rewrite Hg, Hc. simpl. rewrite Hp. split; [done|].
  eexists. split; [unfold Get; simpl; apply lookup_insert_eq|]. simpl. unfold interested. simpl. rewrite Hm, He, Hms. done.
Qed.
End reload.
