(* ===== verification/ScriptStack.v ===== *)
(** * The scripting stack put together: the service over the registry and the pool

    [pool_runner] discharges the interface the service's theorems are proved against with the pool of
    [ScriptPool]; the examples run the whole stack on a small interpreter. *)

From S2P Require Import Prelude GoLib GoFloat Domain StateFacts Regexp Schema Inventory Policy ScriptModule ScriptRegistry ScriptRegistryFacts ScriptPool ScriptPoolThms ScriptApi Scripting ScriptingFacts ScriptingThms ScriptReloadThms.

(** ** The pool as a runner of scripts *)

Section stack.
Context {G V O X : Type} (gj : Goja G V O X Call) (marshal : arg → result string string) (o : Options).

(** The workers, the counters, and for the calls to come how each is admitted, whether its caller gives
    up, and which worker takes it; once these run out, calls are taken by the first worker. *)
Record pool := MkPool {
  po_workers : list (worker (V:=V) (O:=O));
  po_stats : Stats;
  po_schedule : list (admission * option error * nat);
}.

Definition pool_run (reg : Registry G) (id fn : string) (args : list arg) (call : Call) (p : pool) : res string * Call * pool :=
  let '(adm, ctx, i, rest) := match po_schedule p with [] => (Taken, None, 0, []) | (adm, ctx, i) :: rest => (adm, ctx, i, rest) end in
  let w := default new_worker (po_workers p !! i) in
  let '(r, call, w, s) := Pool_Call gj marshal (pool_options o) adm ctx reg (MkJob id fn args call) w (po_stats p) in
  (r, call, MkPool (<[i := w]> (po_workers p)) s rest).

#[local] Instance pool_runner : ScriptRunner G pool := {| run_script := pool_run |}.

(** Whatever the interpreter does, a failed call is the script's fault or worth retrying. *)
Lemma Pool_Call_attributed {R} `{Source R G} (opts : Options) adm ctx (r : R) j w s e d w' s' :
  Pool_Call gj marshal opts adm ctx r j w s = (Err e, d, w', s') → CategoryOf (Some e) = CategoryScript ∨ IsRetryable (Some e) = true.
Proof.
  destruct adm; simpl; [intros [= <- _ _ _]; by right| |intros [= <- _ _ _]; by right..].
  unfold run. destruct (ScriptPool.call gj marshal _ ctx r j w) as [[[out d'] w0] b] eqn:Hc. intros [= -> _ _ _].
  destruct (call_category _ _ _ _ _ _ _ _ _ _ _ Hc) as [?|(Ht & ce & -> & ->)]; [by left|by right].
Qed.

#[local] Instance pool_runner_spec : ScriptRunnerSpec G pool.
Proof.
  constructor. intros reg id fn args call p e call' p'. simpl. unfold pool_run.
  destruct (match po_schedule p with [] => _ | _ => _ end) as [[[adm ctx] i] rest].
  destruct (Pool_Call _ _ _ _ _ _ _ _ _) as [[[r c] w] s] eqn:Hp. intros [= -> _ _]. by eapply Pool_Call_attributed.
Qed.
End stack.
Arguments pool : clear implicits.

(** ** A small interpreter *)

(** Programs are their result, except ["throw"], which raises an exception, and ["loop"], which never
    ends and is interrupted. *)
Definition ex_goja : Goja string unit string string Call := {|
  gj_New := tt;
  gj_RunProgram g v := (JSRet g, v);
  gj_HasFunction _ _ _ := true;
  gj_Parse s v := (JSRet s, v);
  gj_Apply obj _ _ v d :=
    (if bool_decide (obj = "throw") then JSException "Error: boom" else if bool_decide (obj = "loop") then JSInterrupted "deadline" else JSRet obj, v, d);
  gj_IsUndefined _ := false;
  gj_Stringify s v := (JSRet s, v);
  gj_String s := s;
|}.
Definition ex_marshal (a : arg) : result string string := Ok "{}".
Definition ex_options : Options := MkOptions 1 8 0 0 0.
#[local] Instance ex_runner : ScriptRunner string (pool unit string) := pool_runner ex_goja ex_marshal ex_options.
#[local] Instance ex_runner_spec : ScriptRunnerSpec string (pool unit string) := pool_runner_spec ex_goja ex_marshal ex_options.
Definition ex_pool : pool unit string := MkPool [new_worker] (MkStats 0 0 0 0 0 0) [].

Definition ex_program (kind id code : string) : Program string := MkProgram (kind +:+ "/" +:+ id) ["meta"] code.
Definition ex_script (kind id code : string) : Script string :=
  MkScript (kind +:+ "/" +:+ id) kind id ("/scripts/" +:+ id +:+ ".js") "1" "" ["if.*"] ["device.*"] "" "hash" StatusActive "" None
    (Some (ex_program kind id code)) 0 0 0 "" time_zero time_zero.
Definition ex_registry_of (scripts : list (Script string)) : Registry string :=
  MkRegistry ["/scripts"] ∅ 3 (list_to_map ((λ s, (sc_Key s, s)) <$> scripts)) 0.
Definition ex_scripts : Registry string :=
  ex_registry_of [ex_script KindTransform "scale" "next"; ex_script KindTransform "bad" "throw"; ex_script KindEnricher "site" "meta";
                  ex_script KindIntegration "ticket" "{ok:true}"; ex_script KindIntegration "dead" "loop"].
Definition ex_service (reg : Registry string) : Service string (pool unit string) () := MkService reg ex_pool ().

Lemma ex_scripts_ok : registry_ok ex_scripts.
Proof. split; [vm_compute; congruence|]. unfold ex_scripts. apply map_Forall_to_list. vm_compute. repeat constructor; simpl; eauto. Qed.

(** ** Observations in JSON *)

Inductive ex_field := FText (s : string) | FTime (t : Time) | FMap (m : gmap string string) | FValue (v : value).
#[local] Instance ex_field_eq_dec : EqDecision ex_field.
Proof. solve_decision. Defined.
Definition ex_asMap (o : Observation) : gmap string ex_field :=
  list_to_map [("observation_id", FText (o_ObservationID o)); ("correlation_id", FText (o_CorrelationID o)); ("device_id", FText (o_DeviceID o));
               ("source", FText (o_Source o)); ("metric", FText (o_Metric o)); ("value", FValue (o_Value o)); ("labels", FMap (entries (o_Labels o)));
               ("observed_at", FTime (o_ObservedAt o)); ("received_at", FTime (o_ReceivedAt o)); ("metadata", FMap (entries (o_Metadata o)))].
Definition ex_counter (v : Z) (meta : smap) : Observation :=
  MkObservation "obs-1" "corr-1" "core-1" "snmp" "if.octets" (VInt64 v) None 5 6 meta.
#[local] Instance ex_obs_json : Json Observation := {|
  json_Marshal _ := Ok "";
  json_Decode s := if bool_decide (s = "next") then Ok (ex_counter 20 None)
                   else if bool_decide (s = "meta") then Ok (ex_counter 10 (Some {["site" := "ber"]})) else Err "invalid character";
  json_trailing _ := false;
|}.
#[local] Instance ex_result_json : Json IntegrationResult := {|
  json_Marshal _ := Ok "";
  json_Decode s := if bool_decide (s = "{ok:true}") then Ok (MkIntegrationResult true "") else Err "invalid character";
  json_trailing _ := false;
|}.
#[local] Instance ex_asMap_spec : ObservationMapSpec ex_asMap.
Proof.
  refine {| wire_ok := λ _, True |}; [done|]. intros o1 o2 _ _. unfold ex_asMap. simpl.
  split_and!; rewrite ?lookup_insert_eq, ?lookup_insert_ne, ?lookup_insert_eq by done; (intros [=]; done) || idtac.
  all: repeat (rewrite lookup_insert_ne by done); rewrite !lookup_insert_eq; by intros [=].
Defined.

Abbreviation ex_Transform := (Transform (G:=string) (P:=pool unit string) (S:=()) ex_asMap (NewValidator 10) 7).
Abbreviation ex_Enrich := (Enrich (G:=string) (P:=pool unit string) (S:=()) (RO:=stored_order) ex_asMap (NewValidator 10) 7).
Definition ex_router : Device :=
  MkDevice "core-1" "core-1" "10.0.0.1" "router" "" "" "" "" [] [] "" true time_zero (MkCollectionSpec "" "" 0) None.
Definition ex_device_down : Event := MkEvent "evt-1" "corr-1" "core-1" "device.down" SeverityCritical "" None 5 "" "rules" "" false.

(** ** Witnesses *)

Lemma transforms_keep_identity_witness :
  ∃ o keep s', ex_Transform (ex_counter 10 None) (ex_service ex_scripts) = (Ok (o, keep), s') ∧ o_Value o = VInt64 20 ∧
    same_origin (ex_counter 10 None) o.
Proof.
  destruct (ex_Transform (ex_counter 10 None) (ex_service ex_scripts)) as [[[o keep]|e] s'] eqn:Ht; [|vm_compute in Ht; discriminate].
  exists o, keep, s'. split; [reflexivity|]. split; [vm_compute in Ht; injection Ht as <- _ _; reflexivity|].
  exact (proj1 (transforms_keep_identity ex_asMap (NewValidator 10) 7 _ (ex_service ex_scripts) o keep s' ex_scripts_ok I Ht)).
Defined.

Lemma enrichers_change_only_metadata_witness :
  ∃ o s', ex_Enrich (ex_counter 10 None) ex_router (ex_service ex_scripts) = (Ok o, s') ∧ o_Metadata o = Some {["site" := "ber"]} ∧
    same_origin (ex_counter 10 None) o.
Proof.
  destruct (ex_Enrich (ex_counter 10 None) ex_router (ex_service ex_scripts)) as [[o|e] s'] eqn:Ht; [|vm_compute in Ht; discriminate].
  exists o, s'. split; [reflexivity|]. split; [vm_compute in Ht; injection Ht as <- _; reflexivity|].
  exact (proj1 (enrichers_change_only_metadata ex_asMap (NewValidator 10) 7 _ _ (ex_service ex_scripts) o s' ex_scripts_ok I Ht)).
Defined.

Lemma script_failures_are_isolated_witness :
  let '(out, err, _) := HandleEvent (G:=string) (P:=pool unit string) (S:=()) 7 ex_device_down ex_router (ex_service ex_scripts) in
  err = None ∧ io_Script <$> out = ["integrations/dead"; "integrations/ticket"].
Proof.
  destruct (HandleEvent 7 ex_device_down ex_router (ex_service ex_scripts)) as [[out err] s'] eqn:Hh.
  assert (err = None) as -> by (vm_compute in Hh; injection Hh as _ <- _; reflexivity). split; [reflexivity|].
  rewrite (proj2 (proj2 (script_failures_are_isolated (RO:=stored_order) ex_asMap (NewValidator 10) 7 (ex_counter 10 None) ex_router
             ex_device_down (ex_service ex_scripts) ex_scripts_ok)) out None s' Hh).
  vm_compute. reflexivity.
Defined.

Definition ex_bad_call : Call := NewCall (info (ex_script KindTransform "bad" "throw")) "corr-1" "obs-1" "core-1".

Lemma failing_script_is_shut_off_witness :
  let s := call_times 7 "transforms/bad" "transform" ex_bad_call Ok [] 3 (ex_service ex_scripts) in
  CallChecked 7 "transforms/bad" "transform" ex_bad_call Ok [] s = (Err (not_active "transforms/bad"), ex_bad_call, s).
Proof.
  cbv zeta. refine (proj2 (failing_script_is_shut_off 7 "transforms/bad" "transform" ex_bad_call Ok [] (ex_service ex_scripts)
    (ex_script KindTransform "bad" "throw") 3 _ _ _ _ _) _); [vm_compute; reflexivity|reflexivity|reflexivity|vm_compute; split; congruence| |vm_compute; congruence].
  intros i Hi. destruct i as [|[|[|i]]]; [eexists _, _, _; split; vm_compute; reflexivity..|].
  exfalso. change (Z.of_nat (Datatypes.S (Datatypes.S (Datatypes.S i))) < 3)%Z in Hi. lia.
Defined.

(** ** A directory of scripts *)

Definition ex_compile (id src : string) : res string := Ok "next".
Definition ex_glob (dir kind : string) : list string := if bool_decide (kind = KindTransform) then ["/scripts/transforms/scale.js"] else [].
Definition ex_base (path : string) : string := "scale.js".
Definition ex_read (path : string) : res string := Ok ex_source.
Definition ex_meta (raw : string) : option Meta := Some (MkMeta "1" "" ["if.*"] [] "").
Abbreviation ex_Reload := (Reload (H:=sha_id) (RO:=stored_order) ex_compile ex_glob ex_base ex_read).
Abbreviation ex_reload := (reload_registry (H0:=sha_id) (RO:=stored_order) ex_compile ex_glob ex_base ex_read (λ _, Ok "{}") ex_meta).
Definition ex_loaded : Registry string := (ex_reload (New ["/scripts"] ∅ 3)).2.

Lemma New_loaded_ok : registry_ok ex_loaded.
Proof.
  unfold ex_loaded. split; [vm_compute; congruence|]. apply map_Forall_to_list. vm_compute. repeat constructor; simpl; eauto.
Qed.
Definition ex_failure : option error := Some (EScript "transforms/scale" KindException "boom").
Definition ex_quarantined : Registry string := record_all 7 ex_loaded "transforms/scale" [ex_failure; ex_failure; ex_failure].

Lemma quarantine_after_consecutive_failures_witness :
  ∃ s', Get (record_all 7 ex_loaded "transforms/scale" [ex_failure; ex_failure; None; ex_failure]) "transforms/scale" = Some s' ∧
        sc_Status s' = StatusActive.
Proof.
  destruct (Get ex_loaded "transforms/scale") as [s|] eqn:Hs; [|vm_compute in Hs; discriminate].
  assert (sc_Status s = StatusActive ∧ sc_ConsecutiveFailures s = 0%Z) as [Ha Hcf] by (vm_compute in Hs; injection Hs as <-; split; reflexivity).
  destruct (quarantine_after_consecutive_failures 7 ex_loaded "transforms/scale" [ex_failure; ex_failure; None; ex_failure] s Hs Ha)
    as (s' & Hs' & _ & Hact); [rewrite Hcf; vm_compute; split; congruence|rewrite Hcf; vm_compute; congruence|].
  exists s'. split; [exact Hs'|]. apply Hact. rewrite Hcf. vm_compute. reflexivity.
Defined.

Lemma reload_respects_quarantine_witness :
  ∃ s', Get (ex_Reload ex_quarantined).2 "transforms/scale" = Some s' ∧ sc_Status s' ≠ StatusActive.
Proof.
  destruct (Get ex_quarantined "transforms/scale") as [old|] eqn:Ho; [|vm_compute in Ho; discriminate].
  destruct (Get (ex_Reload ex_quarantined).2 "transforms/scale") as [s'|] eqn:Hs; [|vm_compute in Hs; discriminate].
  exists s'. split; [reflexivity|].
  apply (proj1 (reload_respects_quarantine ex_compile ex_glob ex_base ex_read ex_quarantined "transforms/scale" old s' Ho Hs)).
  - vm_compute in Ho, Hs. injection Ho as <-. injection Hs as <-. reflexivity.
  - vm_compute in Ho. injection Ho as <-. reflexivity.
Defined.

Lemma failed_script_can_be_enabled_witness :
  (SetEnabled (MarkFailed ex_loaded "transforms/scale" "bad meta") "transforms/scale" true).1 = true.
Proof.
  destruct (Get ex_loaded "transforms/scale") as [s|] eqn:Hs; [|vm_compute in Hs; discriminate].
  destruct (sc_Program s) as [p|] eqn:Hp; [|vm_compute in Hs; injection Hs as <-; discriminate].
  pose proof (failed_script_can_be_enabled ex_loaded "transforms/scale" "bad meta" s p Hs Hp) as Hok.
  destruct (SetEnabled _ _ _) as [ok r']. exact (proj1 Hok).
Defined.

Lemma reload_forgets_operator_switch_witness :
  ∃ s2, Get (ex_Reload (SetEnabled ex_loaded "transforms/scale" false).2).2 "transforms/scale" = Some s2 ∧ sc_Status s2 = StatusActive.
Proof.
  destruct (Get ex_loaded "transforms/scale") as [s|] eqn:Hs; [|vm_compute in Hs; discriminate].
  apply (reload_forgets_operator_switch ex_compile ex_glob ex_base ex_read ex_loaded "transforms/scale" s Hs).
  - vm_compute in Hs. injection Hs as <-. reflexivity.
  - vm_compute in Hs. injection Hs as <-. eexists. reflexivity.
  - destruct (scan (H:=sha_id) (RO:=stored_order) ex_compile ex_glob ex_base ex_read ex_loaded !! "transforms/scale") as [s1|] eqn:Hs1;
      [|vm_compute in Hs1; discriminate].
    exists s1. split; [reflexivity|]. vm_compute in Hs1. injection Hs1 as <-. reflexivity.
Defined.

Lemma reloaded_scripts_are_described_witness : ∃ s, Get ex_loaded "transforms/scale" = Some s ∧ described s.
Proof.
  destruct (Get ex_loaded "transforms/scale") as [s|] eqn:Hs; [|vm_compute in Hs; discriminate].
  exists s. split; [reflexivity|].
  apply (reloaded_scripts_are_described (SHA:=sha_id) (RO:=stored_order) ex_compile ex_glob ex_base ex_read (λ _, Ok "{}") ex_meta (New ["/scripts"] ∅ 3) "transforms/scale" s).
  - apply New_ok.
  - exact Hs.
  - vm_compute in Hs. injection Hs as <-. reflexivity.
Defined.

Lemma ex_quarantined_ok : registry_ok ex_quarantined.
Proof. unfold ex_quarantined. cbn [record_all]. repeat (eapply registry_op_ok; [apply op_record|]). apply New_loaded_ok. Qed.

Lemma released_script_matches_everything_witness :
  (SetEnabled (ex_reload ex_quarantined).2 "transforms/scale" true).1 = true.
Proof.
  destruct (Get ex_quarantined "transforms/scale") as [old|] eqn:Ho; [|vm_compute in Ho; discriminate].
  destruct (scan (H:=sha_id) (RO:=stored_order) ex_compile ex_glob ex_base ex_read ex_quarantined !! "transforms/scale") as [s1|] eqn:Hs1;
    [|vm_compute in Hs1; discriminate].
  assert (sc_Status old = StatusQuarantined ∧ sc_Status s1 = StatusActive ∧ sc_Hash s1 = sc_Hash old) as (Hq & Ha & Hh).
  { vm_compute in Ho, Hs1. injection Ho as <-. injection Hs1 as <-. repeat split; reflexivity. }
  pose proof (released_script_matches_everything (SHA:=sha_id) (RO:=stored_order) ex_compile ex_glob ex_base ex_read (λ _, Ok "{}") ex_meta ex_quarantined "transforms/scale" old s1
                ex_quarantined_ok Ho Hq Hs1 Ha Hh) as Hok.
  destruct (SetEnabled _ _ _) as [ok r2]. exact (proj1 Hok).
Defined.

(** ** The pool on its own *)

Definition ex_job (id : string) : job (D:=Call) (A:=arg) := MkJob id "transform" [] ex_bad_call.

Lemma only_offered_scripts_run_witness :
  ∃ w' rebuilt, call ex_goja ex_marshal 100 None ex_quarantined (ex_job "transforms/scale") new_worker =
    (Err (EScript "transforms/scale" KindMissing "script is not loaded"), ex_bad_call, w', rebuilt).
Proof.
  apply (only_offered_scripts_run ex_goja ex_marshal 0 ex_quarantined new_worker 100 None (ex_job "transforms/scale")).
  - apply trace_start. vm_compute. split; congruence.
  - vm_compute. reflexivity.
  - vm_compute. intros Hin. inversion Hin.
Defined.

Lemma failures_are_attributed_witness :
  ∃ e d w s, Pool_Call ex_goja ex_marshal ex_options Taken None ex_scripts (ex_job "transforms/bad") new_worker (MkStats 0 0 0 0 0 0) = (Err e, d, w, s) ∧
    CategoryOf (Some e) = CategoryScript.
Proof.
  destruct (Pool_Call ex_goja ex_marshal ex_options Taken None ex_scripts (ex_job "transforms/bad") new_worker (MkStats 0 0 0 0 0 0))
    as [[[[out|e] d] w] s] eqn:Hp; [vm_compute in Hp; discriminate|].
  exists e, d, w, s. split; [reflexivity|]. exact (proj2 (failures_are_attributed _ _ _ _ _ _ _ _ _ _ _ _ _ Hp) eq_refl eq_refl).
Defined.

Lemma interrupted_interpreter_is_rebuilt_witness :
  ∃ e d w rebuilt, call ex_goja ex_marshal 100 None ex_scripts (ex_job "integrations/dead") new_worker = (Err e, d, w, rebuilt) ∧
    (call ex_goja ex_marshal 100 None ex_scripts (ex_job "transforms/scale") w).2 = true.
Proof.
  destruct (call ex_goja ex_marshal 100 None ex_scripts (ex_job "integrations/dead") new_worker) as [[[[out|e] d] w] b] eqn:Hc;
    [vm_compute in Hc; discriminate|].
  exists e, d, w, b. split; [reflexivity|].
  apply (proj2 (interrupted_interpreter_is_rebuilt ex_goja ex_marshal 100 None ex_scripts (ex_job "integrations/dead") new_worker _ _ _ _
                  100 None ex_scripts (ex_job "transforms/scale") Hc) e eq_refl).
  left. vm_compute in Hc. injection Hc as <- _ _ _. reflexivity.
Defined.
