(* ===== verification/Adapters.v ===== *)
(** * Package [automation/adapters]: performing catalog actions
    (src/internal/automation/adapters/adapters.go, devices.go, generic.go, snmpread.go)

    Adapters act on a world [W] (devices, network, event store). What changes it (the controller, the
    event recorder, scripts, the HTTP client) and what reads it (SNMP sessions) are parameters; the
    mock configuration that adapters keep themselves is part of their state. *)

From S2P Require Import Prelude GoLib GoFloat Domain Regexp Secrets Session ScriptApi Policy.

(** ** Shared pieces (adapters.go) *)

Definition genericActions : list string := ["send_webhook"; "create_event_record"; "invoke_extension"; "noop"].

Definition unsupported (kind : string) (a : Action) : error :=
  Errorf CategoryUnsupported (kind +:+ " adapter does not implement " +:+ ac_Type a).

(** [detail("k1", "v1", ...)]: later pairs win. *)
Definition detail (kv : list (string * string)) : smap := Some (foldl (λ m p, <[p.1 := p.2]> m) ∅ kv).

Definition statusWord (v : float64) : string :=
  let n := f_to_int v in
  if (n =? 1)%Z then "up" else if (n =? 2)%Z then "down" else if (n =? 3)%Z then "testing" else "status-" +:+ FormatInt n.

(** The answers of an adapter: a report that nothing changed, or that something did. *)
Definition told (message : string) (details : smap) : ActionResult := MkActionResult message details false.
Definition changed_to (message : string) (details : smap) : ActionResult := MkActionResult message details true.

Definition param (a : Action) (k : string) : string := mread (ac_Params a) k.

(** ** Reading devices (snmpread.go) *)

Definition oidIfName : string := "1.3.6.1.2.1.31.1.1.1.1".
Definition oidIfOper : string := "1.3.6.1.2.1.2.2.1.8".
Definition oidIfAdmin : string := "1.3.6.1.2.1.2.2.1.7".
Definition oidSysName : string := "1.3.6.1.2.1.1.5.0".
Definition oidUptime : string := "1.3.6.1.2.1.1.3.0".
Definition oidClients : string := "1.3.6.1.4.1.32473.2.1.3.0".
Definition oidCPURoot : string := "1.3.6.1.2.1.25.3.3.1.2".
Definition oidMemUsed : string := "1.3.6.1.4.1.32473.3.1.1.0".

Record InterfaceState := MkInterfaceState { if_Index : string; if_Name : string; if_Oper : string; if_Admin : string }.
#[export] Instance eta_InterfaceState : Eta InterfaceState := λ s, MkInterfaceState (if_Index s) (if_Name s) (if_Oper s) (if_Admin s).
Record HostFacts := MkHostFacts { hf_Name : string; hf_UptimeSecs : Z; hf_CPUPercent : list string; hf_MemPercent : string }.
#[export] Instance eta_HostFacts : Eta HostFacts := λ f, MkHostFacts (hf_Name f) (hf_UptimeSecs f) (hf_CPUPercent f) (hf_MemPercent f).

(** The index of the interface with the name: the last row that has it. *)
Definition interface_index (name : string) (names : list PDU) : string :=
  foldl (λ idx p, if bool_decide (pd_Kind p = KindString) && bool_decide (pd_Str p = name) then TrimPrefix (pd_OID p) (oidIfName +:+ ".") else idx) "" names.

Definition read_status (st : InterfaceState) (p : PDU) : InterfaceState :=
  if negb (bool_decide (pd_Kind p = KindNumber)) then st
  else if HasPrefix (pd_OID p) (oidIfOper +:+ ".") then st <| if_Oper := statusWord (pd_Num p) |>
  else if HasPrefix (pd_OID p) (oidIfAdmin +:+ ".") then st <| if_Admin := statusWord (pd_Num p) |>
  else st.

Definition read_fact (f : HostFacts) (p : PDU) : HostFacts :=
  if bool_decide (pd_OID p = oidSysName) then f <| hf_Name := pd_Str p |>
  else if bool_decide (pd_OID p = oidUptime) then f <| hf_UptimeSecs := f_to_int (f_div (pd_Num p) (f_of_int 100)) |>
  else if bool_decide (pd_OID p = oidMemUsed) && bool_decide (pd_Kind p = KindNumber) then f <| hf_MemPercent := FormatInt (f_to_int (pd_Num p)) |>
  else f.

Section adapters.
Context {W : Type}.

Record Reader := MkReader { sr_Dialer : Dialer W; sr_Secrets : string → res smap }.

(** A session for the device, and its deferred close around what is done with it. *)
Definition session (r : Reader) (dev : Device) : ST W error (Session W) :=
  secret ← ST_lift (sr_Secrets r (d_CredentialsRef dev));
  cred ← ST_lift (CredentialFromSecret secret);
  sr_Dialer r (d_ManagementAddress dev) cred.
Definition with_session {A} (r : Reader) (dev : Device) (body : Session W → ST W error A) : ST W error A :=
  s ← session r dev;
  λ w, let '(out, w') := body s w in (out, se_Close s w').

Definition Interface (r : Reader) (dev : Device) (name : string) : ST W error InterfaceState :=
  with_session r dev (λ s,
    names ← se_Walk s oidIfName;
    let idx := interface_index name names in
    if bool_decide (idx = "")
    then ST_fail (Errorf CategoryValidation ("device " +:+ d_ID dev +:+ " has no interface " +:+ Quote name))
    else
      pdus ← se_Get s [oidIfOper +:+ "." +:+ idx; oidIfAdmin +:+ "." +:+ idx];
      mret (foldl read_status (MkInterfaceState idx name "unknown" "unknown") pdus)).

Definition Clients (r : Reader) (dev : Device) : ST W error Z :=
  with_session r dev (λ s,
    pdus ← se_Get s [oidClients];
    let none := ST_fail (Errorf CategoryUnsupported ("device " +:+ d_ID dev +:+ " does not report a client count")) in
    match pdus with
    | [p] => if bool_decide (pd_Kind p = KindNumber) then mret (f_to_int (pd_Num p)) else none
    | _ => none
    end).

Definition Host_facts (r : Reader) (dev : Device) : ST W error HostFacts :=
  with_session r dev (λ s,
    pdus ← se_Get s [oidSysName; oidUptime; oidMemUsed];
    let f := foldl read_fact (MkHostFacts "" 0 [] "") pdus in
    cpus ← se_Walk s oidCPURoot;
    mret (f <| hf_CPUPercent := omap (λ p, if bool_decide (pd_Kind p = KindNumber) then Some (FormatInt (f_to_int (pd_Num p))) else None) cpus |>)).

(** ** Switches and routers (devices.go) *)

(** [Controller.Do]: device, event, arguments. *)
Abbreviation Controller := (string → string → smap → ST W error ()).

(** The state of an adapter beside the world: its mock configuration. *)
Abbreviation Adapter := (ST (gmap string string * W) error).
Definition outside {A} (m : ST W error A) : Adapter A := λ cw, let '(r, w) := m cw.2 in (r, (cw.1, w)).

Section devices.
Context (ctl : Controller) (reader : option Reader).

Definition interfaceState (dev : Device) (iface : string) : ST W error InterfaceState :=
  match reader with
  | None => mret (MkInterfaceState "" iface "unknown" "unknown")
  | Some r => Interface r dev iface
  end.

(** [strings.ReplaceAll(s, "_", " ")] *)
Fixpoint spaced_words (s : string) : string :=
  match s with "" => "" | String c s' => String (if bool_decide (c = "_"%char) then " "%char else c) (spaced_words s') end.

(** The live part of [mutate]; [d] are the details so far. *)
Definition mutate_live (dev : Device) (a : Action) (d : list (string * string)) : Adapter ActionResult :=
  let args : smap := Some {["interface" := ac_Target a]} in
  let completed := changed_to (ac_Type a +:+ " completed for " +:+ ac_Target a +:+ " on " +:+ d_ID dev) (detail d) in
  if bool_decide (ac_Type a = "disable_interface") then _ ← outside (ctl (d_ID dev) "interface-admin-down" args); mret completed
  else if bool_decide (ac_Type a = "enable_interface") then _ ← outside (ctl (d_ID dev) "interface-admin-up" args); mret completed
  else if bool_decide (ac_Type a = "bounce_interface") then
    _ ← outside (ctl (d_ID dev) "interface-admin-down" args);
    _ ← outside (ctl (d_ID dev) "interface-admin-up" args);
    mret completed
  else if bool_decide (ac_Type a = "set_interface_description") then λ cw,
    let key := d_ID dev +:+ "/" +:+ ac_Target a in
    (Ok (changed_to ("set description of " +:+ ac_Target a +:+ " on " +:+ d_ID dev)
           (detail (d ++ [("before_description", default "" (cw.1 !! key))]))),
     (<[key := param a "description"]> cw.1, cw.2))
  else mret completed.

Definition mutate (dev : Device) (a : Action) : Adapter ActionResult :=
  st ← outside (interfaceState dev (ac_Target a));
  let d := [("interface", ac_Target a); ("before_oper", if_Oper st); ("before_admin", if_Admin st)] in
  if ac_DryRun a
  then mret (told ("dry-run: would " +:+ spaced_words (ac_Type a) +:+ " " +:+ ac_Target a +:+ " on " +:+ d_ID dev +:+
                   " (currently oper=" +:+ if_Oper st +:+ " admin=" +:+ if_Admin st +:+ ")") (detail d))
  else mutate_live dev a d.

Definition Switch_Execute (dev : Device) (a : Action) : Adapter ActionResult :=
  if bool_decide (ac_Type a = "query_interface_state") then
    st ← outside (interfaceState dev (ac_Target a));
    mret (told (d_ID dev +:+ " " +:+ ac_Target a +:+ " is operationally " +:+ if_Oper st +:+ ", administratively " +:+ if_Admin st)
            (detail [("interface", ac_Target a); ("oper_status", if_Oper st); ("admin_status", if_Admin st); ("if_index", if_Index st); ("source", "snmp")]))
  else if bool_decide (ac_Type a = "query_vlan_state") then
    mret (told "VLAN state is not modelled by the simulator; mock response" (detail [("vlans", "1,10,20"); ("source", "mock")]))
  else if bool_decide (ac_Type a ∈ ["disable_interface"; "enable_interface"; "bounce_interface"; "set_interface_description"]) then mutate dev a
  else ST_fail (unsupported "switch" a).

(** ** Access points *)

Definition AccessPoint_Execute (dev : Device) (a : Action) : Adapter ActionResult :=
  if bool_decide (ac_Type a = "query_ap_clients") then
    match reader with
    | None => mret (told "client count unavailable without an SNMP reader" (detail [("source", "mock")]))
    | Some r =>
        n ← outside (Clients r dev);
        mret (told (d_ID dev +:+ " has " +:+ FormatInt n +:+ " associated clients") (detail [("clients", FormatInt n); ("source", "snmp")]))
    end
  else if bool_decide (ac_Type a = "query_interface_state") then
    match reader with
    | None => ST_fail (unsupported "access point (no reader)" a)
    | Some r =>
        st ← outside (Interface r dev (ac_Target a));
        mret (told (d_ID dev +:+ " " +:+ ac_Target a +:+ " is " +:+ if_Oper st)
                (detail [("oper_status", if_Oper st); ("admin_status", if_Admin st); ("source", "snmp")]))
    end
  else if bool_decide (ac_Type a = "restart_ap_service") then
    let svc := param a "service" in
    if ac_DryRun a then mret (told ("dry-run: would restart service " +:+ svc +:+ " on " +:+ d_ID dev) (detail [("service", svc)]))
    else
      _ ← outside (ctl (d_ID dev) "online" None);
      mret (changed_to ("restarted service " +:+ svc +:+ " on " +:+ d_ID dev) (detail [("service", svc)]))
  else if bool_decide (ac_Type a = "update_ap_config") then λ cw,
    let key := d_ID dev +:+ "/" +:+ param a "key" in
    let before := default "" (cw.1 !! key) in
    if ac_DryRun a
    then (Ok (told ("dry-run: would set " +:+ param a "key" +:+ "=" +:+ param a "value" +:+ " on " +:+ d_ID dev) (detail [("before", before)])), cw)
    else (Ok (changed_to ("set " +:+ param a "key" +:+ " on " +:+ d_ID dev)
                (detail [("before", before); ("after", param a "value"); ("source", "mock")])),
          (<[key := param a "value"]> cw.1, cw.2))
  else ST_fail (unsupported "access point" a).

(** ** Servers and workstations *)

Definition DefaultTasks : gmap string string :=
  list_to_map [("rotate-logs", "rotate and compress application logs"); ("clear-tmp", "remove stale files from the temporary directory");
               ("refresh-cache", "rebuild the package metadata cache")].

Definition Host_Execute (tasks : option (gmap string string)) (dev : Device) (a : Action) : Adapter ActionResult :=
  if bool_decide (ac_Type a = "restart_service") then
    let svc := param a "service" in
    if ac_DryRun a then mret (told ("dry-run: would restart service " +:+ svc +:+ " on " +:+ d_ID dev) (detail [("service", svc)]))
    else
      _ ← outside (ctl (d_ID dev) "online" None);
      mret (changed_to ("restarted service " +:+ svc +:+ " on " +:+ d_ID dev) (detail [("service", svc)]))
  else if bool_decide (ac_Type a = "collect_diagnostics") then
    match reader with
    | None => mret (told "no diagnostics available without an SNMP reader" (detail [("source", "mock")]))
    | Some r =>
        f ← outside (Host_facts r dev);
        mret (told ("collected diagnostics from " +:+ d_ID dev +:+ ": up " +:+ FormatInt (hf_UptimeSecs f) +:+ "s, cpu " +:+
                    Join (hf_CPUPercent f) "/" +:+ "%, memory " +:+ hf_MemPercent f +:+ "%")
                (detail [("hostname", hf_Name f); ("uptime_seconds", FormatInt (hf_UptimeSecs f)); ("cpu_percent", Join (hf_CPUPercent f) ",");
                         ("memory_percent", hf_MemPercent f); ("source", "snmp")]))
    end
  else if bool_decide (ac_Type a = "run_maintenance_task") then
    let tasks := default DefaultTasks tasks in
    let task := param a "task" in
    match tasks !! task with
    | None => ST_fail (Errorf CategoryUnsupported ("task " +:+ Quote task +:+ " is not a predefined maintenance task (" +:+
                        Join (sort_strings (map_to_list tasks).*1) ", " +:+ ")"))
    | Some desc =>
        if ac_DryRun a then mret (told ("dry-run: would run " +:+ task +:+ " (" +:+ desc +:+ ") on " +:+ d_ID dev) (detail [("task", task)]))
        else mret (changed_to ("ran " +:+ task +:+ " (" +:+ desc +:+ ") on " +:+ d_ID dev) (detail [("task", task); ("source", "mock")]))
    end
  else ST_fail (unsupported "host" a).
End devices.

(** ** Actions without a device class (generic.go) *)

(** The request of a webhook, and what the client says: the status code, or that it failed. *)
Record Webhook := MkWebhook { wh_URL : URL; wh_Header : gmap string string; wh_Body : string; wh_Timeout : Duration }.

Record Generic := MkGeneric {
  ge_Endpoints : gmap string Endpoint;
  ge_Secrets : option (string → res smap);
  ge_Post : Webhook → ST W error Z;
  ge_Record : option (Event → ST W error ());
  ge_Invoke : option (string → Device → Action → ST W error string);
  ge_Now : Time;
}.

Section generic.
Context {SHA : Sha256} (url_Parse : string → option URL) (marshal : gmap string string → string) (NewRequest : Webhook → option error).

Definition webhook_headers (a : Action) (token : string) : gmap string string :=
  let hdrs := <["Idempotency-Key" := ac_RequestID a]> {["Content-Type" := "application/json"]} in
  if bool_decide (token = "") then hdrs else <["Authorization" := "Bearer " +:+ token]> hdrs.

Definition webhook_answer (name : string) (status : Z) : res ActionResult :=
  if (500 <=? status)%Z then Err (Errorf CategoryTransient ("endpoint " +:+ Quote name +:+ " answered " +:+ FormatInt status))
  else if (300 <=? status)%Z then Err (Errorf CategoryPermanent ("endpoint " +:+ Quote name +:+ " answered " +:+ FormatInt status))
  else Ok (changed_to ("notified endpoint " +:+ name +:+ " (" +:+ FormatInt status +:+ ")") (detail [("endpoint", name); ("status", FormatInt status)])).

Definition webhook (g : Generic) (dev : Device) (a : Action) : ST W error ActionResult :=
  let name := param a "endpoint" in
  if ac_DryRun a then mret (told ("dry-run: would notify endpoint " +:+ name +:+ " about " +:+ d_ID dev) (detail [("endpoint", name)]))
  else
    match ge_Endpoints g !! name, ge_Secrets g with
    | Some ep, Some Resolve =>
        secret ← ST_lift (Resolve (ep_URLRef ep));
        let base := or_default (Secret_Get secret "url") (Secret_Get secret "value") in
        let misconfigured := ST_fail (Errorf CategoryPermanent ("endpoint " +:+ Quote name +:+ " is misconfigured")) in
        match url_Parse base with
        | None => misconfigured
        | Some u =>
            if negb (bool_decide (ur_Scheme u = "http" ∨ ur_Scheme u = "https")) || bool_decide (ur_Host u = "") then misconfigured
            else
              let body := marshal (list_to_map [("device", d_ID dev); ("message", param a "message"); ("request_id", ac_RequestID a); ("correlation_id", ac_CorrelationID a)]) in
              let timeout := if (ep_Timeout ep <=? 0)%Z then (2 * Second)%Z else ep_Timeout ep in
              let req := MkWebhook (u <| ur_Path := ur_Path u +:+ "/v1/automation" |>) (webhook_headers a (Secret_Get secret "token")) body timeout in
              match NewRequest req with
              | Some e => ST_fail e
              | None => λ w,
                  match ge_Post g req w with
                  | (Err _, w) => (Err (EDomain CategoryTransient "webhook" (EText ("request to endpoint " +:+ Quote name +:+ " failed"))), w)
                  | (Ok status, w) => (webhook_answer name status, w)
                  end
              end
        end
    | _, _ => ST_fail (Errorf CategoryUnsupported ("endpoint " +:+ Quote name +:+ " is not configured"))
    end.

Definition recorded_event (g : Generic) (dev : Device) (a : Action) : Event :=
  MkEvent (StableID ["evt"; "automation"; ac_RequestID a]) (ac_CorrelationID a) (d_ID dev) "automation.recorded"
    (or_default (param a "severity") SeverityInfo) (param a "message") None (ge_Now g) "" "automation" "" false.

Definition Generic_Execute (g : Generic) (dev : Device) (a : Action) : ST W error ActionResult :=
  if bool_decide (ac_Type a = "noop") then mret (told ("noop on " +:+ d_ID dev +:+ " (dry_run=" +:+ FormatBool (ac_DryRun a) +:+ ")") None)
  else if bool_decide (ac_Type a = "create_event_record") then
    if ac_DryRun a then mret (told ("dry-run: would record event: " +:+ param a "message") None)
    else
      match ge_Record g with
      | None => ST_fail (Errorf CategoryUnsupported "no event recorder configured")
      | Some Record_ =>
          let ev := recorded_event g dev a in
          _ ← Record_ ev;
          mret (changed_to ("recorded event " +:+ ev_EventID ev) (detail [("event_id", ev_EventID ev)]))
      end
  else if bool_decide (ac_Type a = "invoke_extension") then
    if ac_DryRun a then mret (told ("dry-run: would invoke extension " +:+ param a "script" +:+ " for " +:+ d_ID dev) None)
    else
      match ge_Invoke g with
      | None => ST_fail (Errorf CategoryUnsupported "extensions are not available in this process")
      | Some Invoke =>
          msg ← Invoke (param a "script") dev a;
          mret (changed_to msg (detail [("script", param a "script")]))
      end
  else if bool_decide (ac_Type a = "send_webhook") then webhook g dev a
  else ST_fail (unsupported "generic" a).

(** ** The adapter set *)

(** The adapters [NewSet] makes, each with its own mock configuration where it has one. *)
Inductive adapter := TheSwitch | TheRouter | TheAccessPoint | TheServer | TheWorkstation | TheGeneric.

Record Set_ := MkSet { se_ByType : gmap DeviceType adapter; se_Generic : option adapter }.

Definition For (s : Set_) (dev : Device) (action : string) : res adapter :=
  if bool_decide (action ∈ genericActions) then
    match se_Generic s with
    | None => Err (Errorf CategoryUnsupported "no generic adapter configured")
    | Some g => Ok g
    end
  else
    match se_ByType s !! d_DeviceType dev with
    | Some a => Ok a
    | None => Err (Errorf CategoryUnsupported ("no adapter for " +:+ d_DeviceType dev +:+ " devices"))
    end.

Definition NewSet : Set_ :=
  MkSet (list_to_map [(DeviceSwitch, TheSwitch); (DeviceRouter, TheRouter); (DeviceAccessPoint, TheAccessPoint);
                      (DeviceServer, TheServer); (DeviceWorkstation, TheWorkstation)]) (Some TheGeneric).

(** The state of all adapters and the world they share. *)
Record Plant := MkPlant { pt_switch : gmap string string; pt_router : gmap string string; pt_ap : gmap string string; pt_world : W }.

Context (ctl : Controller) (reader : option Reader) (g : Generic).

Definition on_config {A} (cfg : Plant → gmap string string) (put : gmap string string → Plant → Plant) (m : Adapter A) : ST Plant error A := λ p,
  let '(r, (c, w)) := m (cfg p, pt_world p) in
  (r, put c (MkPlant (pt_switch p) (pt_router p) (pt_ap p) w)).
Definition no_config {A} (m : Adapter A) : ST Plant error A := on_config (λ _, ∅) (λ _ p, p) m.

Definition adapter_Execute (ad : adapter) (dev : Device) (a : Action) : ST Plant error ActionResult :=
  match ad with
  | TheSwitch => on_config pt_switch (λ c p, MkPlant c (pt_router p) (pt_ap p) (pt_world p)) (Switch_Execute ctl reader dev a)
  | TheRouter => on_config pt_router (λ c p, MkPlant (pt_switch p) c (pt_ap p) (pt_world p)) (Switch_Execute ctl reader dev a)
  | TheAccessPoint => on_config pt_ap (λ c p, MkPlant (pt_switch p) (pt_router p) c (pt_world p)) (AccessPoint_Execute ctl reader dev a)
  | TheServer | TheWorkstation => no_config (Host_Execute ctl reader None dev a)
  | TheGeneric => no_config (outside (Generic_Execute g dev a))
  end.

(** What the engine does: choose the adapter and let it execute. *)
Definition perform (dev : Device) (a : Action) : ST Plant error ActionResult :=
  match For NewSet dev (ac_Type a) with
  | Err e => ST_fail e
  | Ok ad => adapter_Execute ad dev a
  end.
End generic.
End adapters.
Arguments Reader : clear implicits.
Arguments Generic : clear implicits.
Arguments Plant : clear implicits.
