(* ===== verification/AdaptersThms.v ===== *)
(** * Theorems of the adapters: dry runs only read, and which commands reach a device *)

From S2P Require Import Prelude GoLib GoFloat Domain Regexp State Schema Inventory Store MemStore AutoStore Secrets Session ScriptApi Policy PolicyFacts StateFacts Engine EngineFacts EngineThms Adapters.

(** Actions that change nothing even when they are live. *)
Definition read_only : list string := ["query_interface_state"; "query_vlan_state"; "query_ap_clients"; "collect_diagnostics"; "noop"].

(** ** Commands *)

(** A command of a controller: device, event, arguments. *)
Abbreviation command := (string * string * smap)%type.

(** The commands an action stands for. *)
Definition expected_commands (dev : Device) (a : Action) : list command :=
  let port event : command := (d_ID dev, event, Some {["interface" := ac_Target a]}) in
  if ac_DryRun a then []
  else if bool_decide (ac_Type a = "disable_interface") then [port "interface-admin-down"]
  else if bool_decide (ac_Type a = "enable_interface") then [port "interface-admin-up"]
  else if bool_decide (ac_Type a = "bounce_interface") then [port "interface-admin-down"; port "interface-admin-up"]
  else if bool_decide (ac_Type a = "restart_ap_service" ∨ ac_Type a = "restart_service") then [(d_ID dev, "online", None)]
  else [].

(** A computation on states with a trace of commands issues the commands [l], all of them if it succeeds
    and otherwise the first ones. *)
Section emits.
Context {S : Type} (trace : S → list command).

Definition emits {A} (l : list command) (m : ST S error A) : Prop := ∀ s,
  let '(r, s') := m s in
  ∃ issued rest, l = issued ++ rest ∧ trace s' = trace s ++ issued ∧ (is_ok r = true → rest = []).

Lemma emits_ret {A} (a : A) : emits [] (mret a).
Proof. intros s. exists [], []. split; [done|]. by rewrite app_nil_r. Qed.
Lemma emits_fail {A} l (e : error) : emits l (ST_fail (A:=A) e).
Proof. intros s. exists [], l. split; [done|]. by rewrite app_nil_r. Qed.
Lemma emits_lift {A} (r : res A) : emits [] (ST_lift r).
Proof. intros s. exists [], []. split; [done|]. by rewrite app_nil_r. Qed.
Lemma emits_bind {A B} l1 l2 (m : ST S error A) (f : A → ST S error B) :
  emits l1 m → (∀ a, emits l2 (f a)) → emits (l1 ++ l2) (m ≫= f).
Proof.
  intros Hm Hf s. specialize (Hm s). unfold mbind, ST_bind. destruct (m s) as [[a|e] s1].
  - destruct Hm as (i1 & r1 & -> & Ht1 & Hr1). rewrite (Hr1 eq_refl), app_nil_r. specialize (Hf a s1). destruct (f a s1) as [r s2].
    destruct Hf as (i2 & r2 & -> & Ht2 & Hr2). exists (i1 ++ i2), r2. split; [by rewrite (assoc_L (++))|].
    split; [|done]. by rewrite Ht2, Ht1, (assoc_L (++)).
  - destruct Hm as (i1 & r1 & -> & Ht1 & _). exists i1, (r1 ++ l2). split; [by rewrite (assoc_L (++))|done].
Qed.
Lemma emits_nil_bind {A B} l (m : ST S error A) (f : A → ST S error B) : emits [] m → (∀ a, emits l (f a)) → emits l (m ≫= f).
Proof. apply (emits_bind []). Qed.
Lemma emits_silent {A} (m : ST S error A) : (∀ s, trace (m s).2 = trace s) → emits [] m.
Proof. intros Hm s. specialize (Hm s). destruct (m s) as [r s']. exists [], []. split; [done|]. by rewrite app_nil_r. Qed.
Lemma silent_emits {A} (m : ST S error A) s : emits [] m → trace (m s).2 = trace s.
Proof.
  intros Hm. specialize (Hm s). destruct (m s) as [r s']. destruct Hm as (i & rest & Hl & Ht & _).
  symmetry in Hl. apply app_eq_nil in Hl as [-> _]. by rewrite app_nil_r in Ht.
Qed.
End emits.
Create HintDb emits.
#[export] Hint Resolve emits_ret emits_fail emits_lift : emits.

Section plant.
Context {W : Type} {SHA : Sha256} (url_Parse : string → option URL) (marshal : gmap string string → string) (NewRequest : Webhook → option error).

(** ** Dry runs *)

(** Two computations agree and, when they succeed, report no change and keep the configuration. *)
Definition only_reads {S} (config : S → gmap string string) (m1 m2 : ST S error ActionResult) : Prop := ∀ s,
  m1 s = m2 s ∧ config (m1 s).2 = config s ∧ ∀ r, (m1 s).1 = Ok r → ar_Changed r = false.

Lemma only_reads_told {S} (config : S → gmap string string) text d : only_reads config (mret (told text d)) (mret (told text d)).
Proof. intros s. split; [done|]. split; [done|]. by intros r [= <-]. Qed.
Lemma only_reads_fail {S} (config : S → gmap string string) e : only_reads config (ST_fail e) (ST_fail e).
Proof. by intros s. Qed.
Lemma only_reads_outside {A} (m : ST W error A) (f1 f2 : A → ST (gmap string string * W) error ActionResult) :
  (∀ a, only_reads fst (f1 a) (f2 a)) → only_reads fst (outside m ≫= f1) (outside m ≫= f2).
Proof.
  intros Hf [c w]. unfold mbind, ST_bind, outside. simpl. destruct (m w) as [[a|e] w']; [apply (Hf a (c, w'))|done].
Qed.
#[local] Hint Resolve only_reads_told only_reads_fail only_reads_outside : core.

Lemma Switch_only_reads ctl1 ctl2 reader dev a :
  ac_DryRun a = true ∨ ac_Type a ∈ read_only → only_reads fst (Switch_Execute (W:=W) ctl1 reader dev a) (Switch_Execute ctl2 reader dev a).
Proof.
  intros Ha. unfold Switch_Execute. case_bool_decide; [by auto|]. case_bool_decide; [by auto|]. case_bool_decide as Hm; [|by auto].
  unfold mutate. apply only_reads_outside. intros st. destruct (ac_DryRun a); [by auto|]. exfalso. destruct Ha as [?|Ha]; [done|].
  revert Hm Ha. unfold read_only. rewrite !elem_of_cons, !elem_of_nil. naive_solver congruence.
Qed.

Lemma AccessPoint_only_reads ctl1 ctl2 reader dev a :
  ac_DryRun a = true ∨ ac_Type a ∈ read_only → only_reads fst (AccessPoint_Execute (W:=W) ctl1 reader dev a) (AccessPoint_Execute ctl2 reader dev a).
Proof.
  intros Ha. unfold AccessPoint_Execute. cbv zeta. case_bool_decide; [destruct reader; by auto|]. case_bool_decide; [destruct reader; by auto|].
  assert (∀ t, ac_Type a = t → t ∉ read_only → ac_DryRun a = true) as Hdry by (intros t <- ?; naive_solver).
  case_bool_decide as Ht; [rewrite (Hdry _ Ht) by (apply (bool_decide_unpack _); exact I); by auto|].
  case_bool_decide as Ht'; [|by auto]. rewrite (Hdry _ Ht') by (apply (bool_decide_unpack _); exact I). intros cw. by split; [|split; [|intros r [= <-]]].
Qed.

Lemma Host_only_reads ctl1 ctl2 reader tasks dev a :
  ac_DryRun a = true ∨ ac_Type a ∈ read_only → only_reads fst (Host_Execute (W:=W) ctl1 reader tasks dev a) (Host_Execute ctl2 reader tasks dev a).
Proof.
  intros Ha. unfold Host_Execute. cbv zeta. assert (∀ t, ac_Type a = t → t ∉ read_only → ac_DryRun a = true) as Hdry by (intros t <- ?; naive_solver).
  case_bool_decide as Ht; [rewrite (Hdry _ Ht) by (apply (bool_decide_unpack _); exact I); by auto|]. case_bool_decide; [destruct reader; by auto|].
  case_bool_decide as Ht'; [|by auto]. destruct (default DefaultTasks tasks !! _); [|by auto]. rewrite (Hdry _ Ht') by (apply (bool_decide_unpack _); exact I). by auto.
Qed.

Lemma Generic_only_reads (g1 g2 : Generic W) dev a :
  ac_DryRun a = true ∨ ac_Type a ∈ read_only →
  only_reads (λ _, ∅) (Generic_Execute url_Parse marshal NewRequest g1 dev a) (Generic_Execute url_Parse marshal NewRequest g2 dev a).
Proof.
  intros Ha. unfold Generic_Execute, webhook. cbv zeta. assert (∀ t, ac_Type a = t → t ∉ read_only → ac_DryRun a = true) as Hdry by (intros t <- ?; naive_solver).
  repeat (case_bool_decide as Ht;
    [apply only_reads_told || (rewrite (Hdry _ Ht) by (apply (bool_decide_unpack _); exact I); apply only_reads_told)|clear Ht]).
  apply only_reads_fail.
Qed.

(** The configuration an adapter keeps. *)
Definition pt_config (p : Plant W) : gmap string string * gmap string string * gmap string string := (pt_switch p, pt_router p, pt_ap p).

(** A dry run is a hard instruction: on every adapter an action that is marked as a dry run, or that is
    one of the queries, does not involve the controller, the event recorder, the extensions or the
    HTTP client at all (its outcome is the same whatever they would do), leaves the mock
    configuration alone, and never reports a change. *)
Theorem dry_run_only_reads ctl1 ctl2 reader (g1 g2 : Generic W) dev a p :
  ac_DryRun a = true ∨ ac_Type a ∈ read_only →
  let '(r, p') := perform url_Parse marshal NewRequest ctl1 reader g1 dev a p in
  perform url_Parse marshal NewRequest ctl2 reader g2 dev a p = (r, p') ∧ pt_config p' = pt_config p ∧ ∀ res, r = Ok res → ar_Changed res = false.
Proof.
  intros Ha. unfold perform. destruct (For NewSet dev _) as [ad|e]; [|done]. unfold adapter_Execute, no_config, on_config, pt_config.
  destruct ad; simpl.
  - destruct (Switch_only_reads ctl1 ctl2 reader dev a Ha (pt_switch p, pt_world p)) as (<- & Hc & Hr).
    destruct (Switch_Execute ctl1 reader dev a _) as [r [c w]]; simpl in *; by subst c.
  - destruct (Switch_only_reads ctl1 ctl2 reader dev a Ha (pt_router p, pt_world p)) as (<- & Hc & Hr).
    destruct (Switch_Execute ctl1 reader dev a _) as [r [c w]]; simpl in *; by subst c.
  - destruct (AccessPoint_only_reads ctl1 ctl2 reader dev a Ha (pt_ap p, pt_world p)) as (<- & Hc & Hr).
    destruct (AccessPoint_Execute ctl1 reader dev a _) as [r [c w]]; simpl in *; by subst c.
  - destruct (Host_only_reads ctl1 ctl2 reader None dev a Ha (∅, pt_world p)) as (<- & Hc & Hr).
    destruct (Host_Execute ctl1 reader None dev a _) as [r [c w]]; by simpl in *.
  - destruct (Host_only_reads ctl1 ctl2 reader None dev a Ha (∅, pt_world p)) as (<- & Hc & Hr).
    destruct (Host_Execute ctl1 reader None dev a _) as [r [c w]]; by simpl in *.
  - unfold outside. simpl. destruct (Generic_only_reads g1 g2 dev a Ha (pt_world p)) as (<- & Hc & Hr).
    destruct (Generic_Execute _ _ _ g1 dev a _) as [r w]; by simpl in *.
Qed.

(** ** Commands of the adapters *)

Section traced.
Context (trace : W → list command) (ctl : string → string → smap → ST W error ()) (reader : option (Reader W)) (g : Generic W).

(** The controller records its commands; nothing else issues any. *)
Record traced : Prop := {
  tr_ctl dev ev args w : trace (ctl dev ev args w).2 = trace w ++ [(dev, ev, args)];
  tr_dial r addr cred w : reader = Some r → trace (sr_Dialer r addr cred w).2 = trace w;
  tr_session r addr cred w s w' : reader = Some r → sr_Dialer r addr cred w = (Ok s, w') →
    (∀ oids v, trace (se_Get s oids v).2 = trace v) ∧ (∀ oid v, trace (se_Walk s oid v).2 = trace v) ∧ (∀ v, trace (se_Close s v) = trace v);
  tr_post req w : trace (ge_Post g req w).2 = trace w;
  tr_record f ev w : ge_Record g = Some f → trace (f ev w).2 = trace w;
  tr_invoke f name dev a w : ge_Invoke g = Some f → trace (f name dev a w).2 = trace w;
}.
Context (Htr : traced).
#[local] Set Default Proof Using "Type Htr".

(** The traces of the states adapters run on. *)
Abbreviation trace2 := (λ cw : gmap string string * W, trace cw.2).
Abbreviation traceP := (λ p : Plant W, trace (pt_world p)).

Lemma emits_outside {A} l (m : ST W error A) : emits trace l m → emits trace2 l (outside m).
Proof. intros Hm [c w]. specialize (Hm w). unfold outside. simpl. by destruct (m w) as [r w']. Qed.

Lemma emits_ctl dev ev args : emits trace [(dev, ev, args)] (ctl dev ev args).
Proof.
  intros w. pose proof (tr_ctl Htr dev ev args w) as Ht. destruct (ctl dev ev args w) as [r w']. exists [(dev, ev, args)], []. done.
Qed.

Lemma silent_with_session {A} r dev (body : Session W → ST W error A) :
  reader = Some r → (∀ s, (∀ oids v, trace (se_Get s oids v).2 = trace v) → (∀ oid v, trace (se_Walk s oid v).2 = trace v) → emits trace [] (body s)) →
  emits trace [] (with_session r dev body).
Proof.
  intros Hr Hbody. apply emits_silent. intros w. unfold with_session, session, mbind, ST_bind, ST_lift.
  destruct (sr_Secrets r _) as [secret|e]; [|done]. destruct (CredentialFromSecret secret) as [cred|e]; [|done].
  pose proof (tr_dial Htr r (d_ManagementAddress dev) cred w Hr) as Hd. pose proof (tr_session Htr r (d_ManagementAddress dev) cred w) as Hs.
  destruct (sr_Dialer r _ cred w) as [[s|e] w1]; [|done]. destruct (Hs s w1 Hr eq_refl) as (Hget & Hwalk & Hclose).
  pose proof (silent_emits trace (body s) w1 (Hbody s Hget Hwalk)) as Hb. destruct (body s w1) as [out w2]. simpl in *. by rewrite Hclose, Hb.
Qed.

Lemma silent_Interface r dev name : reader = Some r → emits trace [] (Interface r dev name).
Proof.
  intros Hr. apply silent_with_session; [done|]. intros s Hget Hwalk. apply emits_nil_bind; [by apply emits_silent|]. intros names.
  cbv zeta. case_bool_decide; [apply emits_fail|]. apply emits_nil_bind; [by apply emits_silent|]. intros pdus. apply emits_ret.
Qed.
Lemma silent_Clients r dev : reader = Some r → emits trace [] (Clients r dev).
Proof.
  intros Hr. apply silent_with_session; [done|]. intros s Hget Hwalk. apply emits_nil_bind; [by apply emits_silent|]. intros [|q [|]]; cbv zeta;
    [apply emits_fail| |apply emits_fail]. case_bool_decide; [apply emits_ret|apply emits_fail].
Qed.
Lemma silent_Host_facts r dev : reader = Some r → emits trace [] (Host_facts r dev).
Proof.
  intros Hr. apply silent_with_session; [done|]. intros s Hget Hwalk. apply emits_nil_bind; [by apply emits_silent|]. intros pdus. cbv zeta.
  apply emits_nil_bind; [by apply emits_silent|]. intros cpus. apply emits_ret.
Qed.
Lemma silent_interfaceState dev iface : emits trace [] (interfaceState reader dev iface).
Proof. unfold interfaceState. destruct reader eqn:Hr; [apply silent_Interface; congruence|apply emits_ret]. Qed.

Lemma mutate_emits dev a :
  ac_Type a ∈ ["disable_interface"; "enable_interface"; "bounce_interface"; "set_interface_description"] →
  emits trace2 (expected_commands dev a) (mutate ctl reader dev a).
Proof.
  intros Hin. unfold mutate. apply emits_nil_bind; [apply emits_outside, silent_interfaceState|]. intros st. cbv zeta.
  unfold mutate_live, expected_commands. destruct (ac_DryRun a); [apply emits_ret|]. cbv zeta.
  case_bool_decide; [apply (emits_bind trace2 [_] []); [apply emits_outside, emits_ctl|intros; apply emits_ret]|].
  case_bool_decide; [apply (emits_bind trace2 [_] []); [apply emits_outside, emits_ctl|intros; apply emits_ret]|].
  case_bool_decide.
  { apply (emits_bind trace2 [_] [_]); [apply emits_outside, emits_ctl|intros _].
    apply (emits_bind trace2 [_] []); [apply emits_outside, emits_ctl|intros; apply emits_ret]. }
  rewrite bool_decide_eq_false_2 by (intros [Ht|Ht]; rewrite Ht in Hin; by apply (bool_decide_unpack _) in Hin || (revert Hin; apply (bool_decide_unpack _); exact I)).
  case_bool_decide; [|apply emits_ret]. intros [c w]. exists [], []. split; [done|]. by rewrite app_nil_r.
Qed.

Lemma Switch_emits dev a : emits trace2 (expected_commands dev a) (Switch_Execute ctl reader dev a).
Proof.
  unfold Switch_Execute. case_bool_decide as Ht.
  { assert (expected_commands dev a = []) as -> by (unfold expected_commands; rewrite Ht; by destruct (ac_DryRun a)).
    apply emits_nil_bind; [apply emits_outside, silent_interfaceState|intros; apply emits_ret]. }
  case_bool_decide as Ht'.
  { assert (expected_commands dev a = []) as -> by (unfold expected_commands; rewrite Ht'; by destruct (ac_DryRun a)). apply emits_ret. }
  case_bool_decide; [by apply mutate_emits|apply emits_fail].
Qed.

Lemma restart_emits dev a text1 text2 d :
  ac_Type a = "restart_ap_service" ∨ ac_Type a = "restart_service" →
  emits trace2 (expected_commands dev a)
    (if ac_DryRun a then mret (told text1 d) else _ ← outside (ctl (d_ID dev) "online" None); mret (changed_to text2 d)).
Proof.
  intros Ht. assert (expected_commands dev a = if ac_DryRun a then [] else [(d_ID dev, "online", None)]) as ->.
  { unfold expected_commands. destruct Ht as [-> | ->]; by destruct (ac_DryRun a). }
  destruct (ac_DryRun a); [apply emits_ret|]. apply (emits_bind trace2 [_] []); [apply emits_outside, emits_ctl|intros; apply emits_ret].
Qed.

Lemma AccessPoint_emits dev a : emits trace2 (expected_commands dev a) (AccessPoint_Execute ctl reader dev a).
Proof.
  unfold AccessPoint_Execute. case_bool_decide as Ht.
  { assert (expected_commands dev a = []) as -> by (unfold expected_commands; rewrite Ht; by destruct (ac_DryRun a)).
    destruct reader as [r|] eqn:Hr; [|apply emits_ret].
    apply emits_nil_bind; [apply emits_outside, silent_Clients; congruence|intros; apply emits_ret]. }
  clear Ht. case_bool_decide as Ht.
  { assert (expected_commands dev a = []) as -> by (unfold expected_commands; rewrite Ht; by destruct (ac_DryRun a)).
    destruct reader as [r|] eqn:Hr; [|apply emits_fail].
    apply emits_nil_bind; [apply emits_outside, silent_Interface; congruence|intros; apply emits_ret]. }
  clear Ht. case_bool_decide; [apply restart_emits; by left|]. case_bool_decide as Ht; [|apply emits_fail].
  assert (expected_commands dev a = []) as -> by (unfold expected_commands; rewrite Ht; by destruct (ac_DryRun a)).
  apply emits_silent. intros [c w]. by destruct (ac_DryRun a).
Qed.

Lemma Host_emits tasks dev a : emits trace2 (expected_commands dev a) (Host_Execute ctl reader tasks dev a).
Proof.
  unfold Host_Execute. case_bool_decide; [apply restart_emits; by right|]. case_bool_decide as Ht.
  { assert (expected_commands dev a = []) as -> by (unfold expected_commands; rewrite Ht; by destruct (ac_DryRun a)).
    destruct reader as [r|] eqn:Hr; [|apply emits_ret].
    apply emits_nil_bind; [apply emits_outside, silent_Host_facts; congruence|intros; apply emits_ret]. }
  clear Ht. case_bool_decide as Ht; [|apply emits_fail].
  assert (expected_commands dev a = []) as -> by (unfold expected_commands; rewrite Ht; by destruct (ac_DryRun a)).
  cbv zeta. destruct (default DefaultTasks tasks !! _); [|apply emits_fail]. destruct (ac_DryRun a); apply emits_ret.
Qed.

Lemma webhook_silent dev a w : trace (webhook url_Parse marshal NewRequest g dev a w).2 = trace w.
Proof.
  unfold webhook, mbind, ST_bind, ST_lift. cbv zeta. destruct (ac_DryRun a); [done|].
  destruct (ge_Endpoints g !! _) as [ep|]; [|done]. destruct (ge_Secrets g) as [Resolve|]; [|done].
  destruct (Resolve _) as [secret|e]; [|done]. destruct (url_Parse _) as [u|]; [|done]. destruct (_ || _); [done|].
  set (req := MkWebhook _ _ _ _). destruct (NewRequest req); [done|]. pose proof (tr_post Htr req w) as Hp.
  by destruct (ge_Post g req w) as [[status|e] w'].
Qed.

Lemma Generic_silent dev a : emits trace [] (Generic_Execute url_Parse marshal NewRequest g dev a).
Proof.
  unfold Generic_Execute. case_bool_decide; [apply emits_ret|]. case_bool_decide.
  { destruct (ac_DryRun a); [apply emits_ret|]. destruct (ge_Record g) as [f|] eqn:Hf; [|apply emits_fail].
    apply emits_nil_bind; [|intros; apply emits_ret]. apply emits_silent. intros w. by apply (tr_record Htr). }
  case_bool_decide.
  { destruct (ac_DryRun a); [apply emits_ret|]. destruct (ge_Invoke g) as [f|] eqn:Hf; [|apply emits_fail].
    apply emits_nil_bind; [|intros; apply emits_ret]. apply emits_silent. intros w. by apply (tr_invoke Htr). }
  case_bool_decide; [|apply emits_fail]. apply emits_silent. intros w. apply webhook_silent.
Qed.

Lemma emits_on_config {A} l cfg put (m : ST (gmap string string * W) error A) :
  (∀ c p, pt_world (put c p) = pt_world p) → emits trace2 l m → emits traceP l (on_config cfg put m).
Proof.
  intros Hput Hm p. unfold on_config. specialize (Hm (cfg p, pt_world p)). destruct (m (cfg p, pt_world p)) as [r [c w]]. by rewrite Hput.
Qed.

(** The commands an action issues are those it stands for, in order, and all of them when it succeeds. *)
Lemma perform_emits dev a : emits traceP (expected_commands dev a) (perform url_Parse marshal NewRequest ctl reader g dev a).
Proof.
  unfold perform. destruct (For NewSet dev (ac_Type a)) as [ad|e] eqn:Hfor; [|apply emits_fail].
  destruct ad; simpl; try (apply emits_on_config; [done|by auto using Switch_emits, AccessPoint_emits, Host_emits]).
  assert (expected_commands dev a = []) as ->.
  { unfold For in Hfor. case_bool_decide as Hin; [|simpl in Hfor; destruct (_ !! _) as [x|] eqn:Hx; [|done]; exfalso; injection Hfor as ->;
      clear -Hx; rewrite !lookup_insert_Some, lookup_empty in Hx; naive_solver].
    revert Hin. unfold genericActions. rewrite !elem_of_cons, elem_of_nil. unfold expected_commands.
    intros [-> | [-> | [-> | [-> | []]]]]; by destruct (ac_DryRun a). }
  apply emits_on_config; [done|]. apply emits_outside, Generic_silent.
Qed.

(** An adapter issues exactly the commands its action stands for: in order, to the device of the
    action only, all of them when it reports success and the first ones when it fails (a bounce whose
    second command fails leaves the port down), none when it is a dry run or has no adapter; and
    it reports success of a live command action only after its commands were accepted. *)
Theorem adapters_issue_expected_commands dev a p :
  let '(r, p') := perform url_Parse marshal NewRequest ctl reader g dev a p in
  ∃ issued rest, expected_commands dev a = issued ++ rest ∧ trace (pt_world p') = trace (pt_world p) ++ issued ∧
    (is_ok r = true → rest = []) ∧ Forall (λ c, c.1.1 = d_ID dev) issued.
Proof.
  pose proof (perform_emits dev a p) as Hp. destruct (perform _ _ _ _ _ _ dev a p) as [r p'].
  destruct Hp as (issued & rest & Hl & Ht & Hr). exists issued, rest. split; [done|]. split; [done|]. split; [done|].
  assert (Forall (λ c, c.1.1 = d_ID dev) (issued ++ rest)) as Hall; [|by apply Forall_app in Hall as [? _]].
  rewrite <-Hl. unfold expected_commands. cbv zeta. destruct (ac_DryRun a); [constructor|]. repeat (case_bool_decide; [repeat constructor|]). constructor.
Qed.

(** ** The engine with these adapters *)

Definition answer (r : res ActionResult) : ActionResult * option error :=
  match r with Ok x => (x, None) | Err e => (MkActionResult "" None false, Some e) end.

(** The plant after a series of executions, and the engine whose adapters act on it. *)
Definition replay (p0 : Plant W) (calls : list (Device * Action)) : Plant W :=
  foldl (λ p c, (perform url_Parse marshal NewRequest ctl reader g c.1 c.2 p).2) p0 calls.
Definition with_adapters (p0 : Plant W) (e : Engine) : Engine :=
  MkEngine (e_Policies e) (e_Devices e) (λ dev action, match For NewSet dev action with Ok _ => None | Err x => Some x end)
    (λ calls dev a, answer (perform url_Parse marshal NewRequest ctl reader g dev a (replay p0 calls)).1)
    (e_Proposer e) (e_GlobalDryRun e) (e_Lease e) (e_BatchSize e) (e_now e).

(** Every action that stands for commands is disruptive in the catalog. *)
Lemma commands_are_disruptive dev a spec : expected_commands dev a ≠ [] → Catalog !! ac_Type a = Some spec → ac_DryRun a = false ∧ as_Disruptive spec = true.
Proof.
  unfold expected_commands. cbv zeta. destruct (ac_DryRun a); [done|]. intros Hne Hs. split; [done|]. revert Hne.
  assert (∀ name, ac_Type a = name → as_Disruptive <$> Catalog !! name = Some true → as_Disruptive spec = true) as Hname.
  { intros name Heq Hd. rewrite <-Heq, Hs in Hd. by injection Hd. }
  case_bool_decide as Ht; [intros _; by apply (Hname _ Ht)|]. clear Ht. case_bool_decide as Ht; [intros _; by apply (Hname _ Ht)|]. clear Ht.
  case_bool_decide as Ht; [intros _; by apply (Hname _ Ht)|]. clear Ht. case_bool_decide as Ht; [intros _|done].
  destruct Ht as [Ht|Ht]; by apply (Hname _ Ht).
Qed.

Section engine.
Context `{TZ : TimeZones} `{JQ : Json AutomationRequest} `{JR : Json AutomationResult}.

(** The commands a series of executions issues. *)
Lemma replay_commands p0 (ok : Device → Action → Prop) (calls : list (Device * Action)) :
  Forall (λ c, ok c.1 c.2) calls →
  ∃ issued, trace (pt_world (replay p0 calls)) = trace (pt_world p0) ++ issued ∧
    Forall (λ c, ∃ dev a, ok dev a ∧ c ∈ expected_commands dev a) issued.
Proof.
  intros Hok. induction calls as [|[dev a] calls IH] using rev_ind; [exists []; split; [by rewrite app_nil_r|constructor]|].
  apply Forall_app in Hok as [Hcalls Hlast]. apply Forall_cons_1 in Hlast as [Hlast _]. destruct (IH Hcalls) as (issued & Ht & Hall).
  change (replay p0 (calls ++ [(dev, a)])) with (foldl (λ p c, (perform url_Parse marshal NewRequest ctl reader g c.1 c.2 p).2) p0 (calls ++ [(dev, a)])).
  rewrite foldl_app. change (foldl _ p0 calls) with (replay p0 calls). cbn [foldl fst snd].
  pose proof (perform_emits dev a (replay p0 calls)) as Hp. destruct (perform _ _ _ _ _ _ dev a (replay p0 calls)) as [r p'].
  destruct Hp as (new & rest & Hl & Hn & _). exists (issued ++ new). cbn [snd]. split; [rewrite Hn, Ht; by rewrite (assoc_L (++))|].
  apply Forall_app. split; [done|]. apply Forall_forall. intros c Hc. exists dev, a. split; [exact Hlast|]. rewrite Hl. apply elem_of_app. by left.
Qed.

End engine.
End traced.
End plant.

(** ** The catalog and the adapters *)

(** A plant on which every effect is refused. *)
Definition refused {A} : ST () error A := ST_fail (EText "refused").
Definition probe_reader : Reader () := MkReader (λ _ _, refused) (λ _, Err (EText "refused")).
Definition probe_generic : Generic () := MkGeneric ∅ None (λ _, refused) (Some (λ _, refused)) (Some (λ _ _ _, refused)) 0.
Definition probe {SHA : Sha256} (ad : adapter) (dev : Device) (a : Action) : res ActionResult :=
  (adapter_Execute (λ _, None) (λ _, "") (λ _, None) (λ _ _ _, refused) (Some probe_reader) probe_generic ad dev a (MkPlant ∅ ∅ ∅ ())).1.

Definition not_implemented (a : Action) : list error :=
  (λ kind, unsupported kind a) <$> ["switch"; "access point"; "access point (no reader)"; "host"; "generic"].


(** On the actions of the catalog, the only answers of the adapters here besides success. *)
Definition probe_error (e : error) : Prop :=
  e = EText "refused" ∨ ∃ text, e = Errorf CategoryUnsupported ("task " +:+ text) ∨ e = Errorf CategoryUnsupported ("endpoint " +:+ text).

Lemma probe_error_implemented a e : probe_error e → e ∉ not_implemented a.
Proof.
  unfold not_implemented. intros He. rewrite list_elem_of_fmap. intros (kind & -> & Hin). destruct He as [He|(text & [He|He])]; [done|..];
    rewrite !elem_of_cons, elem_of_nil in Hin; destruct_or! Hin; subst kind; done.
Qed.

Lemma probe_outside {A B} (f : A → ST (gmap string string * ()) error B) c : (outside refused ≫= f) (c, ()) = (Err (EText "refused"), (c, ())).
Proof. done. Qed.
Lemma probe_Interface dev name : Interface probe_reader dev name = refused.
Proof. done. Qed.

Section probes.
Context {SHA : Sha256} (dev : Device) (a : Action).

Lemma probe_switch ad e :
  ad = TheSwitch ∨ ad = TheRouter →
  ac_Type a ∈ ["query_interface_state"; "query_vlan_state"; "disable_interface"; "enable_interface"; "bounce_interface"; "set_interface_description"] →
  probe ad dev a = Err e → probe_error e.
Proof.
  intros Had Hin. assert (∀ c : gmap string string, (Switch_Execute (λ _ _ _, refused) (Some probe_reader) dev a (c, ())).1 = Err e → probe_error e) as Hsw.
  { intros c. unfold Switch_Execute, interfaceState, mutate. rewrite probe_Interface. case_bool_decide as H1; [intros [= <-]; by left|].
    case_bool_decide as H2; [done|]. case_bool_decide as H3; [cbn [interfaceState]; rewrite probe_Interface; intros [= <-]; by left|].
    exfalso. apply H3. revert Hin. rewrite !elem_of_cons. naive_solver. }
  unfold probe, adapter_Execute, on_config. destruct Had as [-> | ->]; simpl; (pose proof (Hsw ∅) as Hs;
    destruct (Switch_Execute _ _ dev a (∅, ())) as [r [c w]]; exact Hs).
Qed.

Lemma probe_ap e :
  ac_Type a ∈ ["query_ap_clients"; "query_interface_state"; "restart_ap_service"; "update_ap_config"] →
  probe TheAccessPoint dev a = Err e → probe_error e.
Proof.
  intros Hin. unfold probe, adapter_Execute, on_config. simpl.
  assert ((AccessPoint_Execute (λ _ _ _, refused) (Some probe_reader) dev a (∅, ())).1 = Err e → probe_error e) as Hap.
  { unfold AccessPoint_Execute. case_bool_decide as H1; [intros [= <-]; by left|]. case_bool_decide as H2; [intros [= <-]; by left|].
    case_bool_decide as H3; [cbv zeta; destruct (ac_DryRun a); [done|intros [= <-]; by left]|].
    case_bool_decide as H4; [cbv zeta; by destruct (ac_DryRun a)|]. exfalso. revert Hin. rewrite !elem_of_cons, elem_of_nil. naive_solver. }
  destruct (AccessPoint_Execute _ _ dev a (∅, ())) as [r [c w]]; exact Hap.
Qed.

Lemma probe_host ad e :
  ad = TheServer ∨ ad = TheWorkstation → ac_Type a ∈ ["restart_service"; "collect_diagnostics"; "run_maintenance_task"] →
  probe ad dev a = Err e → probe_error e.
Proof.
  intros Had Hin. assert ((Host_Execute (λ _ _ _, refused) (Some probe_reader) None dev a (∅, ())).1 = Err e → probe_error e) as Hh.
  { unfold Host_Execute. case_bool_decide as H1; [cbv zeta; destruct (ac_DryRun a); [done|intros [= <-]; by left]|].
    case_bool_decide as H2; [intros [= <-]; by left|].
    case_bool_decide as H3; [|exfalso; revert Hin; rewrite !elem_of_cons, elem_of_nil; naive_solver]. cbv zeta.
    destruct (default DefaultTasks None !! param a "task"); [by destruct (ac_DryRun a)|]. intros [= <-]. right. eexists. by left. }
  unfold probe, adapter_Execute, no_config, on_config. destruct Had as [-> | ->]; simpl;
    (destruct (Host_Execute _ _ None dev a (∅, ())) as [r [c w]]; exact Hh).
Qed.

Lemma probe_generic_ok e : ac_Type a ∈ genericActions → probe TheGeneric dev a = Err e → probe_error e.
Proof.
  intros Hin. unfold probe, adapter_Execute, no_config, on_config, outside. simpl.
  assert ((Generic_Execute (λ _, None) (λ _, "") (λ _, None) probe_generic dev a ()).1 = Err e → probe_error e) as Hg.
  { unfold Generic_Execute. case_bool_decide as H1; [done|]. case_bool_decide as H2; [destruct (ac_DryRun a); [done|intros [= <-]; by left]|].
    case_bool_decide as H3; [destruct (ac_DryRun a); [done|intros [= <-]; by left]|].
    case_bool_decide as H4; [|exfalso; revert Hin; unfold genericActions; rewrite !elem_of_cons, elem_of_nil; naive_solver].
    unfold webhook. cbv zeta. destruct (ac_DryRun a); [done|]. intros [= <-]. right. eexists. by right. }
  destruct (Generic_Execute _ _ _ _ dev a ()) as [r w]; exact Hg.
Qed.
End probes.

Lemma For_types dev action : action ∉ genericActions →
  For NewSet dev action =
    if bool_decide (d_DeviceType dev = DeviceSwitch) then Ok TheSwitch else if bool_decide (d_DeviceType dev = DeviceRouter) then Ok TheRouter
    else if bool_decide (d_DeviceType dev = DeviceAccessPoint) then Ok TheAccessPoint else if bool_decide (d_DeviceType dev = DeviceServer) then Ok TheServer
    else if bool_decide (d_DeviceType dev = DeviceWorkstation) then Ok TheWorkstation
    else Err (Errorf CategoryUnsupported ("no adapter for " +:+ d_DeviceType dev +:+ " devices")).
Proof.
  intros Hn. unfold For. rewrite bool_decide_eq_false_2 by done. unfold NewSet. cbn [se_ByType list_to_map foldr fst snd].
  repeat (let Ht := fresh "Ht" in case_bool_decide as Ht; [rewrite Ht; rewrite ?lookup_insert_ne by done; by rewrite lookup_insert_eq|]).
  rewrite !lookup_insert_ne by done. by rewrite lookup_empty.
Qed.

(** The catalog and the adapters agree: for every action of the catalog and every type of device it
    applies to, the standard set has an adapter, and that adapter implements the action (it does
    not answer that it does not). *)
Theorem catalog_actions_have_adapters {SHA : Sha256} spec dev a :
  spec ∈ specs → (as_DeviceTypes spec = [] ∨ d_DeviceType dev ∈ as_DeviceTypes spec) → ac_Type a = as_Name spec →
  ∃ ad, For NewSet dev (as_Name spec) = Ok ad ∧ ∀ e, probe ad dev a = Err e → e ∉ not_implemented a.
Proof.
  intros Hin Hty Ha. destruct (decide (as_Name spec ∈ genericActions)) as [Hg|Hg].
  { exists TheGeneric. split; [unfold For; by rewrite bool_decide_eq_true_2|]. intros e He%probe_generic_ok; [|by rewrite Ha].
    by apply probe_error_implemented. }
  rewrite For_types by done. unfold specs in Hin. rewrite !elem_of_cons, elem_of_nil in Hin.
  destruct_or! Hin; subst spec; cbn [as_DeviceTypes as_Name] in *; unfold netTypes, hostTypes in Hty; cbn [app] in Hty;
    (destruct Hty as [Hty|Hty]; [try discriminate Hty; by destruct Hg; apply (bool_decide_unpack _); exact I|]);
    rewrite ?elem_of_cons, elem_of_nil in Hty; destruct_or! Hty; try done; rewrite Hty; cbn [bool_decide];
    (eexists; split; [reflexivity|]; intros e He; apply probe_error_implemented).
  all: first [refine (probe_switch dev a _ e _ _ He); [by auto|]|refine (probe_ap dev a e _ He)|refine (probe_host dev a _ e _ _ He); [by auto|]];
    rewrite Ha; apply (bool_decide_unpack _); exact I.
Qed.

(** ** Examples *)

(** A controller that accepts and records every command; there is no reader and nothing else to call. *)
Definition ex_ctl (dev event : string) (args : smap) : ST (list command) error () := λ w, (Ok (), w ++ [(dev, event, args)]).
Definition ex_nothing : Generic (list command) := MkGeneric ∅ None (λ _, ST_fail (EText "network is down")) None None 0.
Definition ex_plant : Plant (list command) := MkPlant ∅ ∅ ∅ [].
Abbreviation ex_perform := (perform (SHA:=sha_id) (λ _, None) (λ _, "") (λ _, None) ex_ctl None ex_nothing).

Lemma ex_traced : traced id ex_ctl None ex_nothing.
Proof. split; done. Qed.

Definition ex_bounce (dry : bool) : Action := MkAction "bounce_interface" "Gi0/1" None dry "req-1" "corr-1".

Lemma dry_run_only_reads_witness : ∃ r p', ex_perform ex_switch (ex_bounce true) ex_plant = (Ok r, p') ∧ ar_Changed r = false.
Proof.
  destruct (ex_perform ex_switch (ex_bounce true) ex_plant) as [[r|e] p'] eqn:Hp; [|vm_compute in Hp; discriminate].
  exists r, p'. split; [reflexivity|].
  pose proof (dry_run_only_reads (SHA:=sha_id) (λ _, None) (λ _, "") (λ _, None) ex_ctl ex_ctl None ex_nothing ex_nothing ex_switch (ex_bounce true) ex_plant
                (or_introl eq_refl)) as Hd.
  rewrite Hp in Hd. exact (proj2 (proj2 Hd) r eq_refl).
Defined.

Lemma adapters_issue_expected_commands_witness :
  ∃ issued, pt_world (ex_perform ex_switch (ex_bounce false) ex_plant).2 = issued ∧ length issued = 2 ∧ Forall (λ c : command, c.1.1 = "sw1") issued.
Proof.
  pose proof (adapters_issue_expected_commands (SHA:=sha_id) (λ _, None) (λ _, "") (λ _, None) id ex_ctl None ex_nothing ex_traced ex_switch (ex_bounce false) ex_plant) as Hc.
  assert (is_ok (ex_perform ex_switch (ex_bounce false) ex_plant).1 = true) as Hok by (vm_compute; reflexivity).
  destruct (ex_perform ex_switch (ex_bounce false) ex_plant) as [r p']. destruct Hc as (issued & rest & Hl & Ht & Hr & Hall).
  exists issued. split; [exact Ht|]. split; [|exact Hall].
  rewrite (Hr Hok) in Hl.
  rewrite app_nil_r in Hl. rewrite <-Hl. reflexivity.
Defined.

Lemma catalog_actions_have_adapters_witness :
  ∃ ad, For NewSet ex_switch "bounce_interface" = Ok ad ∧ ∀ e, probe (SHA:=sha_id) ad ex_switch (ex_bounce false) = Err e → e ∉ not_implemented (ex_bounce false).
Proof.
  apply (catalog_actions_have_adapters (SHA:=sha_id) (MkActionSpec "bounce_interface" netTypes "interface-admin" true (Some reIface) [] true) ex_switch (ex_bounce false)).
  - do 2 right. left.
  - right. left.
  - reflexivity.
Defined.

Definition ex_wired : Engine := with_adapters (SHA:=sha_id) (λ _, None) (λ _, "") (λ _, None) ex_ctl None ex_nothing ex_plant (ex_engine (21 * Minute)).
Abbreviation ex_replay := (replay (SHA:=sha_id) (λ _, None) (λ _, "") (λ _, None) ex_ctl None ex_nothing ex_plant).

