(* ===== verification/Health.v ===== *)
(** * Package [health]: liveness, readiness, dependencies (src/internal/health/health.go)

    The checks run concurrently; a run is the sequence in which they finish, each with what became of
    it. Serving HTTP is reduced to the status code and the report. *)

From S2P Require Import Prelude GoLib GoFloat Domain.

Abbreviation Status := string (only parsing).
Definition OK : Status := "ok".
Definition Degraded : Status := "degraded".
Definition Down : Status := "down".

Record Result := MkResult { hr_Status : Status; hr_Detail : string }.
Record CheckResult := MkCheckResult { hc_Result : Result; hc_Critical : bool; hc_LatencyMS : float64 }.
Record Check := MkCheck { ck_Name : string; ck_Critical : bool }.
Record Report := MkReport { hp_Status : string; hp_Ready : bool; hp_Checks : gmap string CheckResult; hp_Version : string; hp_Uptime : string }.
#[export] Instance eta_Report : Eta Report := λ r, MkReport (hp_Status r) (hp_Ready r) (hp_Checks r) (hp_Version r) (hp_Uptime r).
Record Checker := MkChecker { hk_Version : string; hk_Timeout : Duration; hk_started : Time; hk_checks : list Check }.

Definition NewChecker (version : string) (now : Time) (checks : list Check) : Checker := MkChecker version (2 * Second) now checks.

(** What became of the function of a check before its deadline. *)
Inductive outcome := Answered (r : Result) | Panicked | Hung.

Definition run_check (timeout : Duration) (o : outcome) : Result :=
  match o with
  | Answered r => r
  | Panicked => MkResult Down "check panicked"
  | Hung => MkResult Down ("check timed out after " +:+ DurationString timeout)
  end.

(** [d.Round(time.Second)], for durations in range. *)
Definition round_second (d : Duration) : Duration :=
  let r := Z.rem d Second in
  if (d <? 0)%Z then if (- r + - r <? Second)%Z then wrap64 (d - r) else wrap64 (d - r - Second)
  else if (r + r <? Second)%Z then wrap64 (d - r) else wrap64 (d - r + Second).

(** A finished check: its outcome and how long it took. *)
Definition finished : Type := Check * outcome * Duration.
Definition record_result (timeout : Duration) (results : gmap string CheckResult) (f : finished) : gmap string CheckResult :=
  let '(ch, o, elapsed) := f in
  <[ck_Name ch := MkCheckResult (run_check timeout o) (ck_Critical ch) (f_div (f_of_int (Z.quot elapsed Microsecond)) (f_of_int 1000))]> results.

Definition judge_result (rep : Report) (r : CheckResult) : Report :=
  if bool_decide (hr_Status (hc_Result r) = Down) && hc_Critical r then rep <| hp_Ready := false |> <| hp_Status := "unready" |>
  else if negb (bool_decide (hr_Status (hc_Result r) = OK)) && bool_decide (hp_Status rep = "ready") then rep <| hp_Status := "degraded" |>
  else rep.

Section run.
Context {RO : RangeOrder}.

Definition timeout_of (c : Checker) : Duration := if (hk_Timeout c <=? 0)%Z then 2 * Second else hk_Timeout c.

(** [done] are the checks in the order in which they finished, [now] the time when all had. *)
Definition Run (c : Checker) (done : list finished) (now : Time) : Report :=
  let results := foldl (record_result (timeout_of c)) ∅ done in
  let rep := MkReport "ready" true results (hk_Version c) (DurationString (round_second (time_Sub now (hk_started c)))) in
  foldl judge_result rep (range_order results).*2.

Definition Names (c : Checker) : list string := sort_strings (ck_Name <$> hk_checks c).

(** The handlers: status code and body. *)
Definition Liveness : Z := 200.
Definition Readiness (c : Checker) (done : list finished) (now : Time) : Z * Report :=
  let rep := Run c done now in (if negb (hp_Ready rep) then 503%Z else 200%Z, rep).
Definition Dependencies (c : Checker) (done : list finished) (now : Time) : Z * Report := (200%Z, Run c done now).
End run.

(** ** Facts *)

(** How bad a result is, and the report of a grade. *)
Definition grade (r : CheckResult) : nat :=
  if bool_decide (hr_Status (hc_Result r) = Down) && hc_Critical r then 2 else if bool_decide (hr_Status (hc_Result r) = OK) then 0 else 1.
Definition word (n : nat) : string := match n with 0 => "ready" | 1 => "degraded" | _ => "unready" end.
Definition graded (n : nat) (rep : Report) : Report := rep <| hp_Ready := (n <? 2) |> <| hp_Status := word n |>.

Lemma judge_graded n rep r : n ≤ 2 → judge_result (graded n rep) r = graded (max n (grade r)) rep.
Proof.
  intros Hn. unfold judge_result, grade. destruct (bool_decide _ && hc_Critical r); [by rewrite Nat.max_r by lia|].
  case_bool_decide as Hok; cbn [negb andb]; [by rewrite Nat.max_l by lia|].
  destruct n as [|[|[|]]]; [done..|]. lia.
Qed.

Lemma grade_le r : grade r ≤ 2.
Proof. unfold grade. destruct (_ && _); [lia|]. case_bool_decide; lia. Qed.

Lemma foldr_max_start (l : list nat) m n : foldr max (max n m) l = max m (foldr max n l).
Proof. induction l as [|x l IH]; simpl; [lia|]. rewrite IH. lia. Qed.

Lemma judge_all n rep l : n ≤ 2 → foldl judge_result (graded n rep) l = graded (foldr max n (grade <$> l)) rep.
Proof.
  revert n. induction l as [|r l IH]; intros n Hn; simpl; [done|]. pose proof (grade_le r). rewrite judge_graded by done. rewrite IH by lia.
  by rewrite foldr_max_start.
Qed.

Lemma foldr_max_le (l : list nat) m n : foldr max n l ≤ m ↔ n ≤ m ∧ Forall (λ x, x ≤ m) l.
Proof. induction l as [|x l IH]; simpl; [by rewrite Forall_nil; naive_solver|]. rewrite Forall_cons. naive_solver lia. Qed.

Lemma find_app {A} (P : A → bool) l1 l2 : List.find P (l1 ++ l2) = match List.find P l1 with Some x => Some x | None => List.find P l2 end.
Proof. induction l1 as [|x l1 IH]; simpl; [done|]. by destruct (P x). Qed.

Section facts.
Context {RO : RangeOrder} (c : Checker).

(** The results of checks with different names do not depend on the order in which they finish. *)
Lemma results_lookup done name :
  NoDup (ck_Name ∘ fst ∘ fst <$> done) →
  foldl (record_result (timeout_of c)) ∅ done !! name =
  (λ f, MkCheckResult (run_check (timeout_of c) f.1.2) (ck_Critical f.1.1) (f_div (f_of_int (Z.quot f.2 Microsecond)) (f_of_int 1000)))
    <$> List.find (λ f, bool_decide (ck_Name f.1.1 = name)) done.
Proof.
  induction done as [|f done IH] using rev_ind; intros Hnd; [done|]. rewrite fmap_app in Hnd. apply NoDup_app in Hnd as (Hnd & Hne & _).
  rewrite foldl_app. cbn [foldl]. destruct f as [[ch o] d]. cbn [record_result]. rewrite find_app. destruct (decide (ck_Name ch = name)) as [<-|Hn].
  - rewrite lookup_insert_eq. destruct (List.find _ done) as [f|] eqn:Hf.
    + exfalso. apply find_some in Hf as [Hin Heq%bool_decide_eq_true_1]. apply (Hne (ck_Name ch)); [|simpl; set_solver].
      apply list_elem_of_fmap. exists f. split; [done|]. by apply list_elem_of_In.
    + simpl. by rewrite bool_decide_eq_true_2.
  - rewrite lookup_insert_ne by done. rewrite IH by done. destruct (List.find _ done); [done|]. simpl. by rewrite bool_decide_eq_false_2.
Qed.

(** What a finished check says about its dependency. *)
Definition broken (f : finished) : Prop := hr_Status (run_check (timeout_of c) f.1.2) = Down ∧ ck_Critical f.1.1 = true.
Definition fine (f : finished) : Prop := hr_Status (run_check (timeout_of c) f.1.2) = OK.

(** Every finished check is in the report, and nothing else. *)
Definition result_of (f : finished) : CheckResult :=
  MkCheckResult (run_check (timeout_of c) f.1.2) (ck_Critical f.1.1) (f_div (f_of_int (Z.quot f.2 Microsecond)) (f_of_int 1000)).
Lemma results_of done f :
  NoDup (ck_Name ∘ fst ∘ fst <$> done) → f ∈ done → foldl (record_result (timeout_of c)) ∅ done !! ck_Name f.1.1 = Some (result_of f).
Proof.
  intros Hnd Hf. rewrite results_lookup by done. destruct (List.find _ done) as [f'|] eqn:Hf'.
  - apply find_some in Hf' as [Hin' Heq%bool_decide_eq_true_1]. apply list_elem_of_In in Hin'.
    assert (f' = f) as ->; [|done]. apply list_elem_of_lookup in Hf as [i Hi], Hin' as [j Hj].
    assert (j = i) as ->; [|congruence]. eapply NoDup_lookup; [exact Hnd|rewrite list_lookup_fmap, Hj; simpl; by rewrite Heq|by rewrite list_lookup_fmap, Hi].
  - exfalso. pose proof (find_none _ _ Hf' f (proj1 (list_elem_of_In _ _) Hf)) as Hn. simpl in Hn. by rewrite bool_decide_eq_true_2 in Hn.
Qed.
Lemma report_results done r :
  NoDup (ck_Name ∘ fst ∘ fst <$> done) →
  r ∈ (range_order (foldl (record_result (timeout_of c)) ∅ done)).*2 ↔ ∃ f, f ∈ done ∧ r = result_of f.
Proof.
  intros Hnd. rewrite list_elem_of_fmap. split.
  - intros ([k r'] & -> & Hin). apply elem_of_range_order in Hin. rewrite results_lookup in Hin by done.
    apply fmap_Some in Hin as (f & [Hf _]%find_some & ->). exists f. split; [by apply list_elem_of_In|done].
  - intros (f & Hf & ->). exists (ck_Name f.1.1, result_of f). split; [done|]. apply elem_of_range_order. by apply results_of.
Qed.
End facts.

(** The health report says what it is documented to say, whatever the order in which the checks finish
    and Go ranges over the results: with different names, the process is ready, and readiness answers
    200 and not 503, exactly when no critical check is down, where a check that panics or hangs is
    down; the status is "ready" exactly when every check is ok, and a broken optional dependency
    only degrades it. *)
Theorem readiness_reflects_critical_checks (RO : RangeOrder) c done now :
  NoDup (ck_Name ∘ fst ∘ fst <$> done) →
  let '(code, rep) := Readiness c done now in
  (code = 200%Z ↔ hp_Ready rep = true) ∧ (code = 503%Z ↔ hp_Ready rep = false) ∧
  (hp_Ready rep = true ↔ Forall (λ f, ¬ broken c f) done) ∧
  (hp_Ready rep = false ↔ hp_Status rep = "unready") ∧
  (hp_Status rep = "ready" ↔ Forall (fine c) done) ∧
  (∀ f, f ∈ done → hc_Result <$> hp_Checks rep !! ck_Name f.1.1 = Some (run_check (timeout_of c) f.1.2)).
Proof.
  intros Hnd. unfold Readiness, Run. set (results := foldl (record_result (timeout_of c)) ∅ done).
  set (rep0 := MkReport "ready" true results _ _). change rep0 with (graded 0 rep0). rewrite judge_all by lia.
  set (n := foldr max 0 _). assert (∀ m, n ≤ m ↔ Forall (λ f : finished, grade (MkCheckResult (run_check (timeout_of c) f.1.2) (ck_Critical f.1.1) f_zero) ≤ m) done) as Hn.
  { intros m. unfold n. rewrite foldr_max_le, Forall_fmap, !Forall_forall. split.
    - intros [_ Hall] f Hf. apply (Hall (result_of c f)). apply report_results; [done|]. by exists f.
    - intros Hall. split; [lia|]. intros r (f & Hf & ->)%report_results; [|done]. apply (Hall f Hf). }
  assert (∀ f, grade (MkCheckResult (run_check (timeout_of c) f.1.2) (ck_Critical f.1.1) f_zero) ≤ 1 ↔ ¬ broken c f) as H1.
  { intros f. unfold grade, broken. simpl. case_bool_decide; simpl; [destruct (ck_Critical f.1.1)|]; [naive_solver lia|..];
      case_bool_decide; naive_solver lia. }
  assert (∀ f, grade (MkCheckResult (run_check (timeout_of c) f.1.2) (ck_Critical f.1.1) f_zero) ≤ 0 ↔ fine c f) as H0.
  { intros f. unfold grade, fine. simpl. case_bool_decide as Hd; simpl; [rewrite Hd; destruct (ck_Critical f.1.1); [split; [lia|done]|]|];
      case_bool_decide; split; (done || lia). }
  assert (hp_Ready (graded n rep0) = true ↔ Forall (λ f, ¬ broken c f) done) as Hready.
  { simpl. rewrite Nat.ltb_lt. change (n < 2) with (S n ≤ 2). rewrite <-(Forall_iff _ _ _ H1), <-Hn. lia. }
  assert (hp_Ready (graded n rep0) = false ↔ hp_Status (graded n rep0) = "unready") as Hword.
  { simpl. rewrite Nat.ltb_ge. destruct n as [|[|n']]; simpl; split; (done || lia). }
  assert (hp_Status (graded n rep0) = "ready" ↔ Forall (fine c) done) as Hok.
  { rewrite <-(Forall_iff _ _ _ H0), <-Hn. simpl. destruct n as [|[|n']]; simpl; split; (done || lia). }
  assert (∀ f, f ∈ done → hc_Result <$> hp_Checks (graded n rep0) !! ck_Name f.1.1 = Some (run_check (timeout_of c) f.1.2)) as Hall.
  { intros f Hf. change (hc_Result <$> results !! ck_Name f.1.1 = Some (run_check (timeout_of c) f.1.2)). unfold results. by rewrite results_of. }
  destruct (hp_Ready (graded n rep0)); cbn [negb]; split_and!; try done; naive_solver.
Qed.

Definition ex_done : list finished :=
  [(MkCheck "scripts" false, Panicked, (3 * Millisecond)%Z); (MkCheck "postgres" true, Answered (MkResult OK ""), (1500 * Microsecond)%Z)].

Lemma readiness_reflects_critical_checks_witness :
  let '(code, rep) := Readiness (RO:=stored_order) (NewChecker "1.0" 0 []) ex_done Hour in code = 200%Z ∧ hp_Status rep ≠ "ready".
Proof.
  pose proof (readiness_reflects_critical_checks stored_order (NewChecker "1.0" 0 []) ex_done Hour) as Hr.
  destruct (Readiness (RO:=stored_order) (NewChecker "1.0" 0 []) ex_done Hour) as [code rep].
  destruct Hr as (Hcode & _ & Hready & _ & Hstatus & _); [repeat constructor; set_solver|]. split.
  - apply Hcode, Hready. unfold ex_done. constructor; [|constructor; [|constructor]]; unfold broken; simpl; intros [H1 H2]; discriminate.
  - intros Hs%Hstatus. unfold ex_done in Hs. apply Forall_cons_1 in Hs as [Hs _]. unfold fine in Hs. simpl in Hs. discriminate.
Defined.
