(* ===== verification/Api.v ===== *)
(** * Package [api]: the HTTP interface (src/internal/api/server.go, handlers.go, dto.go)

    A handler takes a request and the store and gives a response; only [approve] changes the store. A
    handler that panics is an [Err]. Routing, the middleware and the data transfer objects are modelled;
    JSON rendering, the request deadline, the body limit, the
    redirects of [http.ServeMux] for unclean paths, logging and metrics are not. Parsing of RFC 3339 times and the generator of request
    ids are parameters. *)

From S2P Require Import Prelude GoLib GoFloat Domain Regexp Session Store Inventory MemStore AutoStore Engine.

(** ** Requests and responses *)

(** [hq_Path] are the segments of the path; [hq_Query] gives the first value of a parameter or "". *)
Record HTTPRequest := MkHTTPRequest {
  hq_Method : string; hq_Path : list string; hq_Query : string → string; hq_Authorization : string; hq_RequestID : string }.

(** ** Data transfer objects (dto.go) *)

Record DeviceDTO := MkDeviceDTO {
  dd_ID : string; dd_Hostname : string; dd_Address : string; dd_Type : string; dd_Vendor : string; dd_Model : string;
  dd_SerialNumber : string; dd_Site : string; dd_Tags : list string; dd_Capabilities : list string; dd_Enabled : bool;
  dd_LastSeen : option Time; dd_Attributes : smap; dd_OpenAlerts : option Z }.
#[export] Instance eta_DeviceDTO : Eta DeviceDTO := λ d,
  MkDeviceDTO (dd_ID d) (dd_Hostname d) (dd_Address d) (dd_Type d) (dd_Vendor d) (dd_Model d) (dd_SerialNumber d) (dd_Site d)
    (dd_Tags d) (dd_Capabilities d) (dd_Enabled d) (dd_LastSeen d) (dd_Attributes d) (dd_OpenAlerts d).

Definition some_time (t : Time) : option Time := if IsZero t then None else Some t.

Definition deviceDTO (d : Device) : DeviceDTO :=
  MkDeviceDTO (d_ID d) (d_Hostname d) (d_ManagementAddress d) (d_DeviceType d) (d_Vendor d) (d_Model d) (d_SerialNumber d) (d_Site d)
    (d_Tags d) (d_Capabilities d) (d_Enabled d) (some_time (d_LastSeen d)) (d_Attributes d) None.

Definition HealthState_string (s : HealthState) : string :=
  match s with StateUnset => "" | StateUp => "UP" | StateSuspect => "SUSPECT" | StateDown => "DOWN" | StateRecovering => "RECOVERING" | StateOther s => s end.

Record StateDTO := MkStateDTO {
  sd_Definition : string; sd_Labels : smap; sd_State : string; sd_Since : Time; sd_LastSeen : Time; sd_LastValue : string; sd_Failures : Z }.
Definition stateDTO (r : StateRecord) : StateDTO :=
  MkStateDTO (sr_DefinitionID r) (sr_Labels r) (HealthState_string (sr_State r)) (sr_LastTransitionAt r) (sr_LastSeenAt r) (sr_LastValue r) (sr_Failures r).
Record DeviceStateDTO := MkDeviceStateDTO { ds_DeviceID : string; ds_Health : string; ds_States : list StateDTO }.

Record EventDTO := MkEventDTO {
  ed_ID : string; ed_CorrelationID : string; ed_DeviceID : string; ed_Type : string; ed_Severity : string; ed_Message : string;
  ed_Labels : smap; ed_OccurredAt : Time; ed_Source : string; ed_AlertKey : string; ed_Resolves : bool }.
Definition eventDTO (e : Event) : EventDTO :=
  MkEventDTO (ev_EventID e) (ev_CorrelationID e) (ev_DeviceID e) (ev_Type e) (ev_Severity e) (ev_Message e) (ev_Labels e) (ev_OccurredAt e)
    (ev_Source e) (ev_AlertKey e) (ev_Resolves e).

Definition AlertStatus_string (s : AlertStatus) : string := match s with AlertFiring => "firing" | AlertResolved => "resolved" end.
Record AlertDTO := MkAlertDTO {
  ad_Key : string; ad_DeviceID : string; ad_Source : string; ad_Severity : string; ad_Status : string; ad_Summary : string;
  ad_Labels : smap; ad_OpenEvent : string; ad_OpenedAt : Time; ad_ResolvedAt : option Time }.
Definition alertDTO (a : Alert) : AlertDTO :=
  MkAlertDTO (al_AlertKey a) (al_DeviceID a) (al_Source a) (al_Severity a) (AlertStatus_string (al_Status a)) (al_Summary a) (al_Labels a)
    (al_OpenEventID a) (al_OpenedAt a) (some_time (al_ResolvedAt a)).

Definition AutomationStatus_string (s : AutomationStatus) : string :=
  match s with
  | AutomationPending => "pending" | AutomationAwaitingApproval => "awaiting_approval" | AutomationApproved => "approved"
  | AutomationExecuting => "executing" | AutomationSucceeded => "succeeded" | AutomationFailed => "failed"
  | AutomationDryRun => "dry_run" | AutomationDenied => "denied" | AutomationExpired => "expired"
  end.
Record AutomationResultDTO := MkAutomationResultDTO {
  rd_Status : string; rd_DryRun : bool; rd_Message : string; rd_Details : smap; rd_StartedAt : Time; rd_FinishedAt : Time }.
Record AutomationDTO := MkAutomationDTO {
  ud_ID : string; ud_CorrelationID : string; ud_Policy : string; ud_EventID : string; ud_DeviceID : string; ud_Action : string;
  ud_Target : string; ud_Params : smap; ud_Reason : string; ud_Proposer : string; ud_DryRun : bool; ud_Status : string;
  ud_NotBefore : Time; ud_CreatedAt : Time; ud_ApprovedBy : string; ud_Result : option AutomationResultDTO }.
Definition automationFrom (r : AutomationRequest) (res : option AutomationResult) : AutomationDTO :=
  MkAutomationDTO (rq_RequestID r) (rq_CorrelationID r) (rq_PolicyID r) (rq_EventID r) (rq_DeviceID r) (rq_Action r) (rq_Target r)
    (rq_Params r) (rq_Reason r) (rq_Proposer r) (rq_DryRun r) (AutomationStatus_string (rq_Status r)) (rq_NotBefore r) (rq_CreatedAt r)
    (rq_ApprovedBy r)
    ((λ x, MkAutomationResultDTO (AutomationStatus_string (rs_Status x)) (rs_DryRun x) (rs_Message x) (rs_Details x) (rs_StartedAt x) (rs_FinishedAt x)) <$> res).
Definition automationDTO (v : AutomationView) : AutomationDTO := automationFrom (vw_Request v) (vw_Result v).

Record MetricDTO := MkMetricDTO { md_Metric : string; md_Value : value; md_Labels : smap; md_ObservedAt : Time }.
Definition metricDTO (p : MetricPoint) : MetricDTO := MkMetricDTO (pt_Metric p) (pt_Value p) (pt_Labels p) (pt_ObservedAt p).

(** The list envelope. *)
Record ListPage (T : Type) := MkListPage { lp_Items : list T; lp_NextCursor : option string }.
Arguments MkListPage {T}.
Arguments lp_Items {T}.
Arguments lp_NextCursor {T}.
Definition page {T} (items : list T) (next : string) : ListPage T := MkListPage items (if bool_decide (next = "") then None else Some next).

Inductive Body :=
| BError (code message requestID : string)
| BDevices (p : ListPage DeviceDTO)
| BDevice (d : DeviceDTO)
| BState (s : DeviceStateDTO)
| BMetrics (deviceID metric : string) (points : list MetricDTO)
| BEvents (p : ListPage EventDTO)
| BAlerts (p : ListPage AlertDTO)
| BAutomations (p : ListPage AutomationDTO)
| BAutomation (a : AutomationDTO)
| BOther (what : string).

Record HTTPResponse := MkHTTPResponse { hs_Status : Z; hs_Header : gmap string string; hs_Body : Body }.
#[export] Instance eta_HTTPResponse : Eta HTTPResponse := λ r, MkHTTPResponse (hs_Status r) (hs_Header r) (hs_Body r).

(** ** Responses (server.go) *)

(** [rid] is the [X-Request-Id] header the middleware has set. *)
Definition writeJSON (status : Z) (b : Body) : HTTPResponse := MkHTTPResponse status {["Content-Type" := "application/json"]} b.
Definition fail (rid : string) (status : Z) (code msg : string) : HTTPResponse := writeJSON status (BError code msg rid).

Definition failErr (rid : string) (e : option error) : HTTPResponse :=
  match CategoryOf e with
  | CategoryValidation => fail rid 400 "invalid_request" (match e with Some e => error_text e | None => "" end)
  | CategoryAuthentication => fail rid 401 "unauthorized" "authentication required"
  | CategoryDependency | CategoryTransient | CategoryTimeout =>
      fail rid 503 "unavailable" "the service is temporarily unable to answer; try again shortly"
  | _ => fail rid 500 "internal" "internal error"
  end.

(** ** Authentication *)

(** [TokenAuth.Identify] on the Authorization header; every token is visited. *)
Definition Identify {RO : RangeOrder} (tokens : gmap string string) (authorization : string) : option string :=
  if negb (HasPrefix authorization "Bearer ") then None
  else
    let tok := TrimPrefix authorization "Bearer " in
    if bool_decide (tok = "") then None
    else foldl (λ found t, if bool_decide (t.1 = tok) then Some t.2 else found) None (range_order tokens).

(** ** The server *)

(** The read side of the store ([persistence.Reader]). *)
Class ReadOps (S : Type) := {
  rd_ListDevices : S → res (list Device);
  rd_ListAlerts : AlertFilter → Page → S → res (list Alert * string);
  rd_DeviceStates : string → S → res (list StateRecord);
  rd_Metrics : string → string → Time → Time → Z → S → res (list MetricPoint);
  rd_LatestMetrics : string → S → res (list MetricPoint);
  rd_ListEvents : EventFilter → Page → S → res (list Event * string);
  rd_ListAutomation : AutomationFilter → Page → S → res (list AutomationView * string);
  rd_GetAutomation : string → S → res (option AutomationRequest * option AutomationResult);
}.

(** [sv_Approver] acts on the store; [sv_Auth] maps the Authorization header to an identity. *)
Record Server (S : Type) := MkServer {
  sv_Approver : option (string → string → ST S error ());
  sv_Auth : option (string → option string);
  sv_Health : bool;
  sv_Metrics : bool;
  sv_DefaultPageSize : Z;
  sv_MaxPageSize : Z;
}.
Arguments MkServer {S}.
Arguments sv_Approver {S}.
Arguments sv_Auth {S}.
Arguments sv_Health {S}.
Arguments sv_Metrics {S}.
Arguments sv_DefaultPageSize {S}.
Arguments sv_MaxPageSize {S}.

(** [strconv.Atoi] *)
Definition Atoi (s : string) : option Z :=
  match s with
  | String "+" s' => ParseUint int_max s'
  | String "-" s' => Z.opp <$> ParseUint (- int_min) s'
  | _ => ParseUint int_max s
  end.

Section handlers.
Context {S : Type} `{ReadOps S} (time_Parse : string → option Time) (srv : Server S) (rid : string).

(** ** Parameters (handlers.go) *)

Definition default_size : Z := if (sv_DefaultPageSize srv <=? 0)%Z then 50 else sv_DefaultPageSize srv.
Definition max_size : Z := if (sv_MaxPageSize srv <=? 0)%Z then 500 else sv_MaxPageSize srv.
Definition pageParams (r : HTTPRequest) : res Page :=
  let v := hq_Query r "limit" in
  let cursor := hq_Query r "cursor" in
  if bool_decide (v = "") then Ok (MkPage default_size cursor)
  else
    let bad := Err (Errorf CategoryValidation ("limit must be an integer between 1 and " +:+ FormatInt max_size)) in
    match Atoi v with
    | None => bad
    | Some n => if (n <? 1)%Z || (max_size <? n)%Z then bad else Ok (MkPage n cursor)
    end.

Definition timeParam (r : HTTPRequest) (name : string) : res Time :=
  let v := hq_Query r name in
  if bool_decide (v = "") then Ok time_zero
  else
    match time_Parse v with
    | None => Err (Errorf CategoryValidation (name +:+ " must be an RFC 3339 timestamp, e.g. 2026-08-01T12:00:00Z"))
    | Some t => Ok t
    end.

Definition enumParam (r : HTTPRequest) (name : string) (allowed : list string) : res string :=
  let v := hq_Query r name in
  if bool_decide (v = "") then Ok ""
  else if bool_decide (v ∈ allowed) then Ok v
  else Err (Errorf CategoryValidation (name +:+ " must be one of [" +:+ Join allowed " " +:+ "]")).

Abbreviation Handler := (HTTPRequest → S → result string HTTPResponse).

(** A categorised error becomes a response. *)
Definition or_fail {A} (m : res A) (k : A → result string HTTPResponse) : result string HTTPResponse :=
  match m with Ok a => k a | Err e => Ok (failErr rid (Some e)) end.
Definition respond (b : Body) : result string HTTPResponse := Ok (writeJSON 200 b).

(** ** Devices *)

Definition device_wanted (r : HTTPRequest) (d : Device) : bool :=
  negb ((negb (bool_decide (hq_Query r "site" = "")) && negb (bool_decide (d_Site d = hq_Query r "site")))
        || (negb (bool_decide (hq_Query r "type" = "")) && negb (bool_decide (d_DeviceType d = hq_Query r "type")))
        || (negb (bool_decide (hq_Query r "tag" = "")) && negb (HasTag d (hq_Query r "tag")))
        || (negb (bool_decide (hq_Query r "enabled" = "")) && negb (bool_decide (FormatBool (d_Enabled d) = hq_Query r "enabled")))).

(** Where the page after the cursor starts. *)
Definition start_after (cursor : string) (l : list DeviceDTO) : nat :=
  if bool_decide (cursor = "") then 0
  else match list_find (λ d, str_lt cursor (dd_ID d) = true) l with Some (i, _) => i | None => length l end.

(** The page and its cursor; out-of-range indices and slices panic. *)
Definition device_page (l : list DeviceDTO) (p : Page) : result string (ListPage DeviceDTO) :=
  let start := start_after (pg_Cursor p) l in
  let end_ := Z.min (wrap64 (Z.of_nat start + pg_Limit p)) (Z.of_nat (length l)) in
  let last := if (end_ <=? 0)%Z then None else dd_ID <$> l !! Z.to_nat (end_ - 1) in
  match (if (end_ <? Z.of_nat (length l))%Z then last else Some "") with
  | None => Err "index out of range"
  | Some next =>
      if (end_ <? Z.of_nat start)%Z then Err "slice bounds out of range"
      else Ok (page (drop start (take (Z.to_nat end_) l)) next)
  end.

Definition listDevices : Handler := λ r s,
  or_fail (rd_ListDevices s) (λ devices,
  let filtered := deviceDTO <$> filter (λ d, device_wanted r d = true) devices in
  or_fail (pageParams r) (λ p,
  match device_page filtered p with
  | Ok pg => respond (BDevices pg)
  | Err e => Err e
  end)).

Definition findDevice (id : string) (s : S) (k : Device → result string HTTPResponse) : result string HTTPResponse :=
  or_fail (rd_ListDevices s) (λ devices,
  match List.find (λ d, bool_decide (d_ID d = id)) devices with
  | Some d => k d
  | None => Ok (fail rid 404 "not_found" "no such device")
  end).

Definition getDevice (id : string) : Handler := λ r s,
  findDevice id s (λ d,
  or_fail (rd_ListAlerts (MkAlertFilter (Some AlertFiring) (d_ID d)) (MkPage 1000 "") s) (λ '(firing, _),
  respond (BDevice ((deviceDTO d) <| dd_OpenAlerts := Some (Z.of_nat (length firing)) |>)))).

(** The coarse health of a device. *)
Definition health_step (h : string) (rec : StateRecord) : string :=
  match sr_State rec with
  | StateDown => "down"
  | StateUp => h
  | _ => if bool_decide (h = "healthy") then "degraded" else h
  end.
Definition device_health (recs : list StateRecord) : string :=
  match recs with [] => "unknown" | _ => foldl health_step "healthy" recs end.

Definition getDeviceState (id : string) : Handler := λ r s,
  findDevice id s (λ d,
  or_fail (rd_DeviceStates (d_ID d) s) (λ recs,
  respond (BState (MkDeviceStateDTO (d_ID d) (device_health recs) (stateDTO <$> recs))))).

Definition getDeviceMetrics (id : string) : Handler := λ r s,
  findDevice id s (λ d,
  or_fail (timeParam r "since") (λ since,
  or_fail (timeParam r "until") (λ until,
  or_fail (pageParams r) (λ p,
  let metric := hq_Query r "metric" in
  or_fail (if bool_decide (metric = "") then rd_LatestMetrics (d_ID d) s else rd_Metrics (d_ID d) metric since until (pg_Limit p) s) (λ points,
  respond (BMetrics (d_ID d) metric (metricDTO <$> points))))))).

(** ** Events and alerts *)

Definition listEvents : Handler := λ r s,
  or_fail (pageParams r) (λ p,
  or_fail (timeParam r "since") (λ since,
  or_fail (timeParam r "until") (λ until,
  or_fail (enumParam r "min_severity" ["info"; "warning"; "critical"]) (λ sev,
  or_fail (rd_ListEvents (MkEventFilter (hq_Query r "device") (hq_Query r "type") sev since until) p s) (λ '(items, next),
  respond (BEvents (page (eventDTO <$> items) next))))))).

Definition alert_status (v : string) : option AlertStatus :=
  List.find (λ st, bool_decide (AlertStatus_string st = v)) [AlertFiring; AlertResolved].
Definition listAlerts : Handler := λ r s,
  or_fail (pageParams r) (λ p,
  or_fail (enumParam r "status" ["firing"; "resolved"]) (λ status,
  or_fail (rd_ListAlerts (MkAlertFilter (alert_status status) (hq_Query r "device")) p s) (λ '(items, next),
  respond (BAlerts (page (alertDTO <$> items) next))))).

(** ** Automation *)

Definition all_statuses : list AutomationStatus :=
  [AutomationPending; AutomationAwaitingApproval; AutomationApproved; AutomationExecuting; AutomationSucceeded; AutomationFailed;
   AutomationDryRun; AutomationDenied; AutomationExpired].
Definition automationStatuses : list string :=
  ["pending"; "awaiting_approval"; "approved"; "executing"; "succeeded"; "failed"; "dry_run"; "denied"; "expired"].
Definition automation_status (v : string) : option AutomationStatus :=
  List.find (λ st, bool_decide (AutomationStatus_string st = v)) all_statuses.

Definition listAutomation : Handler := λ r s,
  or_fail (pageParams r) (λ p,
  or_fail (enumParam r "status" automationStatuses) (λ status,
  or_fail (rd_ListAutomation (MkAutomationFilter (automation_status status) (hq_Query r "device") (hq_Query r "policy")) p s) (λ '(items, next),
  respond (BAutomations (page (automationDTO <$> items) next))))).

Definition no_request : HTTPResponse := fail rid 404 "not_found" "no such automation request".
Definition getAutomation (id : string) : Handler := λ r s,
  or_fail (rd_GetAutomation id s) (λ '(req, res),
  match req with None => Ok no_request | Some q => respond (BAutomation (automationFrom q res)) end).

(** [approve]: the only write. *)
Definition approve (id : string) (r : HTTPRequest) (s : S) : HTTPResponse * S :=
  match sv_Auth srv, sv_Approver srv with
  | Some identify, Some Approve =>
      match identify (hq_Authorization r) with
      | None =>
          ((fail rid 401 "unauthorized" "a valid bearer token is required")
             <| hs_Header := {["Content-Type" := "application/json"; "WWW-Authenticate" := "Bearer realm=" +:+ Quote "infra-observer"]} |>, s)
      | Some who =>
          match rd_GetAutomation id s with
          | Err e => (failErr rid (Some e), s)
          | Ok (None, _) => (no_request, s)
          | Ok (Some _, _) =>
              match Approve id who s with
              | (Err e, s) =>
                  (if bool_decide (CategoryOf (Some e) = CategoryValidation)
                   then fail rid 409 "not_awaiting_approval" "the request is not awaiting approval (already approved, expired or completed)"
                   else failErr rid (Some e), s)
              | (Ok _, s) =>
                  match rd_GetAutomation id s with
                  | Err e => (failErr rid (Some e), s)
                  | Ok (None, _) => (failErr rid None, s)
                  | Ok (Some q, res) => (writeJSON 200 (BAutomation (automationFrom q res)), s)
                  end
              end
          end
      end
  | _, _ => (fail rid 403 "approvals_disabled" "approvals are not enabled on this deployment", s)
  end.

(** ** Routing *)

Inductive endpoint :=
| EListDevices | EGetDevice (id : string) | EDeviceState (id : string) | EDeviceMetrics (id : string) | EListEvents | EListAlerts
| EListAutomation | EGetAutomation (id : string) | EApprove (id : string) | EHealth | EReadiness | EDependencies | EMetrics.

(** Path patterns: literal segments and the wildcard [{id}], which takes any segment but the empty one. *)
Inductive segment := Lit (s : string) | Id.
Fixpoint match_path (pat : list segment) (path : list string) (id : string) : option string :=
  match pat, path with
  | [], [] => Some id
  | Lit s :: pat, p :: path => if bool_decide (s = p) then match_path pat path id else None
  | Id :: pat, p :: path => if bool_decide (p = "") then None else match_path pat path p
  | _, _ => None
  end.

(** The registrations of [Server.Handler]. *)
Definition routes : list (string * list segment * (string → endpoint)) :=
  [("GET", [Lit "api"; Lit "devices"], λ _, EListDevices);
   ("GET", [Lit "api"; Lit "devices"; Id], EGetDevice);
   ("GET", [Lit "api"; Lit "devices"; Id; Lit "state"], EDeviceState);
   ("GET", [Lit "api"; Lit "devices"; Id; Lit "metrics"], EDeviceMetrics);
   ("GET", [Lit "api"; Lit "events"], λ _, EListEvents);
   ("GET", [Lit "api"; Lit "alerts"], λ _, EListAlerts);
   ("GET", [Lit "api"; Lit "automation"], λ _, EListAutomation);
   ("GET", [Lit "api"; Lit "automation"; Id], EGetAutomation);
   ("POST", [Lit "api"; Lit "automation"; Id; Lit "approve"], EApprove)]
  ++ (if sv_Health srv then
        [("GET", [Lit "api"; Lit "health"], λ _, EHealth);
         ("GET", [Lit "api"; Lit "readiness"], λ _, EReadiness);
         ("GET", [Lit "api"; Lit "health"; Lit "dependencies"], λ _, EDependencies)] else [])
  ++ (if sv_Metrics srv then [("GET", [Lit "metrics"], λ _, EMetrics)] else []).

(** The endpoint of a path, with the method it is registered for. No path matches two patterns. *)
Definition endpoint_of (path : list string) : option (string * endpoint) :=
  head (omap (λ '(m, pat, k), (λ id, (m, k id)) <$> match_path pat path "") routes).

(** A pattern for GET also serves HEAD. *)
Definition method_serves (registered method : string) : bool :=
  bool_decide (registered = method) || (bool_decide (registered = "GET") && bool_decide (method = "HEAD")).
Definition route (method : string) (path : list string) : option endpoint :=
  match endpoint_of path with
  | Some (m, e) => if method_serves m method then Some e else None
  | None => None
  end.

(** The catch-all: methods that would have been served. *)
Definition allowed_methods (r : HTTPRequest) : list string :=
  filter (λ m, m ≠ hq_Method r ∧ is_Some (route m (hq_Path r))) ["GET"; "POST"; "PUT"; "PATCH"; "DELETE"].
Definition catch_all (r : HTTPRequest) : HTTPResponse :=
  match allowed_methods r with
  | [] => fail rid 404 "not_found" "no such endpoint"
  | allow => (fail rid 405 "method_not_allowed" "method not allowed for this endpoint")
               <| hs_Header := {["Content-Type" := "application/json"; "Allow" := Join allow ", "]} |>
  end.

(** The health and metrics handlers of other packages. *)
Context (other : endpoint → HTTPResponse).

Definition serve (r : HTTPRequest) (s : S) : result string HTTPResponse * S :=
  match route (hq_Method r) (hq_Path r) with
  | None => (Ok (catch_all r), s)
  | Some EListDevices => (listDevices r s, s)
  | Some (EGetDevice id) => (getDevice id r s, s)
  | Some (EDeviceState id) => (getDeviceState id r s, s)
  | Some (EDeviceMetrics id) => (getDeviceMetrics id r s, s)
  | Some EListEvents => (listEvents r s, s)
  | Some EListAlerts => (listAlerts r s, s)
  | Some EListAutomation => (listAutomation r s, s)
  | Some (EGetAutomation id) => (getAutomation id r s, s)
  | Some (EApprove id) => let '(resp, s) := approve id r s in (Ok resp, s)
  | Some e => (Ok (other e), s)
  end.

End handlers.

(** The middleware: the request id, and recovery from panics. *)
Definition request_id (fresh : string) (r : HTTPRequest) : string :=
  if bool_decide (hq_RequestID r = "") || (64 <? slen (hq_RequestID r))%Z then fresh else hq_RequestID r.
Definition middleware (rid : string) (out : result string HTTPResponse) : HTTPResponse :=
  let resp := match out with Ok resp => resp | Err _ => fail rid 500 "internal" "internal error" end in
  resp <| hs_Header := <["X-Request-Id" := rid]> (<["X-Content-Type-Options" := "nosniff"]> (hs_Header resp)) |>.

(** [Server.Handler]: [fresh] is what [newRequestID] gives. *)
Definition handle {S} `{ReadOps S} (time_Parse : string → option Time) (srv : Server S) (other : endpoint → HTTPResponse)
    (fresh : string) (r : HTTPRequest) (s : S) : HTTPResponse * S :=
  let rid := request_id fresh r in
  let '(out, s) := serve time_Parse srv rid other r s in (middleware rid out, s).

(** The in-memory store as a reader. *)
#[export] Instance MemStore_reads `{Sha256} `{CursorCodec} : ReadOps MemStore := {|
  rd_ListDevices s := Ok (ListDevices s);
  rd_ListAlerts f p s := ListAlerts f p s;
  rd_DeviceStates id s := Ok (DeviceStates id s);
  rd_Metrics id m since until limit s := Ok (Metrics id m since until limit s);
  rd_LatestMetrics id s := Ok (LatestMetrics id s);
  rd_ListEvents f p s := ListEvents f p s;
  rd_ListAutomation f p s := ListAutomation f p s;
  rd_GetAutomation id s := (mem_GetAutomation id s).1;
|}.

(** The API shares the store with the automation engine. *)
#[export] Instance world_reads {Sto} `{ReadOps Sto} : ReadOps (world Sto) := {|
  rd_ListDevices w := rd_ListDevices (w_store w);
  rd_ListAlerts f p w := rd_ListAlerts f p (w_store w);
  rd_DeviceStates id w := rd_DeviceStates id (w_store w);
  rd_Metrics id m since until limit w := rd_Metrics id m since until limit (w_store w);
  rd_LatestMetrics id w := rd_LatestMetrics id (w_store w);
  rd_ListEvents f p w := rd_ListEvents f p (w_store w);
  rd_ListAutomation f p w := rd_ListAutomation f p (w_store w);
  rd_GetAutomation id w := rd_GetAutomation id (w_store w);
|}.
