(* ===== verification/ApiThms.v ===== *)
(** * Theorems about the HTTP interface *)

From S2P Require Import Prelude GoLib GoFloat Domain Regexp Session Store Inventory MemStore AutoStore AutoStoreFacts StateFacts Engine Api.

(** ** Lemmas *)

Section responses.
Context {S : Type} `{ReadOps S} (time_Parse : string → option Time) (srv : Server S) (rid : string).

(** What a response of status 500 and above may say. *)
Definition discreet (resp : HTTPResponse) : Prop :=
  (500 ≤ hs_Status resp)%Z →
  (hs_Status resp, hs_Body resp) = (503%Z, BError "unavailable" "the service is temporarily unable to answer; try again shortly" rid) ∨
  (hs_Status resp, hs_Body resp) = (500%Z, BError "internal" "internal error" rid).
Definition discreet_out (out : result string HTTPResponse) : Prop := match out with Ok resp => discreet resp | Err _ => True end.

Lemma discreet_below resp : (hs_Status resp < 500)%Z → discreet resp.
Proof. intros ??. lia. Qed.
Lemma discreet_failErr e : discreet (failErr rid e).
Proof. unfold failErr. destruct (CategoryOf e); first [by apply discreet_below|by intros _; right|by intros _; left]. Qed.
Lemma discreet_respond b : discreet_out (respond b).
Proof. by apply discreet_below. Qed.
Lemma discreet_or_fail {A} (m : res A) k : (∀ a, discreet_out (k a)) → discreet_out (or_fail rid m k).
Proof. intros Hk. destruct m; [apply Hk|apply discreet_failErr]. Qed.
Lemma discreet_findDevice id s k : (∀ d, discreet_out (k d)) → discreet_out (findDevice rid id s k).
Proof. intros Hk. apply discreet_or_fail. intros ds. destruct (List.find _ ds); [apply Hk|by apply discreet_below]. Qed.

(** The endpoints of this package; the others belong to the health checker and to telemetry. *)
Definition own_endpoint (e : endpoint) : bool := match e with EHealth | EReadiness | EDependencies | EMetrics => false | _ => true end.

Lemma discreet_approve id r s : discreet (approve srv rid id r s).1.
Proof.
  unfold approve. destruct (sv_Auth srv) as [identify|]; [|by apply discreet_below].
  destruct (sv_Approver srv) as [Ap|]; [|by apply discreet_below].
  destruct (identify _) as [who|]; [|by apply discreet_below].
  destruct (rd_GetAutomation id s) as [[[q|] ?]|e]; [|by apply discreet_below|apply discreet_failErr].
  destruct (Ap id who s) as [[[]|e] s'].
  - destruct (rd_GetAutomation id s') as [[[q'|] ?]|e]; [by apply discreet_below|apply discreet_failErr..].
  - simpl. case_bool_decide; [by apply discreet_below|apply discreet_failErr].
Qed.

Lemma discreet_serve other r s :
  (∀ e, route srv (hq_Method r) (hq_Path r) = Some e → own_endpoint e = true) → discreet_out (serve time_Parse srv rid other r s).1.
Proof.
  intros Hown. unfold serve. destruct (route _ _ _) as [e|]; cbn [fst].
  2: { unfold catch_all. destruct (allowed_methods _ _); by apply discreet_below. }
  specialize (Hown e eq_refl). destruct e; try discriminate; cbn [fst].
  - apply discreet_or_fail. intros ds. apply discreet_or_fail. intros p. destruct (device_page _ _); [apply discreet_respond|done].
  - apply discreet_findDevice. intros d. apply discreet_or_fail. intros [f ?]. apply discreet_respond.
  - apply discreet_findDevice. intros d. apply discreet_or_fail. intros recs. apply discreet_respond.
  - apply discreet_findDevice. intros d. do 4 (apply discreet_or_fail; intros ?). apply discreet_respond.
  - do 4 (apply discreet_or_fail; intros ?). apply discreet_or_fail. intros [items next]. apply discreet_respond.
  - do 2 (apply discreet_or_fail; intros ?). apply discreet_or_fail. intros [items next]. apply discreet_respond.
  - do 2 (apply discreet_or_fail; intros ?). apply discreet_or_fail. intros [items next]. apply discreet_respond.
  - apply discreet_or_fail. intros [[q|] ?]; [apply discreet_respond|by apply discreet_below].
  - pose proof (discreet_approve id r s) as Hd. by destruct (approve _ _ _ _ _).
Qed.
End responses.

Lemma endpoint_of_route {S} (srv : Server S) path m e :
  endpoint_of srv path = Some (m, e) → ∃ pat k id, (m, pat, k) ∈ routes srv ∧ match_path pat path "" = Some id ∧ e = k id.
Proof.
  intros Hh%head_Some_elem_of%list_elem_of_omap. destruct Hh as ([[m' pat] k] & Hin & Hm).
  apply fmap_Some in Hm as (id & Hid & [= -> ->]). by exists pat, k, id.
Qed.

Lemma match_path_fills pat path d id :
  match_path pat path d = Some id → Forall2 (λ p s, match p with Lit l => s = l | Id => s ≠ "" end) pat path.
Proof.
  revert path d. induction pat as [|[l|] pat IH]; intros [|p path] d Hm; simplify_eq/=; [constructor|..].
  - case_bool_decide; [|done]. constructor; eauto.
  - case_bool_decide; [done|]. constructor; eauto.
Qed.

Lemma route_approve {S} (srv : Server S) m path id :
  route srv m path = Some (EApprove id) → m = "POST" ∧ path = ["api"; "automation"; id; "approve"].
Proof.
  unfold route. destruct (endpoint_of srv path) as [[m' e]|] eqn:He; [|done]. destruct (method_serves m' m) eqn:Hm; [|done].
  intros [= ->]. apply endpoint_of_route in He as (pat & k & id' & Hin & Hp & Heq). unfold routes in Hin.
  destruct (sv_Health srv), (sv_Metrics srv); simpl in Hin;
    repeat (apply elem_of_cons in Hin as [Hin|Hin]; [injection Hin as -> -> ->; try discriminate Heq|]); try (by apply not_elem_of_nil in Hin).
  all: unfold method_serves in Hm; repeat case_bool_decide; simplify_eq/=.
  all: destruct path as [|p1 [|p2 [|p3 [|p4 [|p5 path]]]]]; simplify_eq/=; repeat case_bool_decide; by simplify_eq/=.
Qed.

(** ** Pages of devices *)

Definition ids_sorted : list DeviceDTO → Prop := StronglySorted (λ a b, str_lt (dd_ID a) (dd_ID b) = true).

Lemma ids_sorted_app l1 l2 a b : ids_sorted (l1 ++ l2) → a ∈ l1 → b ∈ l2 → str_lt (dd_ID a) (dd_ID b) = true.
Proof. intros Hs Ha Hb. apply StronglySorted_app in Hs as (Hc & _ & _). by apply Hc. Qed.

(** The page after the last id of [pre] starts where [pre] ends. *)
Lemma start_after_last pre x rest :
  ids_sorted ((pre ++ [x]) ++ rest) → dd_ID x ≠ "" → start_after (dd_ID x) ((pre ++ [x]) ++ rest) = length (pre ++ [x]).
Proof.
  intros Hs Hx. unfold start_after. rewrite bool_decide_eq_false_2 by done. rewrite list_find_app_r.
  - destruct rest as [|y rest]; simpl.
    + by rewrite app_nil_r.
    + rewrite decide_True; [done|]. apply (ids_sorted_app _ _ x y Hs); [|by left]. apply elem_of_app. right. by left.
  - apply list_find_None, Forall_forall. intros y Hy Hlt. apply elem_of_app in Hy as [Hy|Hy%list_elem_of_singleton].
    + rewrite <-app_assoc in Hs.
      assert (str_lt (dd_ID y) (dd_ID x) = true) as Hyx by (apply (ids_sorted_app pre ([x] ++ rest)); [done|done|by left]).
      by rewrite (str_lt_asym _ _ Hyx) in Hlt.
    + subst y. by rewrite str_lt_irrefl in Hlt.
Qed.

(** What a page holds when its cursor points at the end of [pre]. *)
Lemma device_page_rest pre rest cursor limit :
  (0 < limit)%Z → (Z.of_nat (length (pre ++ rest)) + limit ≤ int_max)%Z → start_after cursor (pre ++ rest) = length pre →
  device_page (pre ++ rest) (MkPage limit cursor) =
    Ok (page (take (Z.to_nat limit) rest)
          (if (Z.to_nat limit <? length rest)%nat then from_option dd_ID "" (last (take (Z.to_nat limit) rest)) else "")).
Proof.
  intros Hl Hb Hs. unfold device_page. cbn [pg_Cursor pg_Limit]. rewrite Hs, wrap64_small by (rewrite length_app in Hb; unfold int_min; lia).
  rewrite length_app in *. assert (∃ n, limit = Z.of_nat n) as [n ->] by (exists (Z.to_nat limit); lia). rewrite Nat2Z.id.
  destruct (Nat.ltb_spec n (length rest)) as [Hn|Hn].
  - rewrite Z.min_l by lia. assert (n ≠ 0) as Hn0 by lia.
    rewrite (proj2 (Z.ltb_lt _ _)), (proj2 (Z.leb_gt _ _)), (proj2 (Z.ltb_ge _ _)) by lia.
    replace (Z.to_nat (Z.of_nat (length pre) + Z.of_nat n - 1)) with (length pre + (n - 1)) by lia.
    replace (Z.to_nat (Z.of_nat (length pre) + Z.of_nat n)) with (length pre + n) by lia.
    rewrite lookup_app_r by lia. replace (length pre + (n - 1) - length pre) with (n - 1) by lia.
    rewrite take_app_add, drop_app_length.
    rewrite last_lookup, length_take, Nat.min_l, lookup_take_lt by lia.
    replace (pred n) with (n - 1) by lia. destruct (rest !! (n - 1)) eqn:Hr; [done|]. apply lookup_ge_None in Hr. lia.
  - rewrite Z.min_r by lia. rewrite (proj2 (Z.ltb_ge _ _)), (proj2 (Z.ltb_ge _ _)) by lia.
    rewrite Nat2Z.id, (take_ge (pre ++ rest)) by (rewrite length_app; lia). by rewrite drop_app_length, take_ge by lia.
Qed.

(** Following [next_cursor]: the items of the pages, [None] when a page is an error or the fuel runs out. *)
Definition page_pages (l : list DeviceDTO) (limit : Z) : nat → string → option (list DeviceDTO) :=
  fix go fuel cursor :=
    match fuel, device_page l (MkPage limit cursor) with
    | Datatypes.S fuel, Ok pg =>
        match lp_NextCursor pg with None => Some (lp_Items pg) | Some c => app (lp_Items pg) <$> go fuel c end
    | _, _ => None
    end.

Lemma page_pages_rest limit fuel pre rest cursor :
  (0 < limit)%Z → (Z.of_nat (length (pre ++ rest)) + limit ≤ int_max)%Z → ids_sorted (pre ++ rest) → Forall (λ d, dd_ID d ≠ "") rest →
  start_after cursor (pre ++ rest) = length pre → length rest < fuel → page_pages (pre ++ rest) limit fuel cursor = Some rest.
Proof.
  intros Hl. revert pre rest cursor. induction fuel as [|fuel IH]; intros pre rest cursor Hb Hs Hne Hst Hf; [lia|].
  simpl. rewrite device_page_rest by done. set (n := Z.to_nat limit).
  destruct (Nat.ltb_spec n (length rest)) as [Hn|Hn]; simpl.
  2: { by rewrite take_ge. }
  assert (∃ l x, take n rest = l ++ [x]) as (l & x & Hlx).
  { destruct (take n rest) as [|y l] eqn:Ht using rev_ind; [|by eexists _, _].
    apply (f_equal length) in Ht. rewrite length_take in Ht. simpl in Ht. lia. }
  rewrite Hlx, last_snoc. simpl. assert (dd_ID x ≠ "") as Hx.
  { rewrite Forall_forall in Hne. apply Hne. apply (subseteq_take n). rewrite Hlx. apply elem_of_app. right. by left. }
  rewrite bool_decide_eq_false_2 by done. rewrite <-(take_drop n rest), Hlx, app_assoc in Hs, Hb |- * at 1.
  rewrite (app_assoc pre l [x]) in *.
  rewrite IH; [|done|done|by apply Forall_drop|by apply start_after_last|rewrite length_drop; lia].
  simpl. by rewrite <-Hlx, take_drop.
Qed.

(** ** Following the device listing through the handler *)

Definition with_cursor (c : string) (r : HTTPRequest) : HTTPRequest :=
  MkHTTPRequest (hq_Method r) (hq_Path r) (λ n, if bool_decide (n = "cursor") then c else hq_Query r n) (hq_Authorization r) (hq_RequestID r).

(** A client that asks for the first page and then for each next one. *)
Definition follow_devices {S} `{ReadOps S} (srv : Server S) (rid : string) (r : HTTPRequest) (s : S) : nat → string → option (list DeviceDTO) :=
  fix go fuel cursor :=
    match fuel, listDevices srv rid (with_cursor cursor r) s with
    | Datatypes.S fuel, Ok (MkHTTPResponse 200 _ (BDevices pg)) =>
        match lp_NextCursor pg with None => Some (lp_Items pg) | Some c => app (lp_Items pg) <$> go fuel c end
    | _, _ => None
    end.

Lemma pageParams_positive {S} (srv : Server S) r p : pageParams srv r = Ok p → (0 < pg_Limit p)%Z ∧ pg_Cursor p = hq_Query r "cursor".
Proof.
  unfold pageParams, default_size. case_bool_decide.
  - intros [= <-]. split; [|done]. cbn [pg_Limit]. destruct (Z.leb_spec (sv_DefaultPageSize srv) 0); lia.
  - destruct (Atoi _) as [n|]; [|done]. destruct (_ || _) eqn:Hb; [done|]. intros [= <-]. split; [|done].
    apply orb_false_iff in Hb as [Hb _]. cbn [pg_Limit]. lia.
Qed.

Lemma pageParams_with_cursor {S} (srv : Server S) r p c :
  pageParams srv r = Ok p → pageParams srv (with_cursor c r) = Ok (MkPage (pg_Limit p) c).
Proof.
  unfold pageParams. simpl. case_bool_decide; [by intros [= <-]|]. destruct (Atoi _); [|done]. by destruct (_ || _); intros [= <-].
Qed.

Lemma follow_devices_pages {S} `{ReadOps S} (srv : Server S) rid r s p devices fuel cursor :
  rd_ListDevices s = Ok devices → pageParams srv r = Ok p →
  follow_devices srv rid r s fuel cursor = page_pages (deviceDTO <$> filter (λ d, device_wanted r d = true) devices) (pg_Limit p) fuel cursor.
Proof.
  intros Hd Hp. revert cursor. induction fuel as [|fuel IH]; intros cursor; [done|]. simpl. unfold listDevices. rewrite Hd. simpl.
  rewrite (pageParams_with_cursor _ _ _ _ Hp). simpl. unfold device_wanted. simpl.
  destruct (device_page _ _) as [pg|]; simpl; [|done]. destruct (lp_NextCursor pg); [|done]. by rewrite IH.
Qed.

Lemma sorted_filter_dto r devices :
  StronglySorted (λ a b, str_lt (d_ID a) (d_ID b) = true) devices →
  ids_sorted (deviceDTO <$> filter (λ d, device_wanted r d = true) devices).
Proof.
  unfold ids_sorted. induction 1 as [|d l _ IH Hd]; [constructor|]. rewrite filter_cons. case_decide; [|done].
  simpl. constructor; [done|]. apply Forall_fmap, Forall_forall. intros x [_ Hx]%list_elem_of_filter. simpl.
  exact (proj1 (Forall_forall _ _) Hd x Hx).
Qed.

(** The in-memory store lists devices in the order of their ids, each once. *)
Lemma ListDevices_sorted s :
  map_Forall (λ id d, d_ID d = id) (ms_devices s) → StronglySorted (λ a b, str_lt (d_ID a) (d_ID b) = true) (ListDevices s).
Proof.
  intros Hk. unfold ListDevices. apply (sort_stable_strict d_ID by_id).
  - intros x y. apply str_lt_asym.
  - intros x y z. apply str_lt_trans.
  - intros x y. apply str_lt_total.
  - rewrite <-list_fmap_compose, (list_fmap_ext _ fst); [apply NoDup_fst_map_to_list|]. intros i [id d] Hi. simpl.
    apply Hk. apply elem_of_map_to_list. by eapply list_elem_of_lookup_2.
Qed.

(** ** Theorems *)

Section theorems.
Context {S : Type} `{ReadOps S} (time_Parse : string → option Time) (srv : Server S) (other : endpoint → HTTPResponse).

(** C25. The API has one write, and it is authenticated: a request that changes the store is a POST to
    an automation request's approve endpoint, on a server with an authenticator and an approver, whose
    Authorization header names an identity, for a request the store has; and the change is the
    approver's, called with that id and the identity of the header. Every other request leaves the
    store as it was. *)
Theorem only_authenticated_approvals_write fresh r s :
  let '(resp, s') := handle time_Parse srv other fresh r s in
  s' = s ∨ ∃ id who identify Approve req_res,
    hq_Method r = "POST" ∧ hq_Path r = ["api"; "automation"; id; "approve"] ∧
    sv_Auth srv = Some identify ∧ identify (hq_Authorization r) = Some who ∧
    sv_Approver srv = Some Approve ∧ rd_GetAutomation id s = Ok req_res ∧ is_Some req_res.1 ∧ s' = (Approve id who s).2.
Proof.
  unfold handle, serve. destruct (route _ _ _) as [e|] eqn:Hr; [|by left].
  destruct e; try by left. apply route_approve in Hr as [Hm Hp]. unfold approve.
  destruct (sv_Auth srv) as [identify|] eqn:Ha; [|by left]. destruct (sv_Approver srv) as [Ap|] eqn:Hap; [|by left].
  destruct (identify _) as [who|] eqn:Hw; [|by left].
  destruct (rd_GetAutomation id s) as [[[q|] res]|e] eqn:Hg; [|by left..].
  destruct (Ap id who s) as [[[]|e] s'] eqn:Happ.
  - destruct (rd_GetAutomation id s') as [[[q'|] ?]|e]; right; exists id, who, identify, Ap, (Some q, res); by rewrite Happ.
  - right. exists id, who, identify, Ap, (Some q, res). by rewrite Happ.
Qed.

(** C24. Internal error text is not shown to clients: an answer of status 500 or above by the package's
    endpoints is one of two fixed messages, whatever error the store, the approver or a panic gave. *)
Theorem server_errors_hide_internals fresh r s :
  (∀ e, route srv (hq_Method r) (hq_Path r) = Some e → own_endpoint e = true) →
  discreet (request_id fresh r) (handle time_Parse srv other fresh r s).1.
Proof.
  intros Hown. unfold handle. pose proof (discreet_serve time_Parse srv (request_id fresh r) other r s Hown) as Hd.
  destruct (serve _ _ _ _ _ _) as [[resp|e] s']; [exact Hd|]. intros _. by right.
Qed.
End theorems.

(** ** Devices without what must stay inside *)

Definition redact (d : Device) : Device := d <| d_CredentialsRef := "" |> <| d_Collection := MkCollectionSpec "" "" 0 |>.
Definition redacted_reads {S} (R : ReadOps S) : ReadOps S := {|
  rd_ListDevices s := match rd_ListDevices s with Ok ds => Ok (redact <$> ds) | Err e => Err e end;
  rd_ListAlerts := rd_ListAlerts;
  rd_DeviceStates := rd_DeviceStates;
  rd_Metrics := rd_Metrics;
  rd_LatestMetrics := rd_LatestMetrics;
  rd_ListEvents := rd_ListEvents;
  rd_ListAutomation := rd_ListAutomation;
  rd_GetAutomation := rd_GetAutomation;
|}.

Lemma findDevice_redacted {S} (R : ReadOps S) rid id s k k' :
  (∀ d, k (redact d) = k' d) → findDevice (H:=redacted_reads R) rid id s k = findDevice (H:=R) rid id s k'.
Proof.
  intros Hk. unfold findDevice. simpl. destruct (rd_ListDevices s) as [ds|e]; [|done]. simpl.
  induction ds as [|d ds IH]; [done|]. simpl. case_bool_decide; [apply Hk|exact IH].
Qed.

Lemma listDevices_redacted {S} (R : ReadOps S) srv rid r s : listDevices (H:=redacted_reads R) srv rid r s = listDevices (H:=R) srv rid r s.
Proof.
  unfold listDevices. cbn [rd_ListDevices redacted_reads]. destruct (rd_ListDevices s) as [ds|e]; [|done]. cbn [or_fail]. cbv zeta.
  assert (deviceDTO <$> filter (λ d, device_wanted r d = true) (redact <$> ds) = deviceDTO <$> filter (λ d, device_wanted r d = true) ds) as ->; [|done].
  induction ds as [|d ds IH]; [done|]. rewrite fmap_cons, !filter_cons.
  change (device_wanted r (redact d)) with (device_wanted r d). case_decide; [|exact IH]. rewrite !fmap_cons. by f_equal.
Qed.

(** Nothing the API answers depends on a device's credentials reference or collection settings:
    with both blanked in every device the store lists, every request gets the same answer. *)
Theorem credentials_stay_inside {S} (R : ReadOps S) time_Parse srv other fresh r s :
  handle (H:=redacted_reads R) time_Parse srv other fresh r s = handle (H:=R) time_Parse srv other fresh r s.
Proof.
  unfold handle, serve. destruct (route _ _ _) as [[]|]; try reflexivity.
  - by rewrite listDevices_redacted.
  - unfold getDevice. by erewrite findDevice_redacted.
  - unfold getDeviceState. by erewrite findDevice_redacted.
  - unfold getDeviceMetrics. by erewrite findDevice_redacted.
Qed.

(** C38. Following [next_cursor] from the first page gives every device the filter wants, in the order
    of their ids and each once, after at most one page more than there are devices, whatever valid limit
    the client chooses; no page panics. *)
Theorem device_pages_complete `{Sha256, CursorCodec} srv rid r p (s : MemStore) :
  map_Forall (λ id d, d_ID d = id ∧ id ≠ "") (ms_devices s) → pageParams srv r = Ok p →
  (Z.of_nat (size (ms_devices s)) + pg_Limit p ≤ int_max)%Z →
  follow_devices srv rid r s (Datatypes.S (size (ms_devices s))) "" =
    Some (deviceDTO <$> filter (λ d, device_wanted r d = true) (ListDevices s)).
Proof.
  intros Hk Hp Hb. rewrite (follow_devices_pages _ _ _ _ p (ListDevices s)) by done.
  assert (length (filter (λ d, device_wanted r d = true) (ListDevices s)) ≤ size (ms_devices s)) as Hlen.
  { etrans; [apply length_filter|]. unfold ListDevices. by rewrite sort_stable_perm, length_fmap, length_map_to_list. }
  apply (page_pages_rest _ _ []).
  - by eapply pageParams_positive.
  - simpl. rewrite length_fmap. lia.
  - apply sorted_filter_dto, ListDevices_sorted. intros id d Hd. by destruct (Hk id d Hd).
  - apply Forall_fmap, Forall_forall. intros d [_ Hd]%list_elem_of_filter. unfold ListDevices in Hd.
    rewrite elem_of_sort_stable in Hd. apply list_elem_of_fmap in Hd as ([id d'] & -> & Hd%elem_of_map_to_list).
    simpl. by destruct (Hk id d' Hd) as [-> ?].
  - done.
  - rewrite length_fmap. lia.
Qed.

(** A caller is identified exactly when the Authorization header is "Bearer " followed by a
    nonempty configured token, as that token's identity; the order in which the tokens are visited
    does not matter. *)
Theorem identity_is_the_tokens `{RangeOrder} tokens auth who :
  Identify tokens auth = Some who ↔ ∃ tok, tok ≠ "" ∧ auth = "Bearer " +:+ tok ∧ tokens !! tok = Some who.
Proof.
  assert (∀ (l : list (string * string)) tok found, NoDup (l.*1) → (foldl (λ found t, if bool_decide (t.1 = tok) then Some t.2 else found) found l = Some who ↔
            (tok, who) ∈ l ∨ ((tok ∉ l.*1) ∧ found = Some who))) as Hfold.
  { induction l as [|[t w] l IH]; intros tok found Hnd.
    - simpl. set_solver.
    - simpl in *. apply NoDup_cons in Hnd as [Ht Hnd]. rewrite IH by done. case_bool_decide; [subst|]; set_unfold; naive_solver. }
  unfold Identify. destruct (HasPrefix auth "Bearer ") eqn:Hp; simpl.
  - apply HasPrefix_spec in Hp as [tok ->]. rewrite TrimPrefix_append. case_bool_decide as Ht.
    + split; [done|]. intros (tok' & Hne & Heq & _). by simplify_eq/=.
    + rewrite Hfold by (rewrite range_order_perm; apply NoDup_fst_map_to_list).
      rewrite range_order_perm, elem_of_map_to_list. split.
      * intros [Hl|[_ [=]]]. eauto.
      * intros (tok' & _ & Heq & Hl). simplify_eq/=. by left.
  - split; [done|]. intros (tok & _ & -> & _). by rewrite (proj2 (HasPrefix_spec _ _)) in Hp by eauto.
Qed.

(** The health shown for a device: unknown without state, down if anything tracked is DOWN,
    otherwise degraded if anything is not UP, otherwise healthy; the order of the records is irrelevant. *)
Theorem device_health_is_worst recs :
  device_health recs =
    (if bool_decide (recs = []) then "unknown"
     else if existsb (λ r, bool_decide (sr_State r = StateDown)) recs then "down"
     else if forallb (λ r, bool_decide (sr_State r = StateUp)) recs then "healthy" else "degraded").
Proof.
  assert (∀ l h, h ∈ ["healthy"; "degraded"; "down"] → foldl health_step h l =
    if bool_decide (h = "down") || existsb (λ r, bool_decide (sr_State r = StateDown)) l then "down"
    else if bool_decide (h = "healthy") && forallb (λ r, bool_decide (sr_State r = StateUp)) l then "healthy" else "degraded") as Hf.
  { induction l as [|r l IH]; intros h Hh.
    - simpl. rewrite orb_false_r, andb_true_r. revert Hh. rewrite !elem_of_cons. by intros [->|[->|[->|[]%elem_of_nil]]].
    - cbn [foldl]. rewrite IH; unfold health_step; revert Hh; rewrite !elem_of_cons, elem_of_nil; intros [->|[->|[->|[]]]];
        cbn [existsb forallb]; destruct (sr_State r); try done; naive_solver. }
  destruct recs as [|r recs]; [done|]. unfold device_health. rewrite Hf by set_solver. done.
Qed.

(** [Approve] of the engine on the in-memory store. *)
Lemma lookup_set_request id q s : ms_autoReq (set_request id q s) !! id = Some q.
Proof. apply lookup_insert_eq. Qed.

Lemma Approve_awaiting id who w q :
  ms_autoReq (w_store w) !! id = Some q → rq_Status q = AutomationAwaitingApproval → TrimSpace who ≠ "" →
  Approve (Sto:=MemStore) id who w =
    (Ok tt, MkWorld (set_request id (q <| rq_Status := AutomationApproved |> <| rq_ApprovedBy := who |>) (w_store w)) (w_calls w)).
Proof.
  intros Hq Hs Hw. unfold Approve. rewrite bool_decide_eq_false_2 by done.
  unfold mbind, ST_bind, on_store. cbn [ApproveAutomation MemStore_auto]. unfold mem_ApproveAutomation. rewrite Hq, bool_decide_eq_false_2 by naive_solver.
  done.
Qed.

Lemma Approve_refused id who w q :
  ms_autoReq (w_store w) !! id = Some q → ¬ (rq_Status q = AutomationAwaitingApproval ∧ TrimSpace who ≠ "") →
  ∃ e, CategoryOf (Some e) = CategoryValidation ∧ Approve (Sto:=MemStore) id who w = (Err e, w).
Proof.
  intros Hq Hno. unfold Approve. case_bool_decide as Hw; [by eexists; split; [|reflexivity]|].
  unfold mbind, ST_bind, on_store. cbn [ApproveAutomation MemStore_auto]. unfold mem_ApproveAutomation. rewrite Hq, bool_decide_eq_true_2 by naive_solver.
  eexists. destruct w. split; [|reflexivity]. done.
Qed.

(** C19. What the approve endpoint does with the automation engine behind it, on every branch: without
    a valid token 401; for an unknown request 404; for a request that is not awaiting approval, or an
    identity that is blank, 409; and none of these changes anything. Otherwise the answer is 200 with the
    request as approved by the token's identity, and that is the only change of the store. *)
Theorem approval_through_the_api `{Sha256, CursorCodec, RangeOrder} time_Parse tokens health metrics def max other fresh r id (w : world MemStore) :
  let srv := MkServer (Some (λ id who, Approve (Sto:=MemStore) id who)) (Some (Identify tokens)) health metrics def max in
  hq_Method r = "POST" → hq_Path r = ["api"; "automation"; id; "approve"] → id ≠ "" →
  let '(resp, w') := handle time_Parse srv other fresh r w in
  match Identify tokens (hq_Authorization r), ms_autoReq (w_store w) !! id with
  | None, _ => hs_Status resp = 401%Z ∧ w' = w
  | Some _, None => hs_Status resp = 404%Z ∧ w' = w
  | Some who, Some q =>
      if bool_decide (rq_Status q = AutomationAwaitingApproval ∧ TrimSpace who ≠ "") then
        let q' := q <| rq_Status := AutomationApproved |> <| rq_ApprovedBy := who |> in
        hs_Status resp = 200%Z ∧ hs_Body resp = BAutomation (automationFrom q' (ms_autoRes (w_store w) !! id)) ∧
        w' = MkWorld (set_request id q' (w_store w)) (w_calls w)
      else hs_Status resp = 409%Z ∧ w' = w
  end.
Proof.
  intros srv Hm Hp Hid. unfold handle, serve. rewrite Hm, Hp.
  assert (route srv "POST" ["api"; "automation"; id; "approve"] = Some (EApprove id)) as ->.
  { unfold route, endpoint_of, routes. simpl. by rewrite bool_decide_eq_false_2. }
  unfold approve. simpl sv_Auth. simpl sv_Approver. cbv iota.
  destruct (Identify tokens _) as [who|]. 2: { done. }
  assert (∀ w, rd_GetAutomation id w = (mem_GetAutomation id (w_store w)).1) as Hget by done. rewrite Hget. unfold mem_GetAutomation at 1.
  destruct (ms_autoReq (w_store w) !! id) as [q|] eqn:Hq. 2: { done. }
  cbn [fst]. cbv iota. case_bool_decide as Hok.
  - destruct Hok as [Hs Hw]. rewrite (Approve_awaiting _ _ _ q) by done. cbv zeta. rewrite Hget. unfold mem_GetAutomation. cbn [w_store].
    rewrite lookup_set_request. by destruct w.
  - destruct (Approve_refused _ who _ _ Hq Hok) as (e & He & ->). by rewrite bool_decide_eq_true_2.
Qed.

(** A first page holds what there is, up to its limit. *)
Lemma first_page_length `{CursorCodec} {T} (l : list T) key limit :
  (1 ≤ limit ≤ 1000)%Z → ∃ items next, pageOf l key (MkPage limit "") = Ok (items, next) ∧ length items = Nat.min (Z.to_nat limit) (length l).
Proof.
  intros Hl. unfold pageOf, DecodeCursor. cbn [pg_Cursor pg_Limit]. rewrite (bool_decide_eq_true_2 ("" = "")) by done.
  unfold mbind, result_bind. cbv beta iota zeta.
  assert (clampLimit limit = limit) as -> by (unfold clampLimit; destruct (Z.leb_spec limit 0), (Z.ltb_spec 1000 limit); lia).
  rewrite filter_all by (intros x _; by rewrite (bool_decide_eq_false_2 ("" ≠ "")) by naive_solver).
  set (out := take _ l). assert (length out = Nat.min (Z.to_nat (limit + 1)) (length l)) as Hout by apply length_take.
  destruct (Z.ltb_spec limit (Z.of_nat (length out))) as [Hlt|Hge].
  - assert (length (take (Z.to_nat limit) out) = Z.to_nat limit) as Ht by (rewrite length_take; lia).
    destruct (last (take (Z.to_nat limit) out)) eqn:Hlast.
    + eexists _, _. split; [reflexivity|]. lia.
    + apply last_None in Hlast. rewrite Hlast in Ht. simpl in Ht. lia.
  - eexists _, _. split; [reflexivity|]. lia.
Qed.

(** The number of open alerts of a device is the number of its firing alerts, but never more than 1000. *)
Theorem open_alerts_counted `{Sha256, CursorCodec} rid id r (s : MemStore) d :
  id ≠ "" → List.find (λ d, bool_decide (d_ID d = id)) (ListDevices s) = Some d →
  ∃ h n, getDevice rid id r s = Ok (MkHTTPResponse 200 h (BDevice ((deviceDTO d) <| dd_OpenAlerts := Some n |>))) ∧
    n = Z.min 1000 (Z.of_nat (length (filter (λ a, al_Status a = AlertFiring ∧ al_DeviceID a = d_ID d) (ms_alerts s)))).
Proof.
  intros Hid Hf. unfold getDevice, findDevice. cbn [rd_ListDevices MemStore_reads or_fail]. rewrite Hf.
  cbn [rd_ListAlerts MemStore_reads]. unfold ListAlerts. set (l := sort_stable _ _).
  assert (length l = length (filter (λ a, al_Status a = AlertFiring ∧ al_DeviceID a = d_ID d) (ms_alerts s))) as <-.
  { unfold l. rewrite sort_stable_perm. f_equal. apply list_filter_iff. intros a. unfold alert_matches. cbn [af_Status af_DeviceID].
    apply find_some in Hf as [_ Hf]. apply bool_decide_eq_true in Hf. rewrite (bool_decide_eq_true_2 (d_ID d ≠ "")) by congruence.
    rewrite negb_true_iff, orb_false_iff, andb_true_l, !bool_decide_eq_false. 
    destruct (decide (al_Status a = AlertFiring)), (decide (al_DeviceID a = d_ID d)); naive_solver. }
  destruct (first_page_length l alert_key 1000) as (items & next & -> & Hlen); [lia|].
  cbn [or_fail]. eexists _, _. split; [reflexivity|]. rewrite Hlen. lia.
Qed.

(** A page size is within what the server allows: a request's limit is taken only between 1 and the
    maximum, without one the default is used, and anything else is answered with 400 and nothing read. *)
Theorem page_limits_enforced {S} `{ReadOps S} time_Parse (srv : Server S) rid r s :
  match pageParams srv r with
  | Ok p => (1 ≤ pg_Limit p)%Z ∧ (hq_Query r "limit" = "" ∧ pg_Limit p = default_size srv ∨
                                  Atoi (hq_Query r "limit") = Some (pg_Limit p) ∧ (pg_Limit p ≤ max_size srv)%Z)
  | Err e => ∀ h, h ∈ [listEvents time_Parse srv rid r s; listAlerts srv rid r s; listAutomation srv rid r s] →
               h = Ok (fail rid 400 "invalid_request" ("validation: limit must be an integer between 1 and " +:+ FormatInt (max_size srv)))
  end.
Proof.
  destruct (pageParams srv r) as [p|e] eqn:Hp.
  - split; [apply pageParams_positive in Hp as [? _]; lia|]. revert Hp. unfold pageParams. case_bool_decide as Hv; [intros [= <-]; by left|].
    destruct (Atoi _) as [n|]; [|done]. destruct (_ || _) eqn:Hb; [done|]. intros [= <-]. right. split; [done|]. apply orb_false_iff in Hb as [_ Hb].
    cbn [pg_Limit]. lia.
  - assert (e = Errorf CategoryValidation ("limit must be an integer between 1 and " +:+ FormatInt (max_size srv))) as He.
    { revert Hp. unfold pageParams. case_bool_decide; [done|]. destruct (Atoi _); [destruct (_ || _)|]; congruence. }
    intros h. rewrite !elem_of_cons, elem_of_nil. unfold listEvents, listAlerts, listAutomation. rewrite Hp, He. cbn [or_fail].
    by intros [->|[->|[->|[]]]].
Qed.

(** A path the API has, asked with the wrong method, is answered with 405 and the method it takes in
    the Allow header; a path it does not have is answered with 404. *)
Theorem wrong_method_is_told {S} (srv : Server S) rid r :
  route srv (hq_Method r) (hq_Path r) = None →
  match endpoint_of srv (hq_Path r) with
  | Some (m, _) => hs_Status (catch_all srv rid r) = 405%Z ∧ hs_Header (catch_all srv rid r) !! "Allow" = Some m ∧ m ≠ hq_Method r
  | None => hs_Status (catch_all srv rid r) = 404%Z
  end.
Proof.
  unfold catch_all, allowed_methods, route. destruct (endpoint_of srv (hq_Path r)) as [[m e]|] eqn:He.
  - destruct (method_serves m (hq_Method r)) eqn:Hm; [done|]. intros _.
    assert (m = "GET" ∨ m = "POST") as Hreg.
    { apply endpoint_of_route in He as (pat & k & id & Hin & _). unfold routes in Hin.
      destruct (sv_Health srv), (sv_Metrics srv); simpl in Hin; rewrite ?elem_of_cons, elem_of_nil in Hin; naive_solver. }
    assert (m ≠ hq_Method r) as Hne by (intros ->; unfold method_serves in Hm; by rewrite bool_decide_eq_true_2 in Hm).
    assert (∀ m', method_serves m m' = true → m' ∈ ["GET"; "POST"; "PUT"; "PATCH"; "DELETE"] → m' = m) as Huniq.
    { intros m'. unfold method_serves. rewrite !elem_of_cons, elem_of_nil, orb_true_iff, andb_true_iff, !bool_decide_eq_true. naive_solver. }
    assert (filter (λ m', m' ≠ hq_Method r ∧ is_Some (if method_serves m m' then Some e else None)) ["GET"; "POST"; "PUT"; "PATCH"; "DELETE"] = [m]) as ->;
      [|done].
    assert (∀ m', m' ≠ m → m' ∈ ["GET"; "POST"; "PUT"; "PATCH"; "DELETE"] →
              ¬ (m' ≠ hq_Method r ∧ is_Some (if method_serves m m' then Some e else None))) as Hout.
    { intros m' Hm' Hin [_ [? Hs]]. destruct (method_serves m m') eqn:Hserves; [|done]. by apply Hm', Huniq. }
    assert (m ≠ hq_Method r ∧ is_Some (if method_serves m m then Some e else None)) as Hself.
    { split; [done|]. unfold method_serves. rewrite bool_decide_eq_true_2 by done. by eexists. }
    destruct Hreg as [-> | ->]; rewrite !filter_cons, filter_nil;
      repeat (rewrite (decide_False (P:=_ ∧ _)) by (apply Hout; [done|set_solver])); rewrite (decide_True (P:=_ ∧ _)) by exact Hself;
      repeat (rewrite (decide_False (P:=_ ∧ _)) by (apply Hout; [done|set_solver])); done.
  - intros _. rewrite !filter_cons, filter_nil. by rewrite !decide_False by (intros [_ []]; done).
Qed.

(** ** Examples *)

Definition ex_query (l : list (string * string)) (n : string) : string := default "" ((list_to_map l : gmap string string) !! n).
Definition ex_request (m : string) (path : list string) (q : list (string * string)) : HTTPRequest := MkHTTPRequest m path (ex_query q) "Bearer t0k" "r1".
Definition ex_dev (id : string) : Device :=
  MkDevice id "" "10.0.0.1" DeviceSwitch "" "" "" "lab" [] [] "snmp/lab" true 0 (MkCollectionSpec "snmp" "" 0) None.
Definition ex_awaiting : AutomationRequest :=
  MkAutomationRequest "q1" "c1" "bounce" "ev1" "k" "a" "restart_service" "t" None "" "" false AutomationAwaitingApproval 0 0 "".
Definition ex_api_store : MemStore :=
  NewMemStore <| ms_devices := {["a" := ex_dev "a"; "b" := ex_dev "b"; "c" := ex_dev "c"]} |>
    <| ms_alerts := [MkAlert "k" "a" "rule:x" SeverityWarning AlertFiring "" None "ev1" 10 0] |> <| ms_autoReq := {["q1" := ex_awaiting]} |>.
Definition ex_server : Server MemStore := MkServer None None true true 0 0.

(** A reader whose database is away. *)
Definition ex_down : ReadOps unit :=
  let e {A} : res A := Err (EDomain CategoryDependency "query" (EText "pq: password authentication failed for user observer")) in {|
  rd_ListDevices _ := e; rd_ListAlerts _ _ _ := e; rd_DeviceStates _ _ := e; rd_Metrics _ _ _ _ _ _ := e; rd_LatestMetrics _ _ := e;
  rd_ListEvents _ _ _ := e; rd_ListAutomation _ _ _ := e; rd_GetAutomation _ _ := e |}.

Lemma server_errors_hide_internals_witness :
  discreet "r1" (handle (H:=ex_down) (λ _, None) (MkServer None None true true 0 0) (λ _, writeJSON 200 (BOther "ok")) "x" (ex_request "GET" ["api"; "devices"] []) tt).1.
Proof. apply (server_errors_hide_internals (H:=ex_down)). intros e. vm_compute. by intros [= <-]. Defined.

Lemma device_pages_complete_witness :
  fmap (M:=option) (λ l : list DeviceDTO, dd_ID <$> l) (follow_devices (H:=MemStore_reads (H:=sha_id) (H0:=ex_codec)) ex_server "r1"
    (ex_request "GET" ["api"; "devices"] [("limit", "2")]) ex_api_store 4 "") = Some ["a"; "b"; "c"].
Proof.
  assert (pageParams ex_server (ex_request "GET" ["api"; "devices"] [("limit", "2")]) = Ok (MkPage 2 "")) as Hp by (vm_compute; reflexivity).
  pose proof (device_pages_complete (H:=sha_id) (H0:=ex_codec) ex_server "r1" _ _ ex_api_store
    ltac:(apply (bool_decide_unpack _); vm_compute; exact I) Hp ltac:(vm_compute; discriminate)) as Ht.
  change (Datatypes.S (size (ms_devices ex_api_store))) with 4 in Ht. rewrite Ht. vm_compute. reflexivity.
Defined.

Lemma approval_through_the_api_witness :
  rq_ApprovedBy <$> ms_autoReq (w_store (handle (H:=world_reads (H:=MemStore_reads (H:=sha_id) (H0:=ex_codec))) (λ _, None)
    (MkServer (Some (λ id who, Approve (Sto:=MemStore) id who)) (Some (Identify (RO:=stored_order) {["t0k" := "alice"]})) true true 0 0)
    (λ _, writeJSON 200 (BOther "ok")) "x" (ex_request "POST" ["api"; "automation"; "q1"; "approve"] []) (MkWorld ex_api_store [])).2) !! "q1"
  = Some "alice".
Proof.
  pose proof (approval_through_the_api (H:=sha_id) (H0:=ex_codec) (H1:=stored_order) (λ _, None) {["t0k" := "alice"]} true true 0 0
    (λ _, writeJSON 200 (BOther "ok")) "x" (ex_request "POST" ["api"; "automation"; "q1"; "approve"] []) "q1" (MkWorld ex_api_store []) eq_refl eq_refl) as Ht.
  specialize (Ht ltac:(done)). destruct (handle _ _ _ _ _ _) as [resp w']. cbn [w_store snd] in *.
  replace (Identify (RO:=stored_order) {["t0k" := "alice"]} _) with (Some "alice") in Ht by (vm_compute; reflexivity).
  replace (ms_autoReq ex_api_store !! "q1") with (Some ex_awaiting) in Ht by (vm_compute; reflexivity).
  rewrite bool_decide_eq_true_2 in Ht by (split; [reflexivity|vm_compute; discriminate]).
  destruct Ht as (_ & _ & ->). vm_compute. reflexivity.
Defined.

Lemma open_alerts_counted_witness :
  ∃ h n, getDevice (H:=MemStore_reads (H:=sha_id) (H0:=ex_codec)) "r1" "a" (ex_request "GET" ["api"; "devices"; "a"] []) ex_api_store =
    Ok (MkHTTPResponse 200 h (BDevice ((deviceDTO (ex_dev "a")) <| dd_OpenAlerts := Some n |>))) ∧ n = 1%Z.
Proof.
  destruct (open_alerts_counted (H:=sha_id) (H0:=ex_codec) "r1" "a" (ex_request "GET" ["api"; "devices"; "a"] []) ex_api_store (ex_dev "a"))
    as (h & n & Heq & Hn); [done|vm_compute; reflexivity|]. exists h, n. split; [exact Heq|]. rewrite Hn. vm_compute. reflexivity.
Defined.

Lemma wrong_method_is_told_witness :
  hs_Status (catch_all ex_server "r1" (ex_request "DELETE" ["api"; "devices"] [])) = 405%Z.
Proof.
  pose proof (wrong_method_is_told ex_server "r1" (ex_request "DELETE" ["api"; "devices"] [])) as Ht.
  replace (endpoint_of ex_server _) with (Some ("GET", EListDevices)) in Ht by (vm_compute; reflexivity).
  apply Ht. vm_compute. reflexivity.
Defined.
