(* ===== verification/Messaging.v ===== *)
(** * Package [messaging]: the client and the dead-letter tools (src/internal/messaging/client.go, deadletter.go)

    The NATS client library is not part of the repository: its operations on a world [W], which holds the
    server, the connection, the clock and the request's context, are the class [Broker]. Each operation may
    change the world even when it only reads, since others use the server at the same time. The sentinel
    errors of the library are parameters too. Connecting and closing are not modelled. *)

From S2P Require Import Prelude GoLib GoFloat Domain Schema Store Pipeline Scheduler Worker.

(** ** The library *)

Class NatsErrors := {
  ErrTimeout : error;
  ErrNoResponders : error;
  ErrConnectionClosed : error;
  ErrDisconnected : error;
  ErrNoStreamResponse : error;
  ErrMsgNotFound : error;
}.

(** A stored message; [rm_Time] is when the server stored it. *)
Record RawMsg := MkRawMsg { rm_Subject : string; rm_Sequence : Z; rm_Time : Time; rm_Header : header; rm_Data : string }.
Record StreamState := MkStreamState { ss_Msgs : Z; ss_FirstSeq : Z; ss_LastSeq : Z }.
(** A fetched message has metadata, its sequence and time, unless its reply subject cannot be parsed. *)
Record FetchedMsg := MkFetchedMsg { fm_Metadata : option (Z * Time); fm_Subject : string; fm_Header : header; fm_Data : string }.

Record StreamConfig := MkStreamConfig {
  sc_Name : string; sc_Subjects : list string; sc_MaxAge : Duration; sc_MaxBytes : Z; sc_Duplicates : Duration; sc_Description : string }.

(** How an asynchronous publication ended for the one who waits for it. *)
Inductive Outcome := OutcomeOk | OutcomeErr (e : error) | OutcomeDone (e : error).

Class Broker (W Future Consumer : Type) := {
  js_PublishMsg : OutMsg → ST W error unit;
  js_PublishMsgAsync : OutMsg → ST W error Future;
  js_Await : Future → W → Outcome * W;
  js_CreateOrUpdateStream : StreamConfig → ST W error unit;
  js_Stream : string → ST W error unit;
  stream_Info : string → ST W error StreamState;
  stream_GetMsg : string → Z → ST W error RawMsg;
  stream_DeleteMsg : string → Z → ST W error unit;
  stream_Purge : string → ST W error unit;
  stream_CreateConsumer : string → string → Time → ST W error Consumer;
  (* the messages of the batch and the error it ended with *)
  cons_FetchNoWait : Consumer → Z → ST W error (list FetchedMsg * option error);
  nc_IsConnected : W → bool;
  nc_Flush : ST W error unit;
  ctx_Err : W → option error;
  ctx_wait : Duration → W → W;
  clock_Now : W → Time;
}.

(** ** Subjects, streams and headers (subjects.go) *)

Definition HeaderMsgID : string := "Nats-Msg-Id".
Definition SubjectNormalized : string := "telemetry.normalized".
Definition SubjectRawSNMP : string := "telemetry.raw.snmp".
Definition SubjectRawScript : string := "telemetry.raw.script".
Definition StreamTelemetryRaw : string := "TELEMETRY_RAW".
Definition StreamTelemetryNormalized : string := "TELEMETRY_NORMALIZED".
Definition StreamInventory : string := "INVENTORY".
Definition StreamEvents : string := "EVENTS".
Definition StreamAutomation : string := "AUTOMATION".
Definition StreamDeadLetter : string := "DEADLETTER".

Definition StreamSpecs : list StreamConfig :=
  let day := (24 * Hour)%Z in
  [MkStreamConfig StreamTelemetryRaw [SubjectRawPrefix +:+ ".>"] (2 * day) (Z.shiftl 1 30) (2 * Minute)
     "Source-specific observations exactly as collected; replay after normalization changes.";
   MkStreamConfig StreamTelemetryNormalized [SubjectNormalized] (2 * day) (Z.shiftl 1 30) (2 * Minute)
     "Canonical observations; replay after state or rule changes.";
   MkStreamConfig StreamInventory [SubjectInventoryObserved] (7 * day) (Z.shiftl 64 20) (2 * Minute) "";
   MkStreamConfig StreamEvents [SubjectEventDevice; SubjectEventAlert] (30 * day) (Z.shiftl 256 20) (10 * Minute) "";
   MkStreamConfig StreamAutomation [SubjectAutomationRequest; SubjectAutomationResult] (30 * day) (Z.shiftl 256 20) (10 * Minute) "";
   MkStreamConfig StreamDeadLetter [SubjectDeadLetter] (14 * day) (Z.shiftl 128 20) 0
     "Messages that could not be processed; inspect, fix, replay."].

(** [strconv.FormatInt(n, 36)] *)
Definition digit36 (d : Z) : ascii := ascii_of_N (Z.to_N (if (d <? 10)%Z then 48 + d else 87 + d)).
Fixpoint digits36 (fuel : nat) (n : Z) (acc : string) : string :=
  match fuel with
  | O => acc
  | S fuel => if (n <? 36)%Z then String (digit36 n) acc else digits36 fuel (n / 36) (String (digit36 (n mod 36)) acc)
  end.
Definition FormatInt36 (n : Z) : string := (if (n <? 0)%Z then "-" else "") +:+ digits36 13 (Z.abs n) "".

Record DeadLetterRecord := MkDeadLetterRecord { dr_StreamSeq : Z; dr_DeadLetter : DeadLetter }.
Record maxDeliveryAdvisory := MkAdvisory { av_Stream : string; av_Consumer : string; av_StreamSeq : Z; av_Deliveries : Z }.

(** [json.Unmarshal], which unlike the platform's decoder ignores unknown fields. *)
Class DeadLetterJson := {
  dl_Unmarshal : string → result string DeadLetter;
  advisory_Unmarshal : string → option maxDeliveryAdvisory;
}.

Section client.
Context {NE : NatsErrors} {W Future Consumer : Type} {Br : Broker W Future Consumer}.

(** Attach a category to the error of an operation. *)
Definition wrapping {A} (cat : Category) (op : string) (m : ST W error A) : ST W error A := λ w,
  match m w with (Ok a, w) => (Ok a, w) | (Err e, w) => (Err (EDomain cat op e), w) end.

(** ** The client *)

Definition Ping : ST W error unit := λ w,
  if negb (nc_IsConnected w) then (Err (Errorf CategoryDependency "nats not connected"), w)
  else wrapping CategoryDependency "nats flush" nc_Flush w.

Fixpoint ensure_streams (specs : list StreamConfig) : ST W error unit :=
  match specs with
  | [] => mret tt
  | spec :: specs => _ ← wrapping CategoryDependency ("ensure stream " +:+ sc_Name spec) (js_CreateOrUpdateStream spec); ensure_streams specs
  end.
Definition EnsureStreams : ST W error unit := ensure_streams StreamSpecs.

Definition retryablePublish (err : error) : bool :=
  error_is ErrTimeout err || error_is ErrNoResponders err || error_is ErrConnectionClosed err || error_is ErrDisconnected err
  || error_is ErrNoStreamResponse err.

Definition categoryOfPublish (err : error) : Category :=
  if error_is EDeadlineExceeded err || error_is ErrTimeout err then CategoryTimeout
  else if retryablePublish err then CategoryDependency
  else CategoryPermanent.

(** The attempts that are left, after [attempt] of them; [err] is the last error. *)
Fixpoint publish_attempts (more : nat) (attempt : Z) (m : OutMsg) (err : option error) (w : W) : option error * W :=
  match more with
  | O => (err, w)
  | S more =>
      match js_PublishMsg m w with
      | (Ok _, w) => (None, w)
      | (Err e, w) =>
          if bool_decide (is_Some (ctx_Err w)) || negb (retryablePublish e) then (Some e, w)
          else publish_attempts more (attempt + 1) m (Some e) (ctx_wait ((attempt + 1) * 100 * Millisecond) w)
      end
  end.
Definition Publish (m : OutMsg) : ST W error unit := λ w,
  match publish_attempts 3 0 m None w with
  | (None, w) => (Ok tt, w)
  | (Some e, w) => (Err (EDomain (categoryOfPublish e) ("publish " +:+ om_Subject m) e), w)
  end.

Fixpoint publish_async (msgs : list OutMsg) : ST W error (list Future) :=
  match msgs with
  | [] => mret []
  | m :: msgs => λ w,
      match js_PublishMsgAsync m w with
      | (Err e, w) => (Err (EDomain (categoryOfPublish e) ("publish " +:+ om_Subject m) e), w)
      | (Ok f, w) => (fs ← publish_async msgs; mret (f :: fs)) w
      end
  end.
Fixpoint await_all (fs : list Future) : ST W error unit :=
  match fs with
  | [] => mret tt
  | f :: fs => λ w,
      match js_Await f w with
      | (OutcomeOk, w) => await_all fs w
      | (OutcomeErr e, w) => (Err (EDomain (categoryOfPublish e) "publish batch" e), w)
      | (OutcomeDone e, w) => (Err (EDomain CategoryTimeout "publish batch" e), w)
      end
  end.
Definition PublishBatch (msgs : list OutMsg) : ST W error unit := fs ← publish_async msgs; await_all fs.

(** ** Dead letters (deadletter.go) *)

Context {SHA : Sha256} {JDL : Json DeadLetter} {DLJ : DeadLetterJson}.

(** The loop over sequence numbers [seq], ..., of which [more] remain. *)
Fixpoint list_loop (more : nat) (seq limit : Z) (out : list DeadLetterRecord) : ST W error (list DeadLetterRecord) :=
  match more with
  | O => mret out
  | S more =>
      if (limit <=? Z.of_nat (length out))%Z then mret out
      else λ w,
        match stream_GetMsg StreamDeadLetter seq w with
        | (Err e, w) =>
            if error_is ErrMsgNotFound e then list_loop more (seq + 1) limit out w
            else (Err (EDomain CategoryDependency "read dead letter" e), w)
        | (Ok raw, w) =>
            match dl_Unmarshal (rm_Data raw) with
            | Err _ => list_loop more (seq + 1) limit out w
            | Ok dl => list_loop more (seq + 1) limit (out ++ [MkDeadLetterRecord seq dl]) w
            end
        end
  end.
Definition ListDeadLetters (limit : Z) : ST W error (list DeadLetterRecord) :=
  _ ← wrapping CategoryDependency "open dead-letter stream" (js_Stream StreamDeadLetter);
  info ← wrapping CategoryDependency "dead-letter stream info" (stream_Info StreamDeadLetter);
  if (ss_Msgs info =? 0)%Z then mret []
  else let first := Z.max (ss_FirstSeq info) 1 in list_loop (Z.to_nat (ss_LastSeq info + 1 - first)) first limit [].

(** The first value of each header except the message id. *)
Definition first_values (h : header) : gmap string string := omap head (delete HeaderMsgID h).

Definition replay_msg (dl : DeadLetter) (nano : Z) : OutMsg :=
  MkOutMsg (dl_Subject dl) (dl_ID dl +:+ ".replay." +:+ FormatInt36 nano) (dl_Payload dl)
    (Some (first_values (dl_Headers dl) ∪ {["X-Replay" := "true"; "X-Replay-Of" := dl_ID dl]})).

(** [time.Now().UnixNano()] *)
Definition UnixNano (t : Time) : Z := wrap64 (t - 62135596800 * Second).

Definition ReplayDeadLetter (streamSeq : Z) : ST W error unit :=
  _ ← wrapping CategoryDependency "open dead-letter stream" (js_Stream StreamDeadLetter);
  raw ← wrapping CategoryPermanent "read dead letter" (stream_GetMsg StreamDeadLetter streamSeq);
  dl ← ST_lift (match dl_Unmarshal (rm_Data raw) with Ok dl => Ok dl | Err e => Err (EDomain CategoryValidation "decode dead letter" (EText e)) end);
  _ ← (λ w, Publish (replay_msg dl (UnixNano (clock_Now w))) w);
  wrapping CategoryDependency "remove replayed dead letter" (stream_DeleteMsg StreamDeadLetter streamSeq).

Definition PurgeDeadLetters : ST W error unit :=
  _ ← wrapping CategoryDependency "open dead-letter stream" (js_Stream StreamDeadLetter);
  wrapping CategoryDependency "purge dead letters" (stream_Purge StreamDeadLetter).

(** The subscription of [WatchMaxDeliveries], run on one advisory. What it logs is dropped. *)
Definition advisory_subject (stream consumer : string) : string :=
  "$JS.EVENT.ADVISORY.CONSUMER.MAX_DELIVERIES." +:+ stream +:+ "." +:+ consumer.
Definition advisory_letter (stream consumer : string) (adv : maxDeliveryAdvisory) (raw : RawMsg) (now : Time) : DeadLetter :=
  MkDeadLetter (StableID ["dlq"; consumer; stream; FormatInt (av_StreamSeq adv)]) consumer stream (av_StreamSeq adv) (rm_Subject raw) (rm_Header raw)
    (rm_Data raw) "delivery attempts exhausted without the handler reporting a result (worker stopped mid-handling?)"
    (Category_string CategoryTransient) "max_deliveries" (av_Deliveries adv) now.
Definition on_advisory (stream consumer deadLetterSubject data : string) : ST W error unit := λ w,
  match advisory_Unmarshal data with
  | None => (Ok tt, w)
  | Some adv =>
      if (av_StreamSeq adv =? 0)%Z then (Ok tt, w)
      else
        match stream_GetMsg stream (av_StreamSeq adv) w with
        | (Err _, w) => (Ok tt, w)
        | (Ok raw, w) =>
            let dl := advisory_letter stream consumer adv raw (clock_Now w) in
            let payload := match json_Marshal dl with Ok b => b | Err _ => "" end in
            let subject := if bool_decide (deadLetterSubject = "") then SubjectDeadLetter else deadLetterSubject in
            let '(_, w) := Publish (MkOutMsg subject (dl_ID dl) payload (Some {[HeaderSchema := DeadLetterV1]})) w in (Ok tt, w)
        end
  end.

(** ** Replaying a stream *)

Definition stream_replay_msg (m : FetchedMsg) (seq : Z) (stamp : string) : OutMsg :=
  let own := header_Get (fm_Header m) HeaderMsgID in
  let id := if bool_decide (own = "") then "seq-" +:+ FormatInt seq else own in
  MkOutMsg (fm_Subject m) (id +:+ ".replay." +:+ stamp) (fm_Data m) (Some (first_values (fm_Header m) ∪ {["X-Replay" := "true"]})).

(** One batch: the number replayed so far, and whether the replay is over. An error keeps the count. *)
Fixpoint replay_batch (horizon : Z) (until : Time) (dryRun : bool) (stamp : string) (n : Z) (ms : list FetchedMsg) (w : W)
    : Z * result error bool * W :=
  match ms with
  | [] => (n, Ok false, w)
  | m :: ms =>
      match fm_Metadata m with
      | None => replay_batch horizon until dryRun stamp n ms w
      | Some (seq, t) =>
          if (horizon <? seq)%Z || (negb (IsZero until) && negb (Before t until)) then (n, Ok true, w)
          else
            let n := wrap64 (n + 1) in
            if dryRun then replay_batch horizon until dryRun stamp n ms w
            else
              match Publish (stream_replay_msg m seq stamp) w with
              | (Err e, w) => (n, Err e, w)
              | (Ok _, w) => replay_batch horizon until dryRun stamp n ms w
              end
      end
  end.

(** The loop over batches, with fuel: [None] when it runs out. *)
Fixpoint replay_loop (fuel : nat) (co : Consumer) (horizon : Z) (until : Time) (dryRun : bool) (stamp : string) (n : Z) (w : W)
    : option (Z * option error * W) :=
  match fuel with
  | O => None
  | S fuel =>
      match cons_FetchNoWait co 200 w with
      | (Err e, w) => Some (n, Some (EDomain CategoryDependency "fetch for replay" e), w)
      | (Ok (ms, berr), w) =>
          match replay_batch horizon until dryRun stamp n ms w with
          | (n, Err e, w) => Some (n, Some e, w)
          | (n, Ok true, w) => Some (n, None, w)
          | (n, Ok false, w) =>
              match berr with
              | Some e =>
                  if negb (error_is ErrTimeout e) then Some (n, Some (EDomain CategoryDependency "replay batch" e), w)
                  else if bool_decide (ms = []) then Some (n, None, w)
                  else replay_loop fuel co horizon until dryRun stamp n w
              | None => if bool_decide (ms = []) then Some (n, None, w) else replay_loop fuel co horizon until dryRun stamp n w
              end
          end
      end
  end.

Definition ReplayStream (fuel : nat) (streamName filter : string) (since until : Time) (dryRun : bool) (w : W) : option (Z * option error * W) :=
  match wrapping CategoryDependency ("open stream " +:+ streamName) (js_Stream streamName) w with
  | (Err e, w) => Some (0%Z, Some e, w)
  | (Ok _, w) =>
      match wrapping CategoryDependency "stream info" (stream_Info streamName) w with
      | (Err e, w) => Some (0%Z, Some e, w)
      | (Ok info, w) =>
          match wrapping CategoryDependency "create replay consumer" (stream_CreateConsumer streamName filter since) w with
          | (Err e, w) => Some (0%Z, Some e, w)
          | (Ok co, w) => replay_loop fuel co (ss_LastSeq info) until dryRun (FormatInt36 (Unix (clock_Now w))) 0 w
          end
      end
  end.
End client.
