(* ===== verification/MessagingThms.v ===== *)
(** * Theorems about the messaging client and the dead-letter tools

    What the client relies on of JetStream is the class [JetStream]: publications with an id the server
    remembers are dropped, sequence numbers and times grow, reads change nothing, a consumer delivers in
    the order of the stream. The theorems hold for every such server; an example server satisfies the laws. *)

From S2P Require Import Prelude GoLib GoFloat Domain Schema Store StateFacts Pipeline Scheduler Worker Messaging.

(** ** The server *)

Definition seq_after (q : Z) (m : RawMsg) : Prop := (q < rm_Sequence m)%Z.
#[export] Instance seq_after_dec q m : Decision (seq_after q m).
Proof. unfold seq_after. apply _. Defined.
Definition in_order (a b : RawMsg) : Prop := (rm_Sequence a < rm_Sequence b)%Z ∧ (rm_Time a ≤ rm_Time b)%Z.
Definition fetched (m : RawMsg) : FetchedMsg := MkFetchedMsg (Some (rm_Sequence m, rm_Time m)) (rm_Subject m) (rm_Header m) (rm_Data m).

(** Where a consumer stands: its stream, filter and start time, and the last sequence it was given. *)
Record ConsumerState := MkConsumerState { cs_Stream : string; cs_Filter : string; cs_Since : Time; cs_Last : Z }.

Definition due (matches : string → string → bool) (c : ConsumerState) (m : RawMsg) : bool :=
  bool_decide (seq_after (cs_Last c) m) && (cs_Since c <=? rm_Time m)%Z && matches (cs_Filter c) (rm_Subject m).
Definition remember (id : string) (ids : gset string) : gset string := if bool_decide (id = "") then ids else {[id]} ∪ ids.

Class JetStream {W Future Consumer} {NE : NatsErrors} (Br : Broker W Future Consumer) := {
  acked : W → list OutMsg;                     (* publications acknowledged to this client *)
  deliveries : W → list OutMsg;                (* publications of this client that were stored *)
  window : W → gset string;                    (* message ids the server remembers *)
  contents : W → string → list RawMsg;         (* the messages of each stream *)
  last_seq : W → string → Z;
  consumer : Consumer → W → ConsumerState;
  filter_matches : string → string → bool;
  same (w w' : W) : Prop :=
    acked w' = acked w ∧ deliveries w' = deliveries w ∧ window w' = window w ∧ contents w' = contents w ∧ last_seq w' = last_seq w;

  contents_sorted w s : StronglySorted in_order (contents w s);
  contents_last w s : Forall (λ m, 0 < rm_Sequence m ≤ last_seq w s)%Z (contents w s);
  publish_acked m w r w' : js_PublishMsg m w = (r, w') → acked w' = acked w ++ (if is_ok r then [m] else []);
  publish_stored m w r w' : js_PublishMsg m w = (r, w') →
    deliveries w' = deliveries w ∧ window w' = window w ∧ (is_ok r = true → om_MsgID m ∈ window w) ∨
    deliveries w' = deliveries w ++ [m] ∧ window w' = remember (om_MsgID m) (window w) ∧ om_MsgID m ∉ window w;
  publish_contents m w r w' s : js_PublishMsg m w = (r, w') →
    ∃ new, contents w' s = contents w s ++ new ∧ Forall (seq_after (last_seq w s)) new ∧ (last_seq w s ≤ last_seq w' s)%Z;
  publish_consumer m w r w' c : js_PublishMsg m w = (r, w') → consumer c w' = consumer c w;
  wait_same d w : (d ≤ Second)%Z → same w (ctx_wait d w);
  wait_consumer d w c : consumer c (ctx_wait d w) = consumer c w;
  open_same s w r w' : js_Stream s w = (r, w') → same w w';
  info_same s w r w' : stream_Info s w = (r, w') → same w w';
  info_state s w i w' : stream_Info s w = (Ok i, w') →
    ss_LastSeq i = last_seq w s ∧ ss_Msgs i = Z.of_nat (length (contents w s)) ∧ Forall (λ m, ss_FirstSeq i ≤ rm_Sequence m)%Z (contents w s);
  get_same s q w r w' : stream_GetMsg s q w = (r, w') → same w w';
  get_found s q w m w' : stream_GetMsg s q w = (Ok m, w') → m ∈ contents w s ∧ rm_Sequence m = q;
  get_missing s q w e w' : stream_GetMsg s q w = (Err e, w') → error_is ErrMsgNotFound e = true → Forall (λ m, rm_Sequence m ≠ q) (contents w s);
  delete_contents s q w r w' : stream_DeleteMsg s q w = (r, w') →
    (acked w', deliveries w') = (acked w, deliveries w) ∧
    (contents w' s = filter (λ m, rm_Sequence m ≠ q) (contents w s) ∨ is_ok r = false ∧ contents w' s = contents w s);
  create_state s f since w r w' : stream_CreateConsumer s f since w = (r, w') →
    same w w' ∧ (∀ c, r = Ok c → consumer c w' = MkConsumerState s f since 0);
  fetch_state c k w r w' : cons_FetchNoWait c k w = (r, w') →
    same w w' ∧
    ∀ ms e, r = Ok (ms, e) → ∃ l,
      l = take (Z.to_nat k) (filter (λ m, due filter_matches (consumer c w) m = true) (contents w (cs_Stream (consumer c w)))) ∧ ms = fetched <$> l ∧
      consumer c w' = MkConsumerState (cs_Stream (consumer c w)) (cs_Filter (consumer c w)) (cs_Since (consumer c w))
                        (from_option rm_Sequence (cs_Last (consumer c w)) (last l));
}.

Section client.
Context `{NE : NatsErrors} {W Future Consumer} {Br : Broker W Future Consumer} {JS : JetStream Br}.

Lemma same_refl w : same w w.
Proof. done. Qed.
Lemma same_trans w1 w2 w3 : same w1 w2 → same w2 w3 → same w1 w3.
Proof. unfold same. intuition congruence. Qed.

(** ** Publishing *)

(** What a sequence of attempts does to the server, by induction on the attempts that are left. *)
Definition attempts_effect (m : OutMsg) (e : option error) (w w' : W) : Prop :=
  acked w' = acked w ++ (match e with None => [m] | Some _ => [] end) ∧
  (om_MsgID m ≠ "" →
     deliveries w' = deliveries w ∧ window w' = window w ∧ (e = None → om_MsgID m ∈ window w) ∨
     deliveries w' = deliveries w ++ [m] ∧ om_MsgID m ∈ window w' ∧ om_MsgID m ∉ window w) ∧
  (∀ s, ∃ new, contents w' s = contents w s ++ new ∧ Forall (seq_after (last_seq w s)) new ∧ (last_seq w s ≤ last_seq w' s)%Z) ∧
  (∀ c, consumer c w' = consumer c w).

Lemma attempt_effect m w r w' : js_PublishMsg m w = (r, w') → attempts_effect m (match r with Ok _ => None | Err e => Some e end) w w'.
Proof.
  intros Hp. split_and!.
  - rewrite (publish_acked _ _ _ _ Hp). by destruct r.
  - intros Hid. destruct (publish_stored _ _ _ _ Hp) as [(Hd & Hw & Hok)|(Hd & Hw & Hn)].
    + left. split_and!; [done|done|]. destruct r; [by intros _; apply Hok|done].
    + right. split_and!; [done| |done]. rewrite Hw. unfold remember. rewrite bool_decide_eq_false_2 by done. set_solver.
  - intros s. by eapply publish_contents.
  - intros c. by eapply publish_consumer.
Qed.

Lemma attempts_effect_trans m e1 e2 w w1 w2 w3 :
  attempts_effect m (Some e1) w w1 → same w1 w2 → (∀ c, consumer c w2 = consumer c w1) → attempts_effect m e2 w2 w3 → attempts_effect m e2 w w3.
Proof.
  intros (Ha & Hd & Hc & Hk) (Sa & Sd & Sw & Sc & Sl) Sk (Ha' & Hd' & Hc' & Hk'). split_and!.
  - by rewrite Ha', Sa, Ha, app_nil_r.
  - intros Hid. specialize (Hd Hid). specialize (Hd' Hid). rewrite Sd, Sw in Hd'.
    destruct Hd as [(Hd & Hw & _)|(Hd & Hw & Hn)].
    + rewrite <-Hd, <-Hw. exact Hd'.
    + destruct Hd' as [(Hd' & Hw' & _)|(_ & _ & Hn')]; [|done]. right. rewrite Hd', Hw'. done.
  - intros s. destruct (Hc s) as (n1 & E1 & F1 & L1), (Hc' s) as (n2 & E2 & F2 & L2). rewrite Sc, Sl in *.
    exists (n1 ++ n2). split_and!.
    + by rewrite E2, E1, app_assoc.
    + apply Forall_app. split; [done|]. eapply Forall_impl; [exact F2|]. unfold seq_after. intros x. lia.
    + lia.
  - intros c. by rewrite Hk', Sk.
Qed.

Lemma publish_attempts_effect n k m err w e w' :
  (0 ≤ k)%Z → (k + Z.of_nat n ≤ 3)%Z → n ≠ 0 → publish_attempts n k m err w = (e, w') → attempts_effect m e w w'.
Proof.
  revert k err w. induction n as [|n IH]; intros k err w Hk Hn Hn0 Hp; [done|]. simpl in Hp.
  destruct (js_PublishMsg m w) as [[[]|e1] w1] eqn:Hj; apply attempt_effect in Hj; [by simplify_eq|].
  destruct (_ || _); [by simplify_eq|].
  assert (same w1 (ctx_wait ((k + 1) * 100 * Millisecond) w1)) as Hs by (apply wait_same; unfold Millisecond, Second; lia).
  destruct n as [|n].
  - simpl in Hp. simplify_eq. destruct Hj as (Ha & Hd & Hc & Hkk), Hs as (Sa & Sd & Sw & Sc & Sl). unfold attempts_effect.
    rewrite Sa, Sd, Sw, Sc, Sl. setoid_rewrite wait_consumer. done.
  - eapply attempts_effect_trans; [exact Hj|exact Hs|intros c; apply wait_consumer|]. eapply IH; [| | |exact Hp]; lia.
Qed.

Lemma Publish_effect m w r w' : Publish m w = (r, w') → attempts_effect m (match r with Ok _ => None | Err e => Some e end) w w'.
Proof.
  unfold Publish. destruct (publish_attempts 3 0 m None w) as [e w1] eqn:Hp. apply publish_attempts_effect in Hp; [|lia..].
  destruct e as [e|]; intros [= <- <-]; [|exact Hp]. destruct Hp as (Ha & Hd & Hc & Hk). split_and!; [exact Ha| |exact Hc|exact Hk].
  intros Hid. destruct (Hd Hid) as [(? & ? & _)|?]; [left|right]; done.
Qed.

(** ** Replaying a dead letter *)

Lemma wrapping_inv {A} cat op (m : ST W error A) w r w' :
  wrapping cat op m w = (r, w') → ∃ r0, m w = (r0, w') ∧ match r0 with Ok a => r = Ok a | Err e => r = Err (EDomain cat op e) end.
Proof. unfold wrapping. destruct (m w) as [[a|e] w1]; intros [= <- <-]; by eexists. Qed.

(** ** Replaying a stream *)

(** The window of a replay: up to the horizon, before [until] unless that is zero. *)
Definition replayable (horizon : Z) (until : Time) (m : RawMsg) : Prop :=
  (rm_Sequence m ≤ horizon)%Z ∧ (until = time_zero ∨ (rm_Time m < until)%Z).
#[local] Instance replayable_dec h u m : Decision (replayable h u m).
Proof. unfold replayable. apply _. Defined.

Fixpoint while_replayable (h : Z) (u : Time) (l : list RawMsg) : list RawMsg :=
  match l with [] => [] | m :: l => if bool_decide (replayable h u m) then m :: while_replayable h u l else [] end.

Definition replayed (stamp : string) (l : list RawMsg) : list OutMsg := (λ m, stream_replay_msg (fetched m) (rm_Sequence m) stamp) <$> l.

(** What happened between two worlds of a replay: the publications acknowledged and messages stored behind [h]. *)
Record progress (s : string) (co : Consumer) (h : Z) (out : list OutMsg) (w w' : W) : Prop := {
  pr_acked : acked w' = acked w ++ out;
  pr_contents : ∃ new, contents w' s = contents w s ++ new ∧ Forall (seq_after h) new;
  pr_last : (last_seq w s ≤ last_seq w' s)%Z;
}.

Lemma progress_refl s co h w : progress s co h [] w w.
Proof. split; [by rewrite app_nil_r|exists []; by rewrite app_nil_r|lia]. Qed.
Lemma progress_trans s co h out1 out2 w1 w2 w3 : progress s co h out1 w1 w2 → progress s co h out2 w2 w3 → progress s co h (out1 ++ out2) w1 w3.
Proof.
  intros [A1 (n1 & C1 & F1) L1] [A2 (n2 & C2 & F2) L2]. split; [by rewrite A2, A1, app_assoc| |lia].
  exists (n1 ++ n2). split; [by rewrite C2, C1, app_assoc|]. by apply Forall_app.
Qed.
Lemma progress_same s co h w w' : same w w' → progress s co h [] w w'.
Proof. intros (Ha & _ & _ & Hc & Hl). split; [by rewrite Ha, app_nil_r|exists []; by rewrite Hc, app_nil_r|rewrite Hl; lia]. Qed.
Lemma progress_publish s co h m w w' :
  (h ≤ last_seq w s)%Z → Publish m w = (Ok tt, w') → progress s co h [m] w w' ∧ (∀ c, consumer c w' = consumer c w).
Proof.
  intros Hh Hp. apply Publish_effect in Hp as (Ha & _ & Hc & Hk). split; [|done]. destruct (Hc s) as (new & C & F & L).
  split; [exact Ha|exists new; split; [done|]|done]. eapply Forall_impl; [exact F|]. unfold seq_after. intros x. lia.
Qed.

Lemma while_all h u l : Forall (replayable h u) l → while_replayable h u l = l.
Proof. induction 1; simpl; [done|]. rewrite bool_decide_eq_true_2 by done. by f_equal. Qed.
Lemma while_app h u l1 l2 :
  while_replayable h u (l1 ++ l2) = if bool_decide (Forall (replayable h u) l1) then l1 ++ while_replayable h u l2 else while_replayable h u l1.
Proof.
  induction l1 as [|m l1 IH]; [done|]. simpl. destruct (decide (replayable h u m)) as [Hm|Hm].
  - rewrite (bool_decide_eq_true_2 (replayable h u m)), IH by done. destruct (decide (Forall (replayable h u) l1)) as [Hf|Hf].
    + rewrite !bool_decide_eq_true_2 by (done || by constructor). done.
    + rewrite !bool_decide_eq_false_2 by (done || by intros [_ ?]%Forall_cons). done.
  - rewrite !bool_decide_eq_false_2 by (done || by intros [? _]%Forall_cons). done.
Qed.
Lemma while_none h u l : Forall (λ m, ¬ replayable h u m) l → while_replayable h u l = [].
Proof. destruct 1; simpl; [done|]. by rewrite bool_decide_eq_false_2. Qed.
Lemma while_app_none h u l1 l2 : Forall (λ m, ¬ replayable h u m) l2 → while_replayable h u (l1 ++ l2) = while_replayable h u l1.
Proof.
  intros H2. rewrite while_app, (while_none _ _ l2), app_nil_r by done. case_bool_decide; [|done]. by rewrite while_all.
Qed.

Lemma replay_stops h u m :
  (h <? rm_Sequence m)%Z || (negb (IsZero u) && negb (Before (rm_Time m) u)) = negb (bool_decide (replayable h u m)).
Proof.
  unfold replayable, IsZero, Before, time_zero. case_bool_decide; destruct (Z.ltb_spec h (rm_Sequence m)), (Z.eqb_spec u 0), (Z.ltb_spec (rm_Time m) u);
    try reflexivity; exfalso; lia.
Qed.

Lemma replay_batch_spec s co h u dry stamp n l w n' r w' :
  (h ≤ last_seq w s)%Z → (0 ≤ n)%Z → (n + Z.of_nat (length l) ≤ int_max)%Z →
  replay_batch h u dry stamp n (fetched <$> l) w = (n', r, w') →
  (∃ e, r = Err e) ∨
  progress s co h (if dry : bool then [] else replayed stamp (while_replayable h u l)) w w' ∧ (∀ c, consumer c w' = consumer c w) ∧
  n' = (n + Z.of_nat (length (while_replayable h u l)))%Z ∧ r = Ok (negb (bool_decide (Forall (replayable h u) l))).
Proof.
  revert n w. induction l as [|m l IH]; intros n w Hh Hn Hb Hr.
  { right. simpl in *. simplify_eq. split_and!; [destruct dry; apply progress_refl|done|lia|done]. }
  simpl in Hr, Hb |- *.
  rewrite replay_stops in Hr. destruct (decide (replayable h u m)) as [Hrep|Hrep];
    [rewrite !(bool_decide_eq_true_2 (replayable h u m)) in * by done|rewrite !(bool_decide_eq_false_2 (replayable h u m)) in * by done]; simpl in Hr.
  2: { simplify_eq. right. split_and!; [destruct dry; apply progress_refl|done|simpl; lia|].
       rewrite bool_decide_eq_false_2; [done|]. by intros [? _]%Forall_cons. }
  rewrite wrap64_small in Hr by (unfold int_min; lia).
  assert (bool_decide (Forall (replayable h u) (m :: l)) = bool_decide (Forall (replayable h u) l)) as ->.
  { apply bool_decide_ext. rewrite Forall_cons. naive_solver. }
  destruct dry.
  - apply IH in Hr as [?|(Hp & Hk & -> & ->)]; [by left|right|lia..]. split_and!; [done|done|simpl; lia|done].
  - destruct (Publish _ w) as [[[]|e] w1] eqn:Hpub; [|simplify_eq; left; by eexists].
    apply (progress_publish s co h) in Hpub as [Hp1 Hk1]; [|done].
    apply IH in Hr as [?|(Hp & Hk & -> & ->)]; [by left|right|destruct Hp1; lia|lia..].
    split_and!; [by eapply (progress_trans _ _ _ [_])|intros c; by rewrite Hk|simpl; lia|done].
Qed.
(** The messages of a stream that a consumer will still be given. *)
Abbreviation deliverable c l := (filter (λ m, due filter_matches c m = true) l).

(** After a batch the consumer stands at its last message: what is due then is the rest. *)
Lemma due_rest c l k :
  StronglySorted in_order l → take k (deliverable c l) ≠ [] →
  deliverable (MkConsumerState (cs_Stream c) (cs_Filter c) (cs_Since c) (from_option rm_Sequence (cs_Last c) (last (take k (deliverable c l))))) l
  = drop k (deliverable c l).
Proof.
  intros Hs Hne. set (P := deliverable c l) in *. destruct (last (take k P)) as [x|] eqn:Hx; [|by apply last_None in Hx].
  cbn [from_option]. assert (StronglySorted in_order P) as HP.
  { unfold P. clear -Hs. induction Hs as [|m l' _ IH Hm]; [constructor|]. rewrite filter_cons. case_decide; [|done].
    constructor; [done|]. apply Forall_forall. intros y [_ Hy]%list_elem_of_filter. by eapply Forall_forall in Hm. }
  assert (take k P ++ drop k P = P) as Htd by apply take_drop. rewrite <-Htd in HP. apply StronglySorted_app in HP as (Hc & HP1 & _).
  apply last_Some in Hx as [P0 Hx].
  assert (filter (λ m, bool_decide (seq_after (rm_Sequence x) m) = true) P = drop k P) as <-.
  { rewrite <-Htd at 1. rewrite filter_app, filter_none, filter_all; [done|..].
    - intros y Hy. apply bool_decide_eq_true_2. apply (Hc x y); [|done]. rewrite Hx. apply elem_of_app. right. by left.
    - intros y Hy. rewrite bool_decide_eq_true. unfold seq_after. rewrite Hx in Hy, HP1. apply elem_of_app in Hy as [Hy|Hy%list_elem_of_singleton].
      + apply StronglySorted_app in HP1 as (Hc1 & _ & _). destruct (Hc1 y x Hy) as [? _]; [by left|lia].
      + subst y. lia. }
  unfold P. rewrite list_filter_filter. apply list_filter_iff. intros m. unfold due. cbn [cs_Last cs_Since cs_Filter].
  assert (due filter_matches c x = true) as Hdx.
  { assert (x ∈ P) as Hin by (rewrite <-Htd, Hx; apply elem_of_app; left; apply elem_of_app; right; by left).
    by apply list_elem_of_filter in Hin as [? _]. }
  unfold due in Hdx. rewrite !andb_true_iff, !bool_decide_eq_true in *. unfold seq_after in *. naive_solver lia.
Qed.

Lemma take_replayable h u k (P PX : list RawMsg) :
  Forall (λ m, ¬ replayable h u m) PX → Forall (replayable h u) (take k (P ++ PX)) → take k (P ++ PX) = take k P.
Proof.
  intros HX. rewrite take_app, Forall_app. intros [_ Hr]. apply (Forall_take _ (k - length P)) in HX.
  destruct (take (k - length P) PX) as [|x l]; [by rewrite app_nil_r|]. apply Forall_cons in HX as [? _]. by apply Forall_cons in Hr as [? _].
Qed.

(** A batch that ends the replay held everything that was left of the window. *)
Lemma while_take_stopped h u k (L : list RawMsg) : ¬ Forall (replayable h u) (take k L) → while_replayable h u (take k L) = while_replayable h u L.
Proof. intros Hn. rewrite <-(take_drop k L) at 2. rewrite while_app. by rewrite bool_decide_eq_false_2. Qed.

Lemma replay_loop_spec s f since co h u dry stamp C :
  ∀ fuel q n w X,
  consumer co w = MkConsumerState s f since q → contents w s = C ++ X → Forall (λ m, rm_Sequence m ≤ h)%Z C → Forall (seq_after h) X →
  (h ≤ last_seq w s)%Z → (0 ≤ n)%Z → (n + Z.of_nat (length (deliverable (MkConsumerState s f since q) C)) + 200 ≤ int_max)%Z →
  length (deliverable (MkConsumerState s f since q) C) < fuel →
  let W_ := while_replayable h u (deliverable (MkConsumerState s f since q) C) in
  ∃ n' e w', replay_loop fuel co h u dry stamp n w = Some (n', e, w') ∧
    (e = None → progress s co h (if dry : bool then [] else replayed stamp W_) w w' ∧ n' = (n + Z.of_nat (length W_))%Z).
Proof.
  intros fuel. induction fuel as [|fuel IH]; intros q n w X Hco HC HCh HXh Hlast Hn Hb Hfuel W_; [lia|].
  cbn [replay_loop]. destruct (cons_FetchNoWait co 200 w) as [r w1] eqn:Hf. apply fetch_state in Hf as [Hsame Hf].
  destruct r as [[ms berr]|e]; [|by eexists _, (Some _), _].
  destruct (Hf ms berr eq_refl) as (l & Hl & -> & Hco1). rewrite Hco in Hl, Hco1. cbn [cs_Stream cs_Filter cs_Since cs_Last] in Hl, Hco1.
  set (c := MkConsumerState s f since q) in *. rewrite HC, filter_app in Hl. set (P := deliverable c C) in *. set (PX := deliverable c X) in *.
  assert (Forall (λ m, ¬ replayable h u m) PX) as HPX.
  { apply Forall_forall. intros m [_ Hm]%list_elem_of_filter [Hle _]. eapply Forall_forall in HXh; [|exact Hm]. unfold seq_after in HXh. simpl in HXh. lia. }
  assert (length l ≤ 200) as Hll by (rewrite Hl, length_take; lia).
  destruct (replay_batch h u dry stamp n (fetched <$> l) w1) as [[n1 r1] w2] eqn:Hbatch.
  apply (replay_batch_spec s co) in Hbatch as [[e ->]|(Hp & Hk & -> & ->)];
    [by eexists _, (Some _), _| |destruct Hsame as (_ & _ & _ & _ & ->); lia|lia|].
  2: { pose proof (length_filter (λ m, due filter_matches c m = true) C). lia. }
  apply (progress_same s co h) in Hsame. assert (progress s co h (if dry then [] else replayed stamp (while_replayable h u l)) w w2) as Hp2
    by exact (progress_trans _ _ _ [] _ _ _ _ Hsame Hp).
  destruct (decide (Forall (replayable h u) l)) as [Hall|Hall]; cycle 1.
  { rewrite bool_decide_eq_false_2 by done. eexists _, None, _. split; [reflexivity|]. intros _.
    assert (W_ = while_replayable h u l) as ->; [|done]. rewrite Hl in Hall |- *. rewrite while_take_stopped, while_app_none by done. done. }
  rewrite bool_decide_eq_true_2 by done. cbn [negb]. rewrite (while_all _ _ l) in * by done.
  rewrite Hl in Hall. assert (l = take 200 P) as Hlp by (rewrite Hl; by eapply take_replayable). clear Hl.
  assert (Forall (replayable h u) l) as Hall' by (rewrite Hlp; by rewrite <-(take_replayable h u _ P PX)).
  assert (W_ = l ++ while_replayable h u (drop 200 P)) as HW.
  { unfold W_. rewrite <-(take_drop 200 P) at 1. rewrite while_app, <-Hlp. by rewrite bool_decide_eq_true_2. }
  set (n1 := (n + Z.of_nat (length l))%Z) in *.
  assert (∃ n' e w', (if bool_decide (fetched <$> l = []) then Some (n1, None, w2) else replay_loop fuel co h u dry stamp n1 w2) = Some (n', e, w') ∧
    (e = None → progress s co h (if dry : bool then [] else replayed stamp W_) w w' ∧ n' = (n + Z.of_nat (length W_))%Z)) as Hrest.
  { destruct (decide (l = [])) as [Hnil|Hne].
    - rewrite Hnil, bool_decide_eq_true_2 by done. eexists _, None, _. split; [reflexivity|]. intros _.
      assert (W_ = l) as ->; [|done]. rewrite HW, Hnil in *. simpl. destruct P; [done|by rewrite Hlp in Hnil].
    - rewrite bool_decide_eq_false_2 by (by intros ?%fmap_nil_inv).
      assert (deliverable (MkConsumerState s f since (from_option rm_Sequence q (last l))) C = drop 200 P) as Hdrop.
      { rewrite Hlp. apply (due_rest c C 200); [|by rewrite Hlp in Hne].
        pose proof (contents_sorted w s) as Hs. rewrite HC in Hs. by apply StronglySorted_app in Hs as (_ & ? & _). }
      destruct (pr_contents _ _ _ _ _ _ Hp2) as (new & Hnew & Hnewh).
      assert (0 < length l ≤ length P) as Hlen by (assert (length l ≠ 0) by (by intros ?%nil_length_inv); rewrite Hlp, length_take in *; lia).
      assert (length P = length l + length (drop 200 P)) as HlenP by (rewrite Hlp at 1; rewrite <-length_app, take_drop; done).
      destruct (IH (from_option rm_Sequence q (last l)) n1 w2 (X ++ new)) as (n' & e & w' & Hloop & Hok).
      + by rewrite Hk.
      + by rewrite Hnew, HC, app_assoc.
      + done.
      + by apply Forall_app.
      + pose proof (pr_last _ _ _ _ _ _ Hp2). lia.
      + lia.
      + rewrite Hdrop. lia.
      + rewrite Hdrop. lia.
      + exists n', e, w'. split; [done|]. intros He. destruct (Hok He) as [Hp3 ->]. rewrite Hdrop in *. rewrite HW, length_app. split; [|lia].
        pose proof (progress_trans _ _ _ _ _ _ _ _ Hp2 Hp3) as Hp4. destruct dry; [done|]. unfold replayed in *. by rewrite fmap_app. }
  destruct berr as [e|]; [|exact Hrest]. destruct (negb (error_is ErrTimeout e)); [by eexists _, (Some _), _|exact Hrest].
Qed.
Lemma deliverable_sorted c l : StronglySorted in_order l → StronglySorted in_order (deliverable c l).
Proof.
  induction 1 as [|m l' _ IH Hm]; [constructor|]. rewrite filter_cons. case_decide; [|done].
  constructor; [done|]. apply Forall_forall. intros y [_ Hy]%list_elem_of_filter. by eapply Forall_forall in Hm.
Qed.
(** Times grow with the sequence, so the window is what the cut-off keeps. *)
Lemma while_filter h u l :
  StronglySorted in_order l → Forall (λ m, rm_Sequence m ≤ h)%Z l → while_replayable h u l = filter (replayable h u) l.
Proof.
  induction 1 as [|m l _ IH Hm]; intros Hh; [done|]. apply Forall_cons in Hh as [Hmh Hh]. simpl. rewrite filter_cons, IH by done.
  case_bool_decide as Hr; [by rewrite decide_True|]. rewrite decide_False by done. symmetry. apply filter_none.
  intros x Hx [_ Hu]. eapply Forall_forall in Hm as [_ Ht]; [|exact Hx]. apply Hr. unfold replayable in *. lia.
Qed.

(** ** Theorems *)

(** Publishing with a message id stores the message once: whatever acknowledgements are lost between
    the attempts, a message whose id the server does not remember is stored at most once, and exactly once
    when the publication succeeds; a failure is a timeout, a dependency or a permanent error. *)
Theorem publish_stores_once m w r w' :
  Publish m w = (r, w') → om_MsgID m ≠ "" → om_MsgID m ∉ window w →
  (deliveries w' = deliveries w ∨ deliveries w' = deliveries w ++ [m]) ∧
  match r with
  | Ok _ => deliveries w' = deliveries w ++ [m]
  | Err e => CategoryOf (Some e) ∈ [CategoryTimeout; CategoryDependency; CategoryPermanent]
  end.
Proof.
  intros Hp Hid Hw. pose proof (Publish_effect _ _ _ _ Hp) as (_ & Hd & _ & _). specialize (Hd Hid). split; [naive_solver|].
  destruct r as [[]|e].
  - destruct Hd as [(_ & _ & Hin)|(Hd & _)]; [|done]. by destruct Hw; apply Hin.
  - revert Hp. unfold Publish. destruct (publish_attempts _ _ _ _ _) as [[e'|] w1]; [|done]. intros [= <- _].
    simpl. unfold categoryOfPublish. repeat case_match; set_solver.
Qed.

Context {SHA : Sha256} {JDL : Json DeadLetter} {DLJ : DeadLetterJson}.

Lemma contents_unique w s a b : a ∈ contents w s → b ∈ contents w s → rm_Sequence a = rm_Sequence b → a = b.
Proof.
  pose proof (contents_sorted w s) as Hs. induction Hs as [|m l _ IH Hm]; [by intros ?%elem_of_nil|].
  rewrite !elem_of_cons. intros [->|Ha] [->|Hb] Heq; [done|..|by apply IH]; eapply Forall_forall in Hm as [Hlt _]; try done; lia.
Qed.

(** C31. Replaying a dead letter does not lose it: it leaves the dead-letter stream only after its payload
    was stored again under its original subject, and a replay that reports success has done both. *)
Theorem replay_never_loses_dead_letter q raw dl w r w' :
  raw ∈ contents w StreamDeadLetter → rm_Sequence raw = q → dl_Unmarshal (rm_Data raw) = Ok dl →
  (∀ nano, dl_ID dl +:+ ".replay." +:+ FormatInt36 nano ∉ window w) →
  ReplayDeadLetter q w = (r, w') →
  let again := ∃ m, deliveries w' = deliveries w ++ [m] ∧ om_Subject m = dl_Subject dl ∧ om_Payload m = dl_Payload dl in
  (raw ∈ contents w' StreamDeadLetter ∨ again) ∧
  (is_ok r = true → again ∧ Forall (λ m, rm_Sequence m ≠ q) (contents w' StreamDeadLetter)).
Proof.
  intros Hraw Hq Hdl Hwin. unfold ReplayDeadLetter, mbind, ST_bind.
  destruct (wrapping _ _ (js_Stream _) w) as [r1 w1] eqn:G1. apply wrapping_inv in G1 as (r1' & G1 & Hr1). apply open_same in G1 as (_ & D1 & W1 & C1 & _).
  destruct r1' as [[]|e]; rewrite Hr1; [|intros [= <- <-]; split; [left; by rewrite C1|done]].
  destruct (wrapping _ _ (stream_GetMsg _ q) w1) as [r2 w2] eqn:G2. apply wrapping_inv in G2 as (r2' & G2 & Hr2).
  pose proof (get_same _ _ _ _ _ G2) as (_ & D2 & W2 & C2 & _).
  destruct r2' as [raw'|e]; rewrite Hr2; [|intros [= <- <-]; split; [left; by rewrite C2, C1|done]].
  apply get_found in G2 as [Hin Hseq]. rewrite C1 in Hin. assert (raw' = raw) as -> by (eapply contents_unique; eauto; congruence).
  rewrite Hdl. unfold ST_lift. destruct (Publish _ w2) as [r3 w3] eqn:G3. pose proof (Publish_effect _ _ _ _ G3) as (_ & D3 & C3 & _).
  destruct (C3 StreamDeadLetter) as (new & Hnew & _ & _). rewrite C2, C1 in Hnew.
  destruct r3 as [[]|e]; [|intros [= <- <-]; split; [left; rewrite Hnew; apply elem_of_app; by left|done]].
  rewrite W2, W1, D2, D1 in D3. destruct D3 as [(_ & _ & Hin3)|(D3 & _)]; [simpl; by destruct (dl_ID dl)|by destruct (Hwin _ (Hin3 eq_refl))|].
  destruct (wrapping _ _ (stream_DeleteMsg _ q) w3) as [r4 w4] eqn:G4. apply wrapping_inv in G4 as (r4' & G4 & Hr4).
  apply delete_contents in G4 as [[= _ D4] C4]. intros [= -> <-]. rewrite D3 in D4.
  assert (∃ m, deliveries w4 = deliveries w ++ [m] ∧ om_Subject m = dl_Subject dl ∧ om_Payload m = dl_Payload dl) as Hagain by (by eexists).
  split; [by right|]. intros Hok. split; [done|]. destruct C4 as [->|[Hno _]].
  - apply Forall_forall. by intros m [? _]%list_elem_of_filter.
  - destruct r4' as [[]|e]; [done|]. by rewrite Hr4 in Hok.
Qed.

Lemma filter_ext_elem {A} (P Q : A → Prop) `{∀ x, Decision (P x), ∀ x, Decision (Q x)} (l : list A) :
  (∀ x, x ∈ l → (P x ↔ Q x)) → filter P l = filter Q l.
Proof.
  induction l as [|x l IH]; intros Hx; [done|]. rewrite !filter_cons, IH by (intros y Hy; apply Hx; by right).
  destruct (Hx x (list_elem_of_here x l)). repeat case_decide; naive_solver.
Qed.

(** The window of a replay, as the stream stood when it began. *)
Definition replay_window (f : string) (since until : Time) (l : list RawMsg) : list RawMsg :=
  filter (λ m, (since ≤ rm_Time m)%Z ∧ (until = time_zero ∨ (rm_Time m < until)%Z) ∧ filter_matches f (rm_Subject m) = true) l.

(** ** Listing dead letters *)

Definition letter_of (m : RawMsg) : option DeadLetterRecord :=
  match dl_Unmarshal (rm_Data m) with Ok dl => Some (MkDeadLetterRecord (rm_Sequence m) dl) | Err _ => None end.
Definition between (a b : Z) (m : RawMsg) : Prop := (a ≤ rm_Sequence m < b)%Z.
#[local] Instance between_dec a b m : Decision (between a b m).
Proof. unfold between. apply _. Defined.

Lemma between_split l q b :
  StronglySorted in_order l → (q < b)%Z → filter (between q b) l = filter (λ m, rm_Sequence m = q) l ++ filter (between (q + 1) b) l.
Proof.
  intros Hs Hqb. induction Hs as [|m l _ IH Hm]; [done|]. rewrite !filter_cons, IH. destruct (Z.eq_dec (rm_Sequence m) q) as [Hq|Hq];
    [rewrite (decide_True (P:=rm_Sequence m = q)) by done|rewrite (decide_False (P:=rm_Sequence m = q)) by done].
  - rewrite (decide_True (P:=between q b m)), (decide_False (P:=between (q + 1) b m)) by (unfold between; lia). done.
  - case_decide as Hb.
    + rewrite (decide_True (P:=between (q + 1) b m)) by (unfold between in *; lia).
      rewrite filter_none; [done|]. intros x Hx. eapply Forall_forall in Hm as [Hlt _]; [|exact Hx]. unfold between in Hb. lia.
    + rewrite (decide_False (P:=between (q + 1) b m)) by (unfold between in *; lia). done.
Qed.

Lemma list_loop_spec limit more q out w res w' :
  (Z.of_nat (length out) ≤ Z.max 0 limit)%Z → list_loop more q limit out w = (Ok res, w') →
  res = take (Z.to_nat limit) (out ++ omap letter_of (filter (between q (q + Z.of_nat more)) (contents w StreamDeadLetter))).
Proof.
  revert q out w. induction more as [|more IH]; intros q out w Hlen Hl; simpl in Hl.
  { unfold mret, ST_ret in Hl. simplify_eq. rewrite filter_none by (unfold between; lia). simpl. rewrite app_nil_r, take_ge; [done|lia]. }
  destruct (Z.leb_spec limit (Z.of_nat (length out))) as [Hge|Hlt].
  { unfold mret, ST_ret in Hl. simplify_eq. rewrite take_app_length'; [done|lia]. }
  destruct (stream_GetMsg StreamDeadLetter q w) as [r w1] eqn:Hg. pose proof (get_same _ _ _ _ _ Hg) as (_ & _ & _ & Hc & _).
  rewrite between_split by (apply contents_sorted || lia).
  replace (q + Z.of_nat (S more))%Z with (q + 1 + Z.of_nat more)%Z by lia. rewrite omap_app.
  destruct r as [raw|e].
  - apply get_found in Hg as [Hin Hq].
    assert (filter (λ m, rm_Sequence m = q) (contents w StreamDeadLetter) = [raw]) as ->.
    { rewrite <-Hq. pose proof (contents_sorted w StreamDeadLetter) as Hs. revert Hin. clear -Hs. induction Hs as [|m l _ IH Hm]; [by intros ?%elem_of_nil|].
      intros [->|Hin]%elem_of_cons; rewrite filter_cons.
      - rewrite decide_True by done. rewrite filter_none; [done|]. intros x Hx. eapply Forall_forall in Hm as [Hlt _]; [|exact Hx]. lia.
      - rewrite decide_False by (eapply Forall_forall in Hm as [Hlt _]; [|exact Hin]; lia). by apply IH. }
    simpl. unfold letter_of at 1. rewrite Hq. destruct (dl_Unmarshal (rm_Data raw)) as [dl|e].
    + apply IH in Hl; [|rewrite length_app; simpl; lia]. by rewrite Hl, Hc, <-app_assoc.
    + apply IH in Hl; [|lia]. by rewrite Hl, Hc.
  - destruct (error_is ErrMsgNotFound e) eqn:He; [|done]. eapply get_missing in Hg; [|done]. rewrite filter_none.
    + apply IH in Hl; [|lia]. by rewrite Hl, Hc.
    + intros x Hx. by eapply Forall_forall in Hg.
Qed.

Lemma list_loop_same more q limit out w r w' : list_loop more q limit out w = (r, w') → contents w' = contents w.
Proof.
  revert q out w. induction more as [|more IH]; intros q out w Hl; simpl in Hl; [unfold mret, ST_ret in Hl; by simplify_eq|].
  destruct (limit <=? _)%Z; [unfold mret, ST_ret in Hl; by simplify_eq|].
  destruct (stream_GetMsg StreamDeadLetter q w) as [r1 w1] eqn:Hg. apply get_same in Hg as (_ & _ & _ & <- & _).
  destruct r1 as [raw|e]; [destruct (dl_Unmarshal _)|destruct (error_is _ e); [|by simplify_eq]]; by eapply IH.
Qed.

(** Listing dead letters gives the oldest ones, up to the limit, in the order of the stream:
    exactly the stored messages that decode as dead letters, with the position each is replayed by. *)
Theorem dead_letters_listed_in_order limit w out w' :
  ListDeadLetters limit w = (Ok out, w') →
  out = take (Z.to_nat limit) (omap letter_of (contents w StreamDeadLetter)) ∧ contents w' = contents w.
Proof.
  unfold ListDeadLetters. intros (u1 & w1 & G1 & Hl)%ST_bind_inv. apply ST_bind_inv in Hl as (i & w2 & G2 & Hl).
  apply wrapping_inv in G1 as ([?|] & G1 & ?); [|done]. apply open_same in G1 as (_ & _ & _ & C1 & _).
  apply wrapping_inv in G2 as ([i'|] & G2 & ?); [|done]. simplify_eq. pose proof (info_same _ _ _ _ G2) as (_ & _ & _ & C2 & _).
  apply info_state in G2 as (Hlast & Hmsgs & Hfirst). rewrite C1 in *.
  destruct (Z.eqb_spec (ss_Msgs i') 0) as [Hz|Hz].
  - unfold mret, ST_ret in Hl. simplify_eq. destruct (contents w StreamDeadLetter) eqn:Hc; [|simpl in Hmsgs; lia]. split; [symmetry; apply take_nil|congruence].
  - split.
    + apply list_loop_spec in Hl; [|simpl; lia]. rewrite Hl, C2. simpl. do 2 f_equal. apply filter_all. intros m Hm.
      pose proof (contents_last w1 StreamDeadLetter) as Hcl. rewrite C1 in Hcl. eapply Forall_forall in Hcl; [|exact Hm]. eapply Forall_forall in Hfirst; [|exact Hm].
      simpl in *. unfold between. lia.
    + apply list_loop_same in Hl. congruence.
Qed.
(** The worker and the advisory watcher name a message's dead letter alike: when the worker's dead
    letter is already with the server, the watcher's is dropped as a duplicate, so a message that both
    give up on is recorded once. *)
Theorem watcher_does_not_duplicate o m cause reason attempts now adv dls data w r w' :
  advisory_Unmarshal data = Some adv → av_StreamSeq adv = StreamSeq m → dl_ID (dead_letter o m cause reason attempts now) ≠ "" →
  dl_ID (dead_letter o m cause reason attempts now) ∈ window w →
  on_advisory (wo_Stream o) (wo_Durable o) dls data w = (r, w') → r = Ok tt ∧ deliveries w' = deliveries w.
Proof.
  intros Hadv Hseq Hne Hin. unfold on_advisory. rewrite Hadv. destruct (_ =? 0)%Z; [by intros [= <- <-]|].
  destruct (stream_GetMsg _ _ w) as [r1 w1] eqn:Hg. apply get_same in Hg as (_ & D1 & W1 & _ & _).
  destruct r1 as [raw|e]; [|by intros [= <- <-]]. destruct (Publish _ w1) as [r2 w2] eqn:Hp. intros [= <- <-]. split; [done|].
  apply Publish_effect in Hp as (_ & Hd & _ & _). rewrite <-D1.
  destruct Hd as [(-> & _)|(_ & _ & Hn)]; [|done|].
  - cbn [om_MsgID advisory_letter dl_ID]. rewrite Hseq. exact Hne.
  - destruct Hn. rewrite W1. cbn [om_MsgID advisory_letter dl_ID]. rewrite Hseq. exact Hin.
Qed.
End client.

(** A message that was replayed before and failed again carries the X-Replay-Of of its first replay, and a
    second replay keeps that one instead of naming the dead letter it replays. *)
Theorem second_replay_names_first_letter dl nano x xs :
  dl_Headers dl !! "X-Replay-Of" = Some (x :: xs) → mread (om_Headers (replay_msg dl nano)) "X-Replay-Of" = x.
Proof.
  intros Hx. unfold mread, mget. change (entries (om_Headers (replay_msg dl nano))) with
    (first_values (dl_Headers dl) ∪ {["X-Replay" := "true"; "X-Replay-Of" := dl_ID dl]}).
  assert (first_values (dl_Headers dl) !! "X-Replay-Of" = Some x) as Hf
    by (unfold first_values; rewrite lookup_omap, lookup_delete_ne, Hx by done; done).
  by rewrite (lookup_union_Some_l _ _ _ _ Hf).
Qed.

(** ** Streams *)

(** NATS subjects: tokens between dots; in a pattern [*] stands for one token and a final [>] for one or more. *)
Fixpoint tokens_from (cur s : string) : list string :=
  match s with
  | "" => [cur]
  | String c s => if bool_decide (c = "."%char) then cur :: tokens_from "" s else tokens_from (cur +:+ String c "") s
  end.
Definition tokens : string → list string := tokens_from "".
Fixpoint tokens_match (pat subj : list string) : bool :=
  match pat, subj with
  | [], [] => true
  | [p], _ :: _ => bool_decide (p = ">") || ((bool_decide (p = "*") || bool_decide (Some p = head subj)) && bool_decide (tail subj = []))
  | p :: pat, t :: subj => (bool_decide (p = "*") || bool_decide (p = t)) && tokens_match pat subj
  | _, _ => false
  end.
Definition captures (c : StreamConfig) (subject : string) : bool := existsb (λ p, tokens_match (tokens p) (tokens subject)) (sc_Subjects c).

Ltac split_ors := repeat match goal with E : _ ∨ _ |- _ => destruct E | E : False |- _ => destruct E end.

Lemma two_tokens_match a b ts : a ≠ "*" → b ≠ "*" → b ≠ ">" → tokens_match [a; b] ts = true → ts = [a; b].
Proof.
  intros Ha Hb Hb'. destruct ts as [|x [|y ts]]; [done|by simpl; rewrite andb_false_r|]. cbn [tokens_match head tail].
  rewrite (bool_decide_eq_false_2 (a = "*")), (bool_decide_eq_false_2 (b = "*")), (bool_decide_eq_false_2 (b = ">")) by done.
  cbn [orb]. rewrite !andb_true_iff, !bool_decide_eq_true. naive_solver.
Qed.
Lemma raw_tokens_match ts : tokens_match ["telemetry"; "raw"; ">"] ts = true → take 2 ts = ["telemetry"; "raw"].
Proof.
  destruct ts as [|x [|y ts]]; [done|by simpl; rewrite andb_false_r|]. cbn [tokens_match].
  rewrite (bool_decide_eq_false_2 ("telemetry" = "*")), (bool_decide_eq_false_2 ("raw" = "*")) by done.
  cbn [orb]. rewrite !andb_true_iff, !bool_decide_eq_true. intros (<- & <- & _). done.
Qed.

(** The first two tokens of the subjects a stream captures. *)
Definition stream_keys (name : string) : list (list string) :=
  if bool_decide (name = StreamTelemetryRaw) then [["telemetry"; "raw"]]
  else if bool_decide (name = StreamTelemetryNormalized) then [["telemetry"; "normalized"]]
  else if bool_decide (name = StreamInventory) then [["inventory"; "observed"]]
  else if bool_decide (name = StreamEvents) then [["events"; "device"]; ["events"; "alert"]]
  else if bool_decide (name = StreamAutomation) then [["automation"; "request"]; ["automation"; "result"]]
  else [["system"; "deadletter"]].

Lemma captures_key c subject : c ∈ StreamSpecs → captures c subject = true → take 2 (tokens subject) ∈ stream_keys (sc_Name c).
Proof.
  unfold StreamSpecs, captures. generalize (tokens subject). intros ts. rewrite !elem_of_cons, elem_of_nil.
  intros Hc. split_ors; subst c; cbn [sc_Subjects sc_Name existsb]; rewrite ?orb_false_r, ?orb_true_iff.
  all: try (intros Ht%raw_tokens_match; rewrite Ht; apply (bool_decide_unpack _); vm_compute; exact I).
  all: intros Ht; split_ors; match goal with E : tokens_match _ _ = true |- _ => apply two_tokens_match in E; [subst ts|done..] end; apply (bool_decide_unpack _); vm_compute; exact I.
Qed.

(** Every subject goes to at most one stream, whatever the subject; each subject the platform
    publishes on goes to exactly one; and every stream is bounded in age and size. *)
Theorem streams_partition_subjects subject :
  (∀ c c', c ∈ StreamSpecs → c' ∈ StreamSpecs → captures c subject = true → captures c' subject = true → c = c') ∧
  (subject ∈ [SubjectRawSNMP; SubjectRawScript; SubjectNormalized; SubjectInventoryObserved; SubjectEventDevice; SubjectEventAlert;
              SubjectAutomationRequest; SubjectAutomationResult; SubjectDeadLetter] → Exists (λ c, captures c subject = true) StreamSpecs) ∧
  Forall (λ c, (0 < sc_MaxAge c)%Z ∧ (0 < sc_MaxBytes c)%Z) StreamSpecs.
Proof.
  split_and!.
  - intros c c' Hc Hc' K%captures_key K'%captures_key; [|done..]. revert Hc Hc' K K'. generalize (take 2 (tokens subject)).
    intros k. unfold StreamSpecs. rewrite !elem_of_cons, !elem_of_nil. intros Hc Hc'.
    split_ors; subst; try done; cbn [sc_Name]; intros K K'.
    all: repeat match goal with E : ?k ∈ stream_keys ?a |- _ =>
           let x := eval vm_compute in (stream_keys a) in change (k ∈ x) in E; rewrite ?elem_of_cons, ?elem_of_nil in E end.
    all: split_ors; congruence.
  - rewrite !elem_of_cons, elem_of_nil. intros Hs. apply (bool_decide_unpack _).
    split_ors; subst subject; vm_compute; exact I.
  - apply (bool_decide_unpack _). vm_compute. exact I.
Qed.
