(* ===== verification/MessagingExample.v ===== *)
(** * An example message server

    It satisfies the laws of [JetStream], so the theorems about the client apply to something; it loses as
    many acknowledgements as it is told to. *)

From S2P Require Import Prelude GoLib GoFloat Domain Schema Store StateFacts Pipeline Scheduler Worker Messaging MessagingThms.

#[export] Instance ex_nats : NatsErrors :=
  {| ErrTimeout := EText "nats: timeout"; ErrNoResponders := EText "nats: no responders"; ErrConnectionClosed := EText "nats: connection closed";
     ErrDisconnected := EText "nats: server is disconnected"; ErrNoStreamResponse := EText "nats: no response from stream";
     ErrMsgNotFound := EText "nats: message not found" |}.

(** The log of all streams, with deleted messages marked; the sequence and the time of a message are its place. *)
Record ExServer := MkExServer {
  xs_log : list (string * OutMsg * bool); xs_acked : list OutMsg; xs_stored : list OutMsg; xs_window : gset string;
  xs_consumer : ConsumerState; xs_lose : nat }.
#[export] Instance eta_ExServer : Eta ExServer := λ w,
  MkExServer (xs_log w) (xs_acked w) (xs_stored w) (xs_window w) (xs_consumer w) (xs_lose w).

Definition raw_of (k : Z) (m : OutMsg) : RawMsg :=
  MkRawMsg (om_Subject m) k k (<[HeaderMsgID := [om_MsgID m]]> ((λ v, [v]) <$> default ∅ (om_Headers m))) (om_Payload m).
Fixpoint entries_from (k : Z) (s : string) (log : list (string * OutMsg * bool)) : list RawMsg :=
  match log with
  | [] => []
  | (st, m, alive) :: log =>
      let rest := entries_from (k + 1) s log in if alive && bool_decide (st = s) then raw_of k m :: rest else rest
  end.
Fixpoint kill (k q : Z) (s : string) (log : list (string * OutMsg * bool)) : list (string * OutMsg * bool) :=
  match log with
  | [] => []
  | (st, m, alive) :: log => (st, m, alive && negb ((k =? q)%Z && bool_decide (st = s))) :: kill (k + 1) q s log
  end.

Definition xs_contents (w : ExServer) (s : string) : list RawMsg := entries_from 1 s (xs_log w).
Definition stream_of (subject : string) : string := if bool_decide (subject = SubjectDeadLetter) then StreamDeadLetter else StreamEvents.

Lemma entries_app k s l1 l2 : entries_from k s (l1 ++ l2) = entries_from k s l1 ++ entries_from (k + Z.of_nat (length l1)) s l2.
Proof.
  revert k. induction l1 as [|[[st m] a] l1 IH]; intros k; simpl; [by rewrite Z.add_0_r|].
  rewrite IH. replace (k + 1 + Z.of_nat (length l1))%Z with (k + Z.of_nat (S (length l1)))%Z by lia. by destruct (_ && _).
Qed.
Lemma entries_range k s log : Forall (λ m, k ≤ rm_Sequence m < k + Z.of_nat (length log) ∧ rm_Time m = rm_Sequence m)%Z (entries_from k s log).
Proof.
  revert k. induction log as [|[[st m] a] log IH]; intros k; simpl; [done|].
  assert (Forall (λ m, k ≤ rm_Sequence m < k + Z.of_nat (S (length log)) ∧ rm_Time m = rm_Sequence m)%Z (entries_from (k + 1) s log)) as Hr
    by (eapply Forall_impl; [apply IH|]; simpl; lia).
  destruct (_ && _); [|done]. constructor; [simpl; lia|done].
Qed.
Lemma entries_sorted k s log : StronglySorted in_order (entries_from k s log).
Proof.
  revert k. induction log as [|[[st m] a] log IH]; intros k; simpl; [constructor|]. destruct (_ && _); [|apply IH]. constructor; [apply IH|].
  eapply Forall_impl; [apply entries_range|]. intros x. unfold in_order. simpl. lia.
Qed.
Lemma entries_kill k q s s' log :
  entries_from k s' (kill k q s log) = if bool_decide (s = s') then filter (λ m, rm_Sequence m ≠ q) (entries_from k s' log) else entries_from k s' log.
Proof.
  revert k. induction log as [|[[st m] a] log IH]; intros k; simpl; [by case_bool_decide|]. rewrite IH.
  destruct a; simpl; [|by case_bool_decide]. destruct (decide (st = s')) as [->|Hst].
  - rewrite (bool_decide_eq_true_2 (s' = s')) by done. destruct (Z.eqb_spec k q) as [->|Hk]; simpl.
    + destruct (decide (s = s')) as [->|Hs].
      * rewrite !bool_decide_eq_true_2 by done. simpl. rewrite filter_cons, decide_False; [done|]. simpl. by intros [].
      * rewrite !bool_decide_eq_false_2 by done. done.
    + case_bool_decide; [|done]. rewrite filter_cons, decide_True by done. done.
  - rewrite (bool_decide_eq_false_2 (st = s')) by done. by rewrite andb_false_r.
Qed.

Definition xs_publish (m : OutMsg) (w : ExServer) : res unit * ExServer :=
  let w := if bool_decide (om_MsgID m ∈ xs_window w) then w
           else w <| xs_log := xs_log w ++ [(stream_of (om_Subject m), m, true)] |> <| xs_stored := xs_stored w ++ [m] |>
                  <| xs_window := remember (om_MsgID m) (xs_window w) |> in
  match xs_lose w with
  | S n => (Err ErrTimeout, w <| xs_lose := n |>)
  | O => (Ok tt, w <| xs_acked := xs_acked w ++ [m] |>)
  end.
Definition ex_matches (f subject : string) : bool := bool_decide (f = "") || bool_decide (f = subject).
Definition xs_fetch (k : Z) (w : ExServer) : res (list FetchedMsg * option error) * ExServer :=
  let c := xs_consumer w in
  let l := take (Z.to_nat k) (filter (λ m, due ex_matches c m = true) (xs_contents w (cs_Stream c))) in
  (Ok (fetched <$> l, None),
   w <| xs_consumer := MkConsumerState (cs_Stream c) (cs_Filter c) (cs_Since c) (from_option rm_Sequence (cs_Last c) (last l)) |>).

#[export] Instance ex_broker : Broker ExServer unit unit := {|
  js_PublishMsg := xs_publish;
  js_PublishMsgAsync m w := xs_publish m w;
  js_Await _ w := (OutcomeOk, w);
  js_CreateOrUpdateStream _ w := (Ok tt, w);
  js_Stream _ w := (Ok tt, w);
  stream_Info s w := (Ok (MkStreamState (Z.of_nat (length (xs_contents w s))) 1 (Z.of_nat (length (xs_log w)))), w);
  stream_GetMsg s q w := match List.find (λ m, (rm_Sequence m =? q)%Z) (xs_contents w s) with Some m => (Ok m, w) | None => (Err ErrMsgNotFound, w) end;
  stream_DeleteMsg s q w := (Ok tt, w <| xs_log := kill 1 q s (xs_log w) |>);
  stream_Purge _ w := (Ok tt, w);
  stream_CreateConsumer s f since w := (Ok tt, w <| xs_consumer := MkConsumerState s f since 0 |>);
  cons_FetchNoWait _ k w := xs_fetch k w;
  nc_IsConnected _ := true;
  nc_Flush w := (Ok tt, w);
  ctx_Err _ := None;
  ctx_wait _ w := w;
  clock_Now w := (63113904000 * Second + Z.of_nat (length (xs_log w)))%Z;
|}.

#[export] Instance ex_jetstream : JetStream ex_broker.
Proof.
  refine {| acked := xs_acked; deliveries := xs_stored; window := xs_window; contents := xs_contents; last_seq w _ := Z.of_nat (length (xs_log w));
            consumer _ := xs_consumer; filter_matches := ex_matches |}.
  - intros w s. apply entries_sorted.
  - intros w s. eapply Forall_impl; [apply entries_range|]. simpl. lia.
  - intros m w r w'. simpl. unfold xs_publish. case_bool_decide; simpl; destruct (xs_lose w); intros [= <- <-]; simpl; by rewrite ?app_nil_r.
  - intros m w r w'. simpl. unfold xs_publish. case_bool_decide; simpl; destruct (xs_lose w); intros [= <- <-]; simpl; auto.
  - intros m w r w' s. simpl. unfold xs_publish. case_bool_decide; simpl; destruct (xs_lose w); intros [= <- <-]; simpl.
    1,2: exists []; split_and!; [by rewrite app_nil_r|done|lia].
    all: eexists; split_and!; [unfold xs_contents; simpl; apply entries_app| |rewrite length_app; lia];
      eapply Forall_impl; [apply entries_range|]; unfold seq_after; simpl; lia.
  - intros m w r w' c. simpl. unfold xs_publish. case_bool_decide; simpl; destruct (xs_lose w); by intros [= <- <-].
  - done.
  - done.
  - by intros s w r w' [= <- <-].
  - by intros s w r w' [= <- <-].
  - intros s w i w' [= <- <-]. simpl. split_and!; [done|done|]. eapply Forall_impl; [apply entries_range|]. simpl. lia.
  - intros s q w r w'. simpl. destruct (List.find _ _); by intros [= <- <-].
  - intros s q w m w'. simpl. destruct (List.find _ _) eqn:Hf; [|done]. intros [= <- <-]. apply find_some in Hf as [Hin Hq%Z.eqb_eq].
    split; [by apply list_elem_of_In|done].
  - intros s q w e w'. simpl. destruct (List.find _ _) eqn:Hf; [done|]. intros _ _. apply Forall_forall. intros m Hm.
    apply list_elem_of_In in Hm. by apply (find_none _ _ Hf), Z.eqb_neq in Hm.
  - intros s q w r w' [= <- <-]. split; [done|]. left. unfold xs_contents. simpl. by rewrite entries_kill, bool_decide_eq_true_2.
  - intros s f since w r w' [= <- <-]. split; [done|]. by intros c [= <-].
  - intros c k w r w'. simpl. unfold xs_fetch. intros [= <- <-]. split; [done|]. intros ms e [= <- <-]. by eexists.
Defined.

(** ** The theorems on the example *)

Definition ex_msg (id : string) : OutMsg := MkOutMsg SubjectEventDevice id "payload" (Some {[HeaderCorrelationID := "c1"]}).
Definition ex_letter : DeadLetter :=
  MkDeadLetter "dl1" "processor" StreamEvents 7 SubjectEventDevice {[HeaderMsgID := ["ev1"]; HeaderCorrelationID := ["c1"]]} "payload" "bad" "permanent"
    "permanent_error" 1 0.
Definition ex_letter_json : Json DeadLetter := {| json_Marshal dl := Ok (dl_ID dl); json_Decode _ := Err "not needed"; json_trailing _ := false |}.
Definition ex_letter_decode : DeadLetterJson := {|
  dl_Unmarshal s := if bool_decide (s = "dl1") then Ok ex_letter else Err "unexpected end of JSON input";
  advisory_Unmarshal s := Some (MkAdvisory StreamEvents "processor" 7 5) |}.
Definition ex_empty : ExServer := MkExServer [] [] [] ∅ (MkConsumerState "" "" 0 0) 0.
Definition ex_dead : ExServer := ex_empty <| xs_log := [(StreamDeadLetter, MkOutMsg SubjectDeadLetter "x" "junk" None, true);
                                                         (StreamDeadLetter, MkOutMsg SubjectDeadLetter "dl1" "dl1" None, true)] |>.
Definition ex_events : ExServer := ex_empty <| xs_log := (λ id, (StreamEvents, ex_msg id, true)) <$> ["a"; "b"; "c"] |>.

(** Two acknowledgements are lost; the third attempt succeeds and the message is stored once. *)
Lemma publish_stores_once_witness :
  let '(r, w') := Publish (ex_msg "m1") (ex_empty <| xs_lose := 2 |>) in is_ok r = true ∧ deliveries w' = [ex_msg "m1"].
Proof.
  destruct (Publish (ex_msg "m1") (ex_empty <| xs_lose := 2 |>)) as [r w'] eqn:Hp.
  assert (is_ok r = true) as Hr by (rewrite <-(f_equal fst Hp : _ = r); vm_compute; reflexivity).
  destruct (publish_stores_once _ _ _ _ Hp) as [_ Hd]; [done|set_solver|]. destruct r; [|done]. split; [done|exact Hd].
Defined.

Lemma replay_never_loses_dead_letter_witness :
  let '(r, w') := ReplayDeadLetter (DLJ:=ex_letter_decode) 2 ex_dead in
  is_ok r = true ∧ ∃ m, deliveries w' = [m] ∧ om_Subject m = SubjectEventDevice ∧ om_Payload m = "payload".
Proof.
  destruct (ReplayDeadLetter (DLJ:=ex_letter_decode) 2 ex_dead) as [r w'] eqn:Hp.
  assert (is_ok r = true) as Hr by (rewrite <-(f_equal fst Hp : _ = r); vm_compute; reflexivity).
  destruct (replay_never_loses_dead_letter (DLJ:=ex_letter_decode) 2 (raw_of 2 (MkOutMsg SubjectDeadLetter "dl1" "dl1" None)) ex_letter ex_dead r w') as [_ Hok].
  - change (contents ex_dead StreamDeadLetter) with
      [raw_of 1 (MkOutMsg SubjectDeadLetter "x" "junk" None); raw_of 2 (MkOutMsg SubjectDeadLetter "dl1" "dl1" None)]. right. left.
  - done.
  - done.
  - intros nano. apply not_elem_of_empty.
  - exact Hp.
  - split; [done|]. destruct (Hok Hr) as [Hagain _]. exact Hagain.
Defined.


Lemma dead_letters_listed_in_order_witness : (ListDeadLetters (DLJ:=ex_letter_decode) 10 ex_dead).1 = Ok [MkDeadLetterRecord 2 ex_letter].
Proof.
  destruct (ListDeadLetters (DLJ:=ex_letter_decode) 10 ex_dead) as [r w'] eqn:Hp.
  assert (is_ok r = true) as Hr by (rewrite <-(f_equal fst Hp : _ = r); vm_compute; reflexivity).
  destruct r as [out|]; [|done]. destruct (dead_letters_listed_in_order (DLJ:=ex_letter_decode) 10 ex_dead out w' Hp) as [-> _]. vm_compute. reflexivity.
Defined.

Definition ex_exhausted : Message := MkMessage SubjectEventDevice "payload" ∅ (Some (7%Z, 5%Z)).
Definition ex_processor : WorkerOptions := MkWorkerOptions StreamEvents "processor" 1 1 5 1 1 1 None "" 1 1.
Definition ex_recorded_letter : ExServer :=
  ex_events <| xs_window := {[dl_ID (dead_letter (H:=sha_id) ex_processor ex_exhausted (EText "bad") "permanent_error" 5 0)]} |>.
Lemma watcher_does_not_duplicate_witness :
  deliveries (on_advisory (SHA:=sha_id) (JDL:=ex_letter_json) (DLJ:=ex_letter_decode) StreamEvents "processor" "" "{}" ex_recorded_letter).2 = [].
Proof.
  destruct (on_advisory (SHA:=sha_id) (JDL:=ex_letter_json) (DLJ:=ex_letter_decode) StreamEvents "processor" "" "{}" ex_recorded_letter) as [r w'] eqn:Hp.
  destruct (watcher_does_not_duplicate (SHA:=sha_id) (JDL:=ex_letter_json) (DLJ:=ex_letter_decode) ex_processor ex_exhausted (EText "bad") "permanent_error" 5 0
    (MkAdvisory StreamEvents "processor" 7 5) "" "{}" ex_recorded_letter r w') as [_ Hd].
  - done.
  - done.
  - vm_compute. discriminate.
  - exact (proj2 (elem_of_singleton (C:=gset string) _ _) eq_refl).
  - exact Hp.
  - exact Hd.
Defined.

Lemma streams_partition_subjects_witness : Exists (λ c, captures c SubjectRawSNMP = true) StreamSpecs.
Proof. apply (streams_partition_subjects SubjectRawSNMP). left. Defined.
