(* ===== verification/GoParse.v ===== *)
(** * Parsing functions of the Go standard library

    [strings.Split] at one byte, [strconv.ParseBool], [strconv.ParseInt] and [time.ParseDuration], byte by
    byte as the library does it. *)

From S2P Require Import Prelude GoLib GoFloat Domain Regexp Session.

(** [strings.Split(s, sep)] for a separator of one byte. *)
Fixpoint split_byte (c : ascii) (cur s : string) : list string :=
  match s with
  | "" => [cur]
  | String d s => if bool_decide (d = c) then cur :: split_byte c "" s else split_byte c (cur +:+ str1 d) s
  end.
Definition Split (s : string) (c : ascii) : list string := split_byte c "" s.

Definition ParseBool (s : string) : option bool :=
  if bool_decide (s ∈ ["1"; "t"; "T"; "true"; "TRUE"; "True"]) then Some true
  else if bool_decide (s ∈ ["0"; "f"; "F"; "false"; "FALSE"; "False"]) then Some false
  else None.

(** [strconv.ParseInt(s, 10, 64)] *)
Definition ParseInt (s : string) : option Z :=
  match s with
  | String "+" s' => ParseUint int_max s'
  | String "-" s' => Z.opp <$> ParseUint (- int_min) s'
  | _ => ParseUint int_max s
  end.

(** ** [time.ParseDuration] *)

Definition digit_value (c : ascii) : option Z := if cls_digit c then Some (Z.of_N (byte_of c) - 48)%Z else None.
Definition limit63 : Z := 9223372036854775808.

(** The leading digits of [s] and what follows; [None] is an overflow. *)
Fixpoint leadingInt (x : Z) (s : string) : option (Z * string) :=
  match s with
  | "" => Some (x, "")
  | String c s' =>
      match digit_value c with
      | None => Some (x, s)
      | Some d => if (limit63 / 10 <? x)%Z then None else let x := (x * 10 + d)%Z in if (limit63 <? x)%Z then None else leadingInt x s'
      end
  end.
(** The leading digits of a fraction, ignoring those that no longer fit, and the power of ten below them. *)
Fixpoint leadingFraction (x : Z) (scale : float64) (overflow : bool) (s : string) : Z * float64 * string :=
  match s with
  | "" => (x, scale, "")
  | String c s' =>
      match digit_value c with
      | None => (x, scale, s)
      | Some d =>
          if overflow then leadingFraction x scale true s'
          else if ((limit63 - 1) / 10 <? x)%Z then leadingFraction x scale true s'
          else let y := (x * 10 + d)%Z in
               if (limit63 <? y)%Z then leadingFraction x scale true s' else leadingFraction y (f_mul scale (f_of_int 10)) false s'
      end
  end.
Fixpoint take_unit (s : string) : string * string :=
  match s with
  | "" => ("", "")
  | String c s' => if bool_decide (c = "."%char) || cls_digit c then ("", s) else let '(u, r) := take_unit s' in (String c u, r)
  end.
Definition unit_of (u : string) : option Z :=
  if bool_decide (u = "ns") then Some 1%Z
  else if bool_decide (u ∈ ["us"; String (chr 194) (String (chr 181) "s"); String (chr 206) (String (chr 188) "s")]) then Some Microsecond
  else if bool_decide (u = "ms") then Some Millisecond
  else if bool_decide (u = "s") then Some Second
  else if bool_decide (u = "m") then Some Minute
  else if bool_decide (u = "h") then Some Hour
  else None.

(** One number with its unit; the fuel bounds the bytes left. *)
Fixpoint durations (fuel : nat) (d : Z) (s : string) : option Z :=
  match fuel, s with
  | _, "" => Some d
  | O, _ => None
  | S fuel, String c s' =>
      if negb (bool_decide (c = "."%char) || cls_digit c) then None
      else
        match leadingInt 0 s with
        | None => None
        | Some (v, rest) =>
            let pre := negb (bool_decide (String.length rest = String.length s)) in
            let '(f, scale, rest', post) :=
              match rest with
              | String "." r => let '(f, scale, r') := leadingFraction 0 f_one false r in (f, scale, r', negb (bool_decide (String.length r' = String.length r)))
              | _ => (0%Z, f_one, rest, false)
              end in
            if negb pre && negb post then None
            else
              let '(u, rest'') := take_unit rest' in
              if bool_decide (u = "") then None
              else
                match unit_of u with
                | None => None
                | Some unit_ =>
                    if (limit63 / unit_ <? v)%Z then None
                    else
                      let v := (v * unit_)%Z in
                      let v := if (0 <? f)%Z then (v + f_to_int (f_mul (f_of_int f) (f_div (f_of_int unit_) scale)))%Z else v in
                      if (limit63 <? v)%Z || (limit63 <? d + v)%Z then None else durations fuel (d + v)%Z rest''
                end
        end
  end.
Definition ParseDuration (s : string) : option Duration :=
  let '(neg, s) := match s with String "-" r => (true, r) | String "+" r => (false, r) | _ => (false, s) end in
  if bool_decide (s = "0") then Some 0%Z
  else if bool_decide (s = "") then None
  else
    match durations (String.length s) 0 s with
    | None => None
    | Some d => if neg then Some (- d)%Z else if (limit63 - 1 <? d)%Z then None else Some d
    end.
Example ParseDuration_1h30 : ParseDuration "1h30m2.5s" = Some (5402500 * Millisecond)%Z.
Proof. vm_compute. reflexivity. Qed.
Example ParseDuration_bad : ParseDuration "5" = None ∧ ParseDuration ".s" = None ∧ ParseDuration "-250ms" = Some (-250 * Millisecond)%Z.
Proof. vm_compute. done. Qed.
