(* ===== verification/SimWorld.v ===== *)
(** * Package [sim]: simulated devices and scenarios (src/internal/sim/world.go, scenario.go)

    The state behind the simulated agents, how time changes it, and the scenarios operators and the
    automation adapters apply. The random generator of a device is a parameter with its state in the
    device; a pointer to an interface is its position; a scheduled revert is the data of its closure. The
    mutex is not modelled: each operation is atomic. *)

From S2P Require Import Prelude GoLib GoFloat Domain Regexp Session GoParse Scheduler.

Definition f_sub : float64 → float64 → float64 := SFsub 53 1024.
(** A decimal constant [n / d]. *)
Definition f_dec (n d : Z) : float64 := f_div (f_of_int n) (f_of_int d).

(** [math/rand.Rand]; a draw gives the next state. *)
Class Rand (R : Type) := {
  rand_New : Z → R;
  rand_Float64 : R → float64 * R;
  rand_Intn : Z → R → Z * R;
  rand_Int63n : Z → R → Z * R;
}.

Record Options := MkOptions { op_Seed : Z; op_Community : string; op_DropRate : float64 }.
#[export] Instance eta_Options : Eta Options := λ o, MkOptions (op_Seed o) (op_Community o) (op_DropRate o).

Record Iface := MkIface {
  if_Name : string; if_AdminUp : bool; if_OperUp : bool; if_InOctets : Z; if_OutOctets : Z; if_InErrors : Z; if_OutErrors : Z;
  if_rate : float64; if_errRate : float64 }.
#[export] Instance eta_Iface : Eta Iface := λ i,
  MkIface (if_Name i) (if_AdminUp i) (if_OperUp i) (if_InOctets i) (if_OutOctets i) (if_InErrors i) (if_OutErrors i) (if_rate i) (if_errRate i).

(** [fl_iface] is the position of the interface in the device. *)
Record flapState := MkFlapState { fl_iface : nat; fl_remaining : Z; fl_interval : Duration; fl_next : Time }.

Record SimDevice (R : Type) := MkSimDevice {
  sd_ID : string; sd_Type : DeviceType; sd_Model : string; sd_Iface : list Iface; sd_startedAt : Time;
  sd_CPU : float64; sd_Temp : float64; sd_Mem : float64; sd_Clients : Z; sd_Battery : float64;
  sd_OnBatt : bool; sd_Offline : bool; sd_AuthFail : bool;
  sd_cpuOverride : option float64; sd_tempOverride : option float64; sd_rng : R; sd_flap : option flapState }.
Arguments MkSimDevice {R}.
Arguments sd_ID {R}.
Arguments sd_Type {R}.
Arguments sd_Model {R}.
Arguments sd_Iface {R}.
Arguments sd_startedAt {R}.
Arguments sd_CPU {R}.
Arguments sd_Temp {R}.
Arguments sd_Mem {R}.
Arguments sd_Clients {R}.
Arguments sd_Battery {R}.
Arguments sd_OnBatt {R}.
Arguments sd_Offline {R}.
Arguments sd_AuthFail {R}.
Arguments sd_cpuOverride {R}.
Arguments sd_tempOverride {R}.
Arguments sd_rng {R}.
Arguments sd_flap {R}.
#[export] Instance eta_SimDevice {R} : Eta (SimDevice R) := λ d,
  MkSimDevice (sd_ID d) (sd_Type d) (sd_Model d) (sd_Iface d) (sd_startedAt d) (sd_CPU d) (sd_Temp d) (sd_Mem d) (sd_Clients d) (sd_Battery d)
    (sd_OnBatt d) (sd_Offline d) (sd_AuthFail d) (sd_cpuOverride d) (sd_tempOverride d) (sd_rng d) (sd_flap d).

(** A scheduled revert: [applyLocked] on the device with the event and its arguments. *)
Record scheduled := MkScheduled { sh_at : Time; sh_device : string; sh_event : string; sh_args : smap }.

Record World (R : Type) := MkWorld_ { wd_opts : Options; wd_devices : gmap string (SimDevice R); wd_timers : list scheduled; wd_lastTick : Time }.
Arguments MkWorld_ {R}.
Arguments wd_opts {R}.
Arguments wd_devices {R}.
Arguments wd_timers {R}.
Arguments wd_lastTick {R}.
#[export] Instance eta_World {R} : Eta (World R) := λ w, MkWorld_ (wd_opts w) (wd_devices w) (wd_timers w) (wd_lastTick w).

(** ** Construction *)

(** FNV-1a with 64 bits. *)
Fixpoint fnv64a (h : Z) (s : string) : Z :=
  match s with
  | "" => h
  | String c s => fnv64a (wrapu64 (Z.lxor h (Z.of_N (byte_of c)) * 1099511628211)) s
  end.
Definition seedFor (id : string) (seed : Z) : Z := wrap64 (Z.lxor (wrap64 (fnv64a 14695981039346656037 id)) seed).

Definition is_switch (t : DeviceType) : bool := bool_decide (t = DeviceSwitch) || bool_decide (t = DeviceRouter).
Definition iface_names (t : DeviceType) : list string :=
  if is_switch t then (λ i, "Gi0/" +:+ FormatInt (Z.of_nat i)) <$> seq 1 8
  else if bool_decide (t = DeviceAccessPoint) then ["eth0"; "wlan0"; "wlan1"]
  else [].

Section world.
Context {R : Type} {RND : Rand R}.

Definition new_iface (n : string) (rng : R) : Iface * R :=
  let '(a, rng) := rand_Int63n (Z.shiftl 1 34) rng in
  let '(b, rng) := rand_Int63n (Z.shiftl 1 34) rng in
  let '(f, rng) := rand_Float64 rng in
  (MkIface n true true a b 0 0 (f_add (f_of_int 20000) (f_mul f (f_of_int 900000))) f_zero, rng).
Fixpoint new_ifaces (names : list string) (rng : R) : list Iface * R :=
  match names with
  | [] => ([], rng)
  | n :: names => let '(i, rng) := new_iface n rng in let '(l, rng) := new_ifaces names rng in (i :: l, rng)
  end.

(** [now] is what the option [Now] gives. *)
Definition newDevice (d : Device) (o : Options) (now : Time) : SimDevice R :=
  let rng := rand_New (seedFor (d_ID d) (op_Seed o)) in
  let '(up, rng) := rand_Intn (86400 * 30) rng in
  let '(c, rng) := rand_Float64 rng in
  let '(t, rng) := rand_Float64 rng in
  let '(m, rng) := rand_Float64 rng in
  let '(cl, rng) := rand_Intn 10 rng in
  let '(ifaces, rng) := new_ifaces (iface_names (d_DeviceType d)) rng in
  MkSimDevice (d_ID d) (d_DeviceType d) (d_Model d) ifaces (time_Add now (wrap64 (- (3600 + up) * Second)))
    (f_add (f_of_int 12) (f_mul c (f_of_int 10))) (f_add (f_of_int 38) (f_mul t (f_of_int 6))) (f_add (f_of_int 35) (f_mul m (f_of_int 20)))
    (8 + cl) (f_of_int 100) false false false None None rng None.

Definition NewWorld (devices : list Device) (o : Options) (now : Time) : World R :=
  let o := if bool_decide (op_Community o = "") then o <| op_Community := "lab-ro" |> else o in
  MkWorld_ o (foldl (λ m d, <[d_ID d := newDevice d o now]> m) ∅ devices) [] now.

Definition IDs (w : World R) : list string := sort_strings (map_to_list (wd_devices w)).*1.

(** ** Time *)

Definition clamp (v lo hi : float64) : float64 := if f_lt v lo then lo else if f_gt v hi then hi else v.

Definition tick_iface (dt : float64) (i : Iface) (rng : R) : Iface * R :=
  let '(i, rng) :=
    if if_OperUp i && if_AdminUp i then
      let '(f, rng) := rand_Float64 rng in
      let delta := f_mul (f_mul (if_rate i) dt) (f_add (f_dec 7 10) (f_mul (f_dec 6 10) f)) in
      (i <| if_InOctets := wrapu64 (if_InOctets i + f_to_int delta) |>
         <| if_OutOctets := wrapu64 (if_OutOctets i + f_to_int (f_mul delta (f_dec 8 10))) |>, rng)
    else (i, rng) in
  let i :=
    if f_gt (if_errRate i) f_zero then
      i <| if_InErrors := wrapu64 (if_InErrors i + f_to_int (f_mul (if_errRate i) dt)) |>
        <| if_OutErrors := wrapu64 (if_OutErrors i + f_to_int (f_div (f_mul (if_errRate i) dt) (f_of_int 2))) |>
    else i in
  (i, rng).
Fixpoint tick_ifaces (dt : float64) (l : list Iface) (rng : R) : list Iface * R :=
  match l with
  | [] => ([], rng)
  | i :: l => let '(i, rng) := tick_iface dt i rng in let '(l, rng) := tick_ifaces dt l rng in (i :: l, rng)
  end.

(** A random step around [v]: [v + (r - 0.5) * width]. *)
Definition jitter (v width : float64) (r : float64) : float64 := f_add v (f_mul (f_sub r (f_dec 1 2)) width).
(** ... pulled towards [goal] by the factor [pull]. *)
Definition drift (v width goal pull r : float64) : float64 := f_add (jitter v width r) (f_mul (f_sub goal v) pull).

Definition tick_flap (now : Time) (d : SimDevice R) : SimDevice R :=
  match sd_flap d with
  | Some f =>
      if (0 <? fl_remaining f)%Z && negb (Before now (fl_next f)) then
        let d := d <| sd_Iface := alter (λ i, i <| if_OperUp := negb (if_OperUp i) |>) (fl_iface f) (sd_Iface d) |> in
        let remaining := (fl_remaining f - 1)%Z in
        if (remaining =? 0)%Z then
          d <| sd_Iface := alter (λ i, i <| if_OperUp := true |>) (fl_iface f) (sd_Iface d) |> <| sd_flap := None |>
        else d <| sd_flap := Some (MkFlapState (fl_iface f) remaining (fl_interval f) (time_Add now (fl_interval f))) |>
      else d
  | None => d
  end.

Definition tick (now : Time) (dt : float64) (d : SimDevice R) : SimDevice R :=
  let '(ifaces, rng) := tick_ifaces dt (sd_Iface d) (sd_rng d) in
  let '(r1, rng) := rand_Float64 rng in
  let cpu := match sd_cpuOverride d with
             | Some v => clamp (jitter v (f_of_int 3) r1) f_zero (f_of_int 100)
             | None => clamp (drift (sd_CPU d) (f_of_int 4) (f_of_int 18) (f_dec 1 10) r1) (f_of_int 2) (f_of_int 60)
             end in
  let '(r2, rng) := rand_Float64 rng in
  let temp := match sd_tempOverride d with
              | Some v => jitter v (f_dec 3 2) r2
              | None => clamp (drift (sd_Temp d) (f_dec 6 10) (f_of_int 42) (f_dec 5 100) r2) (f_of_int 30) (f_of_int 55)
              end in
  let '(r3, rng) := rand_Float64 rng in
  let mem := clamp (drift (sd_Mem d) (f_dec 3 2) (f_of_int 45) (f_dec 5 100) r3) (f_of_int 10) (f_of_int 88) in
  let '(n, rng) := rand_Intn 3 rng in
  let clients := f_to_int (clamp (f_add (f_of_int (sd_Clients d)) (f_of_int (n - 1))) f_zero (f_of_int 60)) in
  let battery := if sd_OnBatt d then clamp (f_sub (sd_Battery d) (f_mul dt (f_dec 4 10))) f_zero (f_of_int 100)
                 else clamp (f_add (sd_Battery d) (f_mul dt (f_dec 8 10))) f_zero (f_of_int 100) in
  tick_flap now
    (d <| sd_Iface := ifaces |> <| sd_CPU := cpu |> <| sd_Temp := temp |> <| sd_Mem := mem |> <| sd_Clients := clients |>
       <| sd_Battery := battery |> <| sd_rng := rng |>).

(** ** Scenarios (scenario.go) *)

Record Scenario := MkScenario { sn_Device : string; sn_Event : string; sn_Args : smap; sn_Duration : Duration }.

Definition inverse (event : string) : option string :=
  (list_to_map [("interface-down", "interface-up"); ("high-cpu", "cpu-normal"); ("offline", "online"); ("overheat", "cool");
                ("power-loss", "power-restore"); ("auth-failure", "auth-ok"); ("packet-errors", "errors-clear")] : gmap string string) !! event.

Definition Events (t : DeviceType) : list string :=
  sort_strings
    (["offline"; "online"; "auth-failure"; "auth-ok"; "reset"; "high-cpu"; "cpu-normal"; "overheat"; "cool"]
     ++ (if is_switch t || bool_decide (t = DeviceAccessPoint)
         then ["interface-down"; "interface-up"; "interface-flap"; "interface-admin-down"; "interface-admin-up"; "packet-errors"; "errors-clear"]
         else if bool_decide (t = DeviceUPS) then ["power-loss"; "power-restore"] else [])).

(** The position of the interface a scenario names, the first one if it names none. *)
Definition pickIface (d : SimDevice R) (name : string) : res nat :=
  match sd_Iface d with
  | [] => Err (Errorf CategoryUnsupported ("device " +:+ sd_ID d +:+ " has no interfaces"))
  | _ =>
      if bool_decide (name = "") then Ok 0
      else match list_find (λ i, if_Name i = name) (sd_Iface d) with
           | Some (k, _) => Ok k
           | None => Err (Errorf CategoryValidation ("device " +:+ sd_ID d +:+ " has no interface " +:+ Quote name))
           end
  end.

Definition on_iface (k : nat) (f : Iface → Iface) (d : SimDevice R) : SimDevice R := d <| sd_Iface := alter f k (sd_Iface d) |>.
Definition iface_name (d : SimDevice R) (k : nat) : string := from_option if_Name "" (sd_Iface d !! k).

(** [applyLocked] on the interface at [k]. *)
Definition apply_iface (now : Time) (event : string) (args : smap) (k : nat) (d : SimDevice R) : res string * SimDevice R :=
  let port := sd_ID d +:+ " " +:+ iface_name d k in
  if bool_decide (event = "interface-down") then
    let d := on_iface k (λ i, i <| if_OperUp := false |>) d in
    let d := match sd_flap d with Some f => if bool_decide (fl_iface f = k) then d <| sd_flap := None |> else d | None => d end in
    (Ok (port +:+ " is down"), d)
  else if bool_decide (event = "interface-up") then (Ok (port +:+ " is up"), on_iface k (λ i, i <| if_OperUp := true |>) d)
  else if bool_decide (event = "interface-admin-down") then
    (Ok (port +:+ " is administratively disabled"), on_iface k (λ i, i <| if_AdminUp := false |>) d)
  else if bool_decide (event = "interface-admin-up") then
    (Ok (port +:+ " is administratively enabled"), on_iface k (λ i, i <| if_AdminUp := true |> <| if_OperUp := true |>) d)
  else if bool_decide (event = "interface-flap") then
    let toggles := match ParseInt (mread args "toggles") with Some v => if (0 <? v)%Z then v else 14%Z | None => 14%Z end in
    let interval := match ParseDuration (mread args "interval") with Some v => if (0 <? v)%Z then v else 8 * Second | None => 8 * Second end%Z in
    (Ok (port +:+ " will flap " +:+ FormatInt toggles +:+ " times, every " +:+ DurationString interval),
     d <| sd_flap := Some (MkFlapState k toggles interval (time_Add now interval)) |>)
  else if bool_decide (event = "packet-errors") then
    (Ok (port +:+ " is accumulating errors"), on_iface k (λ i, i <| if_errRate := f_of_int 40 |>) d)
  else if bool_decide (event = "errors-clear") then
    (Ok (port +:+ " stopped accumulating errors"), on_iface k (λ i, i <| if_errRate := f_zero |>) d)
  else (Err (Errorf CategoryUnsupported ("unhandled event " +:+ Quote event)), d).

Definition applyLocked (now : Time) (event : string) (args : smap) (d : SimDevice R) : res string * SimDevice R :=
  if bool_decide (event = "offline") then (Ok (sd_ID d +:+ " stopped answering SNMP"), d <| sd_Offline := true |>)
  else if bool_decide (event = "online") then (Ok (sd_ID d +:+ " is answering SNMP again"), d <| sd_Offline := false |>)
  else if bool_decide (event = "auth-failure") then (Ok (sd_ID d +:+ " now rejects credentials (authorizationError)"), d <| sd_AuthFail := true |>)
  else if bool_decide (event = "auth-ok") then (Ok (sd_ID d +:+ " accepts credentials again"), d <| sd_AuthFail := false |>)
  else if bool_decide (event = "high-cpu") then (Ok (sd_ID d +:+ " CPU pinned near 97%"), d <| sd_cpuOverride := Some (f_of_int 97) |>)
  else if bool_decide (event = "cpu-normal") then (Ok (sd_ID d +:+ " CPU back to baseline"), d <| sd_cpuOverride := None |>)
  else if bool_decide (event = "overheat") then (Ok (sd_ID d +:+ " temperature rising to ~82C"), d <| sd_tempOverride := Some (f_of_int 82) |>)
  else if bool_decide (event = "cool") then (Ok (sd_ID d +:+ " temperature back to baseline"), d <| sd_tempOverride := None |>)
  else if bool_decide (event = "power-loss") then (Ok (sd_ID d +:+ " lost mains power and is on battery"), d <| sd_OnBatt := true |>)
  else if bool_decide (event = "power-restore") then (Ok (sd_ID d +:+ " mains power restored"), d <| sd_OnBatt := false |>)
  else if bool_decide (event = "reset") then
    (Ok (sd_ID d +:+ " reset to healthy baseline"),
     d <| sd_Offline := false |> <| sd_AuthFail := false |> <| sd_OnBatt := false |> <| sd_cpuOverride := None |> <| sd_tempOverride := None |>
       <| sd_flap := None |>
       <| sd_Iface := (λ i, i <| if_OperUp := true |> <| if_AdminUp := true |> <| if_errRate := f_zero |>) <$> sd_Iface d |>)
  else
    match pickIface d (mread args "interface") with
    | Err e => (Err e, d)
    | Ok k => apply_iface now event args k d
    end.

Definition put (id : string) (d : SimDevice R) (w : World R) : World R := w <| wd_devices := <[id := d]> (wd_devices w) |>.

Definition Apply (now : Time) (s : Scenario) : ST (World R) error string := λ w,
  match wd_devices w !! sn_Device s with
  | None => (Err (Errorf CategoryValidation ("unknown simulated device " +:+ Quote (sn_Device s))), w)
  | Some d =>
      if negb (bool_decide (sn_Event s ∈ Events (sd_Type d))) then
        (Err (Errorf CategoryUnsupported ("device " +:+ sd_ID d +:+ " (" +:+ sd_Type d +:+ ") does not support event " +:+ Quote (sn_Event s)
               +:+ "; supported: [" +:+ Join (Events (sd_Type d)) " " +:+ "]")), w)
      else
        match applyLocked now (sn_Event s) (sn_Args s) d with
        | (Err e, d) => (Err e, put (sn_Device s) d w)
        | (Ok msg, d) =>
            let w := put (sn_Device s) d w in
            match (if (0 <? sn_Duration s)%Z then inverse (sn_Event s) else None) with
            | Some inv =>
                (Ok (msg +:+ " (reverts with " +:+ inv +:+ " after " +:+ DurationString (sn_Duration s) +:+ ")"),
                 w <| wd_timers := wd_timers w ++ [MkScheduled (time_Add now (sn_Duration s)) (sn_Device s) inv (sn_Args s)] |>)
            | None => (Ok msg, w)
            end
        end
  end.

Definition fire (now : Time) (w : World R) (t : scheduled) : World R :=
  match wd_devices w !! sh_device t with
  | Some d => put (sh_device t) (applyLocked now (sh_event t) (sh_args t) d).2 w
  | None => w
  end.

(** [World.Tick]: [clock] is what the option [Now] gives while the timers run. *)
Definition Tick (now clock : Time) (w : World R) : World R :=
  let dt := Seconds (time_Sub now (wd_lastTick w)) in
  let dt := if f_lt dt f_zero then f_zero else dt in
  let due := filter (λ t, After (sh_at t) now = false) (wd_timers w) in
  let rest := filter (λ t, After (sh_at t) now = true) (wd_timers w) in
  foldl (fire clock) (w <| wd_lastTick := now |> <| wd_devices := tick now dt <$> wd_devices w |> <| wd_timers := rest |>) due.
End world.
