(* ===== verification/SimAgent.v ===== *)
(** * Package [sim]: the MIB view and the agent (src/internal/sim/mib.go, agent.go, control.go)

    An agent answers SNMP requests from a sorted view of the device's state. The socket, the packet encoding
    and the control subscription's transport are not modelled; the handlers behind them are, and what a
    client of the control subject sees of the transport is an input. *)

From S2P Require Import Prelude GoLib GoFloat Domain Regexp Session GoParse Scheduler SimWorld.

(** ** Object identifiers *)

Definition max_u32 : Z := 4294967295.
(** [strconv.ParseUint(p, 10, 32)] without its error: 0 for anything malformed, the maximum when it does not fit. *)
Fixpoint arc_digits (n : Z) (s : string) : Z :=
  match s with
  | "" => n
  | String c s =>
      match digit_value c with
      | None => 0
      | Some d => let n := (n * 10 + d)%Z in if (max_u32 <? n)%Z then max_u32 else arc_digits n s
      end
  end.
Definition parseOID (s : string) : list Z := arc_digits 0 <$> Split (TrimPrefix s ".") ".".
Fixpoint formatOID (o : list Z) : string := match o with [] => "" | n :: o => "." +:+ FormatInt n +:+ formatOID o end.

Fixpoint cmpOID (a b : list Z) : comparison :=
  match a, b with
  | x :: a, y :: b => if (x =? y)%Z then cmpOID a b else if (x <? y)%Z then Lt else Gt
  | [], [] => Eq
  | [], _ => Lt
  | _, [] => Gt
  end.
Definition oid_lt (a b : list Z) : bool := match cmpOID a b with Lt => true | _ => false end.

Record varbind := MkVarbind { vb_oid : list Z; vb_pdu : SnmpPDU }.
Definition bind (oid : string) (t : Asn1BER) (v : snmp_value) : varbind := MkVarbind (parseOID oid) (MkSnmpPDU oid t v).
Definition str_bind (oid v : string) : varbind := bind oid OctetString (SVBytes v).
Definition gauge (oid : string) (v : float64) : varbind := bind oid Gauge32 (SVInteger (f_to_int (f_max v f_zero))).
Definition int_bind (oid : string) (n : Z) : varbind := bind oid Integer (SVInteger n).

(** ** The view *)

Section agent.
Context {R : Type} {RND : Rand R}.

Definition object_id (t : DeviceType) : string :=
  if is_switch t then "1.3.6.1.4.1.32473.1.1.1"
  else if bool_decide (t = DeviceAccessPoint) then "1.3.6.1.4.1.32473.2.1.1"
  else if bool_decide (t = DeviceUPS) then "1.3.6.1.4.1.32473.4.1"
  else "1.3.6.1.4.1.32473.3.1".

Definition system_binds (now : Time) (d : SimDevice R) : list varbind :=
  [str_bind "1.3.6.1.2.1.1.1.0" ("infra-observer simulated " +:+ sd_Type d +:+ " " +:+ sd_Model d);
   bind "1.3.6.1.2.1.1.2.0" ObjectIdentifier (SVString (object_id (sd_Type d)));
   bind "1.3.6.1.2.1.1.3.0" TimeTicks
     (SVInteger (f_to_int (f_mul (Seconds (time_Sub now (sd_startedAt d))) (f_of_int 100)) mod 4294967296));
   str_bind "1.3.6.1.2.1.1.5.0" (sd_ID d)].

Definition iface_binds (idx : nat) (i : Iface) : list varbind :=
  let n := FormatInt (Z.of_nat (idx + 1)) in
  let oper := if if_OperUp i && if_AdminUp i then 1%Z else 2%Z in
  let admin := if if_AdminUp i then 1%Z else 2%Z in
  [int_bind ("1.3.6.1.2.1.2.2.1.7." +:+ n) admin;
   int_bind ("1.3.6.1.2.1.2.2.1.8." +:+ n) oper;
   bind ("1.3.6.1.2.1.2.2.1.14." +:+ n) Counter32 (SVInteger (if_InErrors i mod 4294967296));
   bind ("1.3.6.1.2.1.2.2.1.20." +:+ n) Counter32 (SVInteger (if_OutErrors i mod 4294967296));
   str_bind ("1.3.6.1.2.1.31.1.1.1.1." +:+ n) (if_Name i);
   bind ("1.3.6.1.2.1.31.1.1.1.6." +:+ n) Counter64 (SVInteger (if_InOctets i));
   bind ("1.3.6.1.2.1.31.1.1.1.10." +:+ n) Counter64 (SVInteger (if_OutOctets i))].

Definition type_binds (d : SimDevice R) : list varbind :=
  if is_switch (sd_Type d) then [gauge "1.3.6.1.4.1.32473.1.1.1.0" (sd_CPU d); gauge "1.3.6.1.4.1.32473.1.1.2.0" (sd_Temp d)]
  else if bool_decide (sd_Type d = DeviceAccessPoint) then
    [gauge "1.3.6.1.4.1.32473.2.1.1.0" (sd_CPU d); gauge "1.3.6.1.4.1.32473.2.1.2.0" (f_mul (sd_Temp d) (f_of_int 10));
     gauge "1.3.6.1.4.1.32473.2.1.3.0" (f_of_int (sd_Clients d))]
  else if bool_decide (sd_Type d = DeviceUPS) then
    let output := if sd_OnBatt d then 5%Z else 3%Z in
    let batteryStatus := if f_lt (sd_Battery d) (f_of_int 5) then 4%Z else if f_lt (sd_Battery d) (f_of_int 30) then 3%Z else 2%Z in
    [int_bind "1.3.6.1.2.1.33.1.2.1.0" batteryStatus; gauge "1.3.6.1.2.1.33.1.2.4.0" (sd_Battery d);
     gauge "1.3.6.1.2.1.33.1.2.7.0" (f_add (f_of_int 24) (f_div (sd_Temp d) (f_of_int 10))); int_bind "1.3.6.1.2.1.33.1.4.1.0" output]
  else
    [gauge "1.3.6.1.2.1.25.3.3.1.2.1" (sd_CPU d); gauge "1.3.6.1.2.1.25.3.3.1.2.2" (f_mul (sd_CPU d) (f_dec 9 10));
     gauge "1.3.6.1.4.1.32473.3.1.1.0" (sd_Mem d)].

Definition unsorted_view (now : Time) (d : SimDevice R) : list varbind :=
  system_binds now d ++ concat (imap iface_binds (sd_Iface d)) ++ type_binds d.
Definition snapshot (now : Time) (d : SimDevice R) : list varbind :=
  sort_stable (λ a b, oid_lt (vb_oid a) (vb_oid b)) (unsorted_view now d).

(** [sort.Search(n, f)]: binary search between [i] and [j]. *)
Fixpoint search (fuel i j : nat) (f : nat → bool) : nat :=
  match fuel with
  | O => i
  | S fuel => if i <? j then let h := (i + j) / 2 in if f h then search fuel i h f else search fuel (h + 1) j f else i
  end.
Definition Search (n : nat) (f : nat → bool) : nat := search n 0 n f.

Definition oid_at (view : list varbind) (i : nat) : list Z := from_option vb_oid [] (view !! i).
Definition lookup_oid (view : list varbind) (oid : list Z) : option varbind :=
  let i := Search (length view) (λ i, negb (oid_lt (oid_at view i) oid)) in
  match view !! i with
  | Some v => if bool_decide (cmpOID (vb_oid v) oid = Eq) then Some v else None
  | None => None
  end.
Definition next (view : list varbind) (oid : list Z) : option varbind :=
  view !! Search (length view) (λ i, oid_lt oid (oid_at view i)).

(** ** Requests *)

Inductive PDUType := GetRequest | GetNextRequest | GetBulkRequest | GetResponse | OtherPDU.
(** What the agent reads and writes of a packet. *)
Record Packet := MkPacket {
  pt_Community : string; pt_PDUType : PDUType; pt_RequestID : Z; pt_Error : SNMPError; pt_NonRepeaters : Z; pt_MaxRepetitions : Z;
  pt_Variables : list SnmpPDU }.

Definition maxRepetitions : Z := 40.
Definition nextPDU (view : list varbind) (oid : list Z) : SnmpPDU :=
  match next view oid with Some v => vb_pdu v | None => MkSnmpPDU (formatOID oid) EndOfMibView (SVOther "") end.
Definition getPDU (view : list varbind) (name : string) : SnmpPDU :=
  match lookup_oid view (parseOID name) with Some v => vb_pdu v | None => MkSnmpPDU name NoSuchInstance (SVOther "") end.

(** One repetition of a bulk request: the answers, the cursors after it, and whether every one was at the end. *)
Definition bulk_step (view : list varbind) (cursors : list (list Z)) : list SnmpPDU * list (list Z) * bool :=
  (nextPDU view <$> cursors, (λ c, from_option vb_oid c (next view c)) <$> cursors, forallb (λ c, bool_decide (next view c = None)) cursors).
Fixpoint bulk (reps : nat) (view : list varbind) (cursors : list (list Z)) : list SnmpPDU :=
  match reps with
  | O => []
  | S reps =>
      if bool_decide (cursors = []) then []
      else let '(pdus, cursors, allEnd) := bulk_step view cursors in if allEnd then pdus else pdus ++ bulk reps view cursors
  end.

Definition answers (view : list varbind) (req : Packet) : option (list SnmpPDU) :=
  let names := sp_Name <$> pt_Variables req in
  match pt_PDUType req with
  | GetRequest => Some (getPDU view <$> names)
  | GetNextRequest => Some ((λ n, nextPDU view (parseOID n)) <$> names)
  | GetBulkRequest =>
      let nonRep := Z.to_nat (Z.min (pt_NonRepeaters req) (Z.of_nat (length names))) in
      Some (((λ n, nextPDU view (parseOID n)) <$> take nonRep names)
            ++ bulk (Z.to_nat (Z.min (pt_MaxRepetitions req) maxRepetitions)) view (parseOID <$> drop nonRep names))
  | _ => None
  end.

(** [Agent.respond]: the answer, or none to stay silent, and the device, whose generator may have been used. *)
Definition respond (o : Options) (now : Time) (req : Packet) (d : SimDevice R) : option Packet * SimDevice R :=
  if sd_Offline d then (None, d)
  else
    let '(dropped, d) :=
      if f_gt (op_DropRate o) f_zero then let '(f, rng) := rand_Float64 (sd_rng d) in (f_lt f (op_DropRate o), d <| sd_rng := rng |>)
      else (false, d) in
    if dropped then (None, d)
    else
      let resp e vars := MkPacket (pt_Community req) GetResponse (pt_RequestID req) e 0 0 vars in
      if sd_AuthFail d then (Some (resp StatusAuthorizationError (pt_Variables req)), d)
      else if negb (bool_decide (pt_Community req = op_Community o)) then (None, d)
      else (resp StatusNoError <$> answers (snapshot now d) req, d).

(** ** Control (control.go) *)

Record controlReply := MkControlReply { cr_OK : bool; cr_Message : string }.

(** The subscription's handler; [decode] is [json.Unmarshal]. *)
Definition serve_control (decode : string → result string Scenario) (now : Time) (data : string) (w : World R) : controlReply * World R :=
  match decode data with
  | Err e => (MkControlReply false ("malformed scenario: " +:+ e), w)
  | Ok s =>
      match Apply now s w with
      | (Err e, w) => (MkControlReply false (error_text e), w)
      | (Ok msg, w) => (MkControlReply true msg, w)
      end
  end.

(** [DeviceController.Do] over a controller that applies scenarios to the world. *)
Definition Do (now : Time) (device event : string) (args : smap) : ST (World R) error unit :=
  _ ← Apply now (MkScenario device event args 0); mret tt.
End agent.

(** * The remote control (control.go)

    [SendScenario] and [NATSController]: a scenario travels as JSON over a request and its reply. The
    encodings are parameters; what becomes of the request is an input. *)

(** The JSON of scenarios and replies. *)
Class ControlCodec := {
  scenario_Marshal : Scenario → res string;
  scenario_Unmarshal : string → result string Scenario;
  reply_Marshal : controlReply → string;
  reply_Unmarshal : string → res controlReply;
  json_text : string → bool;  (* the strings that JSON carries unchanged: valid UTF-8 *)
}.

(** No arguments are omitted, so an empty map arrives as nil. *)
Definition plain_scenario `{ControlCodec} (s : Scenario) : Prop :=
  json_text (sn_Device s) ∧ json_text (sn_Event s) ∧ sn_Args s ≠ Some ∅ ∧
  map_Forall (λ k v, json_text k ∧ json_text v) (default ∅ (sn_Args s)).

(** What was encoded is decoded. *)
Class ControlCodecOk `{ControlCodec} : Prop := {
  scenario_roundtrip s b : plain_scenario s → scenario_Marshal s = Ok b → scenario_Unmarshal b = Ok s;
  reply_roundtrip r : json_text (cr_Message r) → reply_Unmarshal (reply_Marshal r) = Ok r;
}.

(** What becomes of a request: it is answered; nobody listens; no answer comes in time, although
    the simulator may have handled it ([applied]); or the connection fails, before or after. *)
Inductive request := Answered | NoResponders | TimedOut (applied : bool) | ConnectionFails (err : error) (applied : bool).

Definition no_simulator : error :=
  Errorf CategoryDependency "no simulator answered on sim.control (is it running?)".

Section control.
Context {R : Type} {RND : Rand R} `{ControlCodec}.

Definition SendScenario (now : Time) (s : Scenario) (q : request) (w : World R) : res string * World R :=
  match scenario_Marshal s with
  | Err e => (Err e, w)
  | Ok b =>
      let '(reply, w') := serve_control scenario_Unmarshal now b w in
      match q with
      | NoResponders => (Err no_simulator, w)
      | TimedOut applied => (Err no_simulator, if applied then w' else w)
      | ConnectionFails e applied => (Err e, if applied then w' else w)
      | Answered =>
          (match reply_Unmarshal (reply_Marshal reply) with
           | Err e => Err e
           | Ok r => if cr_OK r then Ok (cr_Message r) else Err (EText (cr_Message r))
           end, w')
      end
  end.

Definition control_timeout (t : Duration) : Duration := if (t <=? 0)%Z then 3 * Second else t.

(** [NATSController.Apply] under [DeviceController.Do]; the configured timeout decides how long to
    wait, the outcome is in [q]. *)
Definition remote_Do (now : Time) (device event : string) (args : smap) (q : request) (w : World R) : res unit * World R :=
  match SendScenario now (MkScenario device event args 0) q w with
  | (Ok _, w) => (Ok tt, w)
  | (Err e, w) => (Err e, w)
  end.

(** A scenario sent to the simulator has the effect and the message it has in process; its error
    keeps its text and loses its category. *)
Theorem remote_control_is_local `{!ControlCodecOk} now s b w :
  plain_scenario s → scenario_Marshal s = Ok b →
  json_text match (Apply now s w).1 with Ok msg => msg | Err e => error_text e end →
  SendScenario now s Answered w =
  match Apply now s w with
  | (Ok msg, w') => (Ok msg, w')
  | (Err e, w') => (Err (EText (error_text e)), w')
  end.
Proof using Type*.
  intros Hs Hb Ht. unfold SendScenario, serve_control. rewrite Hb, (scenario_roundtrip _ _ Hs Hb).
  destruct (Apply now s w) as [[msg|e] w']; by rewrite reply_roundtrip.
Qed.

(** Without an answer the error is worth a retry, and the simulator has either not seen the
    scenario or handled it once. *)
Theorem unanswered_control_is_retryable `{!ControlCodecOk} now s b w q :
  plain_scenario s → scenario_Marshal s = Ok b → (q = NoResponders ∨ ∃ applied, q = TimedOut applied) →
  ∃ e, (SendScenario now s q w).1 = Err e ∧ IsRetryable (Some e) = true ∧
    ((SendScenario now s q w).2 = w ∨ (SendScenario now s q w).2 = (Apply now s w).2).
Proof using Type*.
  intros Hs Hb Hq. exists no_simulator. unfold SendScenario, serve_control. rewrite Hb, (scenario_roundtrip _ _ Hs Hb).
  destruct (Apply now s w) as [[msg|e] w'], Hq as [->|[[] ->]]; split_and!; auto.
Qed.
End control.
