(* ===== verification/SimThms.v ===== *)
(** * Theorems about the simulator *)

From S2P Require Import Prelude GoLib GoFloat Domain Regexp Session GoParse Scheduler SimWorld SimAgent.

(** ** The order of object identifiers *)

Lemma cmpOID_eq a b : cmpOID a b = Eq ↔ a = b.
Proof.
  revert b. induction a as [|x a IH]; intros [|y b]; simpl; try done.
  destruct (Z.eqb_spec x y) as [->|Hne]; [rewrite IH; naive_solver|]. destruct (x <? y)%Z; naive_solver.
Qed.
Lemma cmpOID_antisym a b : cmpOID b a = CompOpp (cmpOID a b).
Proof.
  revert b. induction a as [|x a IH]; intros [|y b]; simpl; try done. rewrite (Z.eqb_sym y x).
  destruct (Z.eqb_spec x y); [apply IH|]. destruct (Z.ltb_spec x y), (Z.ltb_spec y x); simpl; try done; lia.
Qed.
Lemma oid_lt_trans a b c : oid_lt a b = true → oid_lt b c = true → oid_lt a c = true.
Proof.
  unfold oid_lt. revert b c. induction a as [|x a IH]; intros [|y b] [|z c]; simpl; try done.
  destruct (Z.eqb_spec x y) as [->|]; [|destruct (Z.ltb_spec x y); [|done]];
    (destruct (Z.eqb_spec y z) as [->|]; [|destruct (Z.ltb_spec y z); [|done]]).
  - apply IH.
  - done.
  - by rewrite (proj2 (Z.eqb_neq x z)), (proj2 (Z.ltb_lt x z)) by lia.
  - by rewrite (proj2 (Z.eqb_neq x z)), (proj2 (Z.ltb_lt x z)) by lia.
Qed.
Lemma oid_lt_irrefl a : oid_lt a a = false.
Proof. unfold oid_lt. by rewrite (proj2 (cmpOID_eq a a)). Qed.
Lemma oid_lt_asym a b : oid_lt a b = true → oid_lt b a = false.
Proof. unfold oid_lt. rewrite (cmpOID_antisym a b). by destruct (cmpOID a b). Qed.
Lemma oid_lt_total a b : oid_lt a b = false → oid_lt b a = false → a = b.
Proof. unfold oid_lt. rewrite (cmpOID_antisym a b). rewrite <-cmpOID_eq. by destruct (cmpOID a b). Qed.

(** ** Binary search *)

Definition monotone (n : nat) (f : nat → bool) : Prop := ∀ i j, i ≤ j → j < n → f i = true → f j = true.

Lemma search_spec n f fuel i j :
  monotone n f → i ≤ j → j ≤ n → j - i ≤ fuel → (∀ k, k < i → f k = false) → (∀ k, j ≤ k → k < n → f k = true) →
  let r := search fuel i j f in r ≤ n ∧ (∀ k, k < r → f k = false) ∧ (∀ k, r ≤ k → k < n → f k = true).
Proof.
  intros Hmono. revert i j. induction fuel as [|fuel IH]; intros i j Hij Hjn Hfuel Hlo Hhi; cbn [search]; cbv zeta.
  { assert (i = j) as -> by lia. split_and!; [lia|done|done]. }
  destruct (Nat.ltb_spec i j) as [Hlt|Hge].
  - set (h := (i + j) / 2). assert (i ≤ h < j) as Hh by (unfold h; split; [apply Nat.div_le_lower_bound; lia|apply Nat.Div0.div_lt_upper_bound; lia]).
    destruct (f h) eqn:Hfh.
    + apply IH; [lia|lia|lia|done|]. intros k Hk Hkn. by apply (Hmono h k); [lia|lia|].
    + apply IH; [lia|lia|lia| |done]. intros k Hk. destruct (f k) eqn:Hfk; [|done].
      rewrite <-Hfh. symmetry. apply (Hmono k h); [lia|lia|done].
  - assert (i = j) as -> by lia. split_and!; [lia|done|done].
Qed.
Lemma Search_spec n f : monotone n f → Search n f ≤ n ∧ (∀ k, k < Search n f → f k = false) ∧ (∀ k, Search n f ≤ k → k < n → f k = true).
Proof. intros Hm. apply search_spec; [done|lia..]. Qed.

(** ** Sorted views *)

Definition view_sorted : list varbind → Prop := StronglySorted (λ a b, oid_lt (vb_oid a) (vb_oid b) = true).

Lemma view_lookup_lt view i j a b : view_sorted view → view !! i = Some a → view !! j = Some b → i < j → oid_lt (vb_oid a) (vb_oid b) = true.
Proof.
  intros Hs. revert i j. induction Hs as [|x l _ IH Hx]; intros i j Ha Hb Hij; [by rewrite lookup_nil in Ha|].
  destruct j as [|j]; [lia|]. simpl in Hb. destruct i as [|i]; simpl in Ha.
  - simplify_eq. eapply Forall_lookup_1 in Hx; [|exact Hb]. exact Hx.
  - apply (IH i j); [done|done|lia].
Qed.

(** A binary search on a sorted view finds what a scan finds. *)
Lemma Search_find view (P : varbind → bool) :
  (∀ i j a b, i ≤ j → view !! i = Some a → view !! j = Some b → P a = true → P b = true) →
  view !! Search (length view) (λ i, from_option P false (view !! i)) = List.find P view.
Proof.
  intros HP. set (f := λ i, from_option P false (view !! i)).
  assert (monotone (length view) f) as Hm.
  { intros i j Hij Hj. unfold f. destruct (view !! i) as [a|] eqn:Ha; [|done]. destruct (lookup_lt_is_Some_2 view j Hj) as [b Hb].
    rewrite Hb. simpl. by apply (HP i j). }
  destruct (Search_spec _ _ Hm) as (Hle & Hlo & Hhi). set (r := Search (length view) f) in *.
  clearbody r. clear Hm HP. subst f. revert r Hle Hlo Hhi. induction view as [|v view IH]; intros r Hle Hlo Hhi; [done|]. simpl.
  destruct r as [|r].
  - specialize (Hhi 0 ltac:(lia) ltac:(simpl; lia)). simpl in Hhi. by rewrite Hhi.
  - pose proof (Hlo 0 ltac:(lia)) as Hv. simpl in Hv. rewrite Hv. simpl. apply IH.
    + simpl in Hle. lia.
    + intros k Hk. apply (Hlo (S k)). lia.
    + intros k Hk Hkn. apply (Hhi (S k)); simpl; lia.
Qed.

Lemma search_ext fuel i j n f g : (∀ k, k < n → f k = g k) → j ≤ n → search fuel i j f = search fuel i j g.
Proof.
  intros Hfg. revert i j. induction fuel as [|fuel IH]; intros i j Hj; [done|]. cbn [search]. cbv zeta. destruct (Nat.ltb_spec i j) as [Hlt|]; [|done].
  assert ((i + j) / 2 < j) by (apply Nat.Div0.div_lt_upper_bound; lia). rewrite Hfg by lia.
  destruct (g _); apply IH; lia.
Qed.

Lemma next_find view oid : view_sorted view → next view oid = List.find (λ v, oid_lt oid (vb_oid v)) view.
Proof.
  intros Hs. unfold next, Search. erewrite (search_ext _ _ _ (length view)); [apply (Search_find view (λ v, oid_lt oid (vb_oid v)))| |done].
  - intros i j a b Hij Ha Hb Hlt. destruct (decide (i = j)) as [->|]; [by simplify_eq|].
    eapply oid_lt_trans; [exact Hlt|]. eapply view_lookup_lt; [done|exact Ha|exact Hb|lia].
  - intros k Hk. unfold oid_at. destruct (lookup_lt_is_Some_2 view k Hk) as [v ->]. done.
Qed.

Lemma find_nothing {A} (P : A → bool) l : Forall (λ x, P x = false) l → List.find P l = None.
Proof. induction 1 as [|x l Hx _ IH]; [done|]. simpl. by rewrite Hx. Qed.

Lemma lookup_find view oid : view_sorted view → lookup_oid view oid = List.find (λ v, bool_decide (vb_oid v = oid)) view.
Proof.
  intros Hs. unfold lookup_oid.
  assert (view !! Search (length view) (λ i, negb (oid_lt (oid_at view i) oid)) = List.find (λ v, negb (oid_lt (vb_oid v) oid)) view) as ->.
  { unfold Search. erewrite (search_ext _ _ _ (length view)); [apply (Search_find view (λ v, negb (oid_lt (vb_oid v) oid)))| |done].
    - intros i j a b Hij Ha Hb. rewrite !negb_true_iff. intros Hlt. destruct (decide (i = j)) as [->|]; [by simplify_eq|].
      destruct (oid_lt (vb_oid b) oid) eqn:Hb'; [|done]. rewrite <-Hlt. symmetry. eapply oid_lt_trans; [|exact Hb'].
      eapply view_lookup_lt; [done|exact Ha|exact Hb|lia].
    - intros k Hk. unfold oid_at. destruct (lookup_lt_is_Some_2 view k Hk) as [v ->]. done. }
  induction Hs as [|v view Hs IH Hv]; [done|]. simpl. destruct (oid_lt (vb_oid v) oid) eqn:Hlt; simpl.
  - rewrite bool_decide_eq_false_2 by (intros Heq; by rewrite Heq, oid_lt_irrefl in Hlt). exact IH.
  - destruct (decide (vb_oid v = oid)) as [Heq|Hne].
    + rewrite !bool_decide_eq_true_2 by (done || by apply cmpOID_eq). done.
    + rewrite !bool_decide_eq_false_2 by (done || by rewrite cmpOID_eq). symmetry. apply find_nothing.
      eapply Forall_impl; [exact Hv|]. intros x Hx. apply bool_decide_eq_false_2. intros Heq. simpl in Hx.
      rewrite Heq in Hx. congruence.
Qed.

(** Decide the string comparisons of a closed event name. *)
Ltac compute_strings := repeat match goal with
  | |- context [@bool_decide (@eq string ?a ?b) ?inst] =>
      let x := eval vm_compute in (@bool_decide (@eq string a b) inst) in
      match x with true => idtac | false => idtac end; change (@bool_decide (@eq string a b) inst) with x; cbv iota
  end.

(** ** Well-formed devices: as many interfaces as their type has *)

(** The objects of a view after an identifier. *)
Abbreviation after oid view := (filter (λ v, oid_lt oid (vb_oid v) = true) view).

Section sim.
Context {R : Type} {RND : Rand R}.
Implicit Types d : SimDevice R.

Definition sim_ok (d : SimDevice R) : Prop :=
  if_Name <$> sd_Iface d = iface_names (sd_Type d) ∧ from_option (λ f, fl_iface f < length (sd_Iface d)) True (sd_flap d).

Lemma iface_oids k x y : vb_oid <$> iface_binds k x = vb_oid <$> iface_binds k y.
Proof. unfold iface_binds, int_bind, str_bind, bind. rewrite !fmap_cons, fmap_nil. cbn [vb_oid]. reflexivity. Qed.

(** The identifiers of a view depend on the type of the device only. *)
Definition blank (t : DeviceType) : SimDevice unit :=
  MkSimDevice "" t "" ((λ n, MkIface n true true 0 0 0 0 f_zero f_zero) <$> iface_names t) 0 f_zero f_zero f_zero 0 f_zero false false false None None tt None.

Lemma view_oids now d : sim_ok d → vb_oid <$> unsorted_view now d = vb_oid <$> unsorted_view 0 (blank (sd_Type d)).
Proof.
  intros [Hn _]. unfold unsorted_view. rewrite !fmap_app. apply (f_equal2 app); [done|]. apply (f_equal2 app).
  - assert (∀ k (l l' : list Iface), length l = length l' →
      vb_oid <$> concat (imap (λ i, iface_binds (k + i)) l) = vb_oid <$> concat (imap (λ i, iface_binds (k + i)) l')) as Hgen.
    { intros k l. revert k. induction l as [|x l IH]; intros k [|y l'] Hlen; try done. rewrite !imap_cons. cbn [concat]. rewrite !fmap_app.
      apply (f_equal2 app); [apply iface_oids|]. specialize (IH (S k) l' ltac:(simpl in Hlen; lia)).
      rewrite (imap_ext _ (λ i, iface_binds (S k + i)) l) by (intros; simpl; f_equal; lia).
      rewrite (imap_ext _ (λ i, iface_binds (S k + i)) l') by (intros; simpl; f_equal; lia). exact IH. }
    apply (Hgen 0). unfold blank. simpl. by rewrite length_fmap, <-Hn, length_fmap.
  - unfold type_binds, gauge, int_bind, bind. cbn [sd_Type blank]. destruct (is_switch _), (bool_decide (sd_Type d = DeviceAccessPoint)), (bool_decide (sd_Type d = DeviceUPS));
      cbv zeta; rewrite !fmap_cons, fmap_nil; cbn [vb_oid]; reflexivity.
Qed.

Lemma blank_oids_distinct t : NoDup (vb_oid <$> unsorted_view 0 (blank t)).
Proof.
  unfold unsorted_view, type_binds, blank, iface_names. simpl. destruct (is_switch t); [apply (bool_decide_unpack _); vm_compute; exact I|].
  case_bool_decide; [apply (bool_decide_unpack _); vm_compute; exact I|]. 
  case_bool_decide; apply (bool_decide_unpack _); vm_compute; exact I.
Qed.
Lemma snapshot_sorted now d : sim_ok d → view_sorted (snapshot now d).
Proof.
  intros Hok. apply (sort_stable_strict vb_oid).
  - intros x y. apply oid_lt_asym.
  - intros x y z. apply oid_lt_trans.
  - intros x y. apply oid_lt_total.
  - rewrite view_oids by done. apply blank_oids_distinct.
Qed.

(** What a client needs of an answer to ask for the next one. *)
Definition walkable (v : varbind) : Prop := parseOID (sp_Name (vb_pdu v)) = vb_oid v ∧ sp_Type (vb_pdu v) ≠ EndOfMibView.
Lemma bind_walkable oid t v : t ≠ EndOfMibView → walkable (bind oid t v).
Proof. by split. Qed.
Ltac walk_binds := repeat (apply Forall_cons; split; [apply bind_walkable; discriminate|]); apply Forall_nil; exact I.
Lemma snapshot_walkable now d : Forall walkable (snapshot now d).
Proof.
  unfold snapshot. rewrite sort_stable_perm. unfold unsorted_view. repeat (apply Forall_app; split).
  - unfold system_binds. walk_binds.
  - apply Forall_concat, Forall_forall. intros l Hl. apply elem_of_lookup_imap in Hl as (k & i & -> & _). unfold iface_binds. cbv zeta. walk_binds.
  - unfold type_binds. cbv zeta. destruct (is_switch _); [walk_binds|]. destruct (bool_decide _); [walk_binds|]. destruct (bool_decide _); walk_binds.
Qed.

(** ** Walking a view *)


Lemma after_cons view oid v l : view_sorted view → after oid view = v :: l → after (vb_oid v) view = l.
Proof.
  intros Hs Ha. assert (oid_lt oid (vb_oid v) = true) as Hv.
  { assert (v ∈ after oid view) as [? _]%list_elem_of_filter by (rewrite Ha; by left). done. }
  revert Ha. induction Hs as [|x view Hs IH Hx]; [done|]. rewrite !filter_cons. case_decide as Hx'.
  - intros [= -> <-]. rewrite decide_False by (by rewrite oid_lt_irrefl).
    rewrite !filter_all; [done| |].
    + intros y Hy. eapply Forall_forall in Hx; [|exact Hy]. simpl in Hx. by eapply oid_lt_trans.
    + intros y Hy. by eapply Forall_forall in Hx.
  - intros Ha. rewrite decide_False; [by apply IH|]. intros Hvx. apply Hx'. by eapply oid_lt_trans.
Qed.
Lemma next_after view oid : view_sorted view → next view oid = head (after oid view).
Proof.
  intros Hs. rewrite next_find by done. clear Hs. induction view as [|v view IH]; [done|]. rewrite filter_cons. simpl.
  destruct (oid_lt oid (vb_oid v)); [by rewrite decide_True|by rewrite decide_False].
Qed.

(** A request for the object after [name], and a client that keeps asking until the end of the view. *)
Definition get_next (community name : string) : Packet :=
  MkPacket community GetNextRequest 1 StatusNoError 0 0 [MkSnmpPDU name Null (SVOther "")].
Fixpoint agent_walk (fuel : nat) (o : Options) (now : Time) (community name : string) (d : SimDevice R) : option (list SnmpPDU) :=
  match fuel, respond o now (get_next community name) d with
  | S fuel, (Some resp, d) =>
      match pt_Variables resp with
      | [p] => match sp_Type p with EndOfMibView => Some [] | _ => cons p <$> agent_walk fuel o now community (sp_Name p) d end
      | _ => None
      end
  | _, _ => None
  end.

(** A device that answers: reachable, accepting the community, on a network that loses nothing. *)
Definition answering (o : Options) (community : string) (d : SimDevice R) : Prop :=
  sd_Offline d = false ∧ sd_AuthFail d = false ∧ community = op_Community o ∧ f_gt (op_DropRate o) f_zero = false.

Lemma respond_answering o now req d : answering o (pt_Community req) d →
  respond o now req d = ((λ vars, MkPacket (pt_Community req) GetResponse (pt_RequestID req) StatusNoError 0 0 vars) <$> answers (snapshot now d) req, d).
Proof. intros (Hoff & Hauth & Hc & Hdrop). unfold respond. rewrite Hoff, Hdrop, Hauth, bool_decide_eq_true_2 by done. done. Qed.

Lemma agent_walk_view fuel o now community name d :
  view_sorted (snapshot now d) → answering o community d → length (after (parseOID name) (snapshot now d)) < fuel →
  agent_walk fuel o now community name d = Some (vb_pdu <$> after (parseOID name) (snapshot now d)).
Proof.
  intros Hs Ha. revert name. induction fuel as [|fuel IH]; intros name Hf; [lia|]. cbn [agent_walk]. rewrite respond_answering by done.
  cbn [answers get_next pt_PDUType pt_Variables fmap list_fmap option_fmap option_map sp_Name]. unfold nextPDU. rewrite next_after by done.
  destruct (after (parseOID name) (snapshot now d)) as [|v l] eqn:Hl; [done|]. cbn [head].
  assert (walkable v) as [Hoid Hend].
  { pose proof (snapshot_walkable now d) as Hw. rewrite Forall_forall in Hw. apply Hw.
    assert (v ∈ after (parseOID name) (snapshot now d)) as [_ ?]%list_elem_of_filter by (rewrite Hl; by left). done. }
  apply after_cons in Hl; [|done]. rewrite IH by (rewrite Hoid, Hl; simpl in Hf; lia). rewrite Hoid, Hl. by destruct (sp_Type (vb_pdu v)).
Qed.

(** Nothing comes after the last object. *)
Lemma after_last view oid : view_sorted view → after (default oid (vb_oid <$> last (after oid view))) view = [].
Proof.
  intros Hs. remember (after oid view) as l eqn:Hl. symmetry in Hl. revert oid Hl. induction l as [|v l IH]; intros oid Hl; [done|].
  rewrite last_cons. apply after_cons in Hl; [|done]. specialize (IH _ Hl). destruct (last l); exact IH.
Qed.

Lemma last_oid oid v l : default oid (vb_oid <$> last (v :: l)) = default (vb_oid v) (vb_oid <$> last l).
Proof. rewrite last_cons. by destruct (last l). Qed.

Lemma bulk_view view reps oid :
  view_sorted view → bulk reps view [oid] =
    (vb_pdu <$> take reps (after oid view)) ++
    if decide (length (after oid view) < reps) then [nextPDU view (default oid (vb_oid <$> last (after oid view)))] else [].
Proof.
  intros Hs. revert oid. induction reps as [|reps IH]; intros oid; [by rewrite decide_False by lia|].
  cbn [bulk]. rewrite bool_decide_eq_false_2 by done. unfold bulk_step. cbn [fmap list_fmap forallb]. rewrite andb_true_r, (next_after view oid) by done.
  unfold nextPDU at 1 2. rewrite (next_after view oid) by done.
  destruct (after oid view) as [|v l] eqn:Hl; cbn [head from_option].
  - rewrite bool_decide_eq_true_2 by done. rewrite decide_True by (simpl; lia). simpl. unfold nextPDU. by rewrite next_after, Hl.
  - rewrite bool_decide_eq_false_2 by done. apply after_cons in Hl; [|done]. rewrite IH, Hl. cbn [take fmap list_fmap app length].
    destruct (decide (length l < reps)) as [Hlt|Hlt]; [rewrite decide_True by lia|rewrite decide_False by lia]; [|done].
    by rewrite last_oid.
Qed.
(** ** What keeps devices well formed *)

Lemma alter_names f k (l : list Iface) : (∀ i, if_Name (f i) = if_Name i) → if_Name <$> alter f k l = if_Name <$> l.
Proof. intros Hf. revert k. induction l as [|i l IH]; intros [|k]; simpl; [done|done|by rewrite Hf|]. f_equal. apply IH. Qed.

Lemma new_ifaces_names names rng : if_Name <$> (new_ifaces names rng).1 = names.
Proof.
  revert rng. induction names as [|n names IH]; intros rng; [done|]. simpl. unfold new_iface.
  destruct (rand_Int63n _ rng) as [a r1], (rand_Int63n _ r1) as [b r2], (rand_Float64 r2) as [f r3].
  specialize (IH r3). destruct (new_ifaces names r3) as [l r4]. cbn [fst]. rewrite fmap_cons. cbn [if_Name]. by f_equal.
Qed.
Lemma newDevice_ok dev o now : sim_ok (newDevice dev o now).
Proof.
  unfold newDevice. repeat case_match. split; [|done]. cbn [sd_Iface sd_Type].
  match goal with E : new_ifaces ?n ?r = (?l, _) |- _ => pose proof (new_ifaces_names n r) as Hn; by rewrite E in Hn end.
Qed.

Lemma tick_iface_name dt i rng : if_Name (tick_iface dt i rng).1 = if_Name i.
Proof. unfold tick_iface. destruct (if_OperUp i), (if_AdminUp i); simpl; try destruct (rand_Float64 rng); simpl; by destruct (f_gt _ _). Qed.
Lemma tick_ifaces_names dt l rng : if_Name <$> (tick_ifaces dt l rng).1 = if_Name <$> l.
Proof.
  revert rng. induction l as [|i l IH]; intros rng; [done|]. cbn [tick_ifaces]. pose proof (tick_iface_name dt i rng) as Hi.
  destruct (tick_iface dt i rng) as [i' r1]. specialize (IH r1). destruct (tick_ifaces dt l r1) as [l' r2]. cbn [fst] in *.
  rewrite !fmap_cons. by rewrite Hi, IH.
Qed.

Lemma sim_ok_ifaces d l : sim_ok d → if_Name <$> l = if_Name <$> sd_Iface d → sim_ok (d <| sd_Iface := l |>).
Proof.
  intros [Hn Hf] Hl. split; simpl; [by rewrite Hl|]. apply (f_equal length) in Hl. rewrite !length_fmap in Hl. by rewrite Hl.
Qed.
Lemma sim_ok_alter d f k : (∀ i, if_Name (f i) = if_Name i) → sim_ok d → sim_ok (d <| sd_Iface := alter f k (sd_Iface d) |>).
Proof. intros Hf Hok. apply sim_ok_ifaces; [done|]. by apply alter_names. Qed.

Lemma tick_flap_ok now d : sim_ok d → sim_ok (tick_flap now d).
Proof.
  intros Hok. unfold tick_flap. destruct (sd_flap d) as [f|] eqn:Hf; [|done]. destruct (_ && _); [|done]. cbv zeta.
  assert (fl_iface f < length (sd_Iface d)) as Hlt by (destruct Hok as [_ Hok]; by rewrite Hf in Hok).
  destruct (_ =? 0)%Z.
  - split; simpl; [|done]. rewrite !alter_names by done. by destruct Hok.
  - split; simpl; [rewrite alter_names by done; by destruct Hok|by rewrite length_alter].
Qed.

Lemma tick_ok now dt d : sim_ok d → sim_ok (tick now dt d).
Proof.
  intros Hok. unfold tick. pose proof (tick_ifaces_names dt (sd_Iface d) (sd_rng d)) as Hn.
  destruct (tick_ifaces dt (sd_Iface d) (sd_rng d)) as [l rng]. repeat (destruct (rand_Float64 _) || destruct (rand_Intn _ _)).
  apply tick_flap_ok. destruct Hok as [Hnames Hflap]. split; simpl in *; [by rewrite Hn|].
  apply (f_equal length) in Hn. rewrite !length_fmap in Hn. by rewrite Hn.
Qed.

Lemma pickIface_lt d name k : pickIface d name = Ok k → k < length (sd_Iface d).
Proof.
  unfold pickIface. destruct (sd_Iface d) as [|i l] eqn:Hl; [done|]. case_bool_decide; [intros [= <-]; simpl; lia|].
  destruct (list_find _ _) as [[k' i']|] eqn:Hf; [|done]. intros [= <-]. apply list_find_Some in Hf as (Hk & _). by apply lookup_lt_Some in Hk.
Qed.

Lemma apply_iface_ok now ev args k d : k < length (sd_Iface d) → sim_ok d → sim_ok (apply_iface now ev args k d).2.
Proof.
  intros Hk Hok. unfold apply_iface, on_iface. cbv zeta.
  case_bool_decide.
  { simpl. destruct (sd_flap d) as [f|] eqn:Hf; [case_bool_decide|].
    all: split; simpl; [rewrite alter_names by done; by destruct Hok|try done].
    rewrite length_alter. destruct Hok as [_ Hok]. by rewrite Hf in Hok. }
  case_bool_decide; [by apply sim_ok_alter|]. case_bool_decide; [by apply sim_ok_alter|]. case_bool_decide; [by apply sim_ok_alter|].
  case_bool_decide; [split; simpl; [by destruct Hok|done]|].
  case_bool_decide; [by apply sim_ok_alter|]. case_bool_decide; [by apply sim_ok_alter|]. done.
Qed.

Lemma applyLocked_ok now ev args d : sim_ok d → sim_ok (applyLocked now ev args d).2.
Proof.
  intros Hok. unfold applyLocked. do 10 (case_bool_decide; [exact Hok|]).
  case_bool_decide.
  { split; simpl; [|done]. rewrite <-list_fmap_compose. by destruct Hok. }
  destruct (pickIface d _) as [k|e] eqn:Hp; [|done]. apply pickIface_lt in Hp. by apply apply_iface_ok.
Qed.

Definition world_ok (w : World R) : Prop := map_Forall (λ id d, sim_ok d) (wd_devices w).
Lemma put_ok id d w : sim_ok d → world_ok w → world_ok (put id d w).
Proof. intros Hd Hw. unfold world_ok, put. simpl. by apply map_Forall_insert_2. Qed.
Lemma fire_ok now w t : world_ok w → world_ok (fire now w t).
Proof. intros Hw. unfold fire. destruct (wd_devices w !! _) as [d|] eqn:Hd; [|done]. apply put_ok; [|done]. apply applyLocked_ok. by apply (Hw _ _ Hd). Qed.
Lemma Tick_ok now clock w : world_ok w → world_ok (Tick now clock w).
Proof.
  intros Hw. unfold Tick. generalize (filter (λ t, After (sh_at t) now = false) (wd_timers w)). intros due.
  match goal with |- world_ok (foldl _ ?w0 _) => assert (world_ok w0) as H0; [|generalize dependent w0] end.
  { intros id d. simpl. rewrite lookup_fmap. intros (d0 & Hd & ->)%fmap_Some. apply tick_ok. by apply (Hw _ _ Hd). }
  induction due as [|t due IH]; intros w1 H1; [done|]. simpl. apply IH. by apply fire_ok.
Qed.
Lemma Apply_ok now sc w : world_ok w → world_ok (Apply now sc w).2.
Proof.
  intros Hw. unfold Apply. destruct (wd_devices w !! _) as [d|] eqn:Hd; [|done]. destruct (negb _); [done|].
  pose proof (applyLocked_ok now (sn_Event sc) (sn_Args sc) d (Hw _ _ Hd)) as Hok.
  destruct (applyLocked _ _ _ d) as [[msg|e] d']; simpl in Hok; [|by apply put_ok]. destruct (if (0 <? _)%Z then _ else _); by apply put_ok.
Qed.
Lemma NewWorld_ok devices o now : world_ok (NewWorld devices o now).
Proof.
  unfold world_ok, NewWorld. cbv zeta. simpl. set (o' := if bool_decide _ then _ else _). clearbody o'.
  assert (map_Forall (λ (_ : string) (d : SimDevice R), sim_ok d) ∅) as Hm by apply map_Forall_empty.
  revert Hm. generalize (∅ : gmap string (SimDevice R)). induction devices as [|d devices IH]; intros m Hm; [done|]. simpl. apply IH.
  apply map_Forall_insert_2; [apply newDevice_ok|done].
Qed.

(** The worlds a simulator can be in. *)
Inductive sim_run : World R → Prop :=
| run_new devices o now : sim_run (NewWorld devices o now)
| run_tick_sim now clock w : sim_run w → sim_run (Tick now clock w)
| run_apply now sc w : sim_run w → sim_run (Apply now sc w).2
| run_respond now req id d w : sim_run w → wd_devices w !! id = Some d → sim_run (put id (respond (wd_opts w) now req d).2 w).

Lemma respond_ok o now req d : sim_ok d → sim_ok (respond o now req d).2.
Proof.
  intros Hok. unfold respond. destruct (sd_Offline d); [done|]. destruct (f_gt _ _); [destruct (rand_Float64 (sd_rng d)) as [f rng]|]; simpl;
    repeat case_match; exact Hok.
Qed.
Lemma sim_run_ok w : sim_run w → world_ok w.
Proof.
  induction 1 as [devices o now|now clock w _ IH|now sc w _ IH|now req id d w _ IH Hd].
  - apply NewWorld_ok.
  - by apply Tick_ok.
  - by apply Apply_ok.
  - apply put_ok; [|done]. apply respond_ok. by apply (IH _ _ Hd).
Qed.

(** A bulk request for one name is that walk cut off at the repetitions asked for, of which the agent
    gives at most 40, with the end marker after the last object when the view ends earlier. *)
Theorem bulk_is_capped_walk w id d now req name :
  sim_run w → wd_devices w !! id = Some d → answering (wd_opts w) (pt_Community req) d →
  pt_PDUType req = GetBulkRequest → pt_NonRepeaters req = 0%Z → sp_Name <$> pt_Variables req = [name] →
  let reps := Z.to_nat (Z.min (pt_MaxRepetitions req) 40) in
  let rest := after (parseOID name) (snapshot now d) in
  ∃ resp, (respond (wd_opts w) now req d).1 = Some resp ∧
    pt_Variables resp = (vb_pdu <$> take reps rest) ++
      (if decide (length rest < reps) then [MkSnmpPDU (formatOID (default (parseOID name) (vb_oid <$> last rest))) EndOfMibView (SVOther "")] else []).
Proof.
  intros Hw Hd Ha Ht Hn Hv reps rest. assert (view_sorted (snapshot now d)) as Hs by (apply snapshot_sorted; by apply (sim_run_ok w Hw _ _ Hd)).
  rewrite respond_answering by done. unfold answers. rewrite Ht, Hn, Hv. cbn [fst fmap option_fmap option_map]. eexists. split; [reflexivity|].
  cbn [pt_Variables length take drop]. change (Z.to_nat (Z.min 0 (Z.of_nat 1))) with 0. cbn [take drop fmap list_fmap app].
  unfold maxRepetitions. fold reps. rewrite bulk_view by done. fold rest. f_equal. destruct (decide (length rest < reps)); [|done].
  do 2 f_equal. unfold nextPDU. rewrite next_after by done. unfold rest. by rewrite after_last.
Qed.

(** ** Scenarios *)

Definition flags (i : Iface) : bool * bool * float64 := (if_AdminUp i, if_OperUp i, if_errRate i).
Record healthy (d : SimDevice R) : Prop := {
  he_off : sd_Offline d = false; he_auth : sd_AuthFail d = false; he_batt : sd_OnBatt d = false;
  he_cpu : sd_cpuOverride d = None; he_temp : sd_tempOverride d = None; he_flap : sd_flap d = None;
  he_ifaces : Forall (λ i, flags i = (true, true, f_zero)) (sd_Iface d) }.

(** What a tick leaves alone: everything scenarios set. *)
Record same_settings (d d' : SimDevice R) : Prop := {
  ss_id : sd_ID d' = sd_ID d; ss_type : sd_Type d' = sd_Type d; ss_names : if_Name <$> sd_Iface d' = if_Name <$> sd_Iface d;
  ss_off : sd_Offline d' = sd_Offline d; ss_auth : sd_AuthFail d' = sd_AuthFail d; ss_batt : sd_OnBatt d' = sd_OnBatt d;
  ss_cpu : sd_cpuOverride d' = sd_cpuOverride d; ss_temp : sd_tempOverride d' = sd_tempOverride d; ss_flap : sd_flap d' = sd_flap d;
  ss_ifaces : flags <$> sd_Iface d' = flags <$> sd_Iface d }.

Lemma tick_ifaces_flags dt l rng : flags <$> (tick_ifaces dt l rng).1 = flags <$> l.
Proof.
  revert rng. induction l as [|i l IH]; intros rng; [done|]. cbn [tick_ifaces].
  assert (flags (tick_iface dt i rng).1 = flags i) as Hi.
  { unfold tick_iface. destruct (if_OperUp i) eqn:Ho, (if_AdminUp i) eqn:Ha; simpl; try destruct (rand_Float64 rng); simpl;
      destruct (f_gt _ _); unfold flags; simpl; by rewrite Ho, Ha. }
  destruct (tick_iface dt i rng) as [i' r1]. specialize (IH r1). destruct (tick_ifaces dt l r1) as [l' r2]. cbn [fst] in *.
  rewrite !fmap_cons. by rewrite Hi, IH.
Qed.

(** A tick before its flap is considered. *)
Lemma tick_steady now dt d : ∃ d0, tick now dt d = tick_flap now d0 ∧ same_settings d d0.
Proof.
  unfold tick. pose proof (tick_ifaces_names dt (sd_Iface d) (sd_rng d)) as Hn. pose proof (tick_ifaces_flags dt (sd_Iface d) (sd_rng d)) as Hf.
  destruct (tick_ifaces dt (sd_Iface d) (sd_rng d)) as [l rng]. repeat (destruct (rand_Float64 _) || destruct (rand_Intn _ _)).
  eexists. split; [reflexivity|]. by split.
Qed.
(** Scenarios touch only what they name: an unknown device or an event its type does not support is
    refused and changes nothing; otherwise no other device changes. *)
Theorem scenarios_are_contained now sc (w : World R) r w' :
  Apply now sc w = (r, w') →
  match wd_devices w !! sn_Device sc with
  | None => is_ok r = false ∧ w' = w
  | Some d => (sn_Event sc ∉ Events (sd_Type d) → is_ok r = false ∧ w' = w) ∧ ∀ id, id ≠ sn_Device sc → wd_devices w' !! id = wd_devices w !! id
  end.
Proof.
  unfold Apply. destruct (wd_devices w !! sn_Device sc) as [d|] eqn:Hd; [|by intros [= <- <-]].
  case_bool_decide as Hev; simpl.
  2: { by intros [= <- <-]. }
  intros Ha. split; [done|]. intros id Hid. destruct (applyLocked _ _ _ d) as [[msg|e] d']; [destruct (if (0 <? _)%Z then _ else _)|];
    simplify_eq; simpl; by rewrite lookup_insert_ne.
Qed.

Lemma elem_of_sim_Events t ev :
  ev ∈ Events t ↔ ev ∈ ["offline"; "online"; "auth-failure"; "auth-ok"; "reset"; "high-cpu"; "cpu-normal"; "overheat"; "cool"]
    ∨ ((is_switch t || bool_decide (t = DeviceAccessPoint)) = true ∧
       ev ∈ ["interface-down"; "interface-up"; "interface-flap"; "interface-admin-down"; "interface-admin-up"; "packet-errors"; "errors-clear"])
    ∨ (t = DeviceUPS ∧ ev ∈ ["power-loss"; "power-restore"]).
Proof.
  unfold Events. unfold sort_strings. rewrite merge_sort_Permutation, elem_of_app. destruct (is_switch t || _) eqn:Hs.
  - split; [intros [?|?]; [left; assumption|right; left; split; [reflexivity|assumption]]|]. intros [?|[[_ ?]|[Ht _]]]; [by left|by right|]. rewrite Ht in Hs. by vm_compute in Hs.
  - destruct (bool_decide_reflect (t = DeviceUPS)) as [Ht|Ht]; rewrite ?elem_of_nil; split.
    + intros [?|?]; [left; assumption|right; right; split; assumption].
    + intros [?|[[? _]|[_ ?]]]; [by left|done|by right].
    + intros [?|[]]. by left.
    + intros [?|[[? _]|[? _]]]; [by left|done|done].
Qed.

(** A scenario a device supports succeeds, unless it names an interface the device does not have. *)
Theorem supported_scenarios_succeed now ev args d :
  sim_ok d → ev ∈ Events (sd_Type d) → mread args "interface" = "" ∨ mread args "interface" ∈ iface_names (sd_Type d) →
  is_ok (applyLocked now ev args d).1 = true.
Proof.
  intros [Hn _] Hev Harg. unfold applyLocked. do 11 (case_bool_decide; [done|]). apply elem_of_sim_Events in Hev as [Hev|[[Ht Hev]|[_ Hev]]].
  1,3: rewrite !elem_of_cons, elem_of_nil in Hev; naive_solver.
  assert (sd_Iface d ≠ []) as Hne.
  { intros Hnil. rewrite Hnil in Hn. unfold iface_names in Hn. destruct (is_switch _); [by vm_compute in Hn|]. simpl in Ht. rewrite Ht in Hn. done. }
  unfold pickIface. destruct (sd_Iface d) as [|i l] eqn:Hl; [done|]. rewrite <-Hl in *.
  assert (∀ k, is_ok (apply_iface now ev args k d).1 = true) as Hok.
  { intros k. unfold apply_iface. do 7 (match goal with |- context [bool_decide (ev = ?x)] => destruct (bool_decide_reflect (ev = x)); [done|] end).
    rewrite !elem_of_cons, elem_of_nil in Hev. naive_solver. }
  destruct (bool_decide_reflect (mread args "interface" = "")) as [Hempty|Hempty]; [apply Hok|]. destruct Harg as [?|Harg]; [done|].
  destruct (list_find _ (sd_Iface d)) as [[k x]|] eqn:Hf; [apply Hok|]. exfalso. apply list_find_None in Hf. rewrite <-Hn in Harg.
  apply list_elem_of_fmap in Harg as (x & Hx & Hin). rewrite Forall_forall in Hf. by apply (Hf x Hin).
Qed.
(** ** Flapping *)

(** Ticks that each come when the next toggle is due. *)
Fixpoint paced (next : Time) (interval : Duration) (ticks : list (Time * float64)) : Prop :=
  match ticks with [] => True | (now, _) :: ticks => (next ≤ now)%Z ∧ paced (time_Add now interval) interval ticks end.
Definition run_ticks (ticks : list (Time * float64)) (d : SimDevice R) : SimDevice R := foldl (λ d t, tick t.1 t.2 d) d ticks.

(** A flap ends: after as many due ticks as it has toggles left, however they are spaced, the device
    flaps no more and the port it flapped is up. *)
Theorem flap_ends_with_port_up ticks d f :
  sim_ok d → sd_flap d = Some f → (0 < fl_remaining f)%Z → length ticks = Z.to_nat (fl_remaining f) →
  paced (fl_next f) (fl_interval f) ticks →
  sd_flap (run_ticks ticks d) = None ∧ if_OperUp <$> sd_Iface (run_ticks ticks d) !! fl_iface f = Some true.
Proof.
  revert d f. induction ticks as [|[now dt] ticks IH]; intros d f Hok Hf Hrem Hlen Hp; [simpl in Hlen; lia|].
  destruct Hp as [Hnow Hp]. cbn [run_ticks foldl fst snd]. destruct (tick_steady now dt d) as (d0 & Ht & Hss).
  assert (sim_ok (tick now dt d)) as Hok' by (by apply tick_ok).
  assert (fl_iface f < length (sd_Iface d0)) as Hlt.
  { pose proof (ss_names _ _ Hss) as Hn. apply (f_equal length) in Hn. rewrite !length_fmap in Hn. rewrite Hn. destruct Hok as [_ Hok]. by rewrite Hf in Hok. }
  rewrite Ht in Hok' |- *. pose proof (ss_flap _ _ Hss) as Hf0. rewrite Hf in Hf0. revert Hok'. unfold tick_flap at 1 2 3. rewrite Hf0.
  replace ((0 <? fl_remaining f)%Z && negb (Before now (fl_next f))) with true
    by (symmetry; unfold Before; rewrite (proj2 (Z.ltb_lt _ _)), (proj2 (Z.ltb_ge _ _)) by lia; done).
  cbv zeta. destruct (Z.eqb_spec (fl_remaining f - 1) 0) as [Hz|Hz]; intros Hok'.
  - assert (ticks = []) as -> by (apply nil_length_inv; simpl in Hlen; lia). split; [done|]. simpl.
    rewrite list_lookup_alter_eq. rewrite list_lookup_alter_eq. destruct (lookup_lt_is_Some_2 _ _ Hlt) as [x ->]. done.
  - eapply (IH _ (MkFlapState _ _ _ _)); [exact Hok'|reflexivity|simpl; lia|simpl in *; lia|exact Hp].
Qed.
(** ** Timed scenarios *)

Lemma pickIface_names d d' name : sd_ID d' = sd_ID d → if_Name <$> sd_Iface d' = if_Name <$> sd_Iface d → pickIface d' name = pickIface d name.
Proof.
  intros Hid Hn. unfold pickIface. rewrite Hid.
  assert (fst <$> list_find (λ i, if_Name i = name) (sd_Iface d') = fst <$> list_find (λ i, if_Name i = name) (sd_Iface d)) as Hf.
  { revert Hn. generalize (sd_Iface d), (sd_Iface d'). intros l. induction l as [|x l IH]; intros [|y l'] Hn; try discriminate Hn; [reflexivity|].
    rewrite !fmap_cons in Hn. injection Hn as Hxy Hn. simpl. rewrite Hxy. case_decide; [reflexivity|].
    specialize (IH l' Hn). destruct (list_find _ l') as [[k ?]|], (list_find _ l) as [[k' ?]|]; simpl in *; congruence. }
  destruct (sd_Iface d') as [|x' l'], (sd_Iface d) as [|x l]; try discriminate Hn; [reflexivity|]. case_bool_decide; [reflexivity|].
  destruct (list_find _ (x' :: l')) as [[k ?]|], (list_find _ (x :: l)) as [[k' ?]|]; simpl in *; congruence.
Qed.

(** Setting and unsetting a flag of one interface. *)
Lemma alter_flags f g k l l' :
  Forall (λ i, flags i = (true, true, f_zero)) l → flags <$> l' = flags <$> alter f k l →
  (∀ i j, flags i = (true, true, f_zero) → flags j = flags (f i) → flags (g j) = (true, true, f_zero)) →
  Forall (λ i, flags i = (true, true, f_zero)) (alter g k l').
Proof.
  intros Hl Hl' Hg. apply Forall_lookup. intros n i. destruct (decide (n = k)) as [->|Hne].
  - rewrite list_lookup_alter_eq. intros (j & Hj & ->)%fmap_Some.
    assert ((flags <$> l') !! k = Some (flags j)) as E by (by rewrite list_lookup_fmap, Hj). rewrite Hl', list_lookup_fmap, list_lookup_alter_eq in E.
    destruct (l !! k) as [x|] eqn:Hx; [|done]. change (Some (flags (f x)) = Some (flags j)) in E. apply (inj Some) in E.
    apply (Hg x); [|by symmetry]. by eapply Forall_lookup_1 in Hl.
  - rewrite list_lookup_alter_ne by done. intros Hj.
    assert ((flags <$> l') !! n = Some (flags i)) as E by (by rewrite list_lookup_fmap, Hj).
    rewrite Hl', list_lookup_fmap, list_lookup_alter_ne in E by done. destruct (l !! n) as [x|] eqn:Hx; [|done].
    change (Some (flags x) = Some (flags i)) in E. apply (inj Some) in E. rewrite <-E. by eapply Forall_lookup_1 in Hl.
Qed.
Lemma same_flags l l' : Forall (λ i, flags i = (true, true, f_zero)) l → flags <$> l' = flags <$> l → Forall (λ i, flags i = (true, true, f_zero)) l'.
Proof.
  revert l. induction l' as [|y l' IH]; intros [|x l] Hl Heq; [constructor|discriminate Heq|discriminate Heq|]. rewrite !fmap_cons in Heq.
  assert (flags y = flags x) as Hxy by exact (f_equal (λ l, default (flags y) (head l)) Heq). apply Forall_cons in Hl as [Hx Hl].
  constructor; [congruence|]. apply (IH l); [done|]. exact (f_equal tail Heq).
Qed.

Lemma undoable_keeps_flap t ev inv args d r d1 :
  inverse ev = Some inv → sd_flap d = None → applyLocked t ev args d = (r, d1) → sd_flap d1 = None.
Proof.
  intros Hinv Hf. unfold inverse in Hinv. apply elem_of_list_to_map_2 in Hinv. rewrite !elem_of_cons, elem_of_nil in Hinv. unfold applyLocked.
  repeat destruct Hinv as [Hinv|Hinv]; try done; injection Hinv as -> _; compute_strings; try (by intros [= <- <-]).
  all: destruct (pickIface d _) as [k|e]; [|by intros [= <- <-]]; unfold apply_iface; compute_strings; cbv zeta; unfold on_iface; simpl (sd_flap _);
    rewrite ?Hf; cbv iota; by intros [= <- <-].
Qed.

Lemma inverse_undoes t clock ev inv args d msg d1 d2 :
  healthy d → inverse ev = Some inv → applyLocked t ev args d = (Ok msg, d1) → same_settings d1 d2 → healthy (applyLocked clock inv args d2).2.
Proof.
  intros [Ho Ha Hb Hc Ht Hf Hi] Hinv. unfold inverse in Hinv. apply elem_of_list_to_map_2 in Hinv.
  rewrite !elem_of_cons, elem_of_nil in Hinv. unfold applyLocked.
  repeat destruct Hinv as [Hinv|Hinv]; try done; injection Hinv as -> ->; compute_strings.
  all: try (intros [= <- <-] [? ? ? S1 S2 S3 S4 S5 S6 S7]; simpl in *; split; simpl; try congruence; by eapply same_flags).
  all: destruct (pickIface d _) as [k|e] eqn:Hp; [|done]; unfold apply_iface; compute_strings; cbv zeta; unfold on_iface; simpl (sd_flap _); rewrite ?Hf; cbv iota.
  all: intros [= <- <-] [Sid _ Sn S1 S2 S3 S4 S5 S6 S7]; simpl in Sid, S1, S2, S3, S4, S5, S6.
  all: assert (if_Name <$> sd_Iface d2 = if_Name <$> sd_Iface d) as Sn' by (etrans; [exact Sn|]; by apply alter_names).
  all: rewrite (pickIface_names d d2 _ Sid Sn'), Hp.
  all: compute_strings; split; simpl; try congruence.
  all: eapply alter_flags; [exact Hi|exact S7|].
  all: unfold flags; simpl; intros i j [= E1 E2 E3] [= F1 F2 F3]; congruence.
Qed.

(** A scenario with a duration reverts by itself: on a healthy device of a simulator without other
    timers, the first tick at or after its end leaves the device healthy again and no timer behind,
    whatever the tick's clock. *)
Theorem timed_scenario_reverts t sc inv w d msg w1 now clock :
  wd_timers w = [] → wd_devices w !! sn_Device sc = Some d → healthy d →
  (0 < sn_Duration sc)%Z → inverse (sn_Event sc) = Some inv → Apply t sc w = (Ok msg, w1) →
  (time_Add t (sn_Duration sc) ≤ now)%Z →
  wd_timers (Tick now clock w1) = [] ∧ ∃ d', wd_devices (Tick now clock w1) !! sn_Device sc = Some d' ∧ healthy d'.
Proof.
  intros Hnone Hd Hh Hdur Hinv. unfold Apply. rewrite Hd. destruct (negb _); [done|].
  destruct (applyLocked t (sn_Event sc) (sn_Args sc) d) as [[m|e] d1] eqn:Ha; [|done].
  rewrite (proj2 (Z.ltb_lt _ _)), Hinv by lia. intros [= _ <-] Hnow. unfold Tick, put. cbn. rewrite Hnone. cbn [app].
  set (at_ := time_Add t (sn_Duration sc)) in *.
  assert (After at_ now = false) as Hafter by (unfold After; by apply Z.ltb_ge).
  rewrite !filter_cons, !filter_nil. cbn [sh_at]. rewrite (decide_True (P:=After at_ now = false)), (decide_False (P:=After at_ now = true)) by (done || by rewrite Hafter).
  cbn [foldl]. unfold fire, put. cbn. rewrite lookup_fmap, lookup_insert_eq. cbn. split; [done|]. eexists. split; [apply lookup_insert_eq|].
  match goal with |- healthy (applyLocked _ _ _ (tick ?a ?b ?c)).2 => destruct (tick_steady a b c) as (d0 & -> & Hss) end.
  assert (sd_flap d1 = None) as Hf1 by (eapply undoable_keeps_flap; [exact Hinv|by destruct Hh|exact Ha]).
  assert (tick_flap now d0 = d0) as -> by (unfold tick_flap; by rewrite (ss_flap _ _ Hss), Hf1).
  by eapply inverse_undoes.
Qed.
End sim.
