(* ===== verification/SimLoop.v ===== *)
(** * The simulator under the automation adapters, and examples of its theorems

    The commands the adapters send (the list [expected_commands] that the adapter theorems speak of) are applied
    to the simulated device, and the agent shows the effect. *)

From S2P Require Import Prelude GoLib GoFloat Domain Regexp Policy Engine Adapters AdaptersThms.
From S2P Require Import Session GoParse Scheduler SimWorld SimAgent SimThms.

Section loop.
Context {R : Type} {RND : Rand R}.

(** The commands, one after the other, over [DeviceController.Do]. *)
Fixpoint run_commands (now : Time) (l : list command) : ST (World R) error unit :=
  match l with
  | [] => mret tt
  | (device, event, args) :: l => _ ← Do now device event args; run_commands now l
  end.

Lemma iface_names_distinct t : NoDup (iface_names t).
Proof.
  unfold iface_names. destruct (is_switch t); [apply (bool_decide_unpack _); vm_compute; exact I|].
  case_bool_decide; apply (bool_decide_unpack _); vm_compute; exact I.
Qed.

Lemma pickIface_at (d : SimDevice R) k name : sim_ok d → iface_names (sd_Type d) !! k = Some name → name ≠ "" → pickIface d name = Ok k.
Proof.
  intros [Hn _] Hk Hne. unfold pickIface. rewrite bool_decide_eq_false_2 by done.
  pose proof (iface_names_distinct (sd_Type d)) as Hnd. rewrite <-Hn in Hk, Hnd. rewrite list_lookup_fmap in Hk. apply fmap_Some in Hk as (i & Hi & ->).
  destruct (sd_Iface d) as [|x l] eqn:Hl; [by rewrite lookup_nil in Hi|]. rewrite <-Hl in *.
  destruct (list_find _ (sd_Iface d)) as [[k' i']|] eqn:Hf.
  - apply list_find_Some in Hf as (Hk' & Heq & _). f_equal. eapply (NoDup_lookup _ _ _ (if_Name i) Hnd); rewrite list_lookup_fmap; [by rewrite Hk', <-Heq|by rewrite Hi].
  - apply list_find_None in Hf. eapply Forall_lookup_1 in Hf; [|exact Hi]. done.
Qed.

(** The object of a view found by its identifier. *)
Lemma getPDU_view view v name : view_sorted view → v ∈ view → vb_oid v = parseOID name → getPDU view name = vb_pdu v.
Proof.
  intros Hs Hv Ho. unfold getPDU. rewrite lookup_find by done.
  assert (List.find (λ x, bool_decide (vb_oid x = parseOID name)) view = Some v) as ->; [|done]. rewrite <-Ho. clear Ho.
  induction Hs as [|x view _ IH Hx]; [by apply elem_of_nil in Hv|]. simpl. apply elem_of_cons in Hv as [->|Hv]; [by rewrite bool_decide_eq_true_2|].
  rewrite bool_decide_eq_false_2; [by apply IH|]. intros Heq. eapply Forall_forall in Hx; [|exact Hv]. simpl in Hx. by rewrite Heq, oid_lt_irrefl in Hx.
Qed.
(** What the port commands do to a device. *)
Definition port_change (event : string) (i : Iface) : Iface :=
  if bool_decide (event = "interface-admin-down") then i <| if_AdminUp := false |> else i <| if_AdminUp := true |> <| if_OperUp := true |>.

Lemma Do_port now id event name k d (w : World R) :
  event = "interface-admin-down" ∨ event = "interface-admin-up" →
  wd_devices w !! id = Some d → sim_ok d → (is_switch (sd_Type d) || bool_decide (sd_Type d = DeviceAccessPoint)) = true →
  iface_names (sd_Type d) !! k = Some name → name ≠ "" →
  Do now id event (Some {["interface" := name]}) w = (Ok tt, put id (on_iface k (port_change event) d) w).
Proof.
  intros Hev Hd Hok Ht Hk Hne. unfold Do, Apply, mbind, ST_bind. cbn [sn_Device sn_Event sn_Args sn_Duration]. rewrite Hd.
  rewrite bool_decide_eq_true_2. 2: { apply elem_of_sim_Events. right. left. split; [done|]. destruct Hev as [-> | ->]; apply (bool_decide_unpack _); vm_compute; exact I. }
  cbn [negb]. unfold applyLocked. replace (mread (Some {["interface" := name]}) "interface") with name by (symmetry; unfold mread, mget; simpl; by rewrite lookup_singleton_eq).
  rewrite (pickIface_at d k) by done. unfold apply_iface, port_change. destruct Hev as [-> | ->]; compute_strings; done.
Qed.

Lemma on_iface_ok k f d : (∀ i, if_Name (f i) = if_Name i) → sim_ok d → sim_ok (on_iface (R:=R) k f d).
Proof. intros Hf Hok. by apply sim_ok_alter. Qed.
Lemma port_change_name event i : if_Name (port_change event i) = if_Name i.
Proof. unfold port_change. by case_bool_decide. Qed.

(** The operational status the agent shows for the interface at [k]. *)
Lemma agent_shows_port now d k i : sim_ok (R:=R) d → sd_Iface d !! k = Some i →
  sp_Value (getPDU (snapshot now d) ("1.3.6.1.2.1.2.2.1.8." +:+ FormatInt (Z.of_nat (k + 1)))) = SVInteger (if if_OperUp i && if_AdminUp i then 1 else 2).
Proof.
  intros Hok Hi. rewrite (getPDU_view _ (int_bind ("1.3.6.1.2.1.2.2.1.8." +:+ FormatInt (Z.of_nat (k + 1))) (if if_OperUp i && if_AdminUp i then 1 else 2)));
    [done|by apply snapshot_sorted| |done].
  unfold snapshot. rewrite elem_of_sort_stable. unfold unsorted_view. rewrite !elem_of_app. right. left. apply list_elem_of_In, in_concat.
  exists (iface_binds k i). rewrite <-!list_elem_of_In. split; [|unfold iface_binds; right; left]. apply elem_of_lookup_imap. by exists k, i.
Qed.

Lemma port_after now event (d : SimDevice R) k i (w : World R) id :
  sim_ok d → sd_Iface d !! k = Some i →
  let d' := on_iface k (port_change event) d in
  wd_devices (put id d' w) !! id = Some d' ∧ sim_ok d' ∧ sd_Type d' = sd_Type d ∧ sd_Iface d' !! k = Some (port_change event i) ∧
  sp_Value (getPDU (snapshot now d') ("1.3.6.1.2.1.2.2.1.8." +:+ FormatInt (Z.of_nat (k + 1))))
    = SVInteger (if if_OperUp (port_change event i) && if_AdminUp (port_change event i) then 1 else 2).
Proof.
  intros Hok Hi d'. assert (sim_ok d') as Hok' by (apply on_iface_ok; [apply port_change_name|done]).
  assert (sd_Iface d' !! k = Some (port_change event i)) as Hi' by (unfold d', on_iface; simpl; by rewrite list_lookup_alter_eq, Hi).
  split_and!; [apply lookup_insert_eq|done|done|done|by apply agent_shows_port].
Qed.

End loop.

(** ** A flap superseded *)

Section superseded.
Context {R : Type} {RND : Rand R}.

Definition oper (d : SimDevice R) (k : nat) : option bool := if_OperUp <$> sd_Iface d !! k.
(** The device flaps no port but [j]. *)
Definition flaps_only (j : nat) (d : SimDevice R) : Prop := ∀ f, sd_flap d = Some f → fl_iface f = j.

Lemma steady_oper d d0 k : same_settings d d0 → oper d0 k = oper d k.
Proof.
  intros Hss. pose proof (f_equal (λ l : list (bool * bool * float64), (l !! k : option _)) (ss_ifaces _ _ Hss)) as E. cbn beta in E.
  rewrite !list_lookup_fmap in E. unfold oper. destruct (sd_Iface d0 !! k) as [x|], (sd_Iface d !! k) as [y|]; try discriminate E; [|done].
  change (Some (flags x) = Some (flags y)) in E. unfold flags in E. simplify_eq. simpl. congruence.
Qed.
Lemma oper_on_other j k f (d : SimDevice R) : j ≠ k → oper (d <| sd_Iface := alter f j (sd_Iface d) |>) k = oper d k.
Proof. intros Hne. unfold oper. simpl. by rewrite list_lookup_alter_ne. Qed.
Lemma tick_flap_other j k now (d : SimDevice R) : j ≠ k → flaps_only j d → flaps_only j (tick_flap now d) ∧ oper (tick_flap now d) k = oper d k.
Proof.
  intros Hne Hj. unfold tick_flap. destruct (sd_flap d) as [f|] eqn:Hf; [|done]. rewrite (Hj f Hf) in *.
  destruct (_ && _); [|done]. cbv zeta. destruct (_ =? 0)%Z; (split; [|unfold oper; simpl; by rewrite !list_lookup_alter_ne]); by intros g [= <-].
Qed.
Lemma ticks_other j k ticks d : j ≠ k → flaps_only j d → oper (run_ticks ticks d) k = oper d k.
Proof.
  intros Hne. revert d. induction ticks as [|[now dt] ticks IH]; intros d Hj; [done|]. cbn [run_ticks foldl fst snd].
  destruct (tick_steady now dt d) as (d0 & Ht & Hss). rewrite Ht, <-(steady_oper d d0) by done.
  assert (flaps_only j d0) as Hj0 by (intros f; rewrite (ss_flap _ _ Hss); apply Hj). destruct (tick_flap_other j k now d0 Hne Hj0) as [Hj1 <-].
  by apply IH.
Qed.

(** A finished flap leaves the port up, as the comment in [tick] says, only when nothing replaces it:
    the device remembers one flap, so when a second [interface-flap] names another port while the first
    port is down, no number of ticks brings the first port up again. *)
Theorem superseded_flap_leaves_port_down now args j k ticks d msg d1 :
  oper d k = Some false → pickIface d (mread args "interface") = Ok j → j ≠ k → applyLocked now "interface-flap" args d = (Ok msg, d1) →
  oper (run_ticks ticks d1) k = Some false.
Proof.
  intros Hk Hj Hne. unfold applyLocked. rewrite Hj. unfold apply_iface. compute_strings. cbv zeta. intros [= _ <-].
  rewrite (ticks_other j k); [exact Hk|done|]. by intros f [= <-].
Qed.
End superseded.

(** ** Examples *)

(** A generator whose draws never vary. *)
#[local] Instance fixed_rand : Rand unit := {|
  rand_New _ := tt; rand_Float64 r := (f_dec 1 2, r); rand_Intn _ r := (0%Z, r); rand_Int63n _ r := (0%Z, r) |}.
Definition ex_sim_device (id : string) (t : DeviceType) : Device :=
  MkDevice id "" "10.0.0.1" t "" "model" "" "lab" [] [] "snmp/lab" true 0 (MkCollectionSpec "snmp" "" 0) None.
Definition ex_sim : World unit := NewWorld [ex_sim_device "sw-1" DeviceSwitch; ex_sim_device "ups-1" DeviceUPS] (MkOptions 1 "" f_zero) 0.
Definition ex_switch : SimDevice unit := newDevice (ex_sim_device "sw-1" DeviceSwitch) (wd_opts ex_sim) 0.

Lemma ex_sim_switch : wd_devices ex_sim !! "sw-1" = Some ex_switch.
Proof. vm_compute. reflexivity. Qed.
Lemma ex_switch_ok : sim_ok ex_switch.
Proof. apply newDevice_ok. Qed.
Lemma ex_answering : answering (wd_opts ex_sim) "lab-ro" ex_switch.
Proof. split_and!; vm_compute; reflexivity. Qed.
Lemma ex_switch_healthy : healthy ex_switch.
Proof. split; try reflexivity. vm_compute. repeat constructor. Qed.


Definition ex_bulk : Packet := MkPacket "lab-ro" GetBulkRequest 7 StatusNoError 0 3 [MkSnmpPDU "1.3.6.1.2.1.2.2.1.8" Integer (SVOther "")].
Lemma bulk_is_capped_walk_witness :
  ∃ resp, (respond (wd_opts ex_sim) 0 ex_bulk ex_switch).1 = Some resp ∧
    pt_Variables resp = (vb_pdu <$> take 3 (after (parseOID "1.3.6.1.2.1.2.2.1.8") (snapshot 0 ex_switch))) ++
      (if decide (length (after (parseOID "1.3.6.1.2.1.2.2.1.8") (snapshot 0 ex_switch)) < 3)
       then [MkSnmpPDU (formatOID (default (parseOID "1.3.6.1.2.1.2.2.1.8") (vb_oid <$> last (after (parseOID "1.3.6.1.2.1.2.2.1.8") (snapshot 0 ex_switch))))) EndOfMibView (SVOther "")]
       else []).
Proof.
  apply (bulk_is_capped_walk ex_sim "sw-1" ex_switch 0 ex_bulk "1.3.6.1.2.1.2.2.1.8"); [apply run_new|apply ex_sim_switch|apply ex_answering|reflexivity..].
Defined.

Lemma scenarios_are_contained_witness :
  wd_devices (Apply 0 (MkScenario "sw-1" "offline" None 0) ex_sim).2 !! "ups-1" = wd_devices ex_sim !! "ups-1".
Proof.
  pose proof (scenarios_are_contained 0 (MkScenario "sw-1" "offline" None 0) ex_sim _ _ (surjective_pairing _)) as H.
  cbn [sn_Device] in H. rewrite ex_sim_switch in H. by apply H.
Defined.

Definition ex_port (name : string) : smap := Some {["interface" := name]}.
Lemma supported_scenarios_succeed_witness : is_ok (applyLocked 0 "interface-flap" (ex_port "Gi0/2") ex_switch).1 = true.
Proof.
  apply (supported_scenarios_succeed 0 "interface-flap" (ex_port "Gi0/2") ex_switch ex_switch_ok); [|right]; apply (bool_decide_unpack _); vm_compute; exact I.
Defined.

Definition ex_flap_args (port : string) : smap := Some (<["toggles" := "3"]> (<["interval" := "1s"]> {["interface" := port]})).
Definition ex_flapping (port : string) (d : SimDevice unit) : SimDevice unit := (applyLocked 0 "interface-flap" (ex_flap_args port) d).2.
Definition ex_ticks (n : nat) : list (Time * float64) := (λ k, (Z.of_nat k * Second, f_of_int 1))%Z <$> seq 1 n.
Lemma flap_ends_with_port_up_witness : sd_flap (run_ticks (ex_ticks 3) (ex_flapping "Gi0/1" ex_switch)) = None.
Proof.
  apply (flap_ends_with_port_up (ex_ticks 3) (ex_flapping "Gi0/1" ex_switch) (MkFlapState 0 3 Second Second)).
  - apply applyLocked_ok, ex_switch_ok.
  - vm_compute. reflexivity.
  - done.
  - reflexivity.
  - cbn. unfold time_Add. repeat split; vm_compute; done.
Defined.

(** One tick puts the first port down; a flap of the second port then leaves it down for good. *)
Lemma superseded_flap_leaves_port_down_witness :
  oper (run_ticks (ex_ticks 20) (ex_flapping "Gi0/2" (run_ticks (ex_ticks 1) (ex_flapping "Gi0/1" ex_switch)))) 0 = Some false.
Proof.
  eapply (superseded_flap_leaves_port_down 0 (ex_flap_args "Gi0/2") 1 0 (ex_ticks 20) (run_ticks (ex_ticks 1) (ex_flapping "Gi0/1" ex_switch))).
  - vm_compute. reflexivity.
  - vm_compute. reflexivity.
  - done.
  - vm_compute. reflexivity.
Defined.

Lemma timed_scenario_reverts_witness :
  ∃ d', wd_devices (Tick (5 * Minute) 0 (Apply 0 (MkScenario "sw-1" "interface-down" (ex_port "Gi0/3") (4 * Minute)) ex_sim).2) !! "sw-1" = Some d' ∧ healthy d'.
Proof.
  eapply (timed_scenario_reverts 0 (MkScenario "sw-1" "interface-down" (ex_port "Gi0/3") (4 * Minute)) "interface-up" ex_sim ex_switch).
  - reflexivity.
  - apply ex_sim_switch.
  - apply ex_switch_healthy.
  - done.
  - reflexivity.
  - vm_compute. reflexivity.
  - vm_compute. done.
Defined.

Definition ex_port_action (type port : string) : Action := MkAction type port None false "req-1" "corr-1".
