(* ===== verification/Config.v ===== *)
(** * Package [config] (src/internal/config/config.go)

    The configuration, its defaults, the overrides from the environment and its validation. [applyEnv] walks
    the configuration by reflection; here the walk is over [Config_fields], the fields with their YAML keys and
    their getters and setters, in the order of the struct. The YAML decoder, the file system and the texts of
    the standard library's parse errors are parameters. *)

From S2P Require Import Prelude GoLib GoFloat Domain Regexp Session GoParse Normalize ScriptRegistry ScriptApi Adapters.

Definition EnvPrefix : string := "INFRA_OBSERVER".

Record Logging := MkLogging { lg_Level : string; lg_Format : string }.
#[export] Instance eta_Logging : Eta Logging := λ x, MkLogging (lg_Level x) (lg_Format x).
Record NATS := MkNATS { nt_URL : string }.
#[export] Instance eta_NATS : Eta NATS := λ x, MkNATS (nt_URL x).
Record Database := MkDatabase { db_URL : string; db_MaxConns : Z }.
#[export] Instance eta_Database : Eta Database := λ x, MkDatabase (db_URL x) (db_MaxConns x).
Record InventoryConfig := MkInventoryConfig { iv_File : string }.
#[export] Instance eta_InventoryConfig : Eta InventoryConfig := λ x, MkInventoryConfig (iv_File x).
Record SNMP := MkSNMP {
  sm_Workers : Z;
  sm_Timeout : Duration;
  sm_Retries : Z;
  sm_DefaultInterval : Duration;
  sm_ProfilesDir : string;
  sm_MaxRepetitions : Z }.
#[export] Instance eta_SNMP : Eta SNMP := λ x, MkSNMP (sm_Workers x) (sm_Timeout x) (sm_Retries x) (sm_DefaultInterval x) (sm_ProfilesDir x) (sm_MaxRepetitions x).
Record Collectors := MkCollectors { cl_SNMP : SNMP }.
#[export] Instance eta_Collectors : Eta Collectors := λ x, MkCollectors (cl_SNMP x).
Record Processing := MkProcessing {
  pr_Workers : Z;
  pr_QueueSize : Z;
  pr_MaxDeliver : Z;
  pr_AckWait : Duration;
  pr_RetryDelay : Duration;
  pr_StaleAfter : Duration;
  pr_SweepInterval : Duration;
  pr_NormalizationFile : string;
  pr_StatesFile : string;
  pr_RulesFile : string }.
#[export] Instance eta_Processing : Eta Processing := λ x, MkProcessing (pr_Workers x) (pr_QueueSize x) (pr_MaxDeliver x) (pr_AckWait x) (pr_RetryDelay x) (pr_StaleAfter x) (pr_SweepInterval x) (pr_NormalizationFile x) (pr_StatesFile x) (pr_RulesFile x).
Record ScriptingConfig := MkScriptingConfig {
  sg_Enabled : bool;
  sg_Directories : list string;
  sg_Workers : Z;
  sg_QueueSize : Z;
  sg_ExecutionTimeout : Duration;
  sg_QuarantineAfter : Z;
  sg_Endpoints : gmap string Endpoint }.
#[export] Instance eta_ScriptingConfig : Eta ScriptingConfig := λ x, MkScriptingConfig (sg_Enabled x) (sg_Directories x) (sg_Workers x) (sg_QueueSize x) (sg_ExecutionTimeout x) (sg_QuarantineAfter x) (sg_Endpoints x).
Record AutomationConfig := MkAutomationConfig {
  au_DefaultDryRun : bool;
  au_PoliciesFile : string;
  au_TickInterval : Duration;
  au_Workers : Z }.
#[export] Instance eta_AutomationConfig : Eta AutomationConfig := λ x, MkAutomationConfig (au_DefaultDryRun x) (au_PoliciesFile x) (au_TickInterval x) (au_Workers x).
Record APIConfig := MkAPIConfig { ap_Listen : string; ap_DefaultPageSize : Z; ap_MaxPageSize : Z; ap_ApproversRef : string }.
#[export] Instance eta_APIConfig : Eta APIConfig := λ x, MkAPIConfig (ap_Listen x) (ap_DefaultPageSize x) (ap_MaxPageSize x) (ap_ApproversRef x).
Record SecretsConfig := MkSecretsConfig { se_Dir : string }.
#[export] Instance eta_SecretsConfig : Eta SecretsConfig := λ x, MkSecretsConfig (se_Dir x).
Record Observability := MkObservability { ob_Listen : string }.
#[export] Instance eta_Observability : Eta Observability := λ x, MkObservability (ob_Listen x).
Record SimulatorConfig := MkSimulatorConfig { si_BindHost : string; si_Seed : Z }.
#[export] Instance eta_SimulatorConfig : Eta SimulatorConfig := λ x, MkSimulatorConfig (si_BindHost x) (si_Seed x).
Record Config := MkConfig {
  cf_Logging : Logging;
  cf_NATS : NATS;
  cf_Database : Database;
  cf_Inventory : InventoryConfig;
  cf_Collectors : Collectors;
  cf_Processing : Processing;
  cf_Scripting : ScriptingConfig;
  cf_Automation : AutomationConfig;
  cf_API : APIConfig;
  cf_Secrets : SecretsConfig;
  cf_Simulator : SimulatorConfig;
  cf_Observability : Observability;
  cf_Scripts : gmap string (gmap string (ScriptSettings ScriptApi.Config)) }.
#[export] Instance eta_Config : Eta Config := λ x, MkConfig (cf_Logging x) (cf_NATS x) (cf_Database x) (cf_Inventory x) (cf_Collectors x) (cf_Processing x) (cf_Scripting x) (cf_Automation x) (cf_API x) (cf_Secrets x) (cf_Simulator x) (cf_Observability x) (cf_Scripts x).

(** ** The fields as reflection sees them *)

(** The kinds of scalar [setScalar] can set. *)
Inductive skind := KDuration | KString | KBool | KInt | KStrings.
Definition ktype (k : skind) : Type :=
  match k with KDuration => Duration | KString => string | KBool => bool | KInt => Z | KStrings => list string end.

#[local] Set Warnings "-register-all".
(** A field with its YAML key: a scalar, a structure, or something that is left to the file. *)
Inductive field (C : Type) : Type :=
| FScalar (key : string) (k : skind) (get : C → ktype k) (set : ktype k → C → C)
| FOther (key : string)
| FStruct (key : string) (fields : list (field C)).
Arguments FScalar {C}.
Arguments FOther {C}.
Arguments FStruct {C}.

Definition Config_fields : list (field Config) := [
  FStruct "logging" [
    FScalar "level" KString (λ c, lg_Level (cf_Logging c)) (λ v c, c <| cf_Logging := (cf_Logging c) <| lg_Level := v |> |>);
    FScalar "format" KString (λ c, lg_Format (cf_Logging c)) (λ v c, c <| cf_Logging := (cf_Logging c) <| lg_Format := v |> |>)];
  FStruct "nats" [
    FScalar "url" KString (λ c, nt_URL (cf_NATS c)) (λ v c, c <| cf_NATS := (cf_NATS c) <| nt_URL := v |> |>)];
  FStruct "database" [
    FScalar "url" KString (λ c, db_URL (cf_Database c)) (λ v c, c <| cf_Database := (cf_Database c) <| db_URL := v |> |>);
    FScalar "max_conns" KInt (λ c, db_MaxConns (cf_Database c)) (λ v c, c <| cf_Database := (cf_Database c) <| db_MaxConns := v |> |>)];
  FStruct "inventory" [
    FScalar "file" KString (λ c, iv_File (cf_Inventory c)) (λ v c, c <| cf_Inventory := (cf_Inventory c) <| iv_File := v |> |>)];
  FStruct "collectors" [
    FStruct "snmp" [
      FScalar "workers" KInt (λ c, sm_Workers (cl_SNMP (cf_Collectors c))) (λ v c, c <| cf_Collectors := (cf_Collectors c) <| cl_SNMP := (cl_SNMP (cf_Collectors c)) <| sm_Workers := v |> |> |>);
      FScalar "timeout" KDuration (λ c, sm_Timeout (cl_SNMP (cf_Collectors c))) (λ v c, c <| cf_Collectors := (cf_Collectors c) <| cl_SNMP := (cl_SNMP (cf_Collectors c)) <| sm_Timeout := v |> |> |>);
      FScalar "retries" KInt (λ c, sm_Retries (cl_SNMP (cf_Collectors c))) (λ v c, c <| cf_Collectors := (cf_Collectors c) <| cl_SNMP := (cl_SNMP (cf_Collectors c)) <| sm_Retries := v |> |> |>);
      FScalar "default_interval" KDuration (λ c, sm_DefaultInterval (cl_SNMP (cf_Collectors c))) (λ v c, c <| cf_Collectors := (cf_Collectors c) <| cl_SNMP := (cl_SNMP (cf_Collectors c)) <| sm_DefaultInterval := v |> |> |>);
      FScalar "profiles_dir" KString (λ c, sm_ProfilesDir (cl_SNMP (cf_Collectors c))) (λ v c, c <| cf_Collectors := (cf_Collectors c) <| cl_SNMP := (cl_SNMP (cf_Collectors c)) <| sm_ProfilesDir := v |> |> |>);
      FScalar "max_repetitions" KInt (λ c, sm_MaxRepetitions (cl_SNMP (cf_Collectors c))) (λ v c, c <| cf_Collectors := (cf_Collectors c) <| cl_SNMP := (cl_SNMP (cf_Collectors c)) <| sm_MaxRepetitions := v |> |> |>)]];
  FStruct "processing" [
    FScalar "workers" KInt (λ c, pr_Workers (cf_Processing c)) (λ v c, c <| cf_Processing := (cf_Processing c) <| pr_Workers := v |> |>);
    FScalar "queue_size" KInt (λ c, pr_QueueSize (cf_Processing c)) (λ v c, c <| cf_Processing := (cf_Processing c) <| pr_QueueSize := v |> |>);
    FScalar "max_deliver" KInt (λ c, pr_MaxDeliver (cf_Processing c)) (λ v c, c <| cf_Processing := (cf_Processing c) <| pr_MaxDeliver := v |> |>);
    FScalar "ack_wait" KDuration (λ c, pr_AckWait (cf_Processing c)) (λ v c, c <| cf_Processing := (cf_Processing c) <| pr_AckWait := v |> |>);
    FScalar "retry_delay" KDuration (λ c, pr_RetryDelay (cf_Processing c)) (λ v c, c <| cf_Processing := (cf_Processing c) <| pr_RetryDelay := v |> |>);
    FScalar "stale_after" KDuration (λ c, pr_StaleAfter (cf_Processing c)) (λ v c, c <| cf_Processing := (cf_Processing c) <| pr_StaleAfter := v |> |>);
    FScalar "sweep_interval" KDuration (λ c, pr_SweepInterval (cf_Processing c)) (λ v c, c <| cf_Processing := (cf_Processing c) <| pr_SweepInterval := v |> |>);
    FScalar "normalization_file" KString (λ c, pr_NormalizationFile (cf_Processing c)) (λ v c, c <| cf_Processing := (cf_Processing c) <| pr_NormalizationFile := v |> |>);
    FScalar "states_file" KString (λ c, pr_StatesFile (cf_Processing c)) (λ v c, c <| cf_Processing := (cf_Processing c) <| pr_StatesFile := v |> |>);
    FScalar "rules_file" KString (λ c, pr_RulesFile (cf_Processing c)) (λ v c, c <| cf_Processing := (cf_Processing c) <| pr_RulesFile := v |> |>)];
  FStruct "scripting" [
    FScalar "enabled" KBool (λ c, sg_Enabled (cf_Scripting c)) (λ v c, c <| cf_Scripting := (cf_Scripting c) <| sg_Enabled := v |> |>);
    FScalar "directories" KStrings (λ c, sg_Directories (cf_Scripting c)) (λ v c, c <| cf_Scripting := (cf_Scripting c) <| sg_Directories := v |> |>);
    FScalar "workers" KInt (λ c, sg_Workers (cf_Scripting c)) (λ v c, c <| cf_Scripting := (cf_Scripting c) <| sg_Workers := v |> |>);
    FScalar "queue_size" KInt (λ c, sg_QueueSize (cf_Scripting c)) (λ v c, c <| cf_Scripting := (cf_Scripting c) <| sg_QueueSize := v |> |>);
    FScalar "execution_timeout" KDuration (λ c, sg_ExecutionTimeout (cf_Scripting c)) (λ v c, c <| cf_Scripting := (cf_Scripting c) <| sg_ExecutionTimeout := v |> |>);
    FScalar "quarantine_after" KInt (λ c, sg_QuarantineAfter (cf_Scripting c)) (λ v c, c <| cf_Scripting := (cf_Scripting c) <| sg_QuarantineAfter := v |> |>);
    FOther "endpoints"];
  FStruct "automation" [
    FScalar "default_dry_run" KBool (λ c, au_DefaultDryRun (cf_Automation c)) (λ v c, c <| cf_Automation := (cf_Automation c) <| au_DefaultDryRun := v |> |>);
    FScalar "policies_file" KString (λ c, au_PoliciesFile (cf_Automation c)) (λ v c, c <| cf_Automation := (cf_Automation c) <| au_PoliciesFile := v |> |>);
    FScalar "tick_interval" KDuration (λ c, au_TickInterval (cf_Automation c)) (λ v c, c <| cf_Automation := (cf_Automation c) <| au_TickInterval := v |> |>);
    FScalar "workers" KInt (λ c, au_Workers (cf_Automation c)) (λ v c, c <| cf_Automation := (cf_Automation c) <| au_Workers := v |> |>)];
  FStruct "api" [
    FScalar "listen" KString (λ c, ap_Listen (cf_API c)) (λ v c, c <| cf_API := (cf_API c) <| ap_Listen := v |> |>);
    FScalar "default_page_size" KInt (λ c, ap_DefaultPageSize (cf_API c)) (λ v c, c <| cf_API := (cf_API c) <| ap_DefaultPageSize := v |> |>);
    FScalar "max_page_size" KInt (λ c, ap_MaxPageSize (cf_API c)) (λ v c, c <| cf_API := (cf_API c) <| ap_MaxPageSize := v |> |>);
    FScalar "approvers_ref" KString (λ c, ap_ApproversRef (cf_API c)) (λ v c, c <| cf_API := (cf_API c) <| ap_ApproversRef := v |> |>)];
  FStruct "secrets" [
    FScalar "dir" KString (λ c, se_Dir (cf_Secrets c)) (λ v c, c <| cf_Secrets := (cf_Secrets c) <| se_Dir := v |> |>)];
  FStruct "simulator" [
    FScalar "bind_host" KString (λ c, si_BindHost (cf_Simulator c)) (λ v c, c <| cf_Simulator := (cf_Simulator c) <| si_BindHost := v |> |>);
    FScalar "seed" KInt (λ c, si_Seed (cf_Simulator c)) (λ v c, c <| cf_Simulator := (cf_Simulator c) <| si_Seed := v |> |>)];
  FStruct "observability" [
    FScalar "listen" KString (λ c, ob_Listen (cf_Observability c)) (λ v c, c <| cf_Observability := (cf_Observability c) <| ob_Listen := v |> |>)];
  FOther "scripts"].

(** ** Defaults *)

Definition Default : Config :=
  MkConfig (MkLogging "info" "json") (MkNATS "nats://127.0.0.1:4222") (MkDatabase "" 8) (MkInventoryConfig "configs/inventory.yaml")
    (MkCollectors (MkSNMP 20 (2 * Second) 2 (30 * Second) "configs/profiles" 20))
    (MkProcessing 8 64 5 (30 * Second) (2 * Second) (2 * Minute) (30 * Second)
       "configs/normalization.yaml" "configs/states.yaml" "configs/rules.yaml")
    (MkScriptingConfig true ["./scripts"] 4 128 (250 * Millisecond) 5 ∅)
    (MkAutomationConfig true "configs/automation.yaml" (5 * Second) 4)
    (MkAPIConfig ":8080" 50 500 "") (MkSecretsConfig "secrets") (MkSimulatorConfig "0.0.0.0" 1) (MkObservability ":9090") ∅.

(** ** Validation *)

Definition oneOf (v : string) (options : list string) : bool := existsb (λ o, bool_decide (v = o)) options.

Section config.
Context {RO : RangeOrder}.

(** What [Validate] asks, in its order, with the message of each. *)
Definition endpoint_checks (m : gmap string Endpoint) : list (bool * string) :=
  (λ '(name, ep), (negb (bool_decide (ep_URLRef ep = "")), "scripting.endpoints." +:+ name +:+ ".url_ref is required")) <$> range_order m.
Definition checks (c : Config) : list (bool * string) :=
  let s := cl_SNMP (cf_Collectors c) in
  let pr := cf_Processing c in
  let sc := cf_Scripting c in
  let a := cf_Automation c in
  [(oneOf (lg_Level (cf_Logging c)) ["debug"; "info"; "warn"; "error"], "logging.level must be debug, info, warn or error");
   (oneOf (lg_Format (cf_Logging c)) ["json"; "text"], "logging.format must be json or text");
   (HasPrefix (nt_URL (cf_NATS c)) "nats://" || HasPrefix (nt_URL (cf_NATS c)) "tls://", "nats.url must start with nats:// or tls://");
   (0 <? db_MaxConns (cf_Database c), "database.max_conns must be positive");
   (0 <? sm_Workers s, "collectors.snmp.workers must be positive");
   (0 <? sm_Timeout s, "collectors.snmp.timeout must be positive");
   (0 <=? sm_Retries s, "collectors.snmp.retries must not be negative");
   (0 <? sm_DefaultInterval s, "collectors.snmp.default_interval must be positive");
   (0 <? sm_MaxRepetitions s, "collectors.snmp.max_repetitions must be positive");
   (0 <? pr_Workers pr, "processing.workers must be positive");
   (0 <? pr_QueueSize pr, "processing.queue_size must be positive");
   (0 <? pr_MaxDeliver pr, "processing.max_deliver must be positive");
   (0 <? pr_AckWait pr, "processing.ack_wait must be positive");
   (0 <? pr_RetryDelay pr, "processing.retry_delay must be positive");
   (0 <? pr_StaleAfter pr, "processing.stale_after must be positive");
   (0 <? pr_SweepInterval pr, "processing.sweep_interval must be positive");
   (0 <? sg_Workers sc, "scripting.workers must be positive");
   (0 <? sg_QueueSize sc, "scripting.queue_size must be positive");
   (0 <? sg_ExecutionTimeout sc, "scripting.execution_timeout must be positive");
   (sg_ExecutionTimeout sc <=? 10 * Second, "scripting.execution_timeout above 10s defeats the purpose of a deadline");
   (0 <? sg_QuarantineAfter sc, "scripting.quarantine_after must be positive")]%Z
  ++ endpoint_checks (sg_Endpoints sc) ++
  [(0 <? au_TickInterval a, "automation.tick_interval must be positive");
   (0 <? au_Workers a, "automation.workers must be positive");
   ((0 <? ap_DefaultPageSize (cf_API c)) && (ap_DefaultPageSize (cf_API c) <=? ap_MaxPageSize (cf_API c)),
    "api page sizes must satisfy 0 < default_page_size <= max_page_size")]%Z.
Definition problems (l : list (bool * string)) : list string := (filter (λ x, x.1 = false) l).*2.
Definition newline : string := str1 (chr 10).
Definition Validate (c : Config) : res unit :=
  let p := problems (checks c) in
  if bool_decide (p = []) then Ok tt else Err (EText ("invalid configuration:" +:+ newline +:+ "  - " +:+ Join p (newline +:+ "  - "))).

Definition RequireDatabase (c : Config) : res unit :=
  if bool_decide (db_URL (cf_Database c) = "")
  then Err (EText "database.url is required (set it in the config file or INFRA_OBSERVER_DATABASE_URL)") else Ok tt.

(** ** The environment *)

(** The texts of the standard library's parse errors. *)
Context (parse_error : skind → string → string).

Definition setScalar (k : skind) (raw : string) : res (ktype k) :=
  match k return res (ktype k) with
  | KDuration => match ParseDuration raw with Some d => Ok d | None => Err (EText (parse_error KDuration raw)) end
  | KString => Ok raw
  | KBool => match ParseBool raw with Some b => Ok b | None => Err (EText (parse_error KBool raw)) end
  | KInt => match ParseInt raw with Some n => Ok n | None => Err (EText (parse_error KInt raw)) end
  | KStrings => Ok (TrimSpace <$> Split raw ",")
  end.

(** [strings.ReplaceAll(key, "-", "_")] *)
Fixpoint underscored (s : string) : string :=
  match s with "" => "" | String c s => String (if bool_decide (c = "-"%char) then "_"%char else c) (underscored s) end.
Definition env_name (prefix key : string) : string := prefix +:+ "_" +:+ ToUpper (underscored key).
Definition skipped (key : string) : bool := bool_decide (key = "") || bool_decide (key = "-").

Section env.
Context {C : Type} (lookup : string → option string).

Definition set_from_env (name : string) (k : skind) (set : ktype k → C → C) (c : C) : res C :=
  match lookup name with
  | None => Ok c
  | Some raw => match setScalar k raw with Ok v => Ok (set v c) | Err e => Err (EWrapped ("environment " +:+ name +:+ ": " +:+ error_text e) e) end
  end.
Fixpoint applyEnv_field (prefix : string) (f : field C) (c : C) : res C :=
  match f with
  | FScalar key k _ set => if skipped key then Ok c else set_from_env (env_name prefix key) k set c
  | FOther _ => Ok c
  | FStruct key fs =>
      if skipped key then Ok c
      else (fix go (fs : list (field C)) (c : C) : res C :=
              match fs with [] => Ok c | f :: fs => match applyEnv_field (env_name prefix key) f c with Ok c => go fs c | Err e => Err e end end) fs c
  end.
Fixpoint applyEnv (fs : list (field C)) (prefix : string) (c : C) : res C :=
  match fs with
  | [] => Ok c
  | f :: fs => match applyEnv_field prefix f c with Ok c => applyEnv fs prefix c | Err e => Err e end
  end.
End env.

(** ** Loading *)

(** How decoding a document into a configuration can fail. *)
Inductive yaml_error := YamlEOF | YamlBad (text : string).
Context (ReadFile : string → result string string) (yaml_Decode : string → Config → Config * option yaml_error).

Definition read_config (path : string) : res Config :=
  if bool_decide (path = "") then Ok Default
  else
    match ReadFile path with
    | Err e => Err (EWrapped ("read config: " +:+ e) (EText e))
    | Ok raw =>
        match yaml_Decode raw Default with
        | (_, Some (YamlBad e)) => Err (EWrapped ("parse config " +:+ path +:+ ": " +:+ e) (EText e))
        | (c, _) => Ok c
        end
    end.
Definition load (path : string) (lookup : string → option string) : res Config :=
  match read_config path with
  | Err e => Err e
  | Ok c =>
      match applyEnv lookup Config_fields EnvPrefix c with
      | Err e => Err e
      | Ok c => match Validate c with Ok _ => Ok c | Err e => Err e end
      end
  end.
End config.
