(* ===== verification/ConfigThms.v ===== *)
(** * Theorems about the configuration (src/internal/config/config.go)

    The walk over the configuration's fields is the same as going through a flat list of leaves, each with its
    environment variable; the leaves of [Config] are independent of each other and their variables distinct. *)

From S2P Require Import Prelude GoLib GoFloat Domain Regexp Session GoParse ScriptRegistry ScriptApi Config.

(** ** Leaves *)

(** A scalar of the configuration with the variable that overrides it. *)
Record leaf (C : Type) := MkLeaf { lf_name : string; lf_kind : skind; lf_get : C → ktype lf_kind; lf_set : ktype lf_kind → C → C }.
Arguments MkLeaf {C}.
Arguments lf_name {C}.
Arguments lf_kind {C}.
Arguments lf_get {C}.
Arguments lf_set {C}.

Section leaves.
Context {C : Type}.

Fixpoint leaves_of (prefix : string) (f : field C) : list (leaf C) :=
  match f with
  | FScalar key k get set => if skipped key then [] else [MkLeaf (env_name prefix key) k get set]
  | FOther _ => []
  | FStruct key fs => if skipped key then [] else concat (leaves_of (env_name prefix key) <$> fs)
  end.
Definition leaves (prefix : string) (fs : list (field C)) : list (leaf C) := concat (leaves_of prefix <$> fs).

Context (parse_error : skind → string → string) (lookup : string → option string).

Fixpoint apply_leaves (l : list (leaf C)) (c : C) : res C :=
  match l with
  | [] => Ok c
  | x :: l => match set_from_env parse_error lookup (lf_name x) (lf_kind x) (lf_set x) c with Ok c => apply_leaves l c | Err e => Err e end
  end.
Lemma apply_leaves_app l1 l2 c : apply_leaves (l1 ++ l2) c = match apply_leaves l1 c with Ok c => apply_leaves l2 c | Err e => Err e end.
Proof. revert c. induction l1 as [|x l1 IH]; intros c; [done|]. simpl. destruct (set_from_env _ _ _ _ _ _); [apply IH|done]. Qed.

(** Structural induction on fields, through the lists they hold. *)
Fixpoint field_ind' (P : field C → Prop) (Hs : ∀ key k get set, P (FScalar key k get set)) (Ho : ∀ key, P (FOther key))
  (Hf : ∀ key fs, Forall P fs → P (FStruct key fs)) (f : field C) : P f :=
  match f with
  | FScalar key k get set => Hs key k get set
  | FOther key => Ho key
  | FStruct key fs =>
      Hf key fs ((fix go (fs : list (field C)) : Forall P fs :=
        match fs with [] => Forall_nil_2 P | x :: fs => Forall_cons_2 P x fs (field_ind' P Hs Ho Hf x) (go fs) end) fs)
  end.

Lemma applyEnv_field_leaves f prefix c : applyEnv_field parse_error lookup prefix f c = apply_leaves (leaves_of prefix f) c.
Proof.
  revert prefix c. induction f as [key k get set|key|key fs IH] using field_ind'; intros prefix c; simpl.
  - destruct (skipped key); [done|]. simpl. by destruct (set_from_env _ _ _ _ _ _).
  - done.
  - destruct (skipped key); [done|]. revert c. induction IH as [|f fs Hf _ IH]; intros c; [done|]. simpl.
    rewrite Hf, apply_leaves_app. by destruct (apply_leaves _ c).
Qed.
(** [applyEnv] goes through the leaves in order. *)
Lemma applyEnv_leaves fs prefix c : applyEnv parse_error lookup fs prefix c = apply_leaves (leaves prefix fs) c.
Proof.
  revert c. induction fs as [|f fs IH]; intros c; [done|]. simpl. unfold leaves. simpl. rewrite applyEnv_field_leaves, apply_leaves_app.
  destruct (apply_leaves _ c); [apply IH|done].
Qed.

(** ** Independent leaves *)

Definition untouched (x y : leaf C) : Prop := ∀ v c, lf_get x (lf_set y v c) = lf_get x c.
Definition settable (x : leaf C) : Prop := ∀ v c, lf_get x (lf_set x v c) = v.
Fixpoint independent (l : list (leaf C)) : Prop :=
  match l with [] => True | x :: l => settable x ∧ Forall (λ y, untouched x y ∧ untouched y x) l ∧ independent l end.

(** What the environment makes of a leaf. *)
Definition overridden (c c' : C) (x : leaf C) : Prop :=
  match lookup (lf_name x) with
  | None => lf_get x c' = lf_get x c
  | Some raw => setScalar parse_error (lf_kind x) raw = Ok (lf_get x c')
  end.

Lemma apply_leaves_keeps {A} (g : C → A) l c c' :
  Forall (λ y : leaf C, ∀ v c, g (lf_set y v c) = g c) l → apply_leaves l c = Ok c' → g c' = g c.
Proof.
  intros Hl. revert c. induction Hl as [|y l Hy _ IH]; intros c; simpl; [by intros [= ->]|]. unfold set_from_env.
  destruct (lookup _) as [raw|]; [|apply IH]. destruct (setScalar _ _ raw) as [v|e]; [|done]. intros Ha. rewrite (IH _ Ha). apply Hy.
Qed.
Lemma apply_leaves_exact l c c' : independent l → apply_leaves l c = Ok c' → Forall (overridden c c') l.
Proof.
  revert c. induction l as [|x l IH]; intros c Hi Ha; [constructor|]. destruct Hi as (Hset & Hun & Hi). cbn [apply_leaves] in Ha.
  destruct (set_from_env _ _ _ _ _ c) as [c1|e] eqn:Hx; [|done]. unfold set_from_env in Hx.
  assert (lf_get x c' = lf_get x c1) as Hkeep.
  { apply (apply_leaves_keeps (lf_get x) l); [|done]. eapply Forall_impl; [exact Hun|]. by intros y [Hy _]. }
  constructor.
  - unfold overridden. destruct (lookup (lf_name x)) as [raw|]; [|by simplify_eq]. destruct (setScalar _ _ raw) as [v|e]; [|done].
    injection Hx as <-. by rewrite Hkeep, Hset.
  - specialize (IH c1 Hi Ha). clear Hi Ha Hkeep. induction IH as [|y l Hy Hl IH]; constructor.
    + apply Forall_cons in Hun as [[_ Hun] _]. unfold overridden in *. destruct (lookup (lf_name y)); [done|]. rewrite Hy.
      destruct (lookup (lf_name x)) as [raw|]; [|by simplify_eq]. destruct (setScalar _ _ raw) as [v|e]; [|done]. injection Hx as <-. apply Hun.
    + apply Forall_cons in Hun as [_ Hun]. by apply IH.
Qed.
(** A failure names a variable that does not parse. *)
Lemma apply_leaves_fails l c e :
  apply_leaves l c = Err e → ∃ x raw e', x ∈ l ∧ lookup (lf_name x) = Some raw ∧ setScalar parse_error (lf_kind x) raw = Err e' ∧
    error_text e = "environment " +:+ lf_name x +:+ ": " +:+ error_text e'.
Proof.
  revert c. induction l as [|x l IH]; intros c; [done|]. simpl. unfold set_from_env. destruct (lookup (lf_name x)) as [raw|] eqn:Hx.
  - destruct (setScalar _ _ raw) as [v|e'] eqn:Hs.
    + intros (y & raw' & e' & Hy & ?)%IH. exists y, raw', e'. split; [by right|done].
    + intros [= <-]. exists x, raw, e'. split_and!; [by left|done|done|done].
  - intros (y & raw' & e' & Hy & ?)%IH. exists y, raw', e'. split; [by right|done].
Qed.
Lemma apply_leaves_succeeds l c :
  Forall (λ x : leaf C, ∀ raw, lookup (lf_name x) = Some raw → is_ok (setScalar parse_error (lf_kind x) raw) = true) l → is_ok (apply_leaves l c) = true.
Proof.
  intros Hl. revert c. induction Hl as [|x l Hx _ IH]; intros c; [done|]. simpl. unfold set_from_env. destruct (lookup (lf_name x)) as [raw|]; [|apply IH].
  specialize (Hx raw eq_refl). destruct (setScalar _ _ raw); [apply IH|done].
Qed.
End leaves.

(** ** The leaves of the configuration *)

Definition config_leaves : list (leaf Config) := leaves EnvPrefix Config_fields.

Lemma config_leaves_independent : independent config_leaves.
Proof. cbn. repeat (split || constructor). Qed.
Lemma config_leaves_distinct : NoDup (lf_name <$> config_leaves).
Proof. apply (bool_decide_unpack _). vm_compute. exact I. Qed.

(** C20. The environment overrides exactly what it names: the variables of different settings have different
    names; when they all parse, every setting whose variable is set has its value, every other setting, the
    script settings and the endpoints are as they were; otherwise the error names a variable that does not
    parse. *)
Theorem env_overrides_exactly parse_error lookup c :
  NoDup (lf_name <$> config_leaves) ∧
  match applyEnv parse_error lookup Config_fields EnvPrefix c with
  | Ok c' =>
      Forall (overridden parse_error lookup c c') config_leaves ∧
      cf_Scripts c' = cf_Scripts c ∧ sg_Endpoints (cf_Scripting c') = sg_Endpoints (cf_Scripting c)
  | Err e =>
      ∃ x raw e', x ∈ config_leaves ∧ lookup (lf_name x) = Some raw ∧ setScalar parse_error (lf_kind x) raw = Err e' ∧
        error_text e = "environment " +:+ lf_name x +:+ ": " +:+ error_text e'
  end.
Proof.
  split; [apply config_leaves_distinct|]. rewrite applyEnv_leaves. fold config_leaves. destruct (apply_leaves _ _ config_leaves c) as [c'|e] eqn:Ha.
  - split_and!; [by apply (apply_leaves_exact _ _ _ _ _ config_leaves_independent)|..].
    + eapply (apply_leaves_keeps _ _ cf_Scripts); [|exact Ha]. cbn. repeat constructor.
    + eapply (apply_leaves_keeps _ _ (λ c, sg_Endpoints (cf_Scripting c))); [|exact Ha]. cbn. repeat constructor.
  - by eapply apply_leaves_fails.
Qed.

(** ** Loading *)

Definition dry_run_leaf : leaf Config :=
  MkLeaf "INFRA_OBSERVER_AUTOMATION_DEFAULT_DRY_RUN" KBool (λ c, au_DefaultDryRun (cf_Automation c))
    (λ v c, c <| cf_Automation := (cf_Automation c) <| au_DefaultDryRun := v |> |>).
Lemma dry_run_is_leaf : dry_run_leaf ∈ config_leaves.
Proof. cbn. repeat (left || right). Qed.

Section load.
Context {RO : RangeOrder} (parse_error : skind → string → string).
Context (ReadFile : string → result string string) (yaml_Decode : string → Config → Config * option yaml_error).

Lemma load_ok path lookup c : load parse_error ReadFile yaml_Decode path lookup = Ok c →
  ∃ c0, read_config ReadFile yaml_Decode path = Ok c0 ∧ apply_leaves parse_error lookup config_leaves c0 = Ok c ∧ is_ok (Validate c) = true.
Proof.
  unfold load. destruct (read_config _ _ path) as [c0|e]; [|done]. rewrite applyEnv_leaves. fold config_leaves.
  destruct (apply_leaves _ _ _ c0) as [c1|e] eqn:Ha; [|done]. destruct (Validate c1) as [[]|e] eqn:Hv; [|done]. intros [= ->].
  exists c0. split_and!; [done|done|by rewrite Hv].
Qed.

(** C21. Automation acts for real only when someone said so: a configuration that loads with dry-run off got
    it from the environment variable set to a false value, or from a configuration file that turns it off
    while the variable is not set. *)
Theorem live_automation_is_explicit path lookup c :
  load parse_error ReadFile yaml_Decode path lookup = Ok c → au_DefaultDryRun (cf_Automation c) = false →
  (∃ raw, lookup "INFRA_OBSERVER_AUTOMATION_DEFAULT_DRY_RUN" = Some raw ∧ ParseBool raw = Some false) ∨
  (lookup "INFRA_OBSERVER_AUTOMATION_DEFAULT_DRY_RUN" = None ∧ path ≠ "" ∧
   ∃ raw, ReadFile path = Ok raw ∧ au_DefaultDryRun (cf_Automation (yaml_Decode raw Default).1) = false).
Proof.
  intros (c0 & Hr & Ha & _)%load_ok Hdry.
  pose proof (apply_leaves_exact _ _ _ _ _ config_leaves_independent Ha) as Hex. eapply Forall_forall in Hex; [|exact dry_run_is_leaf].
  unfold overridden in Hex. cbn [dry_run_leaf lf_name lf_kind lf_get] in Hex. rewrite Hdry in Hex. destruct (lookup _) as [raw|]; [left|right].
  - exists raw. split; [done|]. cbn in Hex. destruct (ParseBool raw); [|done]. by injection Hex as ->.
  - split; [done|]. unfold read_config in Hr. case_bool_decide as Hp; [by injection Hr as <-|]. split; [done|].
    destruct (ReadFile path) as [raw|]; [|done]. exists raw. split; [done|]. destruct (yaml_Decode raw Default) as [c1 [[|?]|]]; simplify_eq; done.
Qed.
End load.

Lemma live_automation_is_explicit_witness :
  let env name := if bool_decide (name = "INFRA_OBSERVER_AUTOMATION_DEFAULT_DRY_RUN") then Some "false" else None in
  ∃ raw, env "INFRA_OBSERVER_AUTOMATION_DEFAULT_DRY_RUN" = Some raw ∧ ParseBool raw = Some false.
Proof.
  intros env.
  destruct (live_automation_is_explicit (RO:=stored_order) (λ _ _, "invalid syntax") (λ _, Err "no such file") (λ _ c, (c, None)) "" env
    (Default <| cf_Automation := (cf_Automation Default) <| au_DefaultDryRun := false |> |>)) as [H|(? & ? & _)]; [|reflexivity|exact H|done].
  vm_compute. reflexivity.
Defined.

(** ** What validation guarantees *)

Lemma problems_none l : problems l = [] ↔ Forall (λ x, x.1 = true) l.
Proof.
  unfold problems. induction l as [|[[] m] l IH]; [done|..].
  - rewrite filter_cons_False, Forall_cons by done. naive_solver.
  - rewrite filter_cons_True, Forall_cons by done. simpl. naive_solver.
Qed.
Lemma Validate_ok {RO : RangeOrder} c : is_ok (Validate c) = true ↔ Forall (λ x, x.1 = true) (checks c).
Proof.
  rewrite <-problems_none. unfold Validate. destruct (bool_decide_reflect (problems (checks c) = [])) as [E|E]; simpl; [done|]. by split.
Qed.

(** The bounds of a valid configuration that other components rely on. *)
Record bounded (c : Config) : Prop := {
  bd_snmp : let s := cl_SNMP (cf_Collectors c) in (0 < sm_Workers s ∧ 0 < sm_Timeout s ∧ 0 ≤ sm_Retries s ∧ 0 < sm_DefaultInterval s ∧ 0 < sm_MaxRepetitions s)%Z;
  bd_processing : let p := cf_Processing c in
    (0 < pr_Workers p ∧ 0 < pr_QueueSize p ∧ 0 < pr_MaxDeliver p ∧ 0 < pr_AckWait p ∧ 0 < pr_RetryDelay p ∧ 0 < pr_StaleAfter p ∧ 0 < pr_SweepInterval p)%Z;
  bd_scripting : let s := cf_Scripting c in
    (0 < sg_Workers s ∧ 0 < sg_QueueSize s ∧ 0 < sg_ExecutionTimeout s ≤ 10 * Second ∧ 0 < sg_QuarantineAfter s)%Z;
  bd_endpoints : map_Forall (λ _ ep, ep_URLRef ep ≠ "") (sg_Endpoints (cf_Scripting c));
  bd_automation : (0 < au_TickInterval (cf_Automation c) ∧ 0 < au_Workers (cf_Automation c))%Z;
  bd_api : (0 < ap_DefaultPageSize (cf_API c) ≤ ap_MaxPageSize (cf_API c))%Z }.

Lemma Validate_bounded {RO : RangeOrder} c : is_ok (Validate c) = true → bounded c.
Proof.
  intros Hv%Validate_ok. unfold checks in Hv. cbv zeta in Hv. rewrite !Forall_app in Hv. destruct Hv as (H1 & H2 & H3).
  rewrite !Forall_cons in H1. rewrite !Forall_cons in H3. cbn [fst] in H1, H3. rewrite andb_true_iff, !Z.ltb_lt, !Z.leb_le in H3. rewrite !Z.ltb_lt, !Z.leb_le in H1.
  split; cbv zeta; [lia..| |lia|lia].
  intros name ep Hep%elem_of_range_order. unfold endpoint_checks in H2. rewrite Forall_fmap in H2. eapply Forall_forall in H2; [|exact Hep].
  simpl in H2. by apply negb_true_iff, bool_decide_eq_false in H2.
Qed.
