(* ===== verification/App.v ===== *)
(** * Package [app] and the commands: the roles put together
    (src/internal/app/processor.go, automation.go, src/cmd/infra-observer)

    Which consumers a role runs, with which options and handlers, and what the commands check before they
    start. Connections, goroutines, logging and metrics are left out; a handler is a function of the message
    and of the state it works on. The decoder [DeviceKey] uses is a parameter. *)

From S2P Require Import Prelude GoLib GoFloat Domain Regexp Schema Normalize Inventory Store MemStore State Rules Pipeline Worker.
From S2P Require Import Profile Secrets Poller Scheduler ScriptPool Policy Engine Health Api Messaging Config.

(** ** Worker options (processor.go) *)

Definition worker_options (cfg : Config) (stream durable : string) (key : Message → string) : WorkerOptions :=
  let p := cf_Processing cfg in
  MkWorkerOptions stream durable (pr_Workers p) (pr_QueueSize p) (pr_MaxDeliver p) (pr_AckWait p) (pr_RetryDelay p) 0 (Some key) "" 0 0.

(** [decode] gives the [device_id] of a JSON object, or nothing when the data is not one. *)
Definition DeviceKey (decode : string → option string) (m : Message) : string :=
  match decode (mg_Data m) with
  | Some id => if bool_decide (id = "") then mg_Subject m else id
  | None => mg_Subject m
  end.

(** A consumer of a role: its name, its options and the subjects it reads. *)
Record consumer_spec := MkConsumerSpec { cn_name : string; cn_options : WorkerOptions; cn_filter : string }.
Definition consumer_of (cfg : Config) (key : Message → string) (suffix name stream filter_ : string) : consumer_spec :=
  MkConsumerSpec name (worker_options cfg stream (name +:+ suffix) key) filter_.
Definition processor_consumers (cfg : Config) (suffix : string) (key : Message → string) : list consumer_spec :=
  [consumer_of cfg key suffix "normalizer" StreamTelemetryRaw (SubjectRawPrefix +:+ ".>");
   consumer_of cfg key suffix "processor" StreamTelemetryNormalized SubjectNormalized;
   consumer_of cfg key suffix "inventory" StreamInventory SubjectInventoryObserved].
Definition automation_consumers (cfg : Config) (suffix : string) (key : Message → string) : list consumer_spec :=
  [consumer_of cfg key suffix "automation" StreamEvents SubjectEventAlert].

(** ** The handlers of the processor *)

Section processor.
Context {JO : Json Observation} {MO : MapOrder} {NE : NatsErrors} {W Future Consumer : Type} {Br : Broker W Future Consumer}.

(** The message stage A publishes for a normalized observation. *)
Definition normalized_msg (n : Normalized) : OutMsg :=
  MkOutMsg SubjectNormalized (o_ObservationID (nm_Observation n)) (nm_Payload n)
    (Some {[ HeaderSchema := ObservationV1; HeaderCorrelationID := o_CorrelationID (nm_Observation n) ]}).
Definition stage_a (p : Processor) (data : string) : ST W error unit :=
  match NormalizeMessage p data with
  | Err e => ST_fail e
  | Ok n => if nm_Dropped n then mret tt else Publish (normalized_msg n)
  end.
End processor.

(** The processor with the registry it shares with its enricher. *)
Definition with_registry (r : Registry) (p : Processor) : Processor :=
  MkProcessor (p_Validator p) (p_Normalizer p) (Registry_Reader r) (p_States p) (p_Rules p) (p_Ext p) (p_now p) (p_StaleAfter p) (p_SweepInterval p) (p_StartedAt p).

Section stage_b.
Context {SHA : Sha256} {JO : Json Observation} {JE : Json Event} {T Sto : Type} {TO : TxOps T} {SO : Store Sto T}.

Definition stage_b (p : Processor) (data : string) : ST (Sto * Registry) error unit := λ '(s, r),
  match DecodeObservation (p_Validator p) data with
  | Err e => (Err e, (s, r))
  | Ok obs =>
      match Process (with_registry r p) obs s with
      | (Err e, s) => (Err e, (s, r))
      | (Ok _, s) => (Ok tt, (s, Touch r (o_DeviceID obs) (o_ObservedAt obs)))
      end
  end.
End stage_b.

Section inventory.
Context {JF : Json InventoryFact}.

Definition fact_attributes (f : InventoryFact) : smap :=
  Some {[ "observed.sys_name" := if_SysName f; "observed.sys_descr" := if_SysDescr f;
          "observed.sys_object_id" := if_SysObjectID f; "observed.profile" := if_ProfileID f ]}.
(** The inventory consumer on the in-memory store. *)
Definition inventory_handler (data : string) : ST MemStore error unit :=
  f ← ST_lift (Decode data (l_MaxMessageBytes DefaultLimits));
  if bool_decide (if_DeviceID f = "") then ST_fail (Errorf CategoryValidation "inventory fact without device_id")
  else λ s, (Ok tt, UpdateDeviceAttributes (if_DeviceID f) (fact_attributes f) s).
End inventory.

(** ** What the commands check and hand over *)

(** cmd_collector.go: every device that names a profile names a known one. *)
Fixpoint check_profiles (profiles : Profiles) (devices : list Device) : res unit :=
  match devices with
  | [] => Ok tt
  | d :: devices =>
      let c := d_Collection d in
      if bool_decide (cs_Protocol c = "snmp") && negb (bool_decide (cs_Profile c = "")) && negb (bool_decide (cs_Profile c = "auto"))
         && negb (bool_decide (is_Some (Profiles_Get profiles (cs_Profile c))))
      then Err (EText ("device " +:+ d_ID d +:+ " references unknown SNMP profile " +:+ Quote (cs_Profile c)))
      else check_profiles profiles devices
  end.
Definition collector_scheduler (cfg : Config) : Scheduler :=
  MkScheduler (sm_Workers (cl_SNMP (cf_Collectors cfg))) (sm_DefaultInterval (cl_SNMP (cf_Collectors cfg))).

(** service.go, [New]: the options of the script pool. *)
Definition script_options (cfg : Config) : ScriptPool.Options :=
  let s := cf_Scripting cfg in ScriptPool.MkOptions (sg_Workers s) (sg_QueueSize s) (sg_ExecutionTimeout s) 0 0.

(** cmd_api.go: who may approve, when approvals are configured. *)
Definition api_auth {RO : RangeOrder} (cfg : Config) (resolver : EnvFile) : res (option (string → option string)) :=
  let ref := ap_ApproversRef (cf_API cfg) in
  if bool_decide (ref = "") then Ok None
  else
    match EnvFile_Resolve resolver ref with
    | Err e => Err (EWrapped ("api.approvers_ref: " +:+ error_text e) e)
    | Ok tokens =>
        if bool_decide (entries tokens = ∅) then Err (EText ("api.approvers_ref " +:+ Quote ref +:+ " holds no tokens"))
        else Ok (Some (Identify (entries tokens)))
    end.
