(* ===== verification/AppThms.v ===== *)
(** * Theorems about the roles: telemetry end to end, and the configuration in force

    The stages are composed through the broker and the store: whatever is redelivered between them, a raw
    message has the effect of one. *)

From S2P Require Import Prelude GoLib GoFloat Domain Regexp Schema Normalize Inventory Store MemStore MemStoreFacts State Rules Pipeline PipelineFacts PipelineThms Worker.
From S2P Require Import Profile Secrets Poller Scheduler ScriptPool Engine Api Messaging MessagingThms Config ConfigThms App.

(** ** Stage A *)

(** Script hooks that leave the identity of an observation alone. *)
Definition keeps_ids (p : Processor) : Prop :=
  match p_Ext p with
  | None => True
  | Some ext =>
      (∀ o o' keep, ex_Transform ext o = Ok (o', keep) → o_ObservationID o' = o_ObservationID o) ∧
      (∀ o dev o', ex_Enrich ext o dev = Ok o' → o_ObservationID o' = o_ObservationID o)
  end.

Section stage_a.
Context {JO : Json Observation} {MO : MapOrder}.

Lemma Normalize_id n o o' r : Normalize n o = Ok (o', r) → o_ObservationID o' = o_ObservationID o.
Proof.
  unfold Normalize. destruct (_ !! _) as [m|]; [|by intros [= <- _]]. destruct (convert _ _) as [v|]; [|done]. intros [= <- _].
  by destruct (mp_Labels m).
Qed.
Lemma transformed_id p o o' keep : keeps_ids p → transformed (p_Ext p) o = Ok (o', keep) → o_ObservationID o' = o_ObservationID o.
Proof.
  unfold keeps_ids, transformed. destruct (p_Ext p) as [ext|]; [|by intros _ [= <- _]]. intros [Ht _].
  destruct (ex_Transform ext o) as [[next k]|] eqn:Hx; [|done]. intros [= <- <-]. destruct k; [by eapply Ht|done].
Qed.
(** What stage A makes of a message carries the id of the observation the message holds. *)
Lemma NormalizeMessage_id p data n obs :
  keeps_ids p → json_Decode data = Ok obs → NormalizeMessage p data = Ok n → o_ObservationID (nm_Observation n) = o_ObservationID obs.
Proof.
  intros Hk Hj. unfold NormalizeMessage, DecodeObservation, Decode, mbind, result_bind. destruct (_ && _); [done|]. rewrite Hj.
  destruct (json_trailing data); [done|]. destruct (Schema.Validate (p_Validator p) obs); [done|].
  set (obs' := if IsZero (o_ReceivedAt obs) then _ else _). assert (o_ObservationID obs' = o_ObservationID obs) as <- by (unfold obs'; by destruct (IsZero _)).
  destruct (Normalize _ obs') as [[norm r]|] eqn:Hn; [|done]. apply Normalize_id in Hn. destruct (transformed _ norm) as [[norm' keep]|] eqn:Ht; [|done].
  apply transformed_id in Ht; [|done]. destruct keep; simpl; [|intros [= <-]; simpl; congruence]. destruct (Schema.Validate (p_Validator p) norm'); [done|].
  destruct (Encode norm'); [|done]. intros [= <-]. simpl. congruence.
Qed.

Context {NE : NatsErrors} {W Future Consumer : Type} {Br : Broker W Future Consumer} {JS : JetStream Br}.

(** A message delivered to stage A any number of times, each time with the processor as it then is. *)
Definition run_stage_a (data : string) (ps : list Processor) (w : W) : W := foldl (λ w p, (stage_a p data w).2) w ps.

(** The effect of one delivery on what the server stored and remembers. *)
Lemma stage_a_effect p data obs w r w' :
  keeps_ids p → json_Decode data = Ok obs → o_ObservationID obs ≠ "" → stage_a p data w = (r, w') →
  (deliveries w' = deliveries w ∧ window w' = window w ∧
     (∀ n, r = Ok tt → NormalizeMessage p data = Ok n → nm_Dropped n = false → o_ObservationID obs ∈ window w)) ∨
  (∃ n, NormalizeMessage p data = Ok n ∧ nm_Dropped n = false ∧ om_MsgID (normalized_msg n) = o_ObservationID obs ∧
     deliveries w' = deliveries w ++ [normalized_msg n] ∧ o_ObservationID obs ∈ window w' ∧ o_ObservationID obs ∉ window w).
Proof.
  intros Hk Hj Hne. unfold stage_a. destruct (NormalizeMessage p data) as [n|e] eqn:Hn; [|by intros [= <- <-]; left].
  destruct (nm_Dropped n) eqn:Hd; [intros [= <- <-]; left; split_and!; [done|done|intros ? _ [= <-]; congruence]|].
  intros Hp. pose proof (NormalizeMessage_id p data n obs Hk Hj Hn) as Hid.
  pose proof (Publish_effect _ _ _ _ Hp) as (_ & Heff & _ & _). simpl in Heff. rewrite Hid in Heff. destruct (Heff Hne) as [(Hdel & Hw & Hin)|(Hdel & Hw & Hnin)].
  - left. split_and!; [done|done|]. intros n' -> _ _. by apply Hin.
  - right. exists n. split_and!; done.
Qed.

End stage_a.

(** ** Stage B *)

Lemma run_undo_failNext u s : ms_failNext (run_undo u s) = ms_failNext s.
Proof. destruct u; simpl; by repeat case_match. Qed.
Lemma rollback_failNext t : ms_failNext (rollback t) = ms_failNext (tx_s t).
Proof.
  unfold rollback. generalize (tx_s t). induction (reverse (tx_undo t)) as [|u l IH]; intros s; [done|]. simpl. by rewrite IH, run_undo_failNext.
Qed.
Lemma mem_Do_failNext {A} (fn : ST memTx error A) s a s' :
  (∀ s0, Keeps (undoable s0) fn) → int64 (ms_nextOutbox s) → mem_Do None fn s = (Ok a, s') → ms_failNext s' = None.
Proof.
  intros Hfn Hi. unfold mem_Do. destruct (ms_failNext s) eqn:Hf; [done|]. destruct (Hfn s (MkMemTx s [])) as [_ Hr]; [done|].
  destruct (fn _) as [[b|e] t]; [|done]. intros [= _ <-]. simpl in Hr. by rewrite <-rollback_failNext, Hr.
Qed.

Section stage_b.
Context {SHA : Sha256} {JO : Json Observation} {JE : Json Event} {MO : MapOrder}.

Lemma enriched_id p r o enriched dev o' :
  keeps_ids p → Enrich (Registry_Reader r) o = Ok (enriched, dev) → extended (p_Ext p) enriched dev = Ok o' → o_ObservationID o' = o_ObservationID o.
Proof.
  intros Hk He Hx. assert (o_ObservationID enriched = o_ObservationID o) as <-.
  { unfold Enrich in He. destruct (rd_Get _ _) as [d|]; [|done]. destruct (negb _); [done|]. by injection He as <- <-. }
  unfold keeps_ids, extended in *. destruct (p_Ext p) as [ext|]; [|by injection Hx as <-]. destruct Hk as [_ Hk]. by eapply Hk.
Qed.

(** Processing an observation whose id is stored changes nothing. *)
Lemma Process_stored p r o (s : MemStore) :
  keeps_ids p → ms_failNext s = None → is_Some (ms_observation s !! o_ObservationID o) → (Process (with_registry r p) o s).2 = s.
Proof.
  intros Hk Hf [x Hx]. unfold Process. simpl. destruct (Enrich _ o) as [[enriched dev]|e] eqn:He; [|by destruct (error_is _ e)].
  destruct (extended _ enriched dev) as [o'|e] eqn:Ho; [|done]. rewrite <-(enriched_id _ _ _ _ _ _ Hk He Ho) in Hx.
  simpl. unfold mem_Do, process_body, mbind, ST_bind. rewrite Hf. simpl. unfold mem_InsertObservation. simpl. by rewrite Hx.
Qed.
(** Processing that succeeds and changes something stores the observation. *)
Lemma Process_stores p r o (s s' : MemStore) out :
  keeps_ids p → int64 (ms_nextOutbox s) → Process (with_registry r p) o s = (Ok out, s') →
  s' = s ∨ (is_Some (ms_observation s' !! o_ObservationID o) ∧ ms_failNext s' = None).
Proof.
  intros Hk Hi [[-> _]|(enriched & dev & He & o' & Ho & Hdo)]%Process_cases; [by left|right].
  split; [|refine (mem_Do_failNext _ s out s' _ Hi Hdo)].
  destruct (mem_Do_success _ s out s' Hdo) as (t & t' & _ & Hrun & Hv').
  pose proof (wp_elim _ _ _ _ _ (process_body_stored _ _ o' t) Hrun) as Hst. cbv beta in Hst. rewrite <-Hv' in Hst.
  by rewrite (enriched_id _ _ _ _ _ _ Hk He Ho) in Hst.
Qed.

(** A delivery to stage B: the processor as it then is, and the payload. *)
Definition run_stage_b (ds : list (Processor * string)) (sr : MemStore * Registry) : MemStore * Registry :=
  foldl (λ sr d, (stage_b d.1 d.2 sr).2) sr ds.

(** A delivery of a message that stage A published for the raw message [data]. *)
Definition delivers (data : string) (d : Processor * string) : Prop :=
  keeps_ids d.1 ∧ config_ok d.1 ∧ ∃ pa n, keeps_ids pa ∧ NormalizeMessage pa data = Ok n ∧ nm_Dropped n = false ∧ d.2 = nm_Payload n.

Context (json_back : ∀ (o : Observation) b, json_Marshal o = Ok b → json_Decode b = Ok o).

(** What stage B decodes carries the id of the raw observation. *)
Lemma delivered_id data (obs : Observation) d o :
  json_Decode data = Ok obs → delivers data d → DecodeObservation (p_Validator d.1) d.2 = Ok o → o_ObservationID o = o_ObservationID obs.
Proof using Type*.
  intros Hj (_ & _ & pa & n & Hk & Hn & Hd & Hpay). rewrite Hpay. rewrite <-(NormalizeMessage_id pa data n obs Hk Hj Hn).
  destruct (NormalizeMessage_valid pa data n Hn Hd) as [_ Henc]. unfold Encode in Henc. destruct (json_Marshal _) as [b|] eqn:Hm; [|done].
  injection Henc as ->. apply json_back in Hm. unfold DecodeObservation, Decode, mbind, result_bind. destruct (_ && _); [done|]. rewrite Hm.
  destruct (json_trailing _); [done|]. destruct (Schema.Validate (p_Validator d.1) _); [done|]. by intros [= <-].
Qed.

Lemma stage_b_cases data (obs : Observation) d (s : MemStore) r :
  json_Decode data = Ok obs → delivers data d → ms_failNext s = None → int64 (ms_nextOutbox s) →
  (stage_b d.1 d.2 (s, r)).2.1 = s ∨
  (∃ s' r', stage_b d.1 d.2 (s, r) = (Ok tt, (s', r')) ∧ is_Some (ms_observation s' !! o_ObservationID obs) ∧ ms_failNext s' = None).
Proof using Type*.
  intros Hj Hd Hf Hi. pose proof Hd as (Hk & Hcfg & _). unfold stage_b. destruct (DecodeObservation _ _) as [o|e] eqn:Ho; [|by left].
  pose proof (delivered_id _ _ _ _ Hj Hd Ho) as Hid. destruct (Process _ o s) as [[out|e] s'] eqn:Hp.
  - destruct (Process_stores _ _ _ _ _ _ Hk Hi Hp) as [->|[Hst Hf']]; [by left|right]. rewrite Hid in Hst. by eexists _, _.
  - left. simpl. apply Process_error in Hp; [|done|done]. destruct Hp as [->| ->]; [done|]. destruct s; simpl in *; by subst.
Qed.
Lemma stage_b_stored data (obs : Observation) d (s : MemStore) r :
  json_Decode data = Ok obs → delivers data d → ms_failNext s = None → is_Some (ms_observation s !! o_ObservationID obs) →
  (stage_b d.1 d.2 (s, r)).2.1 = s.
Proof using Type*.
  intros Hj Hd Hf Hst. pose proof Hd as (Hk & _ & _). unfold stage_b. destruct (DecodeObservation _ _) as [o|e] eqn:Ho; [|done].
  rewrite <-(delivered_id _ _ _ _ Hj Hd Ho) in Hst. pose proof (Process_stored _ r o s Hk Hf Hst) as Hp. by destruct (Process _ o s) as [[out|e] s'].
Qed.
Lemma run_stored data (obs : Observation) ds (s : MemStore) r :
  json_Decode data = Ok obs → Forall (delivers data) ds → ms_failNext s = None → is_Some (ms_observation s !! o_ObservationID obs) →
  (run_stage_b ds (s, r)).1 = s.
Proof using Type*.
  intros Hj Hds Hf Hst. revert r. induction Hds as [|d ds Hd _ IH]; intros r; [done|]. cbn [run_stage_b foldl].
  pose proof (stage_b_stored _ _ d s r Hj Hd Hf Hst) as Hs. destruct (stage_b d.1 d.2 (s, r)) as [x [s' r']]. simpl in *. subst s'. apply IH.
Qed.

End stage_b.

(** ** The configuration in force *)

(** The consumers read streams that are declared, under subjects those streams hold, and no two share a durable
    name. *)
Lemma consumers_are_wired cfg suffix key :
  let cs := processor_consumers cfg suffix key ++ automation_consumers cfg suffix key in
  NoDup ((λ c, wo_Durable (cn_options c)) <$> cs) ∧
  Forall (λ c, Exists (λ st, sc_Name st = wo_Stream (cn_options c) ∧ cn_filter c ∈ sc_Subjects st) StreamSpecs) cs.
Proof.
  intros cs. split.
  - cbn. repeat (apply NoDup_cons; split; [|]); [..|apply NoDup_nil_2]; rewrite ?elem_of_cons, elem_of_nil; intros Hin; split_ors; try done.
    all: match goal with E : ?a +:+ suffix = ?b +:+ suffix |- _ => apply (f_equal String.length) in E; rewrite !length_append in E; simpl in E; lia end.
  - repeat constructor; unfold StreamSpecs; rewrite !Exists_cons; simpl; set_solver.
Qed.

