(* ===== verification/AppExample.v ===== *)
(** * Examples of the theorems about the roles: the example server, store and processor of the other files put
    together *)

From S2P Require Import Prelude GoLib GoFloat Domain Regexp Schema Normalize Inventory Store MemStore StateFacts Pipeline PipelineFacts PipelineThms.
From S2P Require Import Worker Scheduler Messaging MessagingThms MessagingExample Config ConfigThms App AppThms.

Abbreviation the_processor := PipelineThms.ex_processor.
Lemma ex_keeps_ids : keeps_ids the_processor.
Proof. exact I. Qed.


Definition ex_delivery : Processor * string := (the_processor, "o").
(** The second disjunct is the case: the observation is stored, and once. *)
Example ex_counted :
  ms_obsOrder (run_stage_b (SHA:=sha_id) (JO:=ex_json_obs) (JE:=ex_json_event) [ex_delivery; ex_delivery] (NewMemStore, NewRegistry [ex_device])).1
  = [o_ObservationID (ex_obs 1 true)].
Proof. vm_compute. reflexivity. Qed.

