(* ===== verification/ScriptTest.v ===== *)
(** * Package [scripttest]: test cases for scripts (src/internal/scripting/scripttest/scripttest.go)

    A case runs a script twice through the extension points and compares what came out with its expectation
    and the requests a mock server saw. The extension points are an interface on the state that holds the
    interpreters and the mock, which the scripting service implements. The JSON library is a parameter; decoded
    JSON values are trees whose objects list their members. Scratch directories, the HTTP server's transport and
    the set-up of the service in [Run] are left out. *)

From S2P Require Import Prelude GoLib GoFloat Domain Regexp Schema Inventory GoParse ScriptModule ScriptRegistry ScriptPool ScriptApi Policy Scripting SimWorld.


#[local] Set Warnings "-register-all".
(** ** Decoded JSON *)

Inductive any :=
| JNull | JBool (b : bool) | JNumber (x : float64) | JString (s : string)
| JArray (l : list any)
| JObject (members : list (string * any)).

Fixpoint member (k : string) (m : list (string * any)) : option any :=
  match m with [] => None | (k', v) :: m => if bool_decide (k = k') then Some v else member k m end.

Definition f_abs (x : float64) : float64 := SFabs x.
Definition f_le (x y : float64) : bool := SFleb x y.
Definition close (x y : float64) : bool :=
  f_le (f_abs (f_sub x y)) (f_mul (f_div f_one (f_of_int 1000000000)) (f_max f_one (f_abs x))).

Fixpoint equalNum (a b : any) : bool :=
  match a with
  | JNumber x => match b with JNumber y => close x y | _ => false end
  | JObject x =>
      match b with
      | JObject y =>
          bool_decide (length x = length y) &&
          (fix go (x : list (string * any)) : bool :=
             match x with [] => true | (k, v) :: x => match member k y with Some w => equalNum v w | None => false end && go x end) x
      | _ => false
      end
  | JArray x =>
      match b with
      | JArray y =>
          (fix go (x y : list any) : bool :=
             match x, y with [], [] => true | v :: x, w :: y => equalNum v w && go x y | _, _ => false end) x y
      | _ => false
      end
  | JNull => match b with JNull => true | _ => false end
  | JBool x => match b with JBool y => bool_decide (x = y) | _ => false end
  | JString x => match b with JString y => bool_decide (x = y) | _ => false end
  end.

Fixpoint subset_of (want got : any) : bool :=
  match want with
  | JObject w =>
      match got with
      | JObject g =>
          (fix go (w : list (string * any)) : bool :=
             match w with [] => true | (k, v) :: w => match member k g with Some gv => subset_of v gv | None => false end && go w end) w
      | _ => false
      end
  | JArray w =>
      match got with
      | JArray g =>
          (fix go (w g : list any) : bool :=
             match w, g with [], [] => true | x :: w, y :: g => subset_of x y && go w g | _, _ => false end) w g
      | _ => false
      end
  | _ => equalNum want got
  end.

(** ** Fixtures *)

Record mock_response := MkMockResponse { mr_Method : string; mr_Path : string; mr_Status : Z; mr_Body : string }.
Record ExpectedRequest := MkExpectedRequest { xr_Method : string; xr_Path : string; xr_BodySubset : string }.

Record Case := MkCase {
  ca_Name : string; ca_Device : string; ca_Config : ScriptApi.Config; ca_Input : string;
  ca_Expect : string; ca_HasExpect : bool; ca_ExpectSubset : string; ca_ExpectError : string; ca_ExpectTimeout : bool;
  ca_HTTP : option (list mock_response); ca_ExpectRequests : list ExpectedRequest; ca_HasExpectRequests : bool }.

(** The members [UnmarshalJSON] reads with their types. *)
Record raw_case := MkRawCase {
  rc_Name : string; rc_Device : string; rc_Config : ScriptApi.Config; rc_Input : string; rc_ExpectSubset : string; rc_ExpectError : string;
  rc_ExpectTimeout : bool; rc_HTTP : option (list mock_response); rc_ExpectRequests : list ExpectedRequest }.
Definition Case_UnmarshalJSON (unmarshal : string → result string raw_case) (presence : string → gmap string string) (b : string) : result string Case :=
  match unmarshal b with
  | Err e => Err e
  | Ok raw =>
      let p := presence b in
      Ok (MkCase (rc_Name raw) (rc_Device raw) (rc_Config raw) (rc_Input raw) (default "" (p !! "expect")) (bool_decide (is_Some (p !! "expect")))
            (rc_ExpectSubset raw) (rc_ExpectError raw) (rc_ExpectTimeout raw) (rc_HTTP raw) (rc_ExpectRequests raw)
            (bool_decide (is_Some (p !! "expect_requests"))))
  end.

Record Fixture := MkFixture { fx_Config : ScriptApi.Config; fx_AllowedActions : list string; fx_Cases : list Case }.
Record Result := MkResult { re_Name : string; re_Pass : bool; re_Message : string; re_Output : string }.
#[export] Instance eta_Result : Eta Result := λ r, MkResult (re_Name r) (re_Pass r) (re_Message r) (re_Output r).

(** ** The mock server *)

Record recordedRequest := MkRecordedRequest { qr_Method : string; qr_Path : string; qr_Body : string }.
Record httpMock := MkHTTPMock { hm_responses : list mock_response; hm_requests : list recordedRequest }.

(** [strings.EqualFold] on ASCII. *)
Definition EqualFold (a b : string) : bool := bool_decide (ToLower a = ToLower b).
(** [r] holds the body as it was read, at most 1 MiB of it. *)
Definition mock_serve (r : recordedRequest) (m : httpMock) : (Z * string) * httpMock :=
  let m := MkHTTPMock (hm_responses m) (hm_requests m ++ [r]) in
  match List.find (λ x, EqualFold (mr_Method x) (qr_Method r) && bool_decide (mr_Path x = qr_Path r)) (hm_responses m) with
  | Some x => (mr_Status x, mr_Body x, m)
  | None => (404%Z, "no mock for " +:+ qr_Method r +:+ " " +:+ qr_Path r, m)
  end.
Definition mock_set (mock : option (list mock_response)) (m : httpMock) : httpMock := MkHTTPMock (default [] mock) [].
Definition mock_reset (m : httpMock) : httpMock := MkHTTPMock (hm_responses m) [].

(** ** Running a case *)

(** [domain.Device{}] *)
Definition Device0 : Device := MkDevice "" "" "" "" "" "" "" "" [] [] "" false 0 (MkCollectionSpec "" "" 0) None.

(** The extension points on a state that also holds the mock server. *)
Class ExtOps (G S : Type) := {
  ext_RunTransform : Script G → Observation → ST S error (Observation * bool);
  ext_RunEnrich : Script G → Observation → Device → ST S error Observation;
  ext_RunPropose : Script G → string → list string → Event → Device → ST S error (option Proposal);
  ext_RunHandle : Script G → Event → Device → ST S error (IntegrationResult * list Event);
  mock_of : S → httpMock;
  with_mock : (httpMock → httpMock) → S → S;
}.

Section case.
Context {G S : Type} {EO : ExtOps G S} {JO : Json Observation} {JE : Json Event} {JP : Json Proposal} {JR : Json IntegrationResult}.
(** [json.Unmarshal] into an [any], and [json.Compact]. *)
Context (Unmarshal : string → option any) (Compact : string → option string).

Definition jsonEqual (a b : string) : bool :=
  match Unmarshal a, Unmarshal b with Some x, Some y => equalNum x y | _, _ => false end.
Definition compact (b : string) : string := default b (Compact b).

(** The first request that is not as expected, or the empty string. *)
Fixpoint check_each (i : Z) (want : list ExpectedRequest) (got : list recordedRequest) : string :=
  match want, got with
  | w :: want, g :: got =>
      if negb (EqualFold (xr_Method w) (qr_Method g)) || negb (bool_decide (xr_Path w = qr_Path g)) then
        "request " +:+ FormatInt i +:+ ": want " +:+ xr_Method w +:+ " " +:+ xr_Path w +:+ ", got " +:+ qr_Method g +:+ " " +:+ qr_Path g
      else if negb (bool_decide (xr_BodySubset w = ""))
              && negb (match Unmarshal (qr_Body g) with Some b => subset_of (default JNull (Unmarshal (xr_BodySubset w))) b | None => false end) then
        "request " +:+ FormatInt i +:+ " body does not contain " +:+ compact (xr_BodySubset w) +:+ " (got " +:+ qr_Body g +:+ ")"
      else check_each (i + 1) want got
  | _, _ => ""
  end.
Definition checkRequests (want : list ExpectedRequest) (got : list recordedRequest) : string :=
  if negb (bool_decide (length want = length got)) then
    "expected " +:+ FormatInt (Z.of_nat (length want)) +:+ " HTTP request(s), the script made " +:+ FormatInt (Z.of_nat (length got))
  else check_each 1 want got.

Definition isTimeout (e : error) : bool := bool_decide (script_kind e = Some KindTimeout).
Definition judgeError (res : Result) (c : Case) (e : error) : Result :=
  if ca_ExpectTimeout c then
    if isTimeout e then res <| re_Pass := true |> else res <| re_Message := "expected an execution timeout, got: " +:+ error_text e |>
  else if negb (bool_decide (ca_ExpectError c = "")) then
    if Contains (error_text e) (ca_ExpectError c) then res <| re_Pass := true |>
    else res <| re_Message := "error " +:+ Quote (error_text e) +:+ " does not contain " +:+ Quote (ca_ExpectError c) |>
  else res <| re_Message := "unexpected error: " +:+ error_text e |>.

(** A run of the script as JSON. *)
Definition marshalled {A} {JA : Json A} (v : A) : ST S error string :=
  match json_Marshal v with Ok b => mret b | Err e => ST_fail (EText e) end.
Definition exec_transform (sc : Script G) (inp : Observation) : ST S error string :=
  '(next, keep) ← ext_RunTransform sc inp; if (keep : bool) then marshalled next else mret "null".
Definition exec_enrich (sc : Script G) (inp : Observation) (dev : Device) : ST S error string := next ← ext_RunEnrich sc inp dev; marshalled next.
Definition exec_propose (sc : Script G) (allowed : list string) (ev : Event) (dev : Device) : ST S error string :=
  prop ← ext_RunPropose sc "test-policy" allowed ev dev;
  match prop with
  | None => mret "null"
  | Some prop =>
      verr ← ST_lift (Policy.Validate prop dev);
      match verr with
      | Some e => ST_fail (EText ("proposal would be rejected by the automation engine: " +:+ error_text e))
      | None =>
          if negb (bool_decide (allowed = [])) && negb (bool_decide (pr_Action prop ∈ allowed)) then
            ST_fail (EText ("proposed action " +:+ Quote (pr_Action prop) +:+ " is outside allowed_actions [" +:+ Join allowed " " +:+ "]"))
          else marshalled prop
      end
  end.
Definition exec_handle (sc : Script G) (ev : Event) (dev : Device) : ST S error string :=
  '(r, _) ← ext_RunHandle sc ev dev; marshalled r.

(** What a case runs, and its input as JSON; or why it cannot run. *)
Definition exec_of (sc : Script G) (fx : Fixture) (c : Case) (dev : Device) : result string (ST S error string * string) :=
  let marshal {A} {JA : Json A} (v : A) := match json_Marshal v with Ok b => b | Err _ => "" end in
  if bool_decide (sc_Kind sc = KindTransform) || bool_decide (sc_Kind sc = KindEnricher) then
    match json_Decode (T:=Observation) (ca_Input c) with
    | Err e => Err ("input is not an observation: " +:+ e)
    | Ok inp => Ok (if bool_decide (sc_Kind sc = KindTransform) then exec_transform sc inp else exec_enrich sc inp dev, marshal inp)
    end
  else if bool_decide (sc_Kind sc = KindAutomation) || bool_decide (sc_Kind sc = KindIntegration) then
    match json_Decode (T:=Event) (ca_Input c) with
    | Err e => Err ("input is not an event: " +:+ e)
    | Ok ev => Ok (if bool_decide (sc_Kind sc = KindAutomation) then exec_propose sc (fx_AllowedActions fx) ev dev else exec_handle sc ev dev, marshal ev)
    end
  else Err ("unsupported script kind " +:+ sc_Kind sc).

(** The message for an output that is not as expected, or the empty string. *)
Definition check_output (c : Case) (input first : string) : string :=
  let nl := str1 (chr 10) in
  if ca_HasExpect c && bool_decide (TrimSpace (ca_Expect c) = Quote "unchanged") then
    if jsonEqual first input then "" else "expected the input to be returned unchanged"
  else if ca_HasExpect c then
    if jsonEqual first (ca_Expect c) then ""
    else "output differs from expectation" +:+ nl +:+ "      want: " +:+ compact (ca_Expect c) +:+ nl +:+ "       got: " +:+ first
  else if negb (bool_decide (ca_ExpectSubset c = "")) then
    if subset_of (default JNull (Unmarshal (ca_ExpectSubset c))) (default JNull (Unmarshal first)) then ""
    else "output does not contain the expected fields" +:+ nl +:+ "      want ⊆: " +:+ compact (ca_ExpectSubset c) +:+ nl +:+ "         got: " +:+ first
  else "".

Definition judge (res : Result) (c : Case) (exec : ST S error string) (input : string) (s : S) : Result * S :=
  match exec (with_mock mock_reset s) with
  | (Err e, s) => (judgeError res c e, s)
  | (Ok first, s) =>
      let requests := hm_requests (mock_of s) in
      if negb (bool_decide (ca_ExpectError c = "")) || ca_ExpectTimeout c then
        (res <| re_Message := "expected the script to fail, but it returned a valid result" |> <| re_Output := first |>, s)
      else
        let '(second, s) := exec (with_mock mock_reset s) in
        if negb (match second with Ok second => jsonEqual first second | Err _ => false end) then
          (res <| re_Message := "output is not deterministic: two runs on the same input differ" |> <| re_Output := first |>, s)
        else
          let res := res <| re_Output := first |> in
          let msg := check_output c input first in
          if negb (bool_decide (msg = "")) then (res <| re_Message := msg |>, s)
          else
            let msg := if ca_HasExpectRequests c then checkRequests (ca_ExpectRequests c) requests else "" in
            if negb (bool_decide (msg = "")) then (res <| re_Message := msg |>, s) else (res <| re_Pass := true |>, s)
  end.

Definition runCase (sc : Script G) (fx : Fixture) (c : Case) (inventory : option Reader) (s : S) : Result * S :=
  let res := MkResult (ca_Name c) false "" "" in
  let sc := sc <| sc_Config := Some (ca_Config c ∪ fx_Config fx) |> in
  let s := with_mock (mock_set (ca_HTTP c)) s in
  let run dev :=
    match exec_of sc fx c dev with Err msg => (res <| re_Message := msg |>, s) | Ok (exec, input) => judge res c exec input s end in
  if bool_decide (ca_Device c = "") then run Device0
  else
    match inventory with
    | None => (res <| re_Message := "case names a device but no inventory was provided" |>, s)
    | Some inv =>
        match rd_Get inv (ca_Device c) with
        | None => (res <| re_Message := "unknown device " +:+ Quote (ca_Device c) |>, s)
        | Some dev => run dev
        end
    end.

(** The loop of [Run] over the cases. *)
Fixpoint run_cases (sc : Script G) (fx : Fixture) (cases : list Case) (inventory : option Reader) (s : S) : list Result * S :=
  match cases with
  | [] => ([], s)
  | c :: cases => let '(r, s) := runCase sc fx c inventory s in let '(l, s) := run_cases sc fx cases inventory s in (r :: l, s)
  end.
End case.

(** The endpoints a fixture grants, each routed to the mock server. *)
Definition granted {RO : RangeOrder} (fx : Fixture) : gmap string Endpoint :=
  foldl (λ m name, if bool_decide (name = "") then m else <[name := MkEndpoint ("endpoints/" +:+ name) Second]> m) ∅
    (AllowedEndpoints (fx_Config fx) ++ (fx_Cases fx ≫= λ c, AllowedEndpoints (ca_Config c))).
