(* ===== verification/ScriptTestThms.v ===== *)
(** * Theorems about script test cases (src/internal/scripting/scripttest/scripttest.go) *)

From S2P Require Import Prelude GoLib GoFloat Domain Regexp Schema Inventory GoParse ScriptModule ScriptRegistry ScriptPool ScriptApi Policy Scripting SimWorld ScriptTest.

(** The scripting service implements the interface, for any place in it where the mock server's state is. *)
Definition service_ext {G P S} `{Sha256} {RO : RangeOrder} `{ScriptRunner G P} {J : Type} `{EqDecision J} (asMap : Observation → gmap string J)
  `{Json Observation, Json Proposal, Json IntegrationResult} (validator : Validator) (now : Time)
  (get : Service G P S → httpMock) (put : (httpMock → httpMock) → Service G P S → Service G P S) : ExtOps G (Service G P S) :=
  {| ext_RunTransform sc o := RunTransform asMap validator now sc o; ext_RunEnrich sc o dev := RunEnrich asMap validator now sc o dev;
     ext_RunPropose sc policy allowed ev dev := RunPropose now sc policy allowed ev dev; ext_RunHandle sc ev dev := RunHandle now sc ev dev;
     mock_of := get; with_mock := put |}.

(** ** Comparing values *)

Fixpoint any_ind' (P : any → Prop) (Hleaf : ∀ a, match a with JArray _ | JObject _ => True | _ => P a end)
  (Harr : ∀ l, Forall P l → P (JArray l)) (Hobj : ∀ m, Forall (λ kv, P kv.2) m → P (JObject m)) (a : any) : P a :=
  match a with
  | JArray l => Harr l ((fix go (l : list any) : Forall P l :=
      match l with [] => Forall_nil_2 P | x :: l => Forall_cons_2 P x l (any_ind' P Hleaf Harr Hobj x) (go l) end) l)
  | JObject m => Hobj m ((fix go (m : list (string * any)) : Forall (λ kv, P kv.2) m :=
      match m with [] => Forall_nil_2 _ | (k, v) :: m => Forall_cons_2 _ (k, v) m (any_ind' P Hleaf Harr Hobj v) (go m) end) m)
  | JNull => Hleaf JNull | JBool b => Hleaf (JBool b) | JNumber x => Hleaf (JNumber x) | JString s => Hleaf (JString s)
  end.

(** An exact expectation is at least as strong as the same expectation as a subset. *)
Lemma equalNum_subset a b : equalNum a b = true → subset_of a b = true.
Proof.
  revert b. refine (any_ind' (λ a, ∀ b, equalNum a b = true → subset_of a b = true) _ _ _ a); [by intros []|intros l IH b|intros m IH b].
  - destruct b as [| | | |l'|]; try done. simpl. revert l'. induction IH as [|x l Hx _ IH]; intros [|y l']; try done.
    rewrite !andb_true_iff. intros [? ?]. split; [by apply Hx|by apply IH].
  - destruct b as [| | | | |m']; try done. simpl. rewrite andb_true_iff. intros [_ Hm]. revert Hm. induction IH as [|[k v] m Hv _ IH]; [done|].
    rewrite !andb_true_iff. simpl in Hv. destruct (member k m') as [w|]; [|by intros [? _]]. intros [? ?]. split; [by apply Hv|by apply IH].
Qed.

(** ** Verdicts *)

Section verdicts.
Context {G S : Type} {EO : ExtOps G S}.
Context (Unmarshal : string → option any) (Compact : string → option string).

(** A request that is as expected. *)
Definition as_expected (w : ExpectedRequest) (g : recordedRequest) : Prop :=
  EqualFold (xr_Method w) (qr_Method g) = true ∧ xr_Path w = qr_Path g ∧
  (xr_BodySubset w ≠ "" → ∃ body, Unmarshal (qr_Body g) = Some body ∧ subset_of (default JNull (Unmarshal (xr_BodySubset w))) body = true).

Lemma check_each_spec i want got :
  length want = length got → (check_each Unmarshal Compact i want got = "" ↔ Forall2 as_expected want got).
Proof.
  revert i got. induction want as [|w want IH]; intros i [|g got]; try done. intros [= Hlen]. rewrite Forall2_cons. cbn [check_each]. unfold as_expected at 1.
  destruct (EqualFold (xr_Method w) (qr_Method g)); [|simpl; split; [done|by intros [[? _] _]]]. cbn [negb orb].
  destruct (bool_decide_reflect (xr_Path w = qr_Path g)) as [Hp|Hp]; [|simpl; split; [done|by intros [(_ & ? & _) _]]]. cbn [negb].
  destruct (bool_decide_reflect (xr_BodySubset w = "")) as [Hb|Hb]; cbn [negb andb].
  { rewrite IH by done. split; [intros ?; split_and!; done|by intros [_ ?]]. }
  destruct (Unmarshal (qr_Body g)) as [body|]; [|simpl; split; [done|intros [(_ & _ & Hx) _]; by destruct (Hx Hb) as (? & ? & _)]].
  destruct (subset_of _ body) eqn:Hs; cbn [negb].
  - rewrite IH by done. split; [intros ?; split_and!; [done|done|by exists body|done]|by intros [_ ?]].
  - simpl. split; [done|]. intros [(_ & _ & Hx) _]. destruct (Hx Hb) as (? & [= <-] & ?). congruence.
Qed.
Lemma checkRequests_spec want got : checkRequests Unmarshal Compact want got = "" ↔ Forall2 as_expected want got.
Proof.
  unfold checkRequests. destruct (bool_decide_reflect (length want = length got)) as [Hl|Hl]; [by apply check_each_spec|].
  split; [done|]. intros H%Forall2_length. done.
Qed.

(** The failure a case asks for. *)
Definition expected_failure (c : Case) (e : error) : Prop :=
  if ca_ExpectTimeout c then isTimeout e = true else ca_ExpectError c ≠ "" ∧ Contains (error_text e) (ca_ExpectError c) = true.
(** The output a case asks for. *)
Definition expected_output (c : Case) (input first : string) : Prop :=
  if ca_HasExpect c then jsonEqual Unmarshal first (if bool_decide (TrimSpace (ca_Expect c) = Quote "unchanged") then input else ca_Expect c) = true
  else ca_ExpectSubset c ≠ "" → subset_of (default JNull (Unmarshal (ca_ExpectSubset c))) (default JNull (Unmarshal first)) = true.

Lemma check_output_spec c input first : check_output Unmarshal Compact c input first = "" ↔ expected_output c input first.
Proof.
  unfold check_output, expected_output. destruct (ca_HasExpect c); simpl.
  - destruct (bool_decide (TrimSpace _ = _)); [by destruct (jsonEqual _ first input)|]. by destruct (jsonEqual _ first (ca_Expect c)).
  - destruct (bool_decide_reflect (ca_ExpectSubset c = "")) as [->|Hs]; simpl; [naive_solver|]. destruct (subset_of _ _); naive_solver.
Qed.

Lemma judgeError_spec res c e : re_Pass res = false → (re_Pass (judgeError res c e) = true ↔ expected_failure c e).
Proof.
  intros Hres. unfold judgeError, expected_failure. destruct (ca_ExpectTimeout c); [destruct (isTimeout e); simpl; [done|]; by rewrite Hres|].
  destruct (bool_decide_reflect (ca_ExpectError c = "")) as [He|He]; simpl; [rewrite Hres; split; [done|by intros [? _]]|].
  destruct (Contains _ _); simpl; [done|]. rewrite Hres. split; [done|by intros [_ ?]].
Qed.

(** The verdict is negative and so is the specification. *)
Ltac failing :=
  simpl; split; [congruence|];
  intros [(? & ? & ? & ?)|(? & ? & ? & ? & ? & ? & ? & ? & ? & Hout & ?)]; [congruence|simplify_eq]; try congruence; match goal with H : _ ↔ _ |- _ => by apply H in Hout end.

(** A script test passes for exactly one of two reasons. Either it asks for a failure and the first run of
    the script fails that way; or it asks for none, two runs succeed with equal results, the result is the one
    it asks for (exactly, in part, or its input unchanged), and the requests of the first run are those it lists,
    in order. *)
Theorem case_passes_iff res c exec input (s : S) :
  re_Pass res = false →
  (re_Pass (judge Unmarshal Compact res c exec input s).1 = true ↔
  (∃ e s1, exec (with_mock mock_reset s) = (Err e, s1) ∧ expected_failure c e) ∨
  (∃ first s1 second s2, exec (with_mock mock_reset s) = (Ok first, s1) ∧ exec (with_mock mock_reset s1) = (Ok second, s2) ∧
     ca_ExpectTimeout c = false ∧ ca_ExpectError c = "" ∧ jsonEqual Unmarshal first second = true ∧ expected_output c input first ∧
     (ca_HasExpectRequests c = true → Forall2 as_expected (ca_ExpectRequests c) (hm_requests (mock_of s1))))).
Proof.
  intros Hres. unfold judge. destruct (exec (with_mock mock_reset s)) as [[first|e] s1] eqn:H1.
  2: { cbn [fst]. rewrite judgeError_spec by done. split; [intros He; left; by exists e, s1|]. by intros [(? & ? & [= <- <-] & ?)|(? & ? & ? & ? & ? & _)]. }
  pose proof (check_output_spec c input first) as Ho. pose proof (checkRequests_spec (ca_ExpectRequests c) (hm_requests (mock_of s1))) as Hr.
  destruct (bool_decide_reflect (ca_ExpectError c = "")) as [He|He]; [|failing]. cbn [negb orb].
  destruct (ca_ExpectTimeout c) eqn:Hto; [failing|]. destruct (exec (with_mock mock_reset s1)) as [[second|e2] s2] eqn:H2; [|failing].
  destruct (jsonEqual Unmarshal first second) eqn:Hj; [|failing]. cbn [negb].
  destruct (bool_decide_reflect (check_output Unmarshal Compact c input first = "")) as [Hc|Hc]; [|failing]. cbn [negb].
  assert (∀ msg, (msg = "" ↔ (ca_HasExpectRequests c = true → Forall2 as_expected (ca_ExpectRequests c) (hm_requests (mock_of s1)))) →
    (re_Pass (if negb (bool_decide (msg = "")) then (res <| re_Output := first |> <| re_Message := msg |>, s2) else (res <| re_Output := first |> <| re_Pass := true |>, s2)).1 = true
    ↔ (ca_HasExpectRequests c = true → Forall2 as_expected (ca_ExpectRequests c) (hm_requests (mock_of s1))))) as Hmsg.
  { intros msg Hm. destruct (bool_decide_reflect (msg = "")) as [E|E]; simpl; [split; [intros _; by apply Hm|done]|]. rewrite Hres. split; [done|]. intros Hq. by apply Hm in Hq. }
  rewrite Hmsg by (destruct (ca_HasExpectRequests c); [rewrite Hr; tauto|by split]). split.
  - intros Hq. right. exists first, s1, second, s2. split_and!; try done. by apply Ho.
  - intros [(? & ? & ? & _)|(? & ? & ? & ? & [= <- <-] & _ & _ & _ & _ & _ & Hq)]; [done|exact Hq].
Qed.
End verdicts.

(** ** An example *)

(** A script that drops every observation after one request. *)
Definition ex_ext : ExtOps unit httpMock := {|
  ext_RunTransform _ o m := (Ok (o, false), (mock_serve (MkRecordedRequest "POST" "/notify" "1") m).2);
  ext_RunEnrich _ o _ m := (Ok o, m); ext_RunPropose _ _ _ _ _ m := (Ok None, m); ext_RunHandle _ _ _ m := (Ok (MkIntegrationResult true "", []), m);
  mock_of m := m; with_mock f m := f m |}.
Definition ex_unmarshal (s : string) : option any :=
  if bool_decide (s = "null") then Some JNull else if bool_decide (s = "1") then Some (JNumber f_one) else None.
Definition ex_case : Case := MkCase "drops" "" ∅ "o" "null" true "" "" false None [MkExpectedRequest "post" "/notify" "1"] true.
Definition ex_run : ST httpMock error string := λ m, (Ok "null", (mock_serve (MkRecordedRequest "POST" "/notify" "1") m).2).

Lemma case_passes_iff_witness :
  re_Pass (judge (EO:=ex_ext) ex_unmarshal (λ _, None) (MkResult "drops" false "" "") ex_case ex_run "o" (MkHTTPMock [] [])).1 = true.
Proof.
  apply (case_passes_iff (EO:=ex_ext) ex_unmarshal (λ _, None) (MkResult "drops" false "" "") ex_case ex_run "o" (MkHTTPMock [] [])); [reflexivity|].
  right. eexists "null", _, "null", _. split_and!; try (vm_compute; reflexivity).
  intros _. constructor; [|constructor]. split_and!; [reflexivity|reflexivity|]. intros _. by exists (JNumber f_one).
Defined.
