(* ===== verification/Migrate.v ===== *)
(** * Database migrations (src/internal/persistence/migrate.go)

    [Migrate] over a connection, the operations of which are parameters; [Postgres] states what it relies on:
    transactions take effect when they commit or not at all, and [schema_migrations.version] is a primary key.
    The migration files are a parameter too. *)

From S2P Require Import Prelude GoLib Domain.

(** The connection, with its state [D]; every row of a query is scanned on its own. *)
Class Connection (D : Type) := {
  pool_Acquire : ST D error unit;
  conn_Release : D → D;
  pg_Lock : ST D error unit;
  pg_Unlock : D → D;
  pg_CreateTable : ST D error unit;
  pg_Query : ST D error (list (res string));
  conn_Begin : ST D error unit;
  tx_Exec : string → ST D error unit;
  tx_Record : string → ST D error unit;
  tx_Rollback : D → D;
  tx_Commit : ST D error unit;
}.

Section migrate.
Context {D : Type} {Conn : Connection D}.
(** [fs.Glob] of the SQL files, and [fs.ReadFile]. *)
Context (Glob : res (list string)) (ReadFile : string → res string).

Definition wrapped {A} (op : string) (m : ST D error A) : ST D error A := λ d,
  match m d with (Ok a, d) => (Ok a, d) | (Err e, d) => (Err (EDomain CategoryDependency op e), d) end.
(** An error inside the transaction rolls it back. *)
Definition or_rollback (fail : error → error) (m : ST D error unit) : ST D error unit := λ d,
  match m d with (Ok _, d) => (Ok tt, d) | (Err e, d) => (Err (fail e), tx_Rollback d) end.

Fixpoint scan_rows (rows : list (res string)) : res (list string) :=
  match rows with
  | [] => Ok []
  | Err e :: _ => Err e
  | Ok v :: rows => match scan_rows rows with Ok l => Ok (v :: l) | Err e => Err e end
  end.

(** One pending migration, in its own transaction. *)
Definition apply_one (version sql : string) : ST D error unit :=
  _ ← wrapped "migrate: begin" conn_Begin;
  _ ← or_rollback (λ e, EWrapped ("migration " +:+ version +:+ " failed (rolled back): " +:+ error_text e) e) (tx_Exec sql);
  _ ← or_rollback (λ e, e) (tx_Record version);
  tx_Commit.

Definition version_of (name : string) : string := TrimSuffix name ".sql".
(** The loop over the files: the versions applied, and the error that ended it. *)
Fixpoint apply_pending (done_ : list string) (names : list string) (d : D) : (list string * option error) * D :=
  match names with
  | [] => ([], None, d)
  | name :: names =>
      let version := version_of name in
      if bool_decide (version ∈ done_) then apply_pending done_ names d
      else
        match ReadFile name with
        | Err e => ([], Some e, d)
        | Ok sql =>
            match apply_one version sql d with
            | (Err e, d) => ([], Some e, d)
            | (Ok _, d) => let '(applied, err, d) := apply_pending done_ names d in (version :: applied, err, d)
            end
        end
  end.

Definition migrate_locked (d : D) : (list string * option error) * D :=
  match (_ ← wrapped "migrate: create schema_migrations" pg_CreateTable; wrapped "migrate: read versions" pg_Query) d with
  | (Err e, d) => ([], Some e, d)
  | (Ok rows, d) =>
      match scan_rows rows with
      | Err e => ([], Some e, d)
      | Ok done_ =>
          match Glob with
          | Err e => ([], Some e, d)
          | Ok names => apply_pending done_ (sort_strings names) d
          end
      end
  end.
Definition Migrate (d : D) : (list string * option error) * D :=
  match wrapped "migrate: acquire connection" pool_Acquire d with
  | (Err e, d) => ([], Some e, d)
  | (Ok _, d) =>
      match wrapped "migrate: lock" pg_Lock d with
      | (Err e, d) => ([], Some e, conn_Release d)
      | (Ok _, d) => let '(r, d) := migrate_locked d in (r, conn_Release (pg_Unlock d))
      end
  end.
End migrate.

(** ** What the database promises *)

(** A committed transaction: the scripts it ran and the versions it recorded. *)
Record transaction := MkTransaction { tn_scripts : list string; tn_versions : list string }.

Class Postgres {D : Type} (Conn : Connection D) := {
  committed : D → list transaction;
  open_tx : D → transaction;                  (* what the transaction under way has done *)
  recorded d := committed d ≫= tn_versions;   (* the rows of schema_migrations *)

  quiet_Acquire d : committed (pool_Acquire d).2 = committed d;
  quiet_Release d : committed (conn_Release d) = committed d;
  quiet_Lock d : committed (pg_Lock d).2 = committed d;
  quiet_Unlock d : committed (pg_Unlock d) = committed d;
  quiet_CreateTable d : committed (pg_CreateTable d).2 = committed d;
  quiet_Query d : committed (pg_Query d).2 = committed d;
  quiet_Begin d : committed (conn_Begin d).2 = committed d;
  quiet_Exec sql d : committed (tx_Exec sql d).2 = committed d;
  quiet_Record v d : committed (tx_Record v d).2 = committed d;
  quiet_Rollback d : committed (tx_Rollback d) = committed d;
  begin_empty d d' : conn_Begin d = (Ok tt, d') → open_tx d' = MkTransaction [] [];
  exec_runs sql d d' : tx_Exec sql d = (Ok tt, d') → open_tx d' = MkTransaction (tn_scripts (open_tx d) ++ [sql]) (tn_versions (open_tx d));
  record_key v d d' : tx_Record v d = (Ok tt, d') →
    open_tx d' = MkTransaction (tn_scripts (open_tx d)) (tn_versions (open_tx d) ++ [v]) ∧ v ∉ recorded d;
  commit_ok d d' : tx_Commit d = (Ok tt, d') → committed d' = committed d ++ [open_tx d];
  (* after an error the client does not know whether the commit took effect *)
  commit_err d e d' : tx_Commit d = (Err e, d') → committed d' = committed d ∨ committed d' = committed d ++ [open_tx d];
  query_rows d rows d' v : pg_Query d = (Ok rows, d') → Ok v ∈ rows → v ∈ recorded d;
}.

Section theorems.
Context {D : Type} {Conn : Connection D} {Pg : Postgres Conn}.
Context (Glob : res (list string)) (ReadFile : string → res string).

Lemma wrapped_quiet {A} op (m : ST D error A) : (∀ d, committed (m d).2 = committed d) → ∀ d, committed (wrapped op m d).2 = committed d.
Proof. intros Hm d. specialize (Hm d). unfold wrapped. by destruct (m d) as [[a|e] d']. Qed.
Lemma wrapped_ok {A} op (m : ST D error A) d a d' : wrapped op m d = (Ok a, d') → m d = (Ok a, d').
Proof. unfold wrapped. destruct (m d) as [[b|e] d1]; congruence. Qed.

(** A migration that is applied is one transaction with its script and its version, new until then; one that
    fails leaves nothing behind, except that it may be in effect when the commit itself failed. *)
Lemma apply_one_effect version sql d r d' :
  apply_one version sql d = (r, d') →
  (committed d' = committed d ∧ is_ok r = false) ∨ (committed d' = committed d ++ [MkTransaction [sql] [version]] ∧ version ∉ recorded d).
Proof.
  unfold apply_one, mbind, ST_bind. destruct (wrapped _ _ d) as [[[]|e] d1] eqn:Hb.
  2: { intros [= <- <-]. left. split; [|done]. pose proof (wrapped_quiet "migrate: begin" _ quiet_Begin d) as Hq. by rewrite Hb in Hq. }
  apply wrapped_ok in Hb. pose proof (quiet_Begin d) as Q1. rewrite Hb in Q1. apply begin_empty in Hb. simpl in Q1.
  unfold or_rollback at 1. pose proof (quiet_Exec sql d1) as Q2. destruct (tx_Exec sql d1) as [[[]|e] d2] eqn:He; simpl in Q2.
  2: { intros [= <- <-]. left. split; [|done]. by rewrite quiet_Rollback, Q2, Q1. }
  apply exec_runs in He. rewrite Hb in He. simpl in He.
  unfold or_rollback. pose proof (quiet_Record version d2) as Q3. destruct (tx_Record version d2) as [[[]|e] d3] eqn:Hr; simpl in Q3.
  2: { intros [= <- <-]. left. split; [|done]. by rewrite quiet_Rollback, Q3, Q2, Q1. }
  apply record_key in Hr as [Hr Hnew]. rewrite He in Hr. simpl in Hr. assert (version ∉ recorded d) as Hn by (unfold recorded in *; by rewrite <-Q1, <-Q2).
  destruct r as [[]|e]; intros Hc.
  - apply commit_ok in Hc. right. split; [by rewrite Hc, Hr, Q3, Q2, Q1|done].
  - apply commit_err in Hc as [Hc|Hc]; [left; split; [congruence|done]|right]. split; [by rewrite Hc, Hr, Q3, Q2, Q1|done].
Qed.

(** The effect of a run on files [names]: transactions [new], each of one file, in the order of the files. *)
Record migrated (names applied : list string) (err : option error) (d d' : D) (new : list transaction) : Prop := {
  mi_committed : committed d' = committed d ++ new;
  mi_files : Forall (λ t, ∃ name sql, name ∈ names ∧ ReadFile name = Ok sql ∧ t = MkTransaction [sql] [version_of name]) new;
  mi_ordered : new ≫= tn_versions `sublist_of` version_of <$> names;
  mi_once : NoDup (recorded d) → NoDup (recorded d');
  mi_reported : match err with
                | None => new ≫= tn_versions = applied ∧ Forall (λ n, version_of n ∈ recorded d') names
                | Some _ => ∃ rest, new ≫= tn_versions = applied ++ rest ∧ length rest ≤ 1
                end }.

Lemma migrated_nothing names err (d d' : D) : committed d' = committed d → (err = None → names = []) → migrated names [] err d d' [].
Proof.
  intros Hc Hn. split; [by rewrite app_nil_r|constructor|apply sublist_nil_l|unfold recorded; by rewrite Hc|].
  destruct err; [exists []; simpl; split; [done|lia]|]. rewrite (Hn eq_refl). by split.
Qed.
Lemma recorded_app d d' new : committed d' = committed d ++ new → recorded d' = recorded d ++ (new ≫= tn_versions).
Proof. intros Hc. unfold recorded. by rewrite Hc, bind_app. Qed.
Lemma migrated_skip name names applied err d d' new :
  version_of name ∈ recorded d → migrated names applied err d d' new → migrated (name :: names) applied err d d' new.
Proof.
  intros Hin [Hc Hf Ho Hn Hr]. split; [done| |by apply sublist_cons|done|].
  - eapply Forall_impl; [exact Hf|]. intros t (n & sql & ? & ?). exists n, sql. split; [by right|done].
  - destruct err; [done|]. destruct Hr as [? Hr]. split; [done|]. constructor; [|done]. rewrite (recorded_app _ _ _ Hc). apply elem_of_app. by left.
Qed.
Lemma migrated_step name sql names applied err d d1 d' new :
  committed d1 = committed d ++ [MkTransaction [sql] [version_of name]] → version_of name ∉ recorded d → ReadFile name = Ok sql →
  migrated names applied err d1 d' new →
  migrated (name :: names) (version_of name :: applied) err d d' (MkTransaction [sql] [version_of name] :: new).
Proof.
  intros H1 Hnew Hread [Hc Hf Ho Hn Hr]. split.
  - by rewrite Hc, H1, <-app_assoc.
  - constructor; [by exists name, sql; split; [left|]|]. eapply Forall_impl; [exact Hf|]. intros t (n & sql' & ? & ?). exists n, sql'. split; [by right|done].
  - simpl. by apply sublist_skip.
  - intros Hnd. apply Hn. rewrite (recorded_app _ _ _ H1). simpl. apply NoDup_app. split_and!; [done| |apply NoDup_singleton].
    intros v Hv. rewrite elem_of_cons, elem_of_nil. intros [->|[]]. done.
  - destruct err; [destruct Hr as (rest & Hr & ?); exists rest; csimpl; by rewrite Hr|]. destruct Hr as [Hr Hall]. csimpl. rewrite Hr. split; [done|].
    constructor; [|done]. rewrite (recorded_app _ _ _ Hc), (recorded_app _ _ _ H1). rewrite !elem_of_app. left. right. by left.
Qed.

Lemma apply_pending_effect done_ names d applied err d' :
  Forall (λ v, v ∈ recorded d) done_ → apply_pending ReadFile done_ names d = (applied, err, d') → ∃ new, migrated names applied err d d' new.
Proof.
  revert d applied. induction names as [|name names IH]; intros d applied Hdone; [intros [= <- <- <-]; exists []; by apply migrated_nothing|].
  cbn [apply_pending]. cbv zeta. destruct (bool_decide_reflect (version_of name ∈ done_)) as [Hin|Hout].
  { intros (new & Hm)%IH; [|done]. exists new. apply migrated_skip; [|done]. by eapply Forall_forall in Hdone. }
  destruct (ReadFile name) as [sql|e] eqn:Hread; [|intros [= <- <- <-]; exists []; by apply migrated_nothing].
  destruct (apply_one _ sql d) as [[[]|e] d1] eqn:Ha; pose proof (apply_one_effect _ _ _ _ _ Ha) as [[Hc Hr]|[Hc Hnew]]; try done.
  - destruct (apply_pending _ _ names d1) as [[l err1] d2] eqn:Hp. intros [= <- <- <-]. apply IH in Hp as (new & Hm).
    + eexists. by eapply migrated_step.
    + eapply Forall_impl; [exact Hdone|]. intros v Hv. rewrite (recorded_app _ _ _ Hc). apply elem_of_app. by left.
  - intros [= <- <- <-]. exists []. by apply migrated_nothing.
  - intros [= <- <- <-]. destruct (migrated_step name sql names [] (Some e) d d1 d1 [] Hc Hnew Hread) as [Hc' Hf Ho Hn (rest & Hr & Hlen)]; [by apply migrated_nothing|].
    eexists. split; [exact Hc'|done|done|done|]. exists (version_of name :: rest). split; [done|]. simpl in Hr. simplify_list_eq. simpl. lia.
Qed.

Lemma scan_rows_elem rows l v : scan_rows rows = Ok l → v ∈ l → Ok v ∈ rows.
Proof.
  revert l. induction rows as [|[x|e] rows IH]; intros l; [intros [= <-] []%elem_of_nil| |done]. simpl.
  destruct (scan_rows rows) as [l'|]; [|done]. intros [= <-]. rewrite !elem_of_cons. intros [->|Hv]; [by left|right; by eapply IH].
Qed.

End theorems.

(** ** An example database *)

Record ExDb := MkExDb { xd_log : list transaction; xd_tx : transaction }.
Definition nothing (d : ExDb) : res unit * ExDb := (Ok tt, d).
#[export] Instance ex_connection : Connection ExDb := {|
  pool_Acquire := nothing; conn_Release d := d; pg_Lock := nothing; pg_Unlock d := d; pg_CreateTable := nothing;
  pg_Query d := (Ok (Ok <$> (xd_log d ≫= tn_versions)), d);
  conn_Begin d := (Ok tt, MkExDb (xd_log d) (MkTransaction [] []));
  tx_Exec sql d := (Ok tt, MkExDb (xd_log d) (MkTransaction (tn_scripts (xd_tx d) ++ [sql]) (tn_versions (xd_tx d))));
  tx_Record v d :=
    if bool_decide (v ∈ (xd_log d ≫= tn_versions)) then (Err (EText "duplicate key value violates unique constraint"), d)
    else (Ok tt, MkExDb (xd_log d) (MkTransaction (tn_scripts (xd_tx d)) (tn_versions (xd_tx d) ++ [v])));
  tx_Rollback d := MkExDb (xd_log d) (MkTransaction [] []);
  tx_Commit d := (Ok tt, MkExDb (xd_log d ++ [xd_tx d]) (MkTransaction [] [])) |}.
#[export] Instance ex_postgres : Postgres ex_connection.
Proof.
  refine {| committed := xd_log; open_tx := xd_tx |}; try done.
  - intros v d. simpl. by case_bool_decide.
  - by intros d d' [= <-].
  - by intros sql d d' [= <-].
  - intros v d d'. simpl. case_bool_decide; [done|]. by intros [= <-].
  - by intros d d' [= <-].
  - intros d rows d' v [= <- <-]. by intros (? & [= ->] & ?)%list_elem_of_fmap.
Defined.

Definition ex_files : list string := ["002_events.sql"; "001_devices.sql"].
Definition ex_read (name : string) : res string := Ok ("-- " +:+ name).
Definition ex_db : ExDb := MkExDb [] (MkTransaction [] []).
