(* ===== verification/PgDB.v ===== *)
(** * The PostgreSQL store: tables, columns and the server
    (src/internal/persistence/postgres.go, src/migrations/0001_core.sql, 0002_automation.sql)

    The tables of the schema with the columns the store reads back, the encoding of Go values
    into columns and back, the error classification, and the server as the store sees it.

    - A table with a text primary key is a map from that key to its row; [alerts], which has a
      second unique index, and [outbox], whose key is a sequence, are lists in insertion order.
      Columns that no statement reads ([updated_at], [created_at] of the outbox) are left out.
    - [timestamptz] holds microseconds, and the driver truncates to them; a nil time is NULL.
      A [jsonb] object of strings is a map.
    - Strings are text the server accepts (UTF-8 without NUL); it refuses others with an error
      of class 22, which the failing replies below include.
    - What the server decides is a parameter: the order in which it scans a table, its collation,
      and, for every round trip, whether it is answered and what other sessions committed
      before it. *)

From S2P Require Import Prelude GoLib GoFloat Domain Store.

(** ** Columns *)

Abbreviation jsonb := (gmap string string).

Definition micro (t : Time) : Time := Truncate t Microsecond.

(** [js] of a map: nil and empty maps are stored as [{}]. *)
Definition js (v : smap) : jsonb := entries v.
Definition decodeLabels (b : jsonb) : smap := if bool_decide (b = ∅) then None else Some b.

Definition nilTime (t : Time) : option Time := if IsZero t then None else Some (micro t).
Definition from_null (t : option Time) : Time := default time_zero t.

(** An [integer] column holds 32 bits. *)
Definition int4_min : Z := (-2147483648)%Z.
Definition int4_max : Z := 2147483647%Z.
Definition int4_ok (n : Z) : bool := (int4_min <=? n)%Z && (n <=? int4_max)%Z.

(** ** Rows *)

Record device_row := MkDeviceRow {
  pd_id : string; pd_hostname : string; pd_address : string; pd_type : string; pd_vendor : string; pd_model : string;
  pd_serial : string; pd_site : string; pd_tags : list string; pd_capabilities : list string; pd_credentials : string;
  pd_enabled : bool; pd_collection : CollectionSpec; pd_attributes : jsonb; pd_last_seen : option Time;
}.
#[export] Instance eta_device_row : Eta device_row := λ d,
  MkDeviceRow (pd_id d) (pd_hostname d) (pd_address d) (pd_type d) (pd_vendor d) (pd_model d) (pd_serial d) (pd_site d)
    (pd_tags d) (pd_capabilities d) (pd_credentials d) (pd_enabled d) (pd_collection d) (pd_attributes d) (pd_last_seen d).

Record observation_row := MkObservationRow {
  po_id : string; po_correlation : string; po_device : string; po_source : string; po_metric : string;
  po_num : option float64; po_bool : option bool; po_text : option string; po_labels : jsonb; po_labels_key : string;
  po_observed : Time; po_received : option Time; po_metadata : jsonb;
}.

Record state_row := MkStateRow {
  ps_key : string; ps_device : string; ps_definition : string; ps_labels : jsonb; ps_state : HealthState; ps_failures : Z;
  ps_successes : Z; ps_breached : bool; ps_bad_since : option Time; ps_good_since : option Time; ps_observed : Time;
  ps_seen : Time; ps_observation : string; ps_transition : Time; ps_value : string;
}.

Record transition_row := MkTransitionRow {
  pt_id : string; pt_key : string; pt_device : string; pt_definition : string; pt_labels : jsonb; pt_from : HealthState;
  pt_to : HealthState; pt_at : Time; pt_observation : string; pt_correlation : string;
}.

Record event_row := MkEventRow {
  pe_id : string; pe_correlation : string; pe_device : string; pe_type : string; pe_severity : string; pe_message : string;
  pe_labels : jsonb; pe_occurred : Time; pe_observation : string; pe_source : string; pe_alert_key : string; pe_resolves : bool;
}.

Record alert_row := MkAlertRow {
  pa_open_event : string; pa_key : string; pa_device : string; pa_source : string; pa_severity : string; pa_status : AlertStatus;
  pa_summary : string; pa_labels : jsonb; pa_opened : Time; pa_resolved : option Time; pa_resolve_event : string;
}.
#[export] Instance eta_alert_row : Eta alert_row := λ a,
  MkAlertRow (pa_open_event a) (pa_key a) (pa_device a) (pa_source a) (pa_severity a) (pa_status a) (pa_summary a)
    (pa_labels a) (pa_opened a) (pa_resolved a) (pa_resolve_event a).

Record outbox_row := MkOutboxPgRow {
  pq_id : Z; pq_subject : string; pq_msg_id : string; pq_payload : string; pq_headers : jsonb; pq_published : bool;
}.
#[export] Instance eta_outbox_row : Eta outbox_row := λ q,
  MkOutboxPgRow (pq_id q) (pq_subject q) (pq_msg_id q) (pq_payload q) (pq_headers q) (pq_published q).

Record request_row := MkRequestRow {
  pr_id : string; pr_correlation : string; pr_policy : string; pr_event : string; pr_alert_key : string; pr_device : string;
  pr_action : string; pr_target : string; pr_params : jsonb; pr_reason : string; pr_proposer : string; pr_dry_run : bool;
  pr_status : AutomationStatus; pr_not_before : Time; pr_created : Time; pr_approved_by : string; pr_claimed : option Time;
}.
#[export] Instance eta_request_row : Eta request_row := λ r,
  MkRequestRow (pr_id r) (pr_correlation r) (pr_policy r) (pr_event r) (pr_alert_key r) (pr_device r) (pr_action r) (pr_target r)
    (pr_params r) (pr_reason r) (pr_proposer r) (pr_dry_run r) (pr_status r) (pr_not_before r) (pr_created r)
    (pr_approved_by r) (pr_claimed r).

Record result_row := MkResultRow {
  pz_id : string; pz_correlation : string; pz_status : AutomationStatus; pz_dry_run : bool; pz_message : string;
  pz_details : jsonb; pz_started : Time; pz_finished : Time;
}.

(** ** The database *)

Record DB := MkDB {
  db_devices : gmap string device_row;
  db_observations : gmap string observation_row;
  db_states : gmap string state_row;
  db_transitions : gmap string transition_row;
  db_events : gmap string event_row;
  db_alerts : list alert_row;
  db_outbox : list outbox_row;
  db_requests : gmap string request_row;
  db_results : gmap string result_row;
}.
#[export] Instance eta_DB : Eta DB := λ d,
  MkDB (db_devices d) (db_observations d) (db_states d) (db_transitions d) (db_events d) (db_alerts d) (db_outbox d)
    (db_requests d) (db_results d).

Definition EmptyDB : DB := MkDB ∅ ∅ ∅ ∅ ∅ [] [] ∅ ∅.

(** ** Encoding and decoding *)

(** The value columns of an observation: a boolean also fills the number, so that windows over
    booleans can be averaged. *)
Definition value_columns (o : Observation) : option float64 * option bool * option string :=
  match o_Value o with
  | VBool b => (Some (if b then f_one else f_zero), Some b, None)
  | VString s => (None, None, Some s)
  | _ => (Observation_Float o, None, None)
  end.
Definition value_of_columns (num : option float64) (bl : option bool) (txt : option string) : value :=
  match bl, txt, num with
  | Some b, _, _ => VBool b
  | None, Some s, _ => VString s
  | None, None, Some f => VFloat64 f
  | None, None, None => VNil
  end.

Definition row_of_observation (o : Observation) : observation_row :=
  let '(num, bl, txt) := value_columns o in
  MkObservationRow (o_ObservationID o) (o_CorrelationID o) (o_DeviceID o) (o_Source o) (o_Metric o) num bl txt
    (js (o_Labels o)) (LabelsKey (o_Labels o)) (micro (o_ObservedAt o)) (nilTime (o_ReceivedAt o)) (js (o_Metadata o)).
Definition observation_of_row (r : observation_row) : Observation :=
  MkObservation (po_id r) (po_correlation r) (po_device r) (po_source r) (po_metric r)
    (value_of_columns (po_num r) (po_bool r) (po_text r)) (decodeLabels (po_labels r)) (po_observed r)
    (from_null (po_received r)) (decodeLabels (po_metadata r)).

Definition row_of_state (r : StateRecord) : state_row :=
  MkStateRow (sr_Key r) (sr_DeviceID r) (sr_DefinitionID r) (js (sr_Labels r)) (sr_State r) (sr_Failures r) (sr_Successes r)
    (sr_Breached r) (nilTime (sr_BadSince r)) (nilTime (sr_GoodSince r)) (micro (sr_LastObservedAt r)) (micro (sr_LastSeenAt r))
    (sr_LastObservationID r) (micro (sr_LastTransitionAt r)) (sr_LastValue r).
Definition state_of_row (r : state_row) : StateRecord :=
  MkStateRecord (ps_key r) (ps_device r) (ps_definition r) (decodeLabels (ps_labels r)) (ps_state r) (ps_failures r)
    (ps_successes r) (ps_breached r) (from_null (ps_bad_since r)) (from_null (ps_good_since r)) (ps_observed r) (ps_seen r)
    (ps_observation r) (ps_transition r) (ps_value r).

Definition row_of_transition (t : Transition) : transition_row :=
  MkTransitionRow (tr_TransitionID t) (tr_Key t) (tr_DeviceID t) (tr_DefinitionID t) (js (tr_Labels t)) (tr_From t) (tr_To t)
    (micro (tr_At t)) (tr_ObservationID t) (tr_CorrelationID t).
Definition transition_of_row (r : transition_row) : Transition :=
  MkTransition (pt_id r) (pt_key r) (pt_device r) (pt_definition r) (decodeLabels (pt_labels r)) (pt_from r) (pt_to r)
    (pt_at r) (pt_observation r) (pt_correlation r).

Definition row_of_event (e : Event) : event_row :=
  MkEventRow (ev_EventID e) (ev_CorrelationID e) (ev_DeviceID e) (ev_Type e) (ev_Severity e) (ev_Message e) (js (ev_Labels e))
    (micro (ev_OccurredAt e)) (ev_ObservationID e) (ev_Source e) (ev_AlertKey e) (ev_Resolves e).
Definition event_of_row (r : event_row) : Event :=
  MkEvent (pe_id r) (pe_correlation r) (pe_device r) (pe_type r) (pe_severity r) (pe_message r) (decodeLabels (pe_labels r))
    (pe_occurred r) (pe_observation r) (pe_source r) (pe_alert_key r) (pe_resolves r).

(** The row [OpenAlert] inserts, and an alert as [ListAlerts] reads it. *)
Definition row_of_opening (e : Event) : alert_row :=
  MkAlertRow (ev_EventID e) (ev_AlertKey e) (ev_DeviceID e) (ev_Source e) (ev_Severity e) AlertFiring (ev_Message e)
    (js (ev_Labels e)) (micro (ev_OccurredAt e)) None "".
Definition alert_of_row (r : alert_row) : Alert :=
  MkAlert (pa_key r) (pa_device r) (pa_source r) (pa_severity r) (pa_status r) (pa_summary r) (decodeLabels (pa_labels r))
    (pa_open_event r) (pa_opened r) (from_null (pa_resolved r)).

(** [nonNil] makes no difference to a list. A new device has not been seen. *)
Definition row_of_device (d : Device) : device_row :=
  MkDeviceRow (d_ID d) (d_Hostname d) (d_ManagementAddress d) (d_DeviceType d) (d_Vendor d) (d_Model d) (d_SerialNumber d)
    (d_Site d) (d_Tags d) (d_Capabilities d) (d_CredentialsRef d) (d_Enabled d) (d_Collection d) (js (d_Attributes d)) None.
Definition device_of_row (r : device_row) : Device :=
  MkDevice (pd_id r) (pd_hostname r) (pd_address r) (pd_type r) (pd_vendor r) (pd_model r) (pd_serial r) (pd_site r)
    (pd_tags r) (pd_capabilities r) (pd_credentials r) (pd_enabled r) (from_null (pd_last_seen r)) (pd_collection r)
    (decodeLabels (pd_attributes r)).

Definition row_of_request (r : AutomationRequest) : request_row :=
  MkRequestRow (rq_RequestID r) (rq_CorrelationID r) (rq_PolicyID r) (rq_EventID r) (rq_AlertKey r) (rq_DeviceID r)
    (rq_Action r) (rq_Target r) (js (rq_Params r)) (rq_Reason r) (rq_Proposer r) (rq_DryRun r) (rq_Status r)
    (micro (rq_NotBefore r)) (micro (rq_CreatedAt r)) (rq_ApprovedBy r) None.
Definition scanAutomation (r : request_row) : AutomationRequest :=
  MkAutomationRequest (pr_id r) (pr_correlation r) (pr_policy r) (pr_event r) (pr_alert_key r) (pr_device r) (pr_action r)
    (pr_target r) (decodeLabels (pr_params r)) (pr_reason r) (pr_proposer r) (pr_dry_run r) (pr_status r) (pr_not_before r)
    (pr_created r) (pr_approved_by r).

Definition row_of_result (r : AutomationResult) : result_row :=
  MkResultRow (rs_RequestID r) (rs_CorrelationID r) (rs_Status r) (rs_DryRun r) (rs_Message r) (js (rs_Details r))
    (micro (rs_StartedAt r)) (micro (rs_FinishedAt r)).
Definition result_of_row (r : result_row) : AutomationResult :=
  MkAutomationResult (pz_id r) (pz_correlation r) (pz_status r) (pz_dry_run r) (pz_message r) (decodeLabels (pz_details r))
    (pz_started r) (pz_finished r).

(** A row of the outbox under its new id, and the message read from a row: the headers of a row
    are an object, so the map is never nil. *)
Definition row_of_message (id : Z) (m : OutboxMessage) : outbox_row :=
  MkOutboxPgRow id (ob_Subject m) (ob_MsgID m) (ob_Payload m) (js (ob_Headers m)) false.
Definition message_of_row (q : outbox_row) : OutboxMessage :=
  MkOutboxMessage (pq_id q) (pq_subject q) (pq_msg_id q) (pq_payload q) (Some (pq_headers q)).

(** ** Errors *)

(** [errors.As(err, &pe)]: the SQLSTATE of the first [*pgconn.PgError] in the chain. *)
Fixpoint as_pg (e : error) : option string :=
  match e with
  | EPg code _ => Some code
  | EDomain _ _ inner | EWrapped _ inner => as_pg inner
  | _ => None
  end.

Definition permanent_classes : list string := ["22"; "23"; "42"].

Definition classifyPG (op : string) (err : error) : error :=
  match as_domain err with
  | Some _ => err
  | None =>
      match as_pg err with
      | Some code =>
          if (2 <=? String.length code)%nat
          then EDomain (if bool_decide (take_str 2 code ∈ permanent_classes) then CategoryPermanent else CategoryDependency) op err
          else EDomain (if error_is EDeadlineExceeded err then CategoryTimeout else CategoryDependency) op err
      | None => EDomain (if error_is EDeadlineExceeded err then CategoryTimeout else CategoryDependency) op err
      end
  end.

Definition retryablePG (err : error) : bool :=
  match as_pg err with
  | Some code => bool_decide (code = "40001") || bool_decide (code = "40P01")
  | None => false
  end.

(** ** The server *)

(** How one round trip ends: it runs; it is refused or cannot be sent; it fails while it executes
    and its rows are read, without effect; or its answer is lost, after it took effect, because the
    connection broke. *)
Inductive reply := Runs | Fails (err : error) | Breaks (err : error) | Lost (err : error).

(** A round trip outside a transaction first sees what other sessions committed meanwhile, and
    where they left the sequence of the outbox. *)
Record trip := MkTrip { tp_peers : DB * Z → DB * Z; tp_reply : reply }.
Definition quiet : trip := MkTrip id Runs.

(** The order in which a table is scanned, and the order of text. *)
Class PgServer := {
  scan : ∀ {A}, list A → list A;
  collate : string → string → bool;
}.

(** What is relied on: a scan returns every row once; the collation is a strict total order. *)
Class PgServerOk `{PgServer} : Prop := {
  scan_perm {A} (l : list A) : scan l ≡ₚ l;
  collate_asym x y : collate x y = true → collate y x = false;
  collate_trans x y z : collate x y = true → collate y z = true → collate x z = true;
  collate_total x y : x ≠ y → collate x y = true ∨ collate y x = true;
}.

(** [SELECT ... FROM t WHERE p ORDER BY less]. *)
Definition select_rows `{PgServer} {R} (p : R → bool) (less : R → R → bool) (rows : list R) : list R :=
  sort_stable less (filter (λ r, p r = true) (scan rows)).
Definition rows_of {R} (t : gmap string R) : list R := (map_to_list t).*2.
