(* ===== verification/PgStore.v ===== *)
(** * The PostgreSQL store: transactions, devices and the outbox
    (src/internal/persistence/postgres.go)

    [pgTx] is an open transaction: the database as the transaction sees it, the outbox sequence,
    the round trips still to come and whether a statement has failed, after which the server
    refuses every further one. Statements outside a transaction commit on their own. *)

From S2P Require Import Prelude GoLib GoFloat Domain Store PgDB.

(** [pg_net] lists the round trips to come; when it is used up the server answers and nobody
    else writes. *)
Record PGStore := MkPGStore { pg_db : DB; pg_seq : Z; pg_net : list trip }.
Record pgTx := MkPgTx { px_db : DB; px_seq : Z; px_net : list trip; px_failed : bool }.

Definition next_trip (net : list trip) : trip * list trip :=
  match net with [] => (quiet, []) | t :: net => (t, net) end.

Definition fail (op : string) (err : error) : error := classifyPG op err.

(** ** Statements *)

Definition tx_aborted : error :=
  EPg "25P02" "ERROR: current transaction is aborted, commands ignored until end of transaction block (SQLSTATE 25P02)".

(** A statement of a transaction: [f] says what it does to the tables and what it returns; an
    error aborts the transaction. *)
Definition stmt {A} (f : DB → res A * DB) : ST pgTx error A := λ t,
  let '(tr, net) := next_trip (px_net t) in
  if px_failed t then (Err tx_aborted, MkPgTx (px_db t) (px_seq t) net true)
  else
    match tp_reply tr with
    | Runs =>
        match f (px_db t) with
        | (Ok a, db) => (Ok a, MkPgTx db (px_seq t) net false)
        | (Err e, _) => (Err e, MkPgTx (px_db t) (px_seq t) net true)
        end
    | Fails e | Breaks e | Lost e => (Err e, MkPgTx (px_db t) (px_seq t) net true)
    end.

(** A statement of its own: committed when it succeeds, and also when only its answer is lost. *)
Definition autocommit {A} (op : string) (f : DB → res A * DB) : ST PGStore error A := λ s,
  let '(tr, net) := next_trip (pg_net s) in
  let '(db, seq) := tp_peers tr (pg_db s, pg_seq s) in
  match tp_reply tr, f db with
  | (Fails e | Breaks e), _ => (Err (fail op e), MkPGStore db seq net)
  | Lost e, (Ok _, db') => (Err (fail op e), MkPGStore db' seq net)
  | Lost e, (Err _, _) => (Err (fail op e), MkPGStore db seq net)
  | Runs, (Ok a, db') => (Ok a, MkPGStore db' seq net)
  | Runs, (Err e, _) => (Err (fail op e), MkPGStore db seq net)
  end.

(** A query: its rows, the tables unchanged. *)
Definition query {A} (f : DB → A) : DB → res A * DB := λ db, (Ok (f db), db).

(** A list query that returns [rows.Err()] as it is: an error met while the rows are read is not
    classified. *)
Definition list_query {A} (op : string) (f : DB → res A) : ST PGStore error A := λ s,
  let '(tr, net) := next_trip (pg_net s) in
  let '(db, seq) := tp_peers tr (pg_db s, pg_seq s) in
  (match tp_reply tr with
   | Fails e => Err (fail op e)
   | Breaks e | Lost e => Err e
   | Runs => f db
   end, MkPGStore db seq net).

(** ** Transactions *)

Definition commit_rollback : error := EText "commit unexpectedly resulted in rollback".

Definition doOnce {A} (fn : ST pgTx error A) (s : PGStore) : res A * PGStore :=
  let '(tr, net) := next_trip (pg_net s) in
  let '(db, seq) := tp_peers tr (pg_db s, pg_seq s) in
  match tp_reply tr with
  | Fails e | Breaks e | Lost e => (Err e, MkPGStore db seq net)
  | Runs =>
      match fn (MkPgTx db seq net false) with
      | (Err e, t) => (Err e, MkPGStore db (px_seq t) (px_net t))
      | (Ok a, t) =>
          let '(tr, net) := next_trip (px_net t) in
          if px_failed t then (Err commit_rollback, MkPGStore db (px_seq t) net)
          else
            match tp_reply tr with
            | Runs => (Ok a, MkPGStore (px_db t) (px_seq t) net)
            | Fails e | Breaks e => (Err e, MkPGStore db (px_seq t) net)
            | Lost e => (Err e, MkPGStore (px_db t) (px_seq t) net)
            end
      end
  end.

(** The loop of [Do] with [n] attempts left. Between attempts it waits for the timer or for the
    context, which the next entry of the network stands for. A panic is not caught. *)
Fixpoint do_attempts {A} (n : nat) (fn : ST pgTx error A) (s : PGStore) : res A * PGStore :=
  match doOnce fn s with
  | (Ok a, s) => (Ok a, s)
  | (Err e, s) =>
      if is_panic e then (Err e, s)
      else if negb (retryablePG e) then (Err (fail "transaction" e), s)
      else
        let '(tr, net) := next_trip (pg_net s) in
        let s := MkPGStore (pg_db s) (pg_seq s) net in
        match tp_reply tr, n with
        | (Fails ctx | Breaks ctx | Lost ctx), _ => (Err (fail "transaction" ctx), s)
        | Runs, S n => do_attempts n fn s
        | Runs, O => (Err (fail "transaction" e), s)
        end
  end.
Definition pg_Do {A} (fn : ST pgTx error A) (s : PGStore) : res A * PGStore := do_attempts 3 fn s.

(** *** The operations of [pgTx] *)

(** [INSERT ... ON CONFLICT (key) DO NOTHING]: whether a row was affected. *)
Definition insert_nothing {R} (key : string) (r : R) (t : gmap string R) : bool * gmap string R :=
  match t !! key with Some _ => (false, t) | None => (true, <[key := r]> t) end.

Section server.
Context `{PgServer}.

Definition sql_insert_observation (o : Observation) (db : DB) : bool * DB :=
  let '(new, t) := insert_nothing (o_ObservationID o) (row_of_observation o) (db_observations db) in
  (new, db <| db_observations := t |>).
Definition pg_InsertObservation (o : Observation) : ST pgTx error bool :=
  stmt (λ db, let '(new, db) := sql_insert_observation o db in (Ok new, db)).

(** [GREATEST(COALESCE(last_seen, at), at)]. *)
Definition touch_row (at_ : Time) (d : device_row) : device_row :=
  d <| pd_last_seen := Some (Z.max (default (micro at_) (pd_last_seen d)) (micro at_)) |>.
Definition pg_TouchDevice (id : string) (at_ : Time) : ST pgTx error unit :=
  stmt (λ db, (Ok tt, db <| db_devices := alter (touch_row at_) id (db_devices db) |>)).

Definition in_series (deviceID metric labelsKey : string) (from to : Time) (r : observation_row) : bool :=
  bool_decide (po_device r = deviceID) && bool_decide (po_metric r = metric) && bool_decide (po_labels_key r = labelsKey)
  && (micro from <? po_observed r)%Z && (po_observed r <=? micro to)%Z && bool_decide (is_Some (po_num r)).
Definition sample_of_row (r : observation_row) : option Sample :=
  (λ num, MkSample (po_observed r) num (po_bool r)) <$> po_num r.
Definition sql_samples (deviceID metric labelsKey : string) (from to : Time) (db : DB) : list Sample :=
  omap sample_of_row
    (select_rows (in_series deviceID metric labelsKey from to) (λ a b, (po_observed a <? po_observed b)%Z) (rows_of (db_observations db))).
Definition pg_Samples (deviceID metric labelsKey : string) (from to : Time) : ST pgTx error (list Sample) :=
  stmt (query (sql_samples deviceID metric labelsKey from to)).

(** The advisory lock, then the row. *)
Definition pg_GetState (key : string) : ST pgTx error (option StateRecord) :=
  _ ← stmt (query (λ _, tt));
  stmt (query (λ db, state_of_row <$> db_states db !! key)).

(** On conflict the identifying columns of the row stay. *)
Definition merge_state (old new : state_row) : state_row :=
  MkStateRow (ps_key old) (ps_device old) (ps_definition old) (ps_labels old) (ps_state new) (ps_failures new)
    (ps_successes new) (ps_breached new) (ps_bad_since new) (ps_good_since new) (ps_observed new) (ps_seen new)
    (ps_observation new) (ps_transition new) (ps_value new).
Definition sql_put_state (r : StateRecord) (db : DB) : DB :=
  let new := row_of_state r in
  db <| db_states := <[sr_Key r := match db_states db !! sr_Key r with Some old => merge_state old new | None => new end]> (db_states db) |>.
(** A counter that does not fit its column is refused by the driver before anything is sent. *)
Definition int4_error : error := EText "unable to encode into binary format for int4: value is out of range".
Definition pg_PutState (r : StateRecord) : ST pgTx error unit :=
  if int4_ok (sr_Failures r) && int4_ok (sr_Successes r) then stmt (λ db, (Ok tt, sql_put_state r db))
  else ST_fail int4_error.

Definition pg_InsertTransition (tr : Transition) : ST pgTx error unit :=
  stmt (λ db, (Ok tt, db <| db_transitions := (insert_nothing (tr_TransitionID tr) (row_of_transition tr) (db_transitions db)).2 |>)).

Definition sql_insert_event (e : Event) (db : DB) : bool * DB :=
  let '(new, t) := insert_nothing (ev_EventID e) (row_of_event e) (db_events db) in (new, db <| db_events := t |>).
Definition pg_InsertEvent (e : Event) : ST pgTx error bool :=
  stmt (λ db, let '(new, db) := sql_insert_event e db in (Ok new, db)).

(** [ON CONFLICT DO NOTHING] without a target: a conflict with the primary key or with the index
    over firing alerts. *)
Definition row_firing (key : string) (r : alert_row) : bool :=
  bool_decide (pa_key r = key) && bool_decide (pa_status r = AlertFiring).
Definition sql_open_alert (e : Event) (db : DB) : bool * DB :=
  if existsb (λ r, bool_decide (pa_open_event r = ev_EventID e) || row_firing (ev_AlertKey e) r) (db_alerts db)
  then (false, db)
  else (true, db <| db_alerts := db_alerts db ++ [row_of_opening e] |>).
Definition pg_OpenAlert (e : Event) : ST pgTx error bool :=
  stmt (λ db, let '(new, db) := sql_open_alert e db in (Ok new, db)).

Definition resolve_row (e : Event) (r : alert_row) : alert_row :=
  r <| pa_status := AlertResolved |> <| pa_resolved := Some (micro (ev_OccurredAt e)) |> <| pa_resolve_event := ev_EventID e |>.
Definition sql_resolve_alert (e : Event) (db : DB) : bool * DB :=
  (existsb (row_firing (ev_AlertKey e)) (db_alerts db),
   db <| db_alerts := (λ r, if row_firing (ev_AlertKey e) r then resolve_row e r else r) <$> db_alerts db |>).
Definition pg_ResolveAlert (e : Event) : ST pgTx error bool :=
  stmt (λ db, let '(hit, db) := sql_resolve_alert e db in (Ok hit, db)).

(** The sequence moves on even when the transaction is rolled back; it refuses to wrap around. *)
Definition sequence_exhausted : error := EPg "2200H" "ERROR: nextval: reached maximum value of sequence (SQLSTATE 2200H)".
Definition nextval (t : pgTx) : pgTx := MkPgTx (px_db t) (px_seq t + 1) (px_net t) (px_failed t).
Definition pg_Enqueue (m : OutboxMessage) : ST pgTx error unit := λ t,
  if (px_seq t =? int_max)%Z then stmt (λ db, (Err sequence_exhausted, db)) t
  else stmt (λ db, (Ok tt, db <| db_outbox := db_outbox db ++ [row_of_message (px_seq t + 1) m] |>)) (nextval t).

#[export] Instance pgTx_ops : TxOps pgTx := {|
  InsertObservation := pg_InsertObservation;
  TouchDevice := pg_TouchDevice;
  Samples := pg_Samples;
  GetState := pg_GetState;
  PutState := pg_PutState;
  InsertTransition := pg_InsertTransition;
  InsertEvent := pg_InsertEvent;
  OpenAlert := pg_OpenAlert;
  ResolveAlert := pg_ResolveAlert;
  Enqueue := pg_Enqueue;
|}.

(** ** Devices *)

Definition pg_Ping : ST PGStore error unit := autocommit "ping" (query (λ _, tt)).

(** On conflict every column but [last_seen] is replaced. *)
Definition upsert_device (t : gmap string device_row) (d : Device) : gmap string device_row :=
  let new := row_of_device d in
  <[d_ID d := match t !! d_ID d with Some old => new <| pd_last_seen := pd_last_seen old |> | None => new end]> t.
(** One batch is one implicit transaction. *)
Definition pg_UpsertDevices (devices : list Device) : ST PGStore error unit :=
  autocommit "upsert devices" (λ db, (Ok tt, db <| db_devices := foldl upsert_device (db_devices db) devices |>)).

(** [attributes || new]: the right operand wins. *)
Definition merge_attributes (attrs : smap) (d : device_row) : device_row :=
  d <| pd_attributes := js attrs ∪ pd_attributes d |>.
Definition pg_UpdateDeviceAttributes (id : string) (attrs : smap) : ST PGStore error unit :=
  autocommit "update device attributes" (λ db, (Ok tt, db <| db_devices := alter (merge_attributes attrs) id (db_devices db) |>)).

Definition pg_ListDevices : ST PGStore error (list Device) :=
  autocommit "list devices" (query (λ db,
    device_of_row <$> select_rows (λ _, true) (λ a b, collate (pd_id a) (pd_id b)) (rows_of (db_devices db)))).

(** ** Observations and states *)

Definition latest_wanted (deviceID metric : string) (labels : smap) (r : observation_row) : bool :=
  bool_decide (po_device r = deviceID) && bool_decide (po_metric r = metric)
  && match labels with Some _ => bool_decide (po_labels_key r = LabelsKey labels) | None => true end.
Definition sql_latest (deviceID metric : string) (labels : smap) (db : DB) : option Observation :=
  observation_of_row <$>
    head (select_rows (latest_wanted deviceID metric labels) (λ a b, (po_observed b <? po_observed a)%Z) (rows_of (db_observations db))).
Definition pg_Latest (deviceID metric : string) (labels : smap) : ST PGStore error (option Observation) :=
  autocommit "latest observation" (query (sql_latest deviceID metric labels)).

Definition sql_list_states (db : DB) : list StateRecord :=
  state_of_row <$> select_rows (λ _, true) (λ a b, collate (ps_key a) (ps_key b)) (rows_of (db_states db)).
Definition pg_ListStates : ST PGStore error (list StateRecord) := autocommit "list states" (query sql_list_states).

(** ** The outbox *)

(** [LIMIT n] refuses a negative [n]. *)
Definition limit_error : error := EPg "2201W" "ERROR: LIMIT must not be negative (SQLSTATE 2201W)".

(** The unpublished rows in id order that no other session holds, [limit] of them at most. *)
Definition claim_rows (limit : Z) (locked : Z → bool) (db : DB) : list outbox_row :=
  take (Z.to_nat limit)
    (select_rows (λ q, negb (pq_published q) && negb (locked (pq_id q))) (λ a b, (pq_id a <? pq_id b)%Z) (db_outbox db)).
Definition sql_claim (limit : Z) (locked : Z → bool) : DB → res (list outbox_row) * DB := λ db,
  if (limit <? 0)%Z then (Err limit_error, db) else (Ok (claim_rows limit locked db), db).

Definition sql_mark (ids : list Z) (db : DB) : DB :=
  db <| db_outbox := (λ q, if bool_decide (pq_id q ∈ ids) then q <| pq_published := true |> else q) <$> db_outbox db |>.

(** The body of the transaction: claim, publish, mark. [locked] are the rows other relays hold.
    The publisher's state [p] is not undone by a rollback. *)
Inductive drained := DrainNone | DrainPublish (err : error) | DrainFailed (err : error) | DrainMarked (n : Z).

Definition drain_body {P} (limit : Z) (locked : Z → bool) (publish : list OutboxMessage → P → option error * P) (p : P) (t : pgTx) :
    drained * P * pgTx :=
  match stmt (sql_claim limit locked) t with
  | (Err e, t) => (DrainFailed (fail "outbox claim" e), p, t)
  | (Ok [], t) => (DrainNone, p, t)
  | (Ok rows, t) =>
      match publish (message_of_row <$> rows) p with
      | (Some err, p) => (DrainPublish err, p, t)
      | (None, p) =>
          match stmt (λ db, (Ok tt, sql_mark (pq_id <$> rows) db)) t with
          | (Err e, t) => (DrainFailed (fail "outbox mark" e), p, t)
          | (Ok _, t) => (DrainMarked (Z.of_nat (length rows)), p, t)
          end
      end
  end.

(** Begin, the body, then commit; every other way out rolls back. *)
Definition pg_DrainOutbox {P} (limit : Z) (locked : Z → bool) (publish : list OutboxMessage → P → option error * P) (p : P) (s : PGStore) :
    (Z * option error) * P * PGStore :=
  let '(tr, net) := next_trip (pg_net s) in
  let '(db, seq) := tp_peers tr (pg_db s, pg_seq s) in
  match tp_reply tr with
  | Fails e | Breaks e | Lost e => (0%Z, Some (fail "outbox begin" e), p, MkPGStore db seq net)
  | Runs =>
      match drain_body limit locked publish p (MkPgTx db seq net false) with
      | (DrainNone, p, t) => (0%Z, None, p, MkPGStore db (px_seq t) (px_net t))
      | (DrainPublish e, p, t) | (DrainFailed e, p, t) => (0%Z, Some e, p, MkPGStore db (px_seq t) (px_net t))
      | (DrainMarked n, p, t) =>
          let '(tr, net) := next_trip (px_net t) in
          match tp_reply tr with
          | Runs => (n, None, p, MkPGStore (px_db t) (px_seq t) net)
          | Fails e | Breaks e => (0%Z, Some (fail "outbox commit" e), p, MkPGStore db (px_seq t) net)
          | Lost e => (0%Z, Some (fail "outbox commit" e), p, MkPGStore (px_db t) (px_seq t) net)
          end
      end
  end.
End server.
