(* ===== verification/PgAgree.v ===== *)
(** * The two stores agree (src/internal/persistence/storetest is the suite both must pass)

    What a value reads back as and when that is the value itself ([exact_*]); a transaction as a list of operations, run against any store; what each operation does to the
    abstract store; and that the PostgreSQL store and the in-memory store do the same, for
    arguments that the columns hold exactly. *)

From S2P Require Import Prelude GoLib GoFloat Domain Store MemStore MemStoreFacts PgDB PgStore.

(** ** Encodings *)

Definition exact_time (t : Time) : Prop := micro t = t.
Definition exact_map (m : smap) : Prop := m ≠ Some ∅.
Definition exact_value (v : value) : Prop :=
  match v with VNil | VFloat64 _ | VBool _ | VString _ => True | _ => False end.

Lemma micro_idemp t : micro (micro t) = micro t.
Proof.
  unfold micro, Truncate, Microsecond. simpl. pose proof (Z.div_mod t 1000 ltac:(done)) as Hd.
  replace (t - t mod 1000)%Z with ((t / 1000) * 1000)%Z by lia. rewrite Z.mod_mul by done. lia.
Qed.
Lemma micro_zero : micro time_zero = time_zero.
Proof. done. Qed.
Lemma micro_bounds t : (micro t ≤ t < micro t + 1000)%Z.
Proof. unfold micro, Truncate, Microsecond. simpl. pose proof (Z.mod_pos_bound t 1000 ltac:(done)). lia. Qed.
(** Against an exact time it makes no difference whether the other is truncated. *)
Lemma micro_lt t u : exact_time u → (micro t <? u)%Z = (t <? u)%Z.
Proof.
  unfold exact_time, micro, Truncate, Microsecond. simpl. intros Hu.
  pose proof (Z.mod_pos_bound t 1000 ltac:(done)). pose proof (Z.div_mod t 1000 ltac:(done)). pose proof (Z.div_mod u 1000 ltac:(done)).
  destruct (Z.ltb_spec (t - t mod 1000) u), (Z.ltb_spec t u); try done; lia.
Qed.
Lemma micro_le t u : exact_time u → (u <=? micro t)%Z = (u <=? t)%Z.
Proof. intros Hu. rewrite !Z.leb_antisym. f_equal. by apply micro_lt. Qed.

Lemma entries_decode b : entries (decodeLabels b) = b.
Proof. unfold decodeLabels. case_bool_decide as Hb; [by rewrite Hb|done]. Qed.
Lemma js_decode b : js (decodeLabels b) = b.
Proof. apply entries_decode. Qed.
Lemma decode_js m : decodeLabels (js m) = m ↔ exact_map m.
Proof.
  unfold decodeLabels, js, exact_map. destruct m as [m|]; simpl; case_bool_decide as Hm; subst; split; congruence.
Qed.
Lemma LabelsKey_entries_eq m1 m2 : entries m1 = entries m2 → LabelsKey m1 = LabelsKey m2.
Proof. intros He. unfold LabelsKey, mlen, sorted_keys, mlist, mread, mget. by rewrite He. Qed.
Lemma LabelsKey_decode m : LabelsKey (decodeLabels (js m)) = LabelsKey m.
Proof. apply LabelsKey_entries_eq. by rewrite entries_decode. Qed.

Lemma from_nilTime t : from_null (nilTime t) = micro t.
Proof. unfold nilTime, IsZero. destruct (Z.eqb_spec t 0) as [->|]; done. Qed.
Lemma nilTime_micro t : t = 0%Z ∨ micro t ≠ 0%Z → nilTime (micro t) = nilTime t.
Proof.
  unfold nilTime, IsZero. destruct (Z.eqb_spec t 0) as [->|]; [done|]. intros [?|Ht]; [done|].
  destruct (Z.eqb_spec (micro t) 0); [done|]. by rewrite micro_idemp.
Qed.

Definition held_observation (o : Observation) : Observation := observation_of_row (row_of_observation o).
Definition held_state (r : StateRecord) : StateRecord := state_of_row (row_of_state r).
Definition held_transition (t : Transition) : Transition := transition_of_row (row_of_transition t).
Definition held_event (e : Event) : Event := event_of_row (row_of_event e).

Definition exact_observation (o : Observation) : Prop :=
  exact_value (o_Value o) ∧ exact_map (o_Labels o) ∧ exact_time (o_ObservedAt o) ∧ exact_time (o_ReceivedAt o) ∧ exact_map (o_Metadata o).
Definition exact_state (r : StateRecord) : Prop :=
  exact_map (sr_Labels r) ∧ Forall exact_time [sr_BadSince r; sr_GoodSince r; sr_LastObservedAt r; sr_LastSeenAt r; sr_LastTransitionAt r].
Definition exact_transition (t : Transition) : Prop := exact_map (tr_Labels t) ∧ exact_time (tr_At t).
Definition exact_event (e : Event) : Prop := exact_map (ev_Labels e) ∧ exact_time (ev_OccurredAt e).

(** Two records are equal when the fields that differ syntactically are. *)
Ltac field_by_field := split; [intros Heq; injection Heq; intros; by split_and!|intros; destruct_and?; f_equal; done].

Lemma value_roundtrip o :
  (let '(num, bl, txt) := value_columns o in value_of_columns num bl txt) = o_Value o ↔ exact_value (o_Value o).
Proof. unfold value_columns, Observation_Float. destruct (o_Value o) as [| | | | | | | |[]| |]; simpl; naive_solver. Qed.

Lemma held_observation_exact o : held_observation o = o ↔ exact_observation o.
Proof.
  unfold held_observation, exact_observation. rewrite <-value_roundtrip, <-!decode_js. unfold exact_time.
  unfold row_of_observation. destruct (value_columns o) as [[num bl] txt]. unfold observation_of_row. simpl.
  rewrite from_nilTime. destruct o; simpl. field_by_field.
Qed.
Lemma held_state_exact r : held_state r = r ↔ exact_state r.
Proof.
  unfold held_state, exact_state. rewrite <-!decode_js, !Forall_cons, Forall_nil. unfold exact_time, state_of_row. simpl.
  rewrite !from_nilTime. destruct r; simpl. field_by_field.
Qed.
Lemma held_transition_exact t : held_transition t = t ↔ exact_transition t.
Proof.
  unfold held_transition, exact_transition. rewrite <-!decode_js. unfold exact_time, transition_of_row. simpl.
  destruct t; simpl. field_by_field.
Qed.
Lemma held_event_exact e : held_event e = e ↔ exact_event e.
Proof.
  unfold held_event, exact_event. rewrite <-!decode_js. unfold exact_time, event_of_row. simpl. destruct e; simpl. field_by_field.
Qed.

(** ** The tables as the contract sees them *)

Definition pg_view (db : DB) : AStore :=
  MkAStore (device_of_row <$> db_devices db) (observation_of_row <$> db_observations db) (state_of_row <$> db_states db)
    (transition_of_row <$> db_transitions db) (event_of_row <$> db_events db) (alert_of_row <$> db_alerts db)
    ((λ q, (pq_subject q, pq_msg_id q)) <$> db_outbox db).

(** A row of observations holds what inserting some observation wrote. *)
Definition written (k : string) (r : observation_row) : Prop := ∃ o, o_ObservationID o = k ∧ r = row_of_observation o.

Record pg_ok (db : DB) (seq : Z) : Prop := {
  pgok_observations : map_Forall written (db_observations db);
  pgok_states : map_Forall (λ k r, ps_key r = k) (db_states db);
  pgok_firing : at_most_one_firing (alert_of_row <$> db_alerts db);
  pgok_opened : NoDup (pa_open_event <$> db_alerts db);
  pgok_outbox : StronglySorted Z.lt (pq_id <$> db_outbox db);
  pgok_seq : Forall (λ q, (pq_id q ≤ seq)%Z) (db_outbox db);
}.

Lemma EmptyDB_ok : pg_ok EmptyDB 0.
Proof. constructor; simpl; try apply map_Forall_empty; try constructor. by intros key i j a b. Qed.

(** ** Statements *)

Lemma wp_stmt {A} (f : DB → res A * DB) (Q : A → pgTx → Prop) t :
  (∀ a db net, px_failed t = false → f (px_db t) = (Ok a, db) → Q a (MkPgTx db (px_seq t) net false)) → wp (stmt f) Q t.
Proof.
  intros HQ. unfold wp, stmt. destruct (next_trip _) as [tr net]. destruct (px_failed t) eqn:Hf; [done|].
  destruct (tp_reply tr); [|done..]. destruct (f _) as [[a|e] db] eqn:He; [|done]. by apply HQ.
Qed.

(** The server answers every round trip to come, and the transaction has not failed. *)
Definition answers (net : list trip) : Prop := Forall (λ tr, tp_reply tr = Runs) net.
Definition healthy (t : pgTx) : Prop := answers (px_net t) ∧ px_failed t = false.

Lemma next_answers net : answers net → tp_reply (next_trip net).1 = Runs ∧ answers (next_trip net).2.
Proof. destruct 1; [split; [done|constructor]|done]. Qed.

Lemma stmt_run {A} (f : DB → res A * DB) t a db :
  healthy t → f (px_db t) = (Ok a, db) →
  ∃ net, answers net ∧ stmt f t = (Ok a, MkPgTx db (px_seq t) net false).
Proof.
  intros [[Hr Hn]%next_answers Hf] He. unfold stmt. destruct (next_trip _) as [tr net]. simpl in *. rewrite Hf, Hr, He. eauto.
Qed.

(** ** Transactions as data *)

Inductive tx_op :=
| OpInsertObservation (o : Observation)
| OpTouchDevice (id : string) (at_ : Time)
| OpSamples (deviceID metric labelsKey : string) (from to : Time)
| OpGetState (key : string)
| OpPutState (r : StateRecord)
| OpInsertTransition (tr : Transition)
| OpInsertEvent (e : Event)
| OpOpenAlert (e : Event)
| OpResolveAlert (e : Event)
| OpEnqueue (m : OutboxMessage).

Inductive tx_result :=
| RUnit
| RBool (b : bool)
| RState (r : option StateRecord)
| RSamples (l : list Sample).

Definition run_op `{TxOps T} (op : tx_op) : ST T error tx_result :=
  match op with
  | OpInsertObservation o => b ← InsertObservation o; mret (RBool b)
  | OpTouchDevice id at_ => _ ← TouchDevice id at_; mret RUnit
  | OpSamples d m k from to => l ← Samples d m k from to; mret (RSamples l)
  | OpGetState key => r ← GetState key; mret (RState r)
  | OpPutState r => _ ← PutState r; mret RUnit
  | OpInsertTransition tr => _ ← InsertTransition tr; mret RUnit
  | OpInsertEvent e => b ← InsertEvent e; mret (RBool b)
  | OpOpenAlert e => b ← OpenAlert e; mret (RBool b)
  | OpResolveAlert e => b ← ResolveAlert e; mret (RBool b)
  | OpEnqueue m => _ ← Enqueue m; mret RUnit
  end.

Fixpoint run_ops `{TxOps T} (ops : list tx_op) : ST T error (list tx_result) :=
  match ops with
  | [] => mret []
  | op :: ops => r ← run_op op; rs ← run_ops ops; mret (r :: rs)
  end.

Definition A_samples (deviceID metric labelsKey : string) (from to : Time) (s : AStore) : list Sample :=
  omap (sample_of deviceID metric labelsKey from to) (map_to_list (as_observations s)).*2.

Definition A_op (op : tx_op) (s : AStore) : tx_result * AStore :=
  match op with
  | OpInsertObservation o => prod_map RBool id (A_InsertObservation o s)
  | OpTouchDevice id at_ => (RUnit, (A_TouchDevice id at_ s).2)
  | OpSamples d m k from to => (RSamples (A_samples d m k from to s), s)
  | OpGetState key => prod_map RState id (A_GetState key s)
  | OpPutState r => (RUnit, (A_PutState r s).2)
  | OpInsertTransition tr => (RUnit, (A_InsertTransition tr s).2)
  | OpInsertEvent e => prod_map RBool id (A_InsertEvent e s)
  | OpOpenAlert e => prod_map RBool id (A_OpenAlert e s)
  | OpResolveAlert e => prod_map RBool id (A_ResolveAlert e s)
  | OpEnqueue m => (RUnit, (A_Enqueue m s).2)
  end.

(** Samples come oldest first; the order of two at the same time is left open. *)
Definition by_time : list Sample → Prop := Sorted (λ a b, (sm_At a ≤ sm_At b)%Z).
Definition meets (r spec : tx_result) : Prop :=
  match r, spec with
  | RSamples l, RSamples l' => l ≡ₚ l' ∧ by_time l
  | _, _ => r = spec
  end.

(** ** When the columns hold an operation's argument exactly *)

Definition op_exact (op : tx_op) (s : AStore) : Prop :=
  match op with
  | OpInsertObservation o => exact_observation o
  | OpTouchDevice _ at_ => exact_time at_ ∧ (time_zero ≤ at_)%Z
  | OpSamples _ _ _ _ _ | OpGetState _ | OpEnqueue _ => True
  | OpPutState r =>
      exact_state r ∧ int4_ok (sr_Failures r) = true ∧ int4_ok (sr_Successes r) = true ∧
      (* a key names one entity: its device, definition and labels do not change *)
      ∀ old, as_states s !! sr_Key r = Some old →
        sr_DeviceID old = sr_DeviceID r ∧ sr_DefinitionID old = sr_DefinitionID r ∧ sr_Labels old = sr_Labels r
  | OpInsertTransition tr => exact_transition tr
  | OpInsertEvent e => exact_event e
  | OpOpenAlert e =>
      (* an event opens one alert *)
      exact_event e ∧ (firing (ev_AlertKey e) (as_alerts s) = true ∨ ev_EventID e ∉ al_OpenEventID <$> as_alerts s)
  | OpResolveAlert e => exact_time (ev_OccurredAt e)
  end.

Fixpoint ops_exact (ops : list tx_op) (s : AStore) : Prop :=
  match ops with
  | [] => True
  | op :: ops => op_exact op s ∧ ops_exact ops (A_op op s).2
  end.

(** ** The in-memory store *)

Lemma wp_result `{TxOps T} {A} (view : T → AStore) (m : ST T error A) (f : AStore → A * AStore) (g : A → tx_result) t :
  implements view m f →
  wp (a ← m; mret (g a)) (λ r t', r = g (f (view t)).1 ∧ view t' = (f (view t)).2) t.
Proof.
  intros Hm. apply wp_bind. eapply wp_mono; [|apply Hm]. intros a t' Heq. apply wp_ret. by rewrite <-Heq.
Qed.

(** The values listed in key order are the values stored. *)
Lemma order_values {V} (m : gmap string V) order : order_ok m order → omap (λ id, m !! id) order ≡ₚ (map_to_list m).*2.
Proof.
  intros [Hnd Hin].
  assert (omap (λ id, m !! id) order ≡ₚ omap (λ id, m !! id) (map_to_list m).*1) as ->.
  { apply omap_Permutation, NoDup_Permutation; [done|apply NoDup_fst_map_to_list|]. intros id. rewrite Hin.
    rewrite list_elem_of_fmap. split.
    - intros [o Ho]. exists (id, o). split; [done|]. by apply elem_of_map_to_list.
    - intros ([id' o] & -> & Ho%elem_of_map_to_list). eauto. }
  assert (∀ l : list (string * V), Forall (λ p, m !! p.1 = Some p.2) l → omap (λ id, m !! id) l.*1 = l.*2) as Hl.
  { induction l as [|[id o] l IH]; [done|]. intros [Ho Hl]%Forall_cons. cbn in *. rewrite Ho. cbn. f_equal. by apply IH. }
  rewrite Hl; [done|]. apply Forall_forall. intros [id o] ?%elem_of_map_to_list. done.
Qed.

Lemma mem_op_meets op t :
  store_ok (tx_s t) →
  wp (run_op op) (λ r t', meets r (A_op op (mem_view (tx_s t))).1 ∧ mem_view (tx_s t') = (A_op op (mem_view (tx_s t))).2) t.
Proof.
  intros Hok. destruct op; cbn [run_op A_op].
  3: { unfold wp. simpl. split; [|done]. split.
       - rewrite sort_stable_perm. by apply omap_Permutation, order_values, ok_observations.
       - by destruct (mem_Samples_spec deviceID metric labelsKey from to t) as (_ & _ & Hs). }
  all: eapply wp_mono; [|eapply wp_result; first
    [apply mem_InsertObservation_spec|apply mem_TouchDevice_spec|apply (GetState_spec (T:=memTx))|apply (PutState_spec (T:=memTx))
    |apply mem_InsertTransition_spec|apply mem_InsertEvent_spec|apply mem_OpenAlert_spec|apply mem_ResolveAlert_spec|apply mem_Enqueue_spec]].
  all: intros ? t' [-> Hv]; by split.
Qed.

#[export] Instance mem_op_ok op : keeps_ok (run_op op).
Proof. destruct op; apply _. Qed.

Lemma mem_op_total op (t : memTx) : ∃ r t', run_op op t = (Ok r, t').
Proof.
  destruct op; unfold run_op, mbind, ST_bind, mret, ST_ret; simpl;
    unfold mem_InsertObservation, mem_TouchDevice, mem_InsertTransition, mem_InsertEvent, mem_OpenAlert, mem_ResolveAlert;
    repeat case_match; simplify_eq; eauto.
Qed.

(** ** The PostgreSQL store *)

Section pg.
Context `{PgServerOk}.

Lemma omap_filter_if {A B} (p : A → bool) (g : A → option B) (l : list A) :
  omap g (filter (λ x, p x = true) l) = omap (λ x, if p x then g x else None) l.
Proof.
  induction l as [|x l IH]; [done|]. rewrite filter_cons. case_decide as Hp; cbn.
  - rewrite Hp. destruct (g x); [f_equal|]; exact IH.
  - apply not_true_is_false in Hp. rewrite Hp. exact IH.
Qed.

(** What a stored row contributes to a window is what the observation it decodes to does. *)
Lemma sample_of_written d m k from to key r :
  written key r →
  sample_of d m k from to (observation_of_row r) = if in_series d m k from to r then sample_of_row r else None.
Proof.
  intros (o & _ & ->). unfold sample_of, in_series, sample_of_row, row_of_observation.
  destruct (value_columns o) as [[num bl] txt] eqn:Hv. unfold observation_of_row. simpl. rewrite LabelsKey_decode.
  rewrite !bool_decide_not, micro_lt, micro_le by apply micro_idemp. unfold After.
  assert (∃ v, value_of_columns num bl txt = v ∧ match v with VFloat64 f => num = Some f ∧ bl = None
            | VBool b => num = Some (if b then f_one else f_zero) ∧ bl = Some b | VInt _ | VInt64 _ => False | _ => num = None end) as (v & Hvv & Hnum).
  { revert Hv. unfold value_columns, Observation_Float. destruct (o_Value o) as [| | | | | | | |[]| |]; intros [= <- <- <-];
      (eexists; split; [reflexivity|done]). }
  rewrite Z.leb_antisym.
  destruct (bool_decide (o_DeviceID o = d)), (bool_decide (o_Metric o = m)), (bool_decide (LabelsKey (o_Labels o) = k)); simpl; try done.
  destruct (from <? _)%Z, (to <? _)%Z; simpl; try done. unfold Observation_Float, Observation_Bool. simpl. rewrite Hvv.
  destruct v; destruct_and?; subst; done.
Qed.

Lemma rows_of_fmap {R V} (f : R → V) (t : gmap string R) : (map_to_list (f <$> t)).*2 = f <$> rows_of t.
Proof. unfold rows_of. rewrite map_to_list_fmap, <-!list_fmap_compose. apply list_fmap_ext. by intros ? []. Qed.

Lemma omap_fmap_list {A B C} (f : A → B) (g : B → option C) (l : list A) : omap g (f <$> l) = omap (λ x, g (f x)) l.
Proof. induction l as [|x l IH]; [done|]. rewrite fmap_cons. cbn. destruct (g (f x)); [f_equal|]; exact IH. Qed.

Lemma rows_of_Forall {R} (P : string → R → Prop) (t : gmap string R) : map_Forall P t → Forall (λ r, ∃ k, t !! k = Some r ∧ P k r) (rows_of t).
Proof.
  intros HP. unfold rows_of. apply Forall_fmap, Forall_forall. intros [k r] Hk%elem_of_map_to_list. simpl. eauto.
Qed.

Lemma sql_samples_perm d m k from to db seq :
  pg_ok db seq → sql_samples d m k from to db ≡ₚ A_samples d m k from to (pg_view db).
Proof using Type*.
  intros Hok. unfold sql_samples, select_rows, A_samples, pg_view. simpl.
  rewrite sort_stable_perm, omap_filter_if, rows_of_fmap, omap_fmap_list, scan_perm.
  pose proof (rows_of_Forall _ _ (pgok_observations _ _ Hok)) as Hall.
  induction Hall as [|r l (key & _ & Hw) Hall IH]; [done|]. cbn. rewrite (sample_of_written _ _ _ _ _ key) by done.
  destruct (if in_series d m k from to r then _ else _); [f_equiv|]; exact IH.
Qed.

(** Sorting rows by a column sorts what is read from them. *)
Lemma select_sorted {R} (key : R → Z) (p : R → bool) (rows : list R) :
  StronglySorted (λ a b, (key a ≤ key b)%Z) (select_rows p (λ a b, (key a <? key b)%Z) rows).
Proof.
  apply Sorted_StronglySorted; [intros x y z ??; lia|].
  apply sort_stable_sorted; intros x y; [intros ?%Z.ltb_lt; apply Z.ltb_ge; lia|intros ?%Z.ltb_ge; lia].
Qed.

Lemma sql_samples_sorted d m k from to db : by_time (sql_samples d m k from to db).
Proof.
  unfold by_time, sql_samples. apply StronglySorted_Sorted.
  pose proof (select_sorted po_observed (in_series d m k from to) (rows_of (db_observations db))) as Hs.
  induction Hs as [|r l Hs IH Hr]; [constructor|]. cbn. unfold sample_of_row at 1. destruct (po_num r); [|exact IH].
  constructor; [exact IH|]. apply Forall_forall. intros smp (r' & Hr' & Hsm)%list_elem_of_omap.
  rewrite Forall_forall in Hr. specialize (Hr r' Hr'). unfold sample_of_row in Hsm. apply fmap_Some in Hsm as (? & _ & ->). done.
Qed.

Lemma firing_rows key rows : firing key (alert_of_row <$> rows) = existsb (row_firing key) rows.
Proof. unfold firing. induction rows as [|r l IH]; [done|]. rewrite fmap_cons. cbn [existsb]. by rewrite IH. Qed.

Lemma opened_rows id rows : id ∉ pa_open_event <$> rows ↔ existsb (λ r, bool_decide (pa_open_event r = id)) rows = false.
Proof.
  induction rows as [|r l IH]; [split; [done|by intros _ ?%elem_of_nil]|].
  rewrite fmap_cons. cbn [existsb]. rewrite not_elem_of_cons, IH, orb_false_iff, bool_decide_eq_false. naive_solver.
Qed.

Lemma existsb_orb {A} (f g : A → bool) l : existsb (λ x, f x || g x) l = existsb f l || existsb g l.
Proof. induction l as [|x l IH]; [done|]. simpl. rewrite IH. by destruct (f x), (g x), (existsb f l). Qed.

Lemma alert_of_opening e : exact_event e → alert_of_row (row_of_opening e) = alert_of e.
Proof. intros [Hl%decode_js Ht]. unfold exact_time in Ht. unfold alert_of_row, alert_of. simpl. by rewrite Hl, Ht. Qed.

(** One firing alert per key: resolving every firing row is resolving the first. *)
Lemma resolve_rows e rows :
  exact_time (ev_OccurredAt e) → at_most_one_firing (alert_of_row <$> rows) →
  alert_of_row <$> ((λ r, if row_firing (ev_AlertKey e) r then resolve_row e r else r) <$> rows)
  = resolve_first e (alert_of_row <$> rows).
Proof.
  intros Ht. induction rows as [|r l IH]; intros Hone; [done|]. rewrite !fmap_cons. simpl.
  assert (at_most_one_firing (alert_of_row <$> l)) as Hone'.
  { intros k i j x y Hi Hj Hx Hy. assert (S i = S j) by (eapply Hone; eauto). lia. }
  change (is_firing (ev_AlertKey e) (alert_of_row r)) with (row_firing (ev_AlertKey e) r).
  destruct (row_firing _ r) eqn:Hr; [|by rewrite IH]. f_equal.
  - unfold alert_of_row, resolved_by. simpl. by rewrite Ht.
  - rewrite <-list_fmap_compose. apply list_fmap_ext. intros i x Hx. simpl.
    destruct (row_firing _ x) eqn:Hfx; [|done]. exfalso.
    assert ((alert_of_row <$> r :: l) !! S i = Some (alert_of_row x)) as Hi by (rewrite list_lookup_fmap; simpl; by rewrite Hx).
    by pose proof (Hone (ev_AlertKey e) 0 (S i) (alert_of_row r) _ eq_refl Hi Hr Hfx).
Qed.

(** *** Each table's part of the invariant *)

Lemma pg_ok_alerts db seq rows :
  pg_ok db seq → at_most_one_firing (alert_of_row <$> rows) → NoDup (pa_open_event <$> rows) → pg_ok (db <| db_alerts := rows |>) seq.
Proof. intros [] ??. by constructor. Qed.

Lemma pg_ok_enqueue db seq m :
  pg_ok db seq → pg_ok (db <| db_outbox := db_outbox db ++ [row_of_message (seq + 1) m] |>) (seq + 1).
Proof.
  intros [Hobs Hst Hf Ho Hs Hseq]. constructor; simpl; try done.
  - rewrite fmap_app. apply StronglySorted_app. split_and!; [|done|repeat constructor].
    intros x y (q & -> & Hq)%list_elem_of_fmap ->%list_elem_of_singleton. rewrite Forall_forall in Hseq. specialize (Hseq q Hq). simpl. lia.
  - apply Forall_app. split; [|repeat constructor; simpl; lia]. eapply Forall_impl; [done|]. simpl. lia.
Qed.

(** *** Each operation *)

(** The outcome of an operation on the tables against the abstract store. *)
Definition refines {A} (f : DB → A * DB) (g : AStore → A * AStore) (pre : AStore → Prop) : Prop :=
  ∀ db seq, pg_ok db seq → pre (pg_view db) →
    (f db).1 = (g (pg_view db)).1 ∧ pg_view (f db).2 = (g (pg_view db)).2 ∧ pg_ok (f db).2 seq.

Lemma insert_observation_refines o :
  refines (sql_insert_observation o) (A_InsertObservation o) (op_exact (OpInsertObservation o)).
Proof.
  intros db seq Hok Hex%held_observation_exact. unfold sql_insert_observation, insert_nothing, A_InsertObservation. simpl.
  rewrite lookup_fmap. destruct (db_observations db !! _) eqn:Hl; simpl; [split_and!; [done|by destruct db|by destruct db]|].
  split_and!; [done|unfold pg_view; simpl; rewrite fmap_insert; by fold (held_observation o); rewrite Hex|].
  destruct Hok. constructor; simpl; try done. apply map_Forall_insert_2; [by exists o|done].
Qed.

Lemma insert_event_refines e : refines (sql_insert_event e) (A_InsertEvent e) (op_exact (OpInsertEvent e)).
Proof.
  intros db seq Hok Hex%held_event_exact. unfold sql_insert_event, insert_nothing, A_InsertEvent. simpl.
  rewrite lookup_fmap. destruct (db_events db !! _) eqn:Hl; simpl; [split_and!; [done|by destruct db|by destruct db]|].
  split_and!; [done|unfold pg_view; simpl; rewrite fmap_insert; by fold (held_event e); rewrite Hex|by destruct Hok].
Qed.

Lemma open_alert_refines e : refines (sql_open_alert e) (A_OpenAlert e) (op_exact (OpOpenAlert e)).
Proof.
  intros db seq Hok [Hex Hid]. unfold sql_open_alert, A_OpenAlert. simpl in *. rewrite firing_rows in *.
  rewrite existsb_orb. destruct (existsb (row_firing _) _) eqn:Hf; [by rewrite orb_true_r|].
  destruct Hid as [?|Hid]; [done|]. rewrite <-list_fmap_compose in Hid. pose proof (proj1 (opened_rows _ _) Hid) as Hno.
  rewrite Hno. simpl. split_and!; [done|unfold pg_view; simpl; by rewrite fmap_app, fmap_cons, alert_of_opening by done|].
  apply pg_ok_alerts; [done| |].
  - rewrite fmap_app, fmap_cons, alert_of_opening by done. apply open_at_most_one; [by rewrite firing_rows|apply Hok].
  - rewrite fmap_app. apply NoDup_app. split_and!; [apply Hok| |apply NoDup_singleton].
    by intros x Hx ->%list_elem_of_singleton.
Qed.

Lemma resolve_alert_refines e : refines (sql_resolve_alert e) (A_ResolveAlert e) (op_exact (OpResolveAlert e)).
Proof.
  intros db seq Hok Hex. unfold sql_resolve_alert, A_ResolveAlert. simpl in *. rewrite firing_rows.
  pose proof (resolve_rows e (db_alerts db) Hex (pgok_firing _ _ Hok)) as Hres. split_and!.
  - by destruct (existsb _ _).
  - unfold pg_view. simpl. rewrite Hres. destruct (existsb _ _) eqn:Hf; [done|]. by rewrite resolve_first_closed by (by rewrite firing_rows).
  - apply pg_ok_alerts; [done| |].
    + rewrite Hres. apply resolve_at_most_one, Hok.
    + rewrite <-list_fmap_compose. erewrite list_fmap_ext; [apply Hok|]. intros i r _. simpl. by destruct (row_firing _ r).
Qed.

Lemma alter_present {V} (f : V → V) (id : string) (d : V) (m : gmap string V) : m !! id = Some d → alter f id m = <[id := f d]> m.
Proof.
  intros Hd. apply map_eq. intros j. destruct (decide (id = j)) as [<-|].
  - by rewrite lookup_alter_eq, lookup_insert_eq, Hd.
  - by rewrite lookup_alter_ne, lookup_insert_ne.
Qed.

Lemma touch_device_refines id at_ :
  refines (λ db, (tt, db <| db_devices := alter (touch_row at_) id (db_devices db) |>)) (A_TouchDevice id at_) (op_exact (OpTouchDevice id at_)).
Proof.
  intros db seq Hok [Hex Hpos]. unfold A_TouchDevice. simpl. rewrite lookup_fmap. split; [by repeat case_match|].
  split; [|by destruct Hok]. destruct (db_devices db !! id) as [d|] eqn:Hd; simpl.
  - assert (device_of_row (touch_row at_ d) = if After at_ (from_null (pd_last_seen d)) then (device_of_row d) <| d_LastSeen := at_ |> else device_of_row d) as Ht.
    { unfold touch_row, device_of_row, After, from_null, exact_time, time_zero in *. rewrite Hex. simpl.
      destruct (pd_last_seen d) as [seen|]; simpl; destruct (Z.ltb_spec 0 at_) as [|], d; simpl in *; f_equal; try lia.
      all: try destruct (Z.ltb_spec seen at_); f_equal; lia. }
    unfold pg_view. simpl. rewrite (alter_present _ _ d) by done. rewrite fmap_insert, Ht.
    case_match; [done|]. simpl. f_equal. apply insert_id. by rewrite lookup_fmap, Hd.
  - unfold pg_view. simpl. by rewrite alter_id by (intros ? ?; congruence).
Qed.

Lemma put_state_refines r : refines (λ db, (tt, sql_put_state r db)) (A_PutState r) (op_exact (OpPutState r)).
Proof.
  intros db seq Hok (Hex%held_state_exact & _ & _ & Hsame). unfold sql_put_state, A_PutState. simpl in *. split; [done|].
  rewrite lookup_fmap in Hsame. split.
  - unfold pg_view. simpl. rewrite fmap_insert. do 2 f_equal. transitivity (held_state r); [|exact Hex].
    destruct (db_states db !! sr_Key r) as [old|] eqn:Hold; [|done].
    destruct (Hsame (state_of_row old)) as (Hd & Hdef & Hl); [done|]. simpl in *.
    pose proof (pgok_states _ _ Hok _ _ Hold) as Hk. simpl in Hk.
    apply (f_equal sr_Labels) in Hex. simpl in Hex.
    unfold held_state, merge_state, state_of_row. simpl. by rewrite Hk, Hd, Hdef, Hl, Hex.
  - destruct Hok as [Hobs Hst Hf Ho Hs Hseq]. constructor; simpl; try done. apply map_Forall_insert_2; [|done].
    destruct (db_states db !! sr_Key r) as [old|] eqn:Hold; [|done]. simpl. by apply (Hst _ _ Hold).
Qed.

Lemma insert_transition_refines tr :
  refines (λ db, (tt, db <| db_transitions := (insert_nothing (tr_TransitionID tr) (row_of_transition tr) (db_transitions db)).2 |>))
    (A_InsertTransition tr) (op_exact (OpInsertTransition tr)).
Proof.
  intros db seq Hok Hex%held_transition_exact. unfold insert_nothing, A_InsertTransition. simpl. rewrite lookup_fmap.
  destruct (db_transitions db !! _) eqn:Hl; simpl; [split_and!; [done|by destruct db|by destruct db]|].
  split_and!; [done|unfold pg_view; simpl; rewrite fmap_insert; by fold (held_transition tr); rewrite Hex|by destruct Hok].
Qed.

(** A statement that carries out [f] meets what [f] refines. *)
Lemma stmt_meets {A} (f : DB → A * DB) (g : AStore → A * AStore) (pre : AStore → Prop) (m : ST pgTx error A) (k : A → tx_result) t :
  refines f g pre → (∀ a b, meets (k a) (k b) ↔ k a = k b) →
  m = stmt (λ db, let '(a, db) := f db in (Ok a, db)) →
  pg_ok (px_db t) (px_seq t) → pre (pg_view (px_db t)) →
  wp (a ← m; mret (k a)) (λ r t', meets r (k (g (pg_view (px_db t))).1) ∧ pg_view (px_db t') = (g (pg_view (px_db t))).2
                                  ∧ pg_ok (px_db t') (px_seq t')) t.
Proof.
  intros Href Hk -> Hok Hpre. apply wp_bind, wp_stmt. intros a db net _. destruct (Href _ _ Hok Hpre) as (Ha & Hdb & Hok').
  destruct (f (px_db t)) as [a' db'] eqn:Hf. intros [= -> ->]. apply wp_ret. simpl in *. rewrite <-Ha. split; [by apply Hk|done].
Qed.

Lemma wp_Enqueue m (Q : unit → pgTx → Prop) t :
  (∀ net, Q tt (MkPgTx ((px_db t) <| db_outbox := db_outbox (px_db t) ++ [row_of_message (px_seq t + 1) m] |>) (px_seq t + 1) net false)) →
  wp (pg_Enqueue m) Q t.
Proof.
  intros HQ. unfold wp, pg_Enqueue. destruct (px_seq t =? int_max)%Z.
  - by apply (wp_stmt (λ db, (Err sequence_exhausted, db)) Q).
  - eapply (wp_stmt _ Q). by intros [] db net _ [= <-].
Qed.

Lemma pg_op_meets op t :
  pg_ok (px_db t) (px_seq t) → op_exact op (pg_view (px_db t)) →
  wp (run_op op) (λ r t', meets r (A_op op (pg_view (px_db t))).1 ∧ pg_view (px_db t') = (A_op op (pg_view (px_db t))).2
                          ∧ pg_ok (px_db t') (px_seq t')) t.
Proof using Type*.
  intros Hok Hex. destruct op; cbn [run_op A_op].
  - eapply (stmt_meets _ _ _ _ RBool); [apply insert_observation_refines|(intros; simpl; tauto)|reflexivity|done|done].
  - eapply (stmt_meets _ _ _ _ (λ _, RUnit)); [apply touch_device_refines|(intros; simpl; tauto)|reflexivity|done|done].
  - apply wp_bind, wp_stmt. intros l db net _ [= <- <-]. apply wp_ret. simpl. split; [|done].
    split; [by eapply sql_samples_perm|apply sql_samples_sorted].
  - apply wp_bind, wp_bind, wp_stmt. intros [] db net _ [= <-]. apply wp_stmt. intros st db net' _ [= <- <-]. apply wp_ret.
    simpl. by rewrite lookup_fmap.
  - eapply (stmt_meets _ _ _ _ (λ _, RUnit)); [apply put_state_refines|(intros; simpl; tauto)| |done|done].
    destruct Hex as (_ & Hf & Hs & _). simpl. unfold pg_PutState. by rewrite Hf, Hs.
  - eapply (stmt_meets _ _ _ _ (λ _, RUnit)); [apply insert_transition_refines|(intros; simpl; tauto)|reflexivity|done|done].
  - eapply (stmt_meets _ _ _ _ RBool); [apply insert_event_refines|(intros; simpl; tauto)|reflexivity|done|done].
  - eapply (stmt_meets _ _ _ _ RBool); [apply open_alert_refines|(intros; simpl; tauto)|reflexivity|done|done].
  - eapply (stmt_meets _ _ _ _ RBool); [apply resolve_alert_refines|(intros; simpl; tauto)|reflexivity|done|done].
  - apply wp_bind, wp_Enqueue. intros net. apply wp_ret. split; [done|]. split; [|by apply pg_ok_enqueue].
    unfold pg_view, A_Enqueue. simpl. by rewrite fmap_app.
Qed.

(** When the server answers, every operation of the contract succeeds. *)
Lemma pg_op_total op t :
  healthy t → (px_seq t < int_max)%Z → op_exact op (pg_view (px_db t)) →
  ∃ r t', run_op op t = (Ok r, t') ∧ healthy t' ∧ (px_seq t' ≤ px_seq t + 1)%Z.
Proof.
  intros Hh Hseq Hex.
  assert (∀ A (m : ST pgTx error A) k f, m = stmt f → (∃ a db, f (px_db t) = (Ok a, db)) →
    ∃ r t', (a ← m; mret (k a)) t = (Ok (r : tx_result), t') ∧ healthy t' ∧ (px_seq t' ≤ px_seq t + 1)%Z) as Hrun.
  { intros A m k f -> (a & db & Hf). destruct (stmt_run f t a db Hh Hf) as (net & Hnet & Hst).
    rewrite (ST_bind_Ok _ _ _ _ _ Hst). do 2 eexists. split; [done|]. split; [done|simpl; lia]. }
  destruct op; cbn [run_op]; try (eapply Hrun; [reflexivity|]; simpl; repeat case_match; eauto).
  - destruct (stmt_run (query (λ _, tt)) t tt (px_db t) Hh eq_refl) as (net & Hnet & Hst).
    destruct (stmt_run (query (λ db, state_of_row <$> db_states db !! key)) (MkPgTx (px_db t) (px_seq t) net false) _ _ (conj Hnet eq_refl) eq_refl)
      as (net' & Hnet' & Hst').
    do 2 eexists. split; [erewrite ST_bind_Ok; [done|]; simpl; unfold pg_GetState; erewrite ST_bind_Ok; [exact Hst'|exact Hst]|].
    split; [done|simpl; lia].
  - destruct Hex as (_ & Hf & Hs & _). eapply Hrun; [simpl; unfold pg_PutState; rewrite Hf, Hs; reflexivity|eauto].
  - simpl. unfold pg_Enqueue, mbind, ST_bind. destruct (Z.eqb_spec (px_seq t) int_max); [lia|].
    edestruct (stmt_run (λ db, (Ok tt, db <| db_outbox := db_outbox db ++ [row_of_message (px_seq t + 1) m] |>)) (nextval t))
      as (net & Hnet & ->); [exact Hh|done|]. do 2 eexists. split; [done|]. split; [done|simpl; lia].
Qed.

(** ** A transaction of several operations *)

Fixpoint A_ops (ops : list tx_op) (s : AStore) : list tx_result * AStore :=
  match ops with
  | [] => ([], s)
  | op :: ops => prod_map (cons (A_op op s).1) id (A_ops ops (A_op op s).2)
  end.

Lemma pg_ops_meet ops t :
  pg_ok (px_db t) (px_seq t) → ops_exact ops (pg_view (px_db t)) →
  wp (run_ops ops) (λ rs t', Forall2 meets rs (A_ops ops (pg_view (px_db t))).1 ∧ pg_view (px_db t') = (A_ops ops (pg_view (px_db t))).2
                             ∧ pg_ok (px_db t') (px_seq t')) t.
Proof using Type*.
  revert t. induction ops as [|op ops IH]; intros t Hok Hex; cbn [run_ops A_ops]; [by apply wp_ret|].
  destruct Hex as [Hop Hops]. apply wp_bind. eapply wp_mono; [|by apply pg_op_meets].
  intros r t1 (Hr & Hv & Hok1). apply wp_bind. eapply wp_mono; [|apply IH; [done|by rewrite Hv]].
  intros rs t2 (Hrs & Hv2 & Hok2). apply wp_ret. rewrite Hv in Hrs, Hv2. split_and!; [by constructor|done|done].
Qed.

Lemma pg_ops_total ops t :
  pg_ok (px_db t) (px_seq t) → ops_exact ops (pg_view (px_db t)) → healthy t → (px_seq t + Z.of_nat (length ops) ≤ int_max)%Z →
  ∃ rs t', run_ops ops t = (Ok rs, t') ∧ healthy t'.
Proof using Type*.
  revert t. induction ops as [|op ops IH]; intros t Hok Hex Hh Hseq; cbn [run_ops]; [by do 2 eexists|].
  destruct Hex as [Hop Hops]. simpl in Hseq. destruct (pg_op_total op t) as (r & t1 & Hr & Hh1 & Hs1); [done|lia|done|].
  destruct (wp_elim _ _ _ _ _ (pg_op_meets op t Hok Hop) Hr) as (_ & Hv & Hok1).
  destruct (IH t1) as (rs & t2 & Hrs & Hh2); [done|by rewrite Hv|done|lia|].
  do 2 eexists. split; [|done]. rewrite (ST_bind_Ok _ _ _ _ _ Hr), (ST_bind_Ok _ _ _ _ _ Hrs). done.
Qed.
End pg.

Lemma mem_ops_meet ops (t : memTx) :
  store_ok (tx_s t) →
  ∃ rs t', run_ops ops t = (Ok rs, t') ∧ Forall2 meets rs (A_ops ops (mem_view (tx_s t))).1
           ∧ mem_view (tx_s t') = (A_ops ops (mem_view (tx_s t))).2 ∧ store_ok (tx_s t').
Proof.
  revert t. induction ops as [|op ops IH]; intros t Hok; cbn [run_ops A_ops]; [do 2 eexists; by split_and!|].
  destruct (mem_op_total op t) as (r & t1 & Hr). destruct (wp_elim _ _ _ _ _ (mem_op_meets op t Hok) Hr) as (Hm & Hv).
  pose proof (keeps (m:=run_op op) t Hok) as Hok1. rewrite Hr in Hok1.
  destruct (IH t1 Hok1) as (rs & t2 & Hrs & Hms & Hv2 & Hok2). rewrite Hv in Hms, Hv2.
  do 2 eexists. rewrite (ST_bind_Ok _ _ _ _ _ Hr), (ST_bind_Ok _ _ _ _ _ Hrs). split_and!; [done|by constructor|done|done].
Qed.
