(* ===== verification/PgThms.v ===== *)
(** * The PostgreSQL store: atomicity, errors, agreement and the outbox *)

From stdpp Require Import relations.
From S2P Require Import Prelude GoLib GoFloat Domain Store MemStore MemStoreFacts PgDB PgStore PgAgree.

(** ** Bodies use up the network *)

(** A body consumes round trips and adds none. *)
Class Consumes {A} (m : ST pgTx error A) : Prop := consumes t : px_net (m t).2 `suffix_of` px_net t.

Lemma next_suffix net : (next_trip net).2 `suffix_of` net.
Proof. destruct net; [done|]. by apply suffix_cons_r. Qed.

#[export] Instance consumes_ret {A} (a : A) : Consumes (mret a).
Proof. by intros t. Qed.
#[export] Instance consumes_fail {A} e : Consumes (ST_fail (A:=A) e).
Proof. by intros t. Qed.
#[export] Instance consumes_bind {A B} (m : ST pgTx error A) (f : A → ST pgTx error B) :
  Consumes m → (∀ a, Consumes (f a)) → Consumes (m ≫= f).
Proof.
  intros Hm Hf t. specialize (Hm t). unfold mbind, ST_bind. destruct (m t) as [[a|e] t'] eqn:Hrun; simpl in *; [|done].
  etrans; [apply Hf|done].
Qed.
#[export] Instance consumes_if {A} (b : bool) (m1 m2 : ST pgTx error A) : Consumes m1 → Consumes m2 → Consumes (if b then m1 else m2).
Proof. by destruct b. Qed.
#[export] Instance consumes_stmt {A} (f : DB → res A * DB) : Consumes (stmt f).
Proof.
  intros t. unfold stmt. pose proof (next_suffix (px_net t)) as Hs. destruct (next_trip _) as [tr net].
  destruct (px_failed t), (tp_reply tr), (f (px_db t)) as [[a|e] db]; done.
Qed.
#[export] Instance consumes_Enqueue m : Consumes (pg_Enqueue m).
Proof. intros t. unfold pg_Enqueue. destruct (_ =? _)%Z; [apply consumes_stmt|]. by etrans; [apply consumes_stmt|]. Qed.
#[export] Instance consumes_op `{PgServer} op : Consumes (run_op (T:=pgTx) op).
Proof. destruct op; simpl; unfold pg_PutState; apply _. Qed.
#[export] Instance consumes_ops `{PgServer} ops : Consumes (run_ops (T:=pgTx) ops).
Proof. induction ops as [|op ops IH]; simpl; apply _. Qed.

(** ** Atomicity *)

(** Another session commits before one of the round trips in [net]. *)
Definition peer_step (net : list trip) (db db' : DB) : Prop :=
  ∃ tr seq seq', tr ∈ net ∧ tp_peers tr (db, seq) = (db', seq').
Definition answer_lost (net : list trip) : Prop := ∃ tr e, tr ∈ net ∧ tp_reply tr = Lost e.
(** A lost answer is a broken connection, not a reported conflict. *)
Definition lost_is_final (net : list trip) : Prop := Forall (λ tr, ∀ e, tp_reply tr = Lost e → retryablePG e = false) net.

Lemma elem_of_suffix {A} (l k : list A) x : l `suffix_of` k → x ∈ l → x ∈ k.
Proof. intros [p ->] ?. apply elem_of_app. by right. Qed.
Lemma peer_step_mono net net' db db' : net `suffix_of` net' → peer_step net db db' → peer_step net' db db'.
Proof. intros Hs (tr & q & q' & Hin & ?). exists tr, q, q'. split; [by eapply elem_of_suffix|done]. Qed.
Lemma answer_lost_mono net net' : net `suffix_of` net' → answer_lost net → answer_lost net'.
Proof. intros Hs (tr & e & Hin & ?). exists tr, e. split; [by eapply elem_of_suffix|done]. Qed.

(** The outcome of a unit of work on the database [db0]: nothing is kept and an error is reported;
    or all that one successful run of the body did is kept, and its result is returned unless the
    answer to the commit was lost. *)
Definition all_or_nothing {A} (fn : ST pgTx error A) (net : list trip) (db0 : DB) (r : res A) (db' : DB) : Prop :=
  (∃ e, r = Err e ∧ db' = db0) ∨
  (∃ a seq rest t, fn (MkPgTx db0 seq rest false) = (Ok a, t) ∧ db' = px_db t ∧ (r = Ok a ∨ ∃ e, r = Err e ∧ answer_lost net)).

Lemma next_in net tr rest : next_trip net = (tr, rest) → tr ∈ net ∨ (tr = quiet ∧ net = []).
Proof. destruct net; intros [= <- <-]; [by right|left; by left]. Qed.

Lemma peers_reach net tr rest db seq db' seq' :
  next_trip net = (tr, rest) → tp_peers tr (db, seq) = (db', seq') → rtc (peer_step net) db db'.
Proof.
  intros [Hin|[-> _]]%next_in Hp; [apply rtc_once; by exists tr, seq, seq'|]. by injection Hp as <- <-.
Qed.
Lemma lost_in net tr rest e : next_trip net = (tr, rest) → tp_reply tr = Lost e → answer_lost net.
Proof. intros [Hin|[-> _]]%next_in Hl; [by exists tr, e|done]. Qed.
Lemma lost_not_retried net tr rest e : next_trip net = (tr, rest) → lost_is_final net → tp_reply tr = Lost e → retryablePG e = false.
Proof. intros [Hin|[-> _]]%next_in Hf Hl; [|done]. unfold lost_is_final in Hf. rewrite Forall_forall in Hf. by eapply Hf. Qed.

Lemma lost_is_final_suffix net net' : net `suffix_of` net' → lost_is_final net' → lost_is_final net.
Proof. intros [p ->] [_ ?]%Forall_app. done. Qed.

(** What [next_trip] leaves is a suffix; used wherever a trip is taken. *)
Ltac take_trip tr net :=
  match goal with |- context [next_trip ?n] =>
    let Hs := fresh "Hs" in let Hn := fresh "Hn" in
    pose proof (next_suffix n) as Hs; destruct (next_trip n) as [tr net] eqn:Hn; simpl in Hs end.

Lemma doOnce_atomic {A} (fn : ST pgTx error A) s :
  Consumes fn → lost_is_final (pg_net s) →
  let '(r, s') := doOnce fn s in
  pg_net s' `suffix_of` pg_net s ∧
  ∃ db0, rtc (peer_step (pg_net s)) (pg_db s) db0 ∧ all_or_nothing fn (pg_net s) db0 r (pg_db s') ∧
         (∀ e, r = Err e → retryablePG e = true → pg_db s' = db0).
Proof.
  intros Hc Hfin. unfold doOnce. take_trip tr net. destruct (tp_peers tr _) as [db seq] eqn:Hp.
  pose proof (peers_reach _ _ _ _ _ _ _ Hn Hp) as Hreach.
  assert (∀ (e : error) (s' : PGStore), pg_db s' = db → pg_net s' `suffix_of` pg_net s →
    pg_net s' `suffix_of` pg_net s ∧ ∃ db0, rtc (peer_step (pg_net s)) (pg_db s) db0 ∧
      all_or_nothing fn (pg_net s) db0 (Err e) (pg_db s') ∧ (∀ e', Err (A:=A) e = Err e' → retryablePG e' = true → pg_db s' = db0)) as Herr.
  { intros e s' Hdb Hnet. split; [done|]. exists db. split_and!; [done|left; by exists e|done]. }
  destruct (tp_reply tr) eqn:Hr; [|by apply Herr..].
  pose proof (Hc (MkPgTx db seq net false)) as Hnet. destruct (fn _) as [[a|e] t] eqn:Hrun; simpl in Hnet.
  2: { apply Herr; [done|]. simpl. by etrans. }
  take_trip tr' net'. assert (net' `suffix_of` pg_net s) as Hsuf by (by etrans; [|etrans]).
  destruct (px_failed t); [by apply Herr|]. destruct (tp_reply tr') eqn:Hr'; [|by apply Herr..|].
  - simpl. split; [done|]. exists db. split_and!; [done| |done]. right. exists a, seq, net, t. by split_and!; [..|left].
  - simpl. split; [done|]. exists db. assert (px_net t `suffix_of` pg_net s) as Hpx by (by etrans). split_and!; [done| |].
    + right. exists a, seq, net, t. split_and!; [done|done|]. right. exists err. split; [done|].
      eapply answer_lost_mono; [exact Hpx|by eapply lost_in].
    + intros ? [= <-] Hret. erewrite lost_not_retried in Hret; [done|exact Hn0| |exact Hr']. by eapply lost_is_final_suffix.
Qed.

Lemma all_or_nothing_err {A} (fn : ST pgTx error A) net db0 e e' db' :
  all_or_nothing fn net db0 (Err e) db' → all_or_nothing fn net db0 (Err e') db'.
Proof.
  intros [(? & _ & ->)|(a & q & rest & t & Hrun & -> & [?|(? & _ & Hl)])]; [left; eauto|done|right]. exists a, q, rest, t. eauto 8.
Qed.
Lemma all_or_nothing_mono {A} (fn : ST pgTx error A) net net' db0 r db' :
  net `suffix_of` net' → all_or_nothing fn net db0 r db' → all_or_nothing fn net' db0 r db'.
Proof.
  intros Hs [?|(a & q & rest & t & Hrun & Hdb & Hr)]; [by left|right]. exists a, q, rest, t. split_and!; [done|done|].
  destruct Hr as [?|(e & He & Hl)]; [by left|right]. exists e. split; [done|]. by eapply answer_lost_mono.
Qed.

Lemma do_attempts_atomic {A} (fn : ST pgTx error A) n s r s' :
  Consumes fn → lost_is_final (pg_net s) → do_attempts n fn s = (r, s') →
  ∃ db0, rtc (peer_step (pg_net s)) (pg_db s) db0 ∧ all_or_nothing fn (pg_net s) db0 r (pg_db s').
Proof.
  intros Hc. revert s. induction n as [|n IH]; intros s Hfin; simpl; pose proof (doOnce_atomic fn s Hc Hfin) as Honce;
    destruct (doOnce fn s) as [[a|e] s1]; destruct Honce as (Hsuf & db0 & Hreach & Hall & Hkept);
    try (intros [= <- <-]; by eauto);
    destruct (is_panic e); try (intros [= <- <-]; by eauto);
    destruct (retryablePG e) eqn:Hret; simpl; try (intros [= <- <-]; exists db0; split; [done|by eapply all_or_nothing_err]);
    take_trip tr net; destruct (tp_reply tr); try (intros [= <- <-]; exists db0; split; [done|by eapply all_or_nothing_err]).
  specialize (Hkept e eq_refl Hret). assert (net `suffix_of` pg_net s) as Hnet by (by etrans).
  intros Hrun. destruct (IH (MkPGStore (pg_db s1) (pg_seq s1) net) (lost_is_final_suffix _ _ Hnet Hfin) Hrun) as (db1 & Hreach1 & Hall1).
  simpl in *. exists db1. split; [|by eapply all_or_nothing_mono].
  rewrite Hkept in Hreach1. etrans; [exact Hreach|]. eapply rtc_subrel; [|exact Hreach1]. intros x y. by apply peer_step_mono.
Qed.


(** ** Errors *)

Lemma classifyPG_categorised op e : ∃ cat, as_domain (classifyPG op e) = Some cat.
Proof. unfold classifyPG. destruct (as_domain e) eqn:Hd; [eauto|]. repeat case_match; simpl; eauto. Qed.

Lemma do_attempts_error {A} (fn : ST pgTx error A) n s e s' :
  do_attempts n fn s = (Err e, s') → is_panic e = false → ∃ e0, e = classifyPG "transaction" e0.
Proof.
  revert s. induction n as [|n IH]; intros s; simpl; destruct (doOnce fn s) as [[a|e1] s1]; try done;
    destruct (is_panic e1) eqn:Hp; try (intros [= <- <-]; congruence);
    destruct (retryablePG e1); simpl; try (intros [= <- <-] _; by eexists);
    destruct (next_trip _) as [tr net]; destruct (tp_reply tr); try (intros [= <- <-] _; by eexists).
  apply IH.
Qed.

Lemma classifyPG_server op code text :
  (2 ≤ String.length code)%nat →
  as_domain (classifyPG op (EPg code text)) = Some (if bool_decide (take_str 2 code ∈ permanent_classes) then CategoryPermanent else CategoryDependency).
Proof. intros Hl. unfold classifyPG. cbn [as_domain as_pg]. rewrite (proj2 (Nat.leb_le _ _) Hl). done. Qed.

(** Every error of a unit of work carries a category: what the body reported, if it had one;
    of the server's errors, the data, constraint and syntax classes 22, 23 and 42 are final and
    all others are worth retrying. *)
Theorem pg_Do_error {A} (fn : ST pgTx error A) s e s' :
  pg_Do fn s = (Err e, s') → is_panic e = false →
  ∃ cat e0, as_domain e = Some cat ∧ e = classifyPG "transaction" e0 ∧
    (∀ cat0, as_domain e0 = Some cat0 → e = e0) ∧
    (∀ code text, e0 = EPg code text → (2 ≤ String.length code)%nat → (Retryable cat = true ↔ take_str 2 code ∉ permanent_classes)).
Proof.
  intros Hrun Hp. destruct (do_attempts_error _ _ _ _ _ Hrun Hp) as [e0 ->].
  destruct (classifyPG_categorised "transaction" e0) as [cat Hcat]. exists cat, e0. split_and!; [done|done| |].
  - intros cat0 Hd. unfold classifyPG. by rewrite Hd.
  - intros code text -> Hlen. rewrite classifyPG_server in Hcat by done. apply Some_inj in Hcat as <-.
    destruct (bool_decide_reflect (take_str 2 code ∈ permanent_classes)) as [Hin|Hnin]; cbn [Retryable].
    + split; [done|]. intros Hn. by destruct (Hn Hin).
    + split; [intros _; exact Hnin|done].
Qed.

(** ** Agreement of the two stores *)

(** Nobody else writes. *)
Definition alone (net : list trip) : Prop := Forall (λ tr, tp_peers tr = id) net.

Lemma next_alone net : alone net → tp_peers (next_trip net).1 = id.
Proof. by destruct 1. Qed.

(** Undisturbed, a body that succeeds is committed. *)
Lemma doOnce_run {A} (fn : ST pgTx error A) s :
  answers (pg_net s) → alone (pg_net s) →
  ∃ net, answers net ∧ ∀ a t, fn (MkPgTx (pg_db s) (pg_seq s) net false) = (Ok a, t) → healthy t →
    ∃ s', doOnce fn s = (Ok a, s') ∧ pg_db s' = px_db t ∧ pg_seq s' = px_seq t.
Proof.
  intros [Hr Hn]%next_answers Ha%next_alone. unfold doOnce. destruct (next_trip _) as [tr net]. simpl in *. exists net.
  split; [done|]. intros a t Hrun [[Hr' _]%next_answers Hf]. rewrite Ha, Hr. simpl. rewrite Hrun.
  destruct (next_trip (px_net t)) as [tr' net']. simpl in *. rewrite Hf, Hr'. by eexists.
Qed.

(** The same answer: equal, except that samples of one instant may be swapped. *)
Definition same_result (r1 r2 : tx_result) : Prop :=
  match r1, r2 with
  | RSamples l1, RSamples l2 => l1 ≡ₚ l2 ∧ by_time l1 ∧ by_time l2
  | _, _ => r1 = r2
  end.
Lemma meets_same r1 r2 spec : meets r1 spec → meets r2 spec → same_result r1 r2.
Proof.
  destruct r1, spec, r2; simpl; try congruence. intros [H1 ?] [H2 ?]. split_and!; [|done..]. by rewrite H1, H2.
Qed.



(** ** The outbox *)

(** C12. The outbox of the PostgreSQL store loses nothing: a call leaves every row as it found it,
    unless [publish] accepted a batch of pending rows that no other relay held, and then exactly
    those rows are marked; a call that reports success reports how many. Whatever fails on the
    way, a row that [publish] did not accept stays queued. *)
Theorem pg_outbox_no_loss `{PgServerOk} {P} limit locked (publish : list OutboxMessage → P → option error * P) p s n err p' s' :
  pg_DrainOutbox limit locked publish p s = (n, err, p', s') →
  ∃ db0, rtc (peer_step (pg_net s)) (pg_db s) db0 ∧
    (pg_db s' = db0 ∧ n = 0%Z ∧ (err = None → p' = p) ∨
     ∃ rows, rows ≠ [] ∧ Forall (λ q, q ∈ db_outbox db0 ∧ pq_published q = false ∧ locked (pq_id q) = false) rows ∧
       publish (message_of_row <$> rows) p = (None, p') ∧ pg_db s' = sql_mark (pq_id <$> rows) db0 ∧
       (n = Z.of_nat (length rows) ∧ err = None ∨ n = 0%Z ∧ is_Some err)).
Proof.
  unfold pg_DrainOutbox. destruct (next_trip _) as [tr net] eqn:Hn. destruct (tp_peers tr _) as [db0 seq] eqn:Hp.
  pose proof (peers_reach _ _ _ _ _ _ _ Hn Hp) as Hreach. intros Hrun. exists db0. split; [done|].
  destruct (tp_reply tr); [|by left; simplify_eq..]. unfold drain_body in Hrun.
  pose proof (wp_stmt (sql_claim limit locked) (λ rows t, px_db t = db0 ∧ px_failed t = false ∧ rows = claim_rows limit locked db0) (MkPgTx db0 seq net false)) as Hclaim.
  specialize (Hclaim ltac:(intros a db n0 _; unfold sql_claim; simpl; destruct (limit <? 0)%Z; [done|by intros [= <- <-]])).
  unfold wp in Hclaim. destruct (stmt (sql_claim limit locked) _) as [[rows|e] t]; [|by left; simplify_eq].
  destruct Hclaim as (Hdb & Hnf & Hrows). destruct rows as [|q rows]; [by left; simplify_eq|].
  destruct (publish _ p) as [[e|] p1] eqn:Hpub; [by left; simplify_eq|].
  pose proof (wp_stmt (λ db, (Ok tt, sql_mark (pq_id <$> q :: rows) db)) (λ _ t', px_db t' = sql_mark (pq_id <$> q :: rows) db0) t) as Hmark.
  specialize (Hmark ltac:(intros a db n0 _ Heq; injection Heq as <-; rewrite <-Hdb; done)). unfold wp in Hmark.
  destruct (stmt (λ db, _) t) as [[[]|e] t1]; [|by left; simplify_eq].
  assert (Forall (λ q, q ∈ db_outbox db0 ∧ pq_published q = false ∧ locked (pq_id q) = false) (q :: rows)) as Hpend.
  { rewrite Hrows. apply Forall_forall. intros x Hx. unfold claim_rows in Hx. apply elem_of_take in Hx as (i & Hx & _).
    apply list_elem_of_lookup_2 in Hx. unfold select_rows in Hx. rewrite elem_of_sort_stable, list_elem_of_filter, scan_perm in Hx.
    destruct Hx as [[Hpb Hl]%andb_true_iff Hin]. by rewrite negb_true_iff in Hpb, Hl. }
  destruct (next_trip (px_net t1)) as [tr' net']. destruct (tp_reply tr'); [right|by left; simplify_eq..|right];
    exists (q :: rows); (split_and!; [done|done|by simplify_eq|by simplify_eq|]); [left|right]; simplify_eq; [done|split; [done|by eexists]].
Qed.

(** Rows in id order are what a query in id order gives. *)
Lemma select_by_id `{PgServerOk} (p : outbox_row → bool) rows :
  StronglySorted Z.lt (pq_id <$> rows) →
  select_rows p (λ a b, (pq_id a <? pq_id b)%Z) rows = filter (λ q, p q = true) rows.
Proof.
  intros Hs. eapply (StronglySorted_unique_strong (λ a b, (pq_id a ≤ pq_id b)%Z)).
  - intros a b Ha Hb Hab Hba. unfold select_rows in Ha. rewrite elem_of_sort_stable, list_elem_of_filter, scan_perm in Ha.
    apply list_elem_of_filter in Hb as [_ Hb]. destruct Ha as [_ Ha]. assert (pq_id a = pq_id b) as Heq by lia.
    clear -Hs Ha Hb Heq. induction rows as [|q rows IH]; [by apply elem_of_nil in Ha|]. rewrite fmap_cons in Hs.
    apply StronglySorted_inv in Hs as [Hs Hlt]. rewrite Forall_fmap, Forall_forall in Hlt.
    apply elem_of_cons in Ha as [->|Ha], Hb as [->|Hb]; [done| | |by apply IH].
    + specialize (Hlt b Hb). simpl in Hlt. lia.
    + specialize (Hlt a Ha). simpl in Hlt. lia.
  - apply select_sorted.
  - clear -Hs. induction rows as [|q rows IH]; [constructor|]. rewrite fmap_cons in Hs. apply StronglySorted_inv in Hs as [Hs Hlt].
    rewrite filter_cons. specialize (IH Hs). case_decide; [|done]. constructor; [done|]. rewrite Forall_fmap in Hlt.
    apply Forall_forall. intros b [_ Hb]%list_elem_of_filter. rewrite Forall_forall in Hlt. specialize (Hlt b Hb). simpl in Hlt. lia.
  - unfold select_rows. by rewrite sort_stable_perm, scan_perm.
Qed.

Lemma claim_rows_exact `{PgServerOk} limit locked db seq :
  pg_ok db seq →
  claim_rows limit locked db = take (Z.to_nat limit) (filter (λ q, negb (pq_published q) && negb (locked (pq_id q)) = true) (db_outbox db)).
Proof. intros Hok. unfold claim_rows. by rewrite select_by_id by apply Hok. Qed.

(** Two relays whose locks exclude each other's rows never claim the same one. *)
Lemma claims_disjoint `{PgServerOk} l1 l2 locked db :
  let first := claim_rows l1 locked db in
  Forall (λ q, pq_id q ∉ pq_id <$> first) (claim_rows l2 (λ id, bool_decide (id ∈ pq_id <$> first)) db).
Proof.
  simpl. apply Forall_forall. intros q Hq. unfold claim_rows at 2 in Hq. apply elem_of_take in Hq as (i & Hq & _).
  apply list_elem_of_lookup_2 in Hq. unfold select_rows in Hq. apply elem_of_sort_stable, list_elem_of_filter in Hq as [[_ Hl]%andb_true_iff _].
  by apply negb_true_iff, bool_decide_eq_false in Hl.
Qed.
