(* ===== verification/PgAuto.v ===== *)
(** * The PostgreSQL store: automation requests (src/internal/persistence/postgres_automation.go)

    The operations of [AutoOps] on the tables [automation_requests] and [automation_results].
    Inserting a request and completing one run in a transaction; their results travel in a
    variable that the closure captures, which keeps its value when [Do] runs the closure again. *)

From S2P Require Import Prelude GoLib GoFloat Domain Store MemStore AutoStore PgDB PgStore.

(** ** Units of work with a captured variable *)

(** The transaction the body runs in, when it begins. *)
Definition begun (s : PGStore) : option pgTx :=
  let '(tr, net) := next_trip (pg_net s) in
  let '(db, seq) := tp_peers tr (pg_db s, pg_seq s) in
  match tp_reply tr with Runs => Some (MkPgTx db seq net false) | _ => None end.

(** The loop of [Do] around a closure that also sets a variable [v]. *)
Fixpoint do_capture {V} (n : nat) (fn : V → pgTx → res unit * V * pgTx) (v : V) (s : PGStore) : res unit * V * PGStore :=
  let v' := match begun s with Some t => (fn v t).1.2 | None => v end in
  match doOnce (λ t, let '(r, _, t) := fn v t in (r, t)) s with
  | (Ok _, s) => (Ok tt, v', s)
  | (Err e, s) =>
      if is_panic e then (Err e, v', s)
      else if negb (retryablePG e) then (Err (fail "transaction" e), v', s)
      else
        let '(tr, net) := next_trip (pg_net s) in
        let s := MkPGStore (pg_db s) (pg_seq s) net in
        match tp_reply tr, n with
        | (Fails ctx | Breaks ctx | Lost ctx), _ => (Err (fail "transaction" ctx), v', s)
        | Runs, S n => do_capture n fn v' s
        | Runs, O => (Err (fail "transaction" e), v', s)
        end
  end.

(** [return v, err]; a caller reads [v] only when there is no error. *)
Definition captured_result {V} (out : res unit * V * PGStore) : res V * PGStore :=
  match out with
  | (Ok _, v, s) => (Ok v, s)
  | (Err e, _, s) => (Err e, s)
  end.

(** ** Requests and results *)

Definition enqueueTx (msgs : list OutboxMessage) : ST pgTx error unit := ST_foldl (λ _ m, pg_Enqueue m) tt msgs.

Definition sql_insert_request (req : AutomationRequest) (db : DB) : bool * DB :=
  let '(new, t) := insert_nothing (rq_RequestID req) (row_of_request req) (db_requests db) in (new, db <| db_requests := t |>).
Definition insert_request_body (req : AutomationRequest) (outbox : list OutboxMessage) (inserted : bool) (t : pgTx) : res unit * bool * pgTx :=
  match stmt (λ db, let '(new, db) := sql_insert_request req db in (Ok new, db)) t with
  | (Err e, t) => (Err e, inserted, t)
  | (Ok true, t) => let '(r, t) := enqueueTx outbox t in (r, true, t)
  | (Ok false, t) => (Ok tt, false, t)
  end.
Definition pg_InsertAutomationRequest (req : AutomationRequest) (outbox : list OutboxMessage) : ST PGStore error bool := λ s,
  captured_result (do_capture 3 (insert_request_body req outbox) false s).

(** The row of the request must exist; a second result is ignored before that is checked. *)
Definition foreign_key_error : error :=
  EPg "23503" "ERROR: insert or update on table automation_results violates foreign key constraint (SQLSTATE 23503)".
Definition sql_insert_result (r : AutomationResult) : DB → res bool * DB := λ db,
  match db_results db !! rs_RequestID r, db_requests db !! rs_RequestID r with
  | Some _, _ => (Ok false, db)
  | None, None => (Err foreign_key_error, db)
  | None, Some _ => (Ok true, db <| db_results := <[rs_RequestID r := row_of_result r]> (db_results db) |>)
  end.

(** [UPDATE automation_requests ... WHERE request_id = id AND cond]: whether a row changed. *)
Definition update_request (id : string) (cond : request_row → bool) (f : request_row → request_row) (db : DB) : bool * DB :=
  match db_requests db !! id with
  | Some r => if cond r then (true, db <| db_requests := <[id := f r]> (db_requests db) |>) else (false, db)
  | None => (false, db)
  end.

Definition complete_body (r : AutomationResult) (outbox : list OutboxMessage) (done_ : bool) (t : pgTx) : res unit * bool * pgTx :=
  match stmt (sql_insert_result r) t with
  | (Err e, t) => (Err e, done_, t)
  | (Ok false, t) => (Ok tt, done_, t)
  | (Ok true, t) =>
      match stmt (λ db, (Ok tt, (update_request (rs_RequestID r) (λ _, true) (λ q, q <| pr_status := rs_Status r |>) db).2)) t with
      | (Err e, t) => (Err e, done_, t)
      | (Ok _, t) => let '(x, t) := enqueueTx outbox t in (x, true, t)
      end
  end.
Definition pg_CompleteAutomation (r : AutomationResult) (outbox : list OutboxMessage) : ST PGStore error bool := λ s,
  captured_result (do_capture 3 (complete_body r outbox) false s).

(** A conditional update of its own. *)
Definition update_auto (op id : string) (cond : request_row → bool) (f : request_row → request_row) : ST PGStore error bool :=
  autocommit op (λ db, let '(hit, db) := update_request id cond f db in (Ok hit, db)).

(** [claimed_at < t]: not true of NULL. *)
Definition claimed_before (t : Time) (r : request_row) : bool :=
  match pr_claimed r with Some c => (c <? t)%Z | None => false end.

Definition pg_claimable (now : Time) (lease : Duration) (r : request_row) : bool :=
  bool_decide (pr_status r = AutomationPending) || bool_decide (pr_status r = AutomationApproved)
  || (bool_decide (pr_status r = AutomationExecuting) && claimed_before (micro (time_Add now (- lease))) r).
Definition pg_ClaimAutomation (id : string) (now : Time) (lease : Duration) : ST PGStore error bool :=
  update_auto "claim automation" id (pg_claimable now lease)
    (λ r, r <| pr_status := AutomationExecuting |> <| pr_claimed := Some (micro now) |>).

Definition pg_SetAutomationStatus (id : string) (from : list AutomationStatus) (to : AutomationStatus) : ST PGStore error bool :=
  update_auto "set automation status" id (λ r, bool_decide (pr_status r ∈ from)) (λ r, r <| pr_status := to |>).

Definition pg_ApproveAutomation (id by_ : string) : ST PGStore error bool :=
  update_auto "approve automation" id (λ r, bool_decide (pr_status r = AutomationAwaitingApproval))
    (λ r, r <| pr_status := AutomationApproved |> <| pr_approved_by := by_ |>).

(** ** Queries *)

Section server.
Context `{PgServer}.

(** [ORDER BY created_at, request_id]. *)
Definition by_created (a b : request_row) : bool :=
  if (pr_created a =? pr_created b)%Z then collate (pr_id a) (pr_id b) else (pr_created a <? pr_created b)%Z.

Definition pg_is_due (now : Time) (lease : Duration) (r : request_row) : bool :=
  (bool_decide (pr_status r = AutomationPending) && (pr_not_before r <=? micro now)%Z)
  || bool_decide (pr_status r = AutomationApproved)
  || (bool_decide (pr_status r = AutomationExecuting) && claimed_before (micro (time_Add now (- lease))) r).
Definition sql_due (now : Time) (lease : Duration) (limit : Z) (db : DB) : res (list AutomationRequest) :=
  if (limit <? 0)%Z then Err limit_error
  else Ok (scanAutomation <$> take (Z.to_nat limit) (select_rows (pg_is_due now lease) by_created (rows_of (db_requests db)))).
Definition pg_DueAutomation (now : Time) (lease : Duration) (limit : Z) : ST PGStore error (list AutomationRequest) :=
  list_query "due automation" (sql_due now lease limit).

Definition sql_awaiting (cutoff : Time) (db : DB) : list AutomationRequest :=
  scanAutomation <$> select_rows
    (λ r, bool_decide (pr_status r = AutomationAwaitingApproval) && (pr_created r <? micro cutoff)%Z)
    (λ a b, (pr_created a <? pr_created b)%Z) (rows_of (db_requests db)).
Definition pg_AwaitingApprovalBefore (cutoff : Time) : ST PGStore error (list AutomationRequest) :=
  list_query "awaiting approval" (λ db, Ok (sql_awaiting cutoff db)).

(** [automation_requests JOIN automation_results USING (request_id)]. *)
Definition join_results (db : DB) : list (request_row * result_row) :=
  omap (λ r, (λ x, (r, x)) <$> db_results db !! pr_id r) (rows_of (db_requests db)).
Definition pg_in_history (policyID deviceID target : string) (since : Time) (p : request_row * result_row) : bool :=
  bool_decide (pr_policy p.1 = policyID) && bool_decide (pr_device p.1 = deviceID) && bool_decide (pr_target p.1 = target)
  && (micro since <=? pz_finished p.2)%Z && executed (pr_status p.1).
Definition sql_history (policyID deviceID target : string) (since : Time) (db : DB) : list AutomationRequest :=
  (scanAutomation ∘ fst) <$> select_rows (pg_in_history policyID deviceID target since)
    (λ a b, (pz_finished a.2 <? pz_finished b.2)%Z) (join_results db).
Definition pg_AutomationHistory (policyID deviceID target : string) (since : Time) : ST PGStore error (list AutomationRequest) :=
  list_query "automation history" (λ db, Ok (sql_history policyID deviceID target since db)).

Definition sql_attempts (policyID alertKey : string) (db : DB) : Z :=
  Z.of_nat (length (filter (λ r, bool_decide (pr_policy r = policyID) && bool_decide (pr_alert_key r = alertKey) && executed (pr_status r) = true)
                     (scan (rows_of (db_requests db))))).
Definition pg_AttemptsForAlert (policyID alertKey : string) : ST PGStore error Z :=
  autocommit "attempts" (query (sql_attempts policyID alertKey)).

Definition pg_AlertFiring (alertKey : string) : ST PGStore error bool :=
  autocommit "alert firing" (query (λ db, existsb (row_firing alertKey) (db_alerts db))).

(** Two queries; the second only for a request that exists. *)
Definition pg_GetAutomation (id : string) : ST PGStore error (option AutomationRequest * option AutomationResult) :=
  r ← autocommit "get automation" (query (λ db, scanAutomation <$> db_requests db !! id));
  match r with
  | None => mret (None, None)
  | Some r =>
      x ← autocommit "get automation result" (query (λ db, result_of_row <$> db_results db !! id));
      mret (Some r, x)
  end.

#[export] Instance PGStore_auto : AutoOps PGStore := {|
  InsertAutomationRequest := pg_InsertAutomationRequest;
  DueAutomation := pg_DueAutomation;
  ClaimAutomation := pg_ClaimAutomation;
  SetAutomationStatus := pg_SetAutomationStatus;
  ApproveAutomation := pg_ApproveAutomation;
  CompleteAutomation := pg_CompleteAutomation;
  AwaitingApprovalBefore := pg_AwaitingApprovalBefore;
  AutomationHistory := pg_AutomationHistory;
  AttemptsForAlert := pg_AttemptsForAlert;
  AlertFiring_ := pg_AlertFiring;
  GetAutomation := pg_GetAutomation;
|}.
End server.
