(* ===== verification/PgAutoThms.v ===== *)
(** * The PostgreSQL store: automation requests agree with the in-memory store *)

From S2P Require Import Prelude GoLib GoFloat Domain Store MemStore MemStoreFacts AutoStore AutoStoreFacts PgDB PgStore PgAgree PgThms PgAuto.

(** ** The same requests in both stores *)

Definition exact_row (r : request_row) : Prop :=
  exact_time (pr_not_before r) ∧ exact_time (pr_created r) ∧ match pr_claimed r with Some c => exact_time c | None => True end.

Record auto_same (db : DB) (s : MemStore) : Prop := {
  au_requests : scanAutomation <$> db_requests db = ms_autoReq s;
  au_order : order_ok (ms_autoReq s) (ms_autoOrder s);
  au_ids : map_Forall (λ id r, pr_id r = id) (db_requests db);
  au_exact : map_Forall (λ _ r, exact_row r) (db_requests db);
  au_claims : ∀ id, (db_requests db !! id ≫= pr_claimed) = ms_autoClaim s !! id;
  au_executing : map_Forall (λ _ r, pr_status r = AutomationExecuting → is_Some (pr_claimed r)) (db_requests db);
  au_results : result_of_row <$> db_results db = ms_autoRes s;
  au_result_ids : map_Forall (λ id x, pz_id x = id) (db_results db);
  au_foreign : ∀ id, is_Some (db_results db !! id) → is_Some (db_requests db !! id);
  au_finished : map_Forall (λ _ x, exact_time (pz_finished x)) (db_results db);
  au_alerts : alert_of_row <$> db_alerts db = ms_alerts s;
  au_queue : (λ q, (pq_subject q, pq_msg_id q)) <$> db_outbox db = (λ r, (ob_Subject (ox_msg r), ob_MsgID (ox_msg r))) <$> ms_outbox s;
}.

(** ** Calls as data *)

Inductive auto_op :=
| UInsert (req : AutomationRequest) (outbox : list OutboxMessage)
| UDue (now : Time) (lease : Duration) (limit : Z)
| UClaim (id : string) (now : Time) (lease : Duration)
| USetStatus (id : string) (from : list AutomationStatus) (to : AutomationStatus)
| UApprove (id by_ : string)
| UComplete (r : AutomationResult) (outbox : list OutboxMessage)
| UAwaiting (cutoff : Time)
| UHistory (policyID deviceID target : string) (since : Time)
| UAttempts (policyID alertKey : string)
| UFiring (alertKey : string)
| UGet (id : string).

Inductive auto_result :=
| AnsBool (b : bool)
| AnsRequests (l : list AutomationRequest)
| AnsCount (n : Z)
| AnsRequest (r : option AutomationRequest * option AutomationResult).

Definition answer {X A} (k : A → auto_result) (m : ST X error A) : ST X error auto_result := a ← m; mret (k a).
Definition run_auto `{AutoOps X} (op : auto_op) : ST X error auto_result :=
  match op with
  | UInsert req outbox => answer AnsBool (InsertAutomationRequest req outbox)
  | UDue now lease limit => answer AnsRequests (DueAutomation now lease limit)
  | UClaim id now lease => answer AnsBool (ClaimAutomation id now lease)
  | USetStatus id from to => answer AnsBool (SetAutomationStatus id from to)
  | UApprove id by_ => answer AnsBool (ApproveAutomation id by_)
  | UComplete r outbox => answer AnsBool (CompleteAutomation r outbox)
  | UAwaiting cutoff => answer AnsRequests (AwaitingApprovalBefore cutoff)
  | UHistory p d t since => answer AnsRequests (AutomationHistory p d t since)
  | UAttempts p k => answer AnsCount (AttemptsForAlert p k)
  | UFiring k => answer AnsBool (AlertFiring_ k)
  | UGet id => answer AnsRequest (GetAutomation id)
  end.

(** One call after another, errors included. *)
Fixpoint run_calls `{AutoOps X} (ops : list auto_op) (s : X) : list (res auto_result) * X :=
  match ops with
  | [] => ([], s)
  | op :: ops => let '(r, s) := run_auto op s in prod_map (cons r) id (run_calls ops s)
  end.

(** The same outcome: equal, with listings in any order; errors of the same category. *)
Definition same_answer (r1 r2 : res auto_result) : Prop :=
  match r1, r2 with
  | Ok (AnsRequests l1), Ok (AnsRequests l2) => l1 ≡ₚ l2
  | Ok a1, Ok a2 => a1 = a2
  | Err e1, Err e2 => CategoryOf (Some e1) = CategoryOf (Some e2)
  | _, _ => False
  end.

(** When the columns hold the arguments exactly, and a listing is not cut short. A request becomes
    [executing] by being claimed only. *)
Definition auto_exact (op : auto_op) (s : MemStore) : Prop :=
  match op with
  | UInsert req _ => exact_map (rq_Params req) ∧ exact_time (rq_NotBefore req) ∧ exact_time (rq_CreatedAt req) ∧ rq_Status req ≠ AutomationExecuting
  | UDue now lease limit => exact_time now ∧ exact_time lease ∧ (Z.of_nat (size (ms_autoReq s)) ≤ limit)%Z
  | UClaim _ now lease => exact_time now ∧ exact_time lease
  | USetStatus _ _ to => to ≠ AutomationExecuting
  | UComplete r _ => exact_map (rs_Details r) ∧ exact_time (rs_StartedAt r) ∧ exact_time (rs_FinishedAt r) ∧ rs_Status r ≠ AutomationExecuting
  | UAwaiting t | UHistory _ _ _ t => exact_time t
  | UApprove _ _ | UAttempts _ _ | UFiring _ | UGet _ => True
  end.

Fixpoint calls_exact (ops : list auto_op) (s : MemStore) : Prop :=
  match ops with
  | [] => True
  | op :: ops => auto_exact op s ∧ calls_exact ops (run_auto op s).2
  end.

(** The messages a call queues. *)
Definition op_messages (op : auto_op) : list OutboxMessage :=
  match op with UInsert _ outbox | UComplete _ outbox => outbox | _ => [] end.

(** ** Rows *)

Lemma exact_mod t : exact_time t ↔ (t mod 1000 = 0)%Z.
Proof. unfold exact_time, micro, Truncate, Microsecond. simpl. lia. Qed.
Lemma exact_sub t d : exact_time t → exact_time d → exact_time (time_Add t (- d)).
Proof. rewrite !exact_mod. unfold time_Add. intros Ht Hd. rewrite Z.add_opp_r, Zminus_mod, Ht, Hd. done. Qed.

Lemma filtered_rows {R V} (f : R → V) (p : R → bool) (q : V → Prop) `{∀ x, Decision (q x)} (rows : list R) :
  Forall (λ r, p r = true ↔ q (f r)) rows → f <$> filter (λ r, p r = true) rows = filter q (f <$> rows).
Proof.
  induction 1 as [|r l Hr Hl IH]; [done|]. rewrite fmap_cons, !filter_cons.
  destruct (decide (p r = true)), (decide (q (f r))); try tauto; rewrite ?fmap_cons, IH; done.
Qed.

Section rows.
Context (db : DB) (s : MemStore) (Hsame : auto_same db s).

Lemma same_lookup id : ms_autoReq s !! id = scanAutomation <$> db_requests db !! id.
Proof using Hsame. by rewrite <-(au_requests _ _ Hsame), lookup_fmap. Qed.
Lemma same_result_lookup id : ms_autoRes s !! id = result_of_row <$> db_results db !! id.
Proof using Hsame. by rewrite <-(au_results _ _ Hsame), lookup_fmap. Qed.

Lemma same_requests : requests_in_order s ≡ₚ scanAutomation <$> rows_of (db_requests db).
Proof using Hsame. unfold requests_in_order. rewrite (order_values _ _ (au_order _ _ Hsame)). by rewrite <-(au_requests _ _ Hsame), rows_of_fmap. Qed.

(** A query over the requests and the filter of the in-memory store select the same. *)
Lemma same_query `{PgServerOk} (p : request_row → bool) less (q : AutomationRequest → Prop) `{∀ x, Decision (q x)} :
  (∀ r, db_requests db !! pr_id r = Some r → (p r = true ↔ q (scanAutomation r))) →
  scanAutomation <$> select_rows p less (rows_of (db_requests db)) ≡ₚ filter q (requests_in_order s).
Proof using Hsame.
  intros Hpq. unfold select_rows. rewrite sort_stable_perm, scan_perm, same_requests. rewrite (filtered_rows _ _ q); [done|].
  pose proof (rows_of_Forall _ _ (au_ids _ _ Hsame)) as Hrows. eapply Forall_impl; [exact Hrows|].
  intros r (id & Hid & Heq). apply Hpq. by rewrite Heq.
Qed.

Lemma same_claim r : db_requests db !! pr_id r = Some r → ms_autoClaim s !! pr_id r = pr_claimed r.
Proof using Hsame. intros Hr. rewrite <-(au_claims _ _ Hsame). by rewrite Hr. Qed.

(** An expired claim is one in both stores. *)
Lemma same_expired r now lease :
  db_requests db !! pr_id r = Some r → pr_status r = AutomationExecuting → exact_time now → exact_time lease →
  claimed_before (micro (time_Add now (- lease))) r = claim_expired s (pr_id r) now lease.
Proof using Hsame.
  intros Hr Hst Hn Hl. unfold claimed_before, claim_expired, claim_time. rewrite same_claim by done.
  destruct (au_executing _ _ Hsame _ _ Hr Hst) as [c ->]. rewrite (exact_sub now lease Hn Hl). unfold Before, time_Add. simpl.
  apply eq_bool_prop_intro. rewrite !Is_true_true, !Z.ltb_lt. lia.
Qed.
End rows.

(** ** Undisturbed calls *)

(** The server answers and nobody else writes. *)
Definition calm (net : list trip) : Prop := answers net ∧ alone net.

Lemma next_calm net : calm net → tp_reply (next_trip net).1 = Runs ∧ tp_peers (next_trip net).1 = id ∧ calm (next_trip net).2.
Proof. intros [Ha Hb]. destruct Ha as [|tr net Hr Ha]; [by repeat split; try constructor|]. apply Forall_cons in Hb as [Hp Hb]. by repeat split. Qed.

Lemma autocommit_run {A} op (f : DB → res A * DB) s :
  calm (pg_net s) →
  ∃ net, calm net ∧ autocommit op f s =
    match f (pg_db s) with
    | (Ok a, db) => (Ok a, MkPGStore db (pg_seq s) net)
    | (Err e, _) => (Err (fail op e), MkPGStore (pg_db s) (pg_seq s) net)
    end.
Proof.
  intros (Hr & Hp & Hc)%next_calm. unfold autocommit. destruct (next_trip _) as [tr net]. simpl in *. rewrite Hr, Hp. simpl.
  exists net. split; [done|]. by destruct (f _) as [[a|e] db].
Qed.
Lemma list_query_run {A} op (f : DB → res A) s :
  calm (pg_net s) → ∃ net, calm net ∧ list_query op f s = (f (pg_db s), MkPGStore (pg_db s) (pg_seq s) net).
Proof.
  intros (Hr & Hp & Hc)%next_calm. unfold list_query. destruct (next_trip _) as [tr net]. simpl in *. rewrite Hr, Hp. by exists net.
Qed.

(** ** One call *)

(** After the call: the same answer, the same requests, the network still calm, and no more
    sequence numbers used than messages queued. *)
Definition agreed (op : auto_op) (seq : Z) (out : res auto_result * PGStore) (out' : res auto_result * MemStore) : Prop :=
  same_answer out.1 out'.1 ∧ auto_same (pg_db out.2) out'.2 ∧ calm (pg_net out.2)
  ∧ (pg_seq out.2 ≤ seq + Z.of_nat (length (op_messages op)))%Z.

Lemma auto_same_update db ms id r r' claims :
  auto_same db ms → db_requests db !! id = Some r → pr_id r' = id → exact_row r' →
  (pr_status r' = AutomationExecuting → is_Some (pr_claimed r')) →
  (∀ j, claims !! j = if decide (j = id) then pr_claimed r' else ms_autoClaim ms !! j) →
  auto_same (db <| db_requests := <[id := r']> (db_requests db) |>)
    ((set_request id (scanAutomation r') ms) <| ms_autoClaim := claims |>).
Proof.
  intros [Hreq Hord Hids Hex Hcl Hexe Hres Hrid Hfk Hfin Hal Hq] Hr Hid Hex' Hexe' Hclaims. constructor; simpl; try done.
  - by rewrite fmap_insert, Hreq.
  - destruct Hord as [Hnd Hin]. split; [done|]. intros j. rewrite Hin, lookup_insert_is_Some.
    rewrite <-Hreq, !lookup_fmap, fmap_is_Some. split; [destruct (decide (id = j)); [by left|by right]|intros [<-|[_ ?]]; [by eexists|done]].
  - by apply map_Forall_insert_2.
  - by apply map_Forall_insert_2.
  - intros j. rewrite Hclaims. case_decide; [subst j; by rewrite lookup_insert_eq|]. by rewrite lookup_insert_ne, Hcl by done.
  - by apply map_Forall_insert_2.
  - intros j Hj. rewrite lookup_insert_is_Some. destruct (decide (id = j)); [by left|right; eauto].
Qed.

(** A conditional update that leaves the claim alone. *)
Lemma row_update_agrees op name id (cond : request_row → bool) (f : request_row → request_row) (m : ST MemStore error bool) s ms :
  auto_same (pg_db s) ms → calm (pg_net s) → op_messages op = [] →
  (∀ r, pr_id (f r) = pr_id r ∧ pr_claimed (f r) = pr_claimed r ∧ pr_not_before (f r) = pr_not_before r ∧ pr_created (f r) = pr_created r
        ∧ pr_status (f r) ≠ AutomationExecuting) →
  m ms = match ms_autoReq ms !! id with
         | Some r => match db_requests (pg_db s) !! id with
                     | Some q => if cond q then (Ok true, set_request id (scanAutomation (f q)) ms) else (Ok false, ms)
                     | None => (Ok false, ms)
                     end
         | None => (Ok false, ms)
         end →
  agreed op (pg_seq s) (answer AnsBool (update_auto name id cond f) s) (answer AnsBool m ms).
Proof.
  intros Hsame Hcalm Hmsg Hf Hm.
  destruct (autocommit_run name (λ db, let '(hit, db) := update_request id cond f db in (Ok hit, db)) s Hcalm) as (net & Hnet & Hrun).
  unfold answer, mbind, ST_bind, mret, ST_ret. unfold update_auto. rewrite Hrun, Hm. unfold update_request.
  rewrite (same_lookup _ _ Hsame). destruct (db_requests (pg_db s) !! id) as [r|] eqn:Hr; simpl.
  2: { split_and!; [done|done|done|]. rewrite Hmsg. simpl. lia. }
  destruct (cond r); (split_and!; [done| |done|rewrite Hmsg; simpl; lia]); [|done]. simpl.
  destruct (Hf r) as (Hid & Hc & Hnb & Hcr & Hst). pose proof (au_ids _ _ Hsame _ _ Hr) as Hri. simpl in Hri.
  replace (set_request id (scanAutomation (f r)) ms) with ((set_request id (scanAutomation (f r)) ms) <| ms_autoClaim := ms_autoClaim ms |>) by (by destruct ms).
  eapply auto_same_update; [done|done|congruence| |done|].
  - pose proof (au_exact _ _ Hsame _ _ Hr) as Hex. unfold exact_row in *. by rewrite Hnb, Hcr, Hc.
  - intros j. case_decide; [|done]. subst j. rewrite <-(au_claims _ _ Hsame), Hr. done.
Qed.

(** Both answers come without a change. *)
Lemma read_agrees op s ms a1 a2 net :
  auto_same (pg_db s) ms → calm net → same_answer a1 a2 → agreed op (pg_seq s) (a1, MkPGStore (pg_db s) (pg_seq s) net) (a2, ms).
Proof. intros ???. split_and!; [done|done|done|simpl; lia]. Qed.

Section one_call.
Context `{PgServerOk} (s : PGStore) (ms : MemStore) (Hsame : auto_same (pg_db s) ms) (Hcalm : calm (pg_net s)).

(** A query on its own and a read of the in-memory store. *)
Lemma query_agrees {A} op name (f : DB → A) (m : ST MemStore error A) (k : A → auto_result) b :
  m ms = (Ok b, ms) → same_answer (Ok (k (f (pg_db s)))) (Ok (k b)) →
  agreed op (pg_seq s) (answer k (autocommit name (query f)) s) (answer k m ms).
Proof using Hsame Hcalm.
  intros Hm Hans. destruct (autocommit_run name (query f) s Hcalm) as (net & Hnet & Hrun). unfold query in Hrun at 2.
  unfold answer, mbind, ST_bind. rewrite Hrun, Hm. by apply read_agrees.
Qed.
Lemma list_agrees op name (f : DB → res (list AutomationRequest)) (m : ST MemStore error (list AutomationRequest)) l l' :
  m ms = (Ok l', ms) → f (pg_db s) = Ok l → l ≡ₚ l' →
  agreed op (pg_seq s) (answer AnsRequests (list_query name f) s) (answer AnsRequests m ms).
Proof using Hsame Hcalm.
  intros Hm Hf Hans. destruct (list_query_run name f s Hcalm) as (net & Hnet & Hrun).
  unfold answer, mbind, ST_bind. rewrite Hrun, Hm, Hf. by apply read_agrees.
Qed.

Lemma due_agrees now lease limit :
  auto_exact (UDue now lease limit) ms → agreed (UDue now lease limit) (pg_seq s) (run_auto (UDue now lease limit) s) (run_auto (UDue now lease limit) ms).
Proof using Type*.
  intros (Hn & Hl & Hlim). cbn [run_auto]. eapply list_agrees; [done| |].
  - unfold sql_due. destruct (Z.ltb_spec limit 0); [lia|done].
  - assert (length (select_rows (pg_is_due now lease) by_created (rows_of (db_requests (pg_db s)))) ≤ Z.to_nat limit) as Hlen.
    { unfold select_rows. rewrite sort_stable_perm. etrans; [apply length_filter|]. rewrite scan_perm. unfold rows_of. rewrite length_fmap, length_map_to_list.
      rewrite <-(au_requests _ _ Hsame), map_size_fmap in Hlim. lia. }
    rewrite take_ge by done. erewrite (same_query _ _ Hsame _ _ (λ r, is_due ms now lease r = true)).
    + unfold take_limit. destruct (Z.ltb_spec 0 limit); [|done]. rewrite take_ge; [done|].
      etrans; [apply length_filter|]. rewrite (same_requests _ _ Hsame), length_fmap. unfold rows_of. rewrite length_fmap, length_map_to_list.
      rewrite <-(au_requests _ _ Hsame), map_size_fmap in Hlim. lia.
    + intros r Hr. unfold pg_is_due, is_due, After. simpl. rewrite Hn.
      destruct (pr_status r) eqn:Hst; simpl; try (split; congruence).
      * rewrite !orb_false_r, Z.leb_antisym. done.
      * rewrite (same_expired _ _ Hsame) by done. done.
Qed.

Lemma claim_agrees id now lease :
  auto_exact (UClaim id now lease) ms → agreed (UClaim id now lease) (pg_seq s) (run_auto (UClaim id now lease) s) (run_auto (UClaim id now lease) ms).
Proof using Hsame Hcalm.
  intros [Hn Hl]. cbn [run_auto].
  destruct (autocommit_run "claim automation" (λ db, let '(hit, db) := update_request id (pg_claimable now lease)
    (λ r, r <| pr_status := AutomationExecuting |> <| pr_claimed := Some (micro now) |>) db in (Ok hit, db)) s Hcalm) as (net & Hnet & Hrun).
  unfold answer, mbind, ST_bind. simpl. unfold pg_ClaimAutomation, update_auto. rewrite Hrun. unfold update_request, mem_ClaimAutomation.
  rewrite (same_lookup _ _ Hsame). destruct (db_requests (pg_db s) !! id) as [r|] eqn:Hr; simpl; [|by apply (read_agrees _ s)].
  pose proof (au_ids _ _ Hsame _ _ Hr) as Hid. simpl in Hid. subst id.
  assert (claimable ms (pr_id r) (scanAutomation r) now lease = pg_claimable now lease r) as ->.
  { unfold claimable, pg_claimable. simpl. destruct (bool_decide_reflect (pr_status r = AutomationExecuting)); [|done].
    by rewrite (same_expired _ _ Hsame). }
  destruct (pg_claimable now lease r); simpl; [|by apply (read_agrees _ s)]. split_and!; [done| |done|simpl; lia]. simpl.
  rewrite Hn. eapply auto_same_update; [done|done|done| |by eexists|].
  - destruct (au_exact _ _ Hsame _ _ Hr) as (? & ? & _). by split_and!.
  - intros j. case_decide; [subst j; by rewrite lookup_insert_eq|by rewrite lookup_insert_ne].
Qed.

Lemma set_status_agrees id from to :
  auto_exact (USetStatus id from to) ms → agreed (USetStatus id from to) (pg_seq s) (run_auto (USetStatus id from to) s) (run_auto (USetStatus id from to) ms).
Proof using Hsame Hcalm.
  intros Hto. cbn [run_auto]. apply row_update_agrees; [done..|]. simpl. unfold mem_SetAutomationStatus. rewrite (same_lookup _ _ Hsame).
  destruct (db_requests (pg_db s) !! id) as [r|]; [|done]. simpl.
  replace (existsb (λ f, bool_decide (pr_status r = f)) from) with (bool_decide (pr_status r ∈ from)); [done|].
  apply eq_bool_prop_intro. rewrite !Is_true_true, bool_decide_eq_true, existsb_exists. setoid_rewrite bool_decide_eq_true.
  setoid_rewrite <-list_elem_of_In. naive_solver.
Qed.

Lemma approve_agrees id by_ :
  agreed (UApprove id by_) (pg_seq s) (run_auto (UApprove id by_) s) (run_auto (UApprove id by_) ms).
Proof using Hsame Hcalm.
  cbn [run_auto]. apply row_update_agrees; [done..|]. simpl. unfold mem_ApproveAutomation. rewrite (same_lookup _ _ Hsame).
  destruct (db_requests (pg_db s) !! id) as [r|]; [|done]. simpl. rewrite bool_decide_not. by destruct (bool_decide _).
Qed.

Lemma awaiting_agrees cutoff :
  auto_exact (UAwaiting cutoff) ms → agreed (UAwaiting cutoff) (pg_seq s) (run_auto (UAwaiting cutoff) s) (run_auto (UAwaiting cutoff) ms).
Proof using Type*.
  intros Ht. cbn [run_auto]. eapply list_agrees; [done|done|]. apply (same_query _ _ Hsame). intros r Hr. unfold Before. simpl.
  simpl in Ht. rewrite Ht, andb_true_iff, bool_decide_eq_true. done.
Qed.

(** Joining a request with its result and filtering is filtering on both. *)
Lemma history_rows p d t since rows :
  exact_time since → Forall (λ r, db_requests (pg_db s) !! pr_id r = Some r) rows →
  (scanAutomation ∘ fst) <$> filter (λ x, pg_in_history p d t since x = true) (omap (λ r, (λ x, (r, x)) <$> db_results (pg_db s) !! pr_id r) rows)
  = filter (λ r, in_history ms p d t since r = true) (scanAutomation <$> rows).
Proof using Hsame.
  intros Ht. induction 1 as [|r rows Hr Hrows IH]; [done|]. rewrite fmap_cons, filter_cons. cbn [omap list_omap].
  assert (in_history ms p d t since (scanAutomation r)
    = match db_results (pg_db s) !! pr_id r with Some x => pg_in_history p d t since (r, x) | None => false end) as ->.
  { unfold in_history, pg_in_history. simpl. rewrite (same_result_lookup _ _ Hsame).
    destruct (db_results (pg_db s) !! pr_id r) as [x|] eqn:Hx; simpl; [|by rewrite andb_false_r].
    unfold Before. unfold exact_time in Ht. rewrite Ht, Z.leb_antisym. by rewrite <-!andb_assoc, (andb_comm (executed _)). }
  destruct (db_results (pg_db s) !! pr_id r) as [x|]; simpl; [|exact IH].
  rewrite filter_cons. destruct (decide (pg_in_history p d t since (r, x) = true)); [rewrite fmap_cons; f_equal; exact IH|exact IH].
Qed.

Lemma history_agrees p d t since :
  auto_exact (UHistory p d t since) ms → agreed (UHistory p d t since) (pg_seq s) (run_auto (UHistory p d t since) s) (run_auto (UHistory p d t since) ms).
Proof using Type*.
  intros Ht. cbn [run_auto]. eapply list_agrees; [done|done|]. unfold sql_history, select_rows, join_results.
  rewrite sort_stable_perm, scan_perm, history_rows; [|done|].
  - by rewrite (same_requests _ _ Hsame).
  - eapply Forall_impl; [exact (rows_of_Forall _ _ (au_ids _ _ Hsame))|]. intros r (id & Hid & <-). done.
Qed.

Lemma attempts_agrees p k : agreed (UAttempts p k) (pg_seq s) (run_auto (UAttempts p k) s) (run_auto (UAttempts p k) ms).
Proof using Type*.
  cbn [run_auto]. eapply query_agrees; [done|]. simpl. do 2 f_equal. unfold sql_attempts. f_equal. rewrite scan_perm.
  rewrite <-(au_requests _ _ Hsame), rows_of_fmap, <-(length_fmap scanAutomation). f_equal. apply filtered_rows. apply Forall_forall. intros r _. simpl.
  rewrite !andb_true_iff, !bool_decide_eq_true. tauto.
Qed.

Lemma firing_agrees k : agreed (UFiring k) (pg_seq s) (run_auto (UFiring k) s) (run_auto (UFiring k) ms).
Proof using Hsame Hcalm.
  cbn [run_auto]. eapply query_agrees; [done|]. simpl. do 2 f_equal. rewrite <-(au_alerts _ _ Hsame). symmetry. apply firing_rows.
Qed.

Lemma get_agrees id : agreed (UGet id) (pg_seq s) (run_auto (UGet id) s) (run_auto (UGet id) ms).
Proof using Hsame Hcalm.
  cbn [run_auto]. unfold answer. simpl. unfold mem_GetAutomation, pg_GetAutomation.
  destruct (autocommit_run "get automation" (query (λ db, scanAutomation <$> db_requests db !! id)) s Hcalm) as (net & Hnet & Hrun).
  unfold query in Hrun at 2. unfold mbind, ST_bind. rewrite Hrun, (same_lookup _ _ Hsame).
  destruct (db_requests (pg_db s) !! id) as [r|]; simpl; [|by apply (read_agrees _ s)].
  destruct (autocommit_run "get automation result" (query (λ db, result_of_row <$> db_results db !! id)) (MkPGStore (pg_db s) (pg_seq s) net) Hnet)
    as (net' & Hnet' & Hrun'). unfold query in Hrun' at 2. rewrite Hrun', (same_result_lookup _ _ Hsame). by apply (read_agrees _ s).
Qed.
End one_call.

(** ** Calls that run a transaction *)

Lemma stmt_calm {A} (f : DB → res A * DB) db seq net :
  calm net →
  ∃ net', calm net' ∧ stmt f (MkPgTx db seq net false) =
    match f db with
    | (Ok a, db') => (Ok a, MkPgTx db' seq net' false)
    | (Err e, _) => (Err e, MkPgTx db seq net' true)
    end.
Proof.
  intros (Hr & _ & Hc)%next_calm. unfold stmt. simpl. destruct (next_trip net) as [tr net']. simpl in *. rewrite Hr. by exists net'.
Qed.

Lemma do_capture_run {V} n (fn : V → pgTx → res unit * V * pgTx) v s :
  calm (pg_net s) →
  ∃ net, calm net ∧ ∀ r v' t, fn v (MkPgTx (pg_db s) (pg_seq s) net false) = (r, v', t) → calm (px_net t) →
    match r with
    | Ok _ => px_failed t = false → ∃ net', calm net' ∧ do_capture n fn v s = (Ok tt, v', MkPGStore (px_db t) (px_seq t) net')
    | Err e => is_panic e = false → retryablePG e = false →
               do_capture n fn v s = (Err (fail "transaction" e), v', MkPGStore (pg_db s) (px_seq t) (px_net t))
    end.
Proof.
  intros (Hr & Hp & Hc)%next_calm. destruct (next_trip (pg_net s)) as [tr net] eqn:Hn. simpl in *. exists net. split; [done|].
  intros r v' t Hrun Ht.
  assert (begun s = Some (MkPgTx (pg_db s) (pg_seq s) net false)) as Hbegun by (unfold begun; by rewrite Hn, Hp, Hr).
  assert (doOnce (λ t, let '(r, _, t) := fn v t in (r, t)) s =
    match r with
    | Err e => (Err e, MkPGStore (pg_db s) (px_seq t) (px_net t))
    | Ok a => let '(tr, net) := next_trip (px_net t) in
        if px_failed t then (Err commit_rollback, MkPGStore (pg_db s) (px_seq t) net)
        else match tp_reply tr with
             | Runs => (Ok a, MkPGStore (px_db t) (px_seq t) net)
             | Fails e | Breaks e => (Err e, MkPGStore (pg_db s) (px_seq t) net)
             | Lost e => (Err e, MkPGStore (px_db t) (px_seq t) net)
             end
    end) as Honce by (unfold doOnce; rewrite Hn, Hp, Hr; simpl; rewrite Hrun; by destruct r).
  destruct r as [[]|e].
  - intros Hf. apply next_calm in Ht as (Hr' & _ & Hc'). destruct (next_trip (px_net t)) as [tr' net']. simpl in *.
    exists net'. split; [done|]. destruct n; simpl; rewrite Hbegun, Hrun, Honce, Hf, Hr'; done.
  - intros Hpan Hret. destruct n; simpl; rewrite Hbegun, Hrun, Honce, Hpan, Hret; done.
Qed.

Lemma auto_same_enqueue db ms outbox rows :
  auto_same db ms →
  (λ q, (pq_subject q, pq_msg_id q)) <$> rows = (λ m, (ob_Subject m, ob_MsgID m)) <$> outbox →
  auto_same (db <| db_outbox := db_outbox db ++ rows |>) (enqueueLocked outbox ms).
Proof.
  intros Hsame Hrows. revert db ms rows Hsame Hrows. induction outbox as [|m outbox IH]; intros db ms rows Hsame Hrows.
  - destruct rows; [|done]. rewrite app_nil_r. by destruct db.
  - destruct rows as [|q rows]; [done|]. rewrite !fmap_cons in Hrows. injection Hrows as Hs Hm Hrows.
    specialize (IH (db <| db_outbox := db_outbox db ++ [q] |>) (enqueue_one ms m) rows). simpl in IH.
    rewrite <-app_assoc in IH. simpl in IH. apply IH; [|done].
    destruct Hsame as [Hreq Hord Hids Hex Hcl Hexe Hres Hrid Hfk Hfin Hal Hq]. constructor; simpl; try done.
    rewrite !fmap_app, Hq. simpl. by rewrite Hs, Hm.
Qed.

Lemma Enqueue_calm m db seq net :
  calm net → (seq < int_max)%Z →
  ∃ net', calm net' ∧ pg_Enqueue m (MkPgTx db seq net false)
    = (Ok tt, MkPgTx (db <| db_outbox := db_outbox db ++ [row_of_message (seq + 1) m] |>) (seq + 1) net' false).
Proof.
  intros Hc Hseq. unfold pg_Enqueue. cbn [px_seq]. destruct (Z.eqb_spec seq int_max); [lia|].
  destruct (stmt_calm (λ db, (Ok tt, db <| db_outbox := db_outbox db ++ [row_of_message (seq + 1) m] |>)) db (seq + 1) net Hc) as (net' & Hc' & Hst).
  by exists net'.
Qed.

Lemma enqueueTx_run outbox db seq net :
  calm net → (seq + Z.of_nat (length outbox) ≤ int_max)%Z →
  ∃ rows net', calm net' ∧ (λ q, (pq_subject q, pq_msg_id q)) <$> rows = (λ m, (ob_Subject m, ob_MsgID m)) <$> outbox ∧
    enqueueTx outbox (MkPgTx db seq net false)
    = (Ok tt, MkPgTx (db <| db_outbox := db_outbox db ++ rows |>) (seq + Z.of_nat (length outbox)) net' false).
Proof.
  revert db seq net. induction outbox as [|m outbox IH]; intros db seq net Hc Hseq.
  - exists [], net. split_and!; [done|done|]. simpl. rewrite app_nil_r, Z.add_0_r. by destruct db.
  - cbn [length] in Hseq. unfold enqueueTx. cbn [ST_foldl].
    destruct (Enqueue_calm m db seq net Hc) as (net1 & Hc1 & Hst); [lia|]. rewrite (ST_bind_Ok _ _ _ _ _ Hst).
    destruct (IH (db <| db_outbox := db_outbox db ++ [row_of_message (seq + 1) m] |>) (seq + 1)%Z net1 Hc1) as (rows & net' & Hc' & Hrows & Hrun); [lia|].
    exists (row_of_message (seq + 1) m :: rows), net'. split_and!; [done|by rewrite !fmap_cons, Hrows|].
    unfold enqueueTx in Hrun. rewrite Hrun. simpl. rewrite <-app_assoc. simpl. do 2 f_equal. lia.
Qed.

Section transactions.
Context (s : PGStore) (ms : MemStore) (Hsame : auto_same (pg_db s) ms) (Hcalm : calm (pg_net s)).

Lemma auto_same_insert db mem req :
  auto_same db mem → auto_exact (UInsert req []) mem → db_requests db !! rq_RequestID req = None →
  auto_same (db <| db_requests := <[rq_RequestID req := row_of_request req]> (db_requests db) |>)
    (mem <| ms_autoReq := <[rq_RequestID req := req]> (ms_autoReq mem) |> <| ms_autoOrder := ms_autoOrder mem ++ [rq_RequestID req] |>).
Proof.
  intros Hs (Hp & Hnb & Hcr & Hst) Hnew.
  pose proof (same_lookup _ _ Hs (rq_RequestID req)) as Hnone. rewrite Hnew in Hnone.
  destruct Hs as [Hreq Hord Hids Hex Hcl Hexe Hres Hrid Hfk Hfin Hal Hq]. constructor; simpl; try done.
  - rewrite fmap_insert, Hreq. f_equal. apply decode_js in Hp. unfold exact_time in *. unfold scanAutomation. simpl. rewrite Hp, Hnb, Hcr. by destruct req.
  - by apply order_ok_insert.
  - by apply map_Forall_insert_2.
  - apply map_Forall_insert_2; [|done]. split_and!; [apply micro_idemp|apply micro_idemp|done].
  - intros j. rewrite <-Hcl. destruct (decide (rq_RequestID req = j)) as [<-|]; [by rewrite lookup_insert_eq, Hnew|by rewrite lookup_insert_ne].
  - apply map_Forall_insert_2; [|done]. simpl. done.
  - intros j Hj. rewrite lookup_insert_is_Some. destruct (decide (rq_RequestID req = j)); [by left|right; eauto].
Qed.

Lemma insert_agrees `{PgServer} req outbox :
  auto_exact (UInsert req outbox) ms → (pg_seq s + Z.of_nat (length outbox) ≤ int_max)%Z →
  agreed (UInsert req outbox) (pg_seq s) (run_auto (UInsert req outbox) s) (run_auto (UInsert req outbox) ms).
Proof using Hsame Hcalm.
  intros Hex Hseq. cbn [run_auto]. unfold answer, mbind, ST_bind. cbn [InsertAutomationRequest PGStore_auto MemStore_auto].
  unfold pg_InsertAutomationRequest, mem_InsertAutomationRequest.
  destruct (do_capture_run 3 (insert_request_body req outbox) false s Hcalm) as (net & Hnet & Hdo).
  destruct (stmt_calm (λ db, let '(new, db) := sql_insert_request req db in (Ok new, db)) (pg_db s) (pg_seq s) net Hnet) as (net1 & Hnet1 & Hst).
  unfold sql_insert_request at 2, insert_nothing in Hst. rewrite (same_lookup _ _ Hsame).
  destruct (db_requests (pg_db s) !! rq_RequestID req) eqn:Hold; cbn [fmap option_fmap option_map].
  - specialize (Hdo (Ok tt) false _ ltac:(unfold insert_request_body; rewrite Hst; reflexivity) Hnet1 eq_refl) as (net' & Hnet' & ->).
    simpl. split_and!; [done|by destruct s as [[]]|done|simpl; lia].
  - destruct (enqueueTx_run outbox ((pg_db s) <| db_requests := <[rq_RequestID req := row_of_request req]> (db_requests (pg_db s)) |>) (pg_seq s) net1 Hnet1 Hseq)
      as (rows & net2 & Hnet2 & Hrows & Henq).
    specialize (Hdo (Ok tt) true _ ltac:(unfold insert_request_body; rewrite Hst; cbn beta iota; rewrite Henq; reflexivity) Hnet2 eq_refl) as (net' & Hnet' & ->).
    split_and!; [done| |done|simpl; lia]. apply auto_same_enqueue; [|done]. by apply auto_same_insert.
Qed.

Lemma auto_same_complete db mem r q :
  auto_same db mem → auto_exact (UComplete r []) mem → db_requests db !! rs_RequestID r = Some q →
  auto_same
    (db <| db_results := <[rs_RequestID r := row_of_result r]> (db_results db) |>
        <| db_requests := <[rs_RequestID r := q <| pr_status := rs_Status r |>]> (db_requests db) |>)
    (set_request (rs_RequestID r) ((scanAutomation q) <| rq_Status := rs_Status r |>)
       (mem <| ms_autoRes := <[rs_RequestID r := r]> (ms_autoRes mem) |>)).
Proof.
  intros Hs (Hd & Hsa & Hfa & Hst) Hq.
  assert (auto_same (db <| db_results := <[rs_RequestID r := row_of_result r]> (db_results db) |>)
    (mem <| ms_autoRes := <[rs_RequestID r := r]> (ms_autoRes mem) |>)) as Hs'.
  { destruct Hs as [Hreq Hord Hids Hex Hcl Hexe Hres Hrid Hfk Hfin Hal Hqu]. constructor; simpl; try done.
    - rewrite fmap_insert, Hres. f_equal. apply decode_js in Hd. unfold exact_time in *. unfold result_of_row. simpl. rewrite Hd, Hsa, Hfa. by destruct r.
    - by apply map_Forall_insert_2.
    - intros j [<-|Hj]%lookup_insert_is_Some'; [by eexists|by apply Hfk].
    - apply map_Forall_insert_2; [apply micro_idemp|done]. }
  pose proof (auto_same_update _ _ (rs_RequestID r) q (q <| pr_status := rs_Status r |>) (ms_autoClaim mem) Hs' Hq) as Hup.
  pose proof (au_ids _ _ Hs _ _ Hq) as Hid. pose proof (au_exact _ _ Hs _ _ Hq) as Hex. pose proof (au_claims _ _ Hs (rs_RequestID r)) as Hcl.
  rewrite Hq in Hcl. simpl in Hid, Hcl. destruct mem. apply Hup; [done|done|done|]. intros j. simpl in *. by case_decide; subst.
Qed.

Lemma complete_agrees `{PgServer} r outbox :
  auto_exact (UComplete r outbox) ms → (pg_seq s + Z.of_nat (length outbox) ≤ int_max)%Z →
  agreed (UComplete r outbox) (pg_seq s) (run_auto (UComplete r outbox) s) (run_auto (UComplete r outbox) ms).
Proof using Hsame Hcalm.
  intros Hex Hseq. cbn [run_auto]. unfold answer, mbind, ST_bind. cbn [CompleteAutomation PGStore_auto MemStore_auto].
  unfold pg_CompleteAutomation, mem_CompleteAutomation.
  destruct (do_capture_run 3 (complete_body r outbox) false s Hcalm) as (net & Hnet & Hdo).
  destruct (stmt_calm (sql_insert_result r) (pg_db s) (pg_seq s) net Hnet) as (net1 & Hnet1 & Hst). unfold sql_insert_result at 2 in Hst.
  rewrite (same_lookup _ _ Hsame), (same_result_lookup _ _ Hsame).
  destruct (db_results (pg_db s) !! rs_RequestID r) eqn:Hres; cbn [fmap option_fmap option_map].
  { destruct (au_foreign _ _ Hsame (rs_RequestID r)) as [q Hq]; [by eexists|]. rewrite Hq. cbn [fmap option_fmap option_map].
    specialize (Hdo (Ok tt) false _ ltac:(unfold complete_body; rewrite Hst; reflexivity) Hnet1 eq_refl) as (net' & Hnet' & ->).
    split_and!; [done|done|done|simpl; lia]. }
  destruct (db_requests (pg_db s) !! rs_RequestID r) as [q|] eqn:Hq; cbn [fmap option_fmap option_map].
  2: { specialize (Hdo (Err foreign_key_error) false _ ltac:(unfold complete_body; rewrite Hst; reflexivity) Hnet1 eq_refl eq_refl) as ->.
       split_and!; [done|done|done|simpl; lia]. }
  set (db1 := (pg_db s) <| db_results := <[rs_RequestID r := row_of_result r]> (db_results (pg_db s)) |>) in *.
  destruct (stmt_calm (λ db, (Ok tt, (update_request (rs_RequestID r) (λ _, true) (λ q, q <| pr_status := rs_Status r |>) db).2)) db1 (pg_seq s) net1 Hnet1)
    as (net2 & Hnet2 & Hst2). unfold update_request at 2 in Hst2. replace (db_requests db1 !! rs_RequestID r) with (Some q) in Hst2 by done. cbn [snd] in Hst2.
  destruct (enqueueTx_run outbox (db1 <| db_requests := <[rs_RequestID r := q <| pr_status := rs_Status r |>]> (db_requests db1) |>) (pg_seq s) net2 Hnet2 Hseq)
    as (rows & net3 & Hnet3 & Hrows & Henq).
  specialize (Hdo (Ok tt) true _ ltac:(unfold complete_body; rewrite Hst; cbn beta iota; rewrite Hst2; cbn beta iota; rewrite Henq; reflexivity) Hnet3 eq_refl)
    as (net' & Hnet' & ->).
  split_and!; [done| |done|simpl; lia]. apply auto_same_enqueue; [|done]. exact (auto_same_complete (pg_db s) ms r q Hsame Hex Hq).
Qed.
End transactions.

Lemma call_agrees `{PgServerOk} op s ms :
  auto_same (pg_db s) ms → calm (pg_net s) → auto_exact op ms → (pg_seq s + Z.of_nat (length (op_messages op)) ≤ int_max)%Z →
  agreed op (pg_seq s) (run_auto op s) (run_auto op ms).
Proof.
  intros. destruct op; [by apply insert_agrees|by apply due_agrees|by apply claim_agrees|by apply set_status_agrees|by apply approve_agrees
    |by apply complete_agrees|by apply awaiting_agrees|by apply history_agrees|by apply attempts_agrees|by apply firing_agrees|by apply get_agrees].
Qed.

