(* ===== verification/PgReader.v ===== *)
(** * The PostgreSQL store: the read side (src/internal/persistence/postgres_reader.go)

    The listings of the API with their keyset pagination done by the server, the metric queries,
    and that a page read from PostgreSQL is the page the in-memory store gives; the device mirror and the current states. *)

From S2P Require Import Prelude GoLib GoFloat Domain Store Inventory MemStore MemStoreFacts AutoStore AutoStoreFacts PgDB PgStore PgAgree PgThms PgAuto PgAutoThms.

(** ** Conditions *)

(** [where]: the conditions added so far, joined with AND; each adds its own argument. *)
Definition where_ (R : Type) : Type := list (R → bool).
Definition where_add {R} (given : bool) (cond : R → bool) (w : where_ R) : where_ R := if given then w ++ [cond] else w.
Definition where_sql {R} (w : where_ R) (r : R) : bool := forallb (λ c, c r) w.

Section server.
Context `{PgServer}.

(** [(time, id) < (ct, cid)], and [ORDER BY time DESC, id DESC]. *)
Definition row_before (c k : Time * string) : bool := (k.1 <? micro c.1)%Z || ((k.1 =? micro c.1)%Z && collate k.2 c.2).
Definition pg_newest {R} (key : R → Time * string) (a b : R) : bool :=
  if negb ((key a).1 =? (key b).1)%Z then ((key b).1 <? (key a).1)%Z else collate (key b).2 (key a).2.

(** The rows of one page and one more, in the order of the listing. *)
Definition page_rows {R} (w : where_ R) (key : R → Time * string) (limit : Z) (rows : list R) : list R :=
  take (Z.to_nat (limit + 1)) (select_rows (where_sql w) (pg_newest key) rows).

(** The page, with a cursor to the next one when there is more. *)
Definition cut_page `{CursorCodec} {T} (key : T → Time * string) (limit : Z) (out : list T) : res (list T * string) :=
  if (limit <? Z.of_nat (length out))%Z then
    let out := take (Z.to_nat limit) out in
    match last out with
    | Some it => Ok (out, EncodeCursor (key it).1 (key it).2)
    | None => Err (EPanic "index out of range [-1]")
    end
  else Ok (out, "").

(** ** Listings *)

Definition pg_DeviceStates (deviceID : string) : ST PGStore error (list StateRecord) :=
  all ← pg_ListStates; mret (filter (λ r, sr_DeviceID r = deviceID) all).

Definition event_row_key (r : event_row) : Time * string := (pe_occurred r, pe_id r).
Definition events_where (f : EventFilter) (p : Page) (c : Time * string) : where_ event_row :=
  where_add (bool_decide (pg_Cursor p ≠ "")) (λ r, row_before c (event_row_key r))
    (where_add (negb (IsZero (ef_Until f))) (λ r, (pe_occurred r <? micro (ef_Until f))%Z)
       (where_add (negb (IsZero (ef_Since f))) (λ r, (micro (ef_Since f) <=? pe_occurred r)%Z)
          (where_add (bool_decide (ef_MinSeverity f ≠ "")) (λ r, bool_decide (pe_severity r ∈ severitiesFrom (ef_MinSeverity f)))
             (where_add (bool_decide (ef_Type f ≠ "")) (λ r, bool_decide (pe_type r = ef_Type f))
                (where_add (bool_decide (ef_DeviceID f ≠ "")) (λ r, bool_decide (pe_device r = ef_DeviceID f)) []))))).
Definition pg_ListEvents `{CursorCodec} (f : EventFilter) (p : Page) : ST PGStore error (list Event * string) :=
  c ← ST_lift (DecodeCursor (pg_Cursor p));
  let limit := clampLimit (pg_Limit p) in
  out ← autocommit "list events" (query (λ db, event_of_row <$> page_rows (events_where f p c) event_row_key limit (rows_of (db_events db))));
  ST_lift (cut_page event_key limit out).

Definition alert_row_key (r : alert_row) : Time * string := (pa_opened r, pa_open_event r).
Definition alerts_where (f : AlertFilter) (p : Page) (c : Time * string) : where_ alert_row :=
  where_add (bool_decide (pg_Cursor p ≠ "")) (λ r, row_before c (alert_row_key r))
    (where_add (bool_decide (af_DeviceID f ≠ "")) (λ r, bool_decide (pa_device r = af_DeviceID f))
       (match af_Status f with Some st => where_add true (λ r, bool_decide (pa_status r = st)) [] | None => [] end)).
Definition pg_ListAlerts `{CursorCodec} (f : AlertFilter) (p : Page) : ST PGStore error (list Alert * string) :=
  c ← ST_lift (DecodeCursor (pg_Cursor p));
  let limit := clampLimit (pg_Limit p) in
  out ← autocommit "list alerts" (query (λ db, alert_of_row <$> page_rows (alerts_where f p c) alert_row_key limit (db_alerts db)));
  ST_lift (cut_page alert_key limit out).

(** [automation_requests LEFT JOIN automation_results USING (request_id)]. *)
Definition left_join (db : DB) : list (request_row * option result_row) :=
  (λ r, (r, db_results db !! pr_id r)) <$> rows_of (db_requests db).
Definition request_row_key (p : request_row * option result_row) : Time * string := (pr_created p.1, pr_id p.1).
Definition automation_where (f : AutomationFilter) (p : Page) (c : Time * string) : where_ (request_row * option result_row) :=
  where_add (bool_decide (pg_Cursor p ≠ "")) (λ r, row_before c (request_row_key r))
    (where_add (bool_decide (uf_PolicyID f ≠ "")) (λ r, bool_decide (pr_policy r.1 = uf_PolicyID f))
       (where_add (bool_decide (uf_DeviceID f ≠ "")) (λ r, bool_decide (pr_device r.1 = uf_DeviceID f))
          (match uf_Status f with Some st => where_add true (λ r, bool_decide (pr_status r.1 = st)) [] | None => [] end))).
(** The result carries the id of its request. *)
Definition view_of_rows (p : request_row * option result_row) : AutomationView :=
  let r := scanAutomation p.1 in
  MkAutomationView r
    ((λ x, MkAutomationResult (rq_RequestID r) (pz_correlation x) (pz_status x) (pz_dry_run x) (pz_message x)
             (decodeLabels (pz_details x)) (pz_started x) (pz_finished x)) <$> p.2).
Definition pg_ListAutomation `{CursorCodec} (f : AutomationFilter) (p : Page) : ST PGStore error (list AutomationView * string) :=
  c ← ST_lift (DecodeCursor (pg_Cursor p));
  let limit := clampLimit (pg_Limit p) in
  out ← autocommit "list automation" (query (λ db, view_of_rows <$> page_rows (automation_where f p c) request_row_key limit (left_join db)));
  ST_lift (cut_page view_key limit out).

(** ** Metrics *)

Definition scanPoint (r : observation_row) : MetricPoint :=
  MkMetricPoint (po_id r) (po_metric r) (value_of_columns (po_num r) (po_bool r) (po_text r)) (decodeLabels (po_labels r)) (po_observed r).

Definition metrics_where (deviceID metric : string) (since until : Time) : where_ observation_row :=
  where_add (negb (IsZero until)) (λ r, (po_observed r <? micro until)%Z)
    (where_add (negb (IsZero since)) (λ r, (micro since <=? po_observed r)%Z)
       (where_add true (λ r, bool_decide (po_metric r = metric))
          (where_add true (λ r, bool_decide (po_device r = deviceID)) []))).
Definition sql_metrics (deviceID metric : string) (since until : Time) (limit : Z) (db : DB) : list MetricPoint :=
  scanPoint <$> take (Z.to_nat (clampLimit limit))
    (select_rows (where_sql (metrics_where deviceID metric since until)) (λ a b, (po_observed b <? po_observed a)%Z) (rows_of (db_observations db))).
Definition pg_Metrics (deviceID metric : string) (since until : Time) (limit : Z) : ST PGStore error (list MetricPoint) :=
  list_query "metrics" (λ db, Ok (sql_metrics deviceID metric since until limit db)).

(** [DISTINCT ON]: the first row of every run of equal keys. *)
Fixpoint distinct_on {R K} `{EqDecision K} (key : R → K) (prev : option K) (rows : list R) : list R :=
  match rows with
  | [] => []
  | r :: rows => if bool_decide (prev = Some (key r)) then distinct_on key prev rows else r :: distinct_on key (Some (key r)) rows
  end.
Definition series_row (r : observation_row) : string * string := (po_metric r, po_labels_key r).
(** [ORDER BY metric, labels_key, observed_at DESC]. *)
Definition by_series_row (a b : observation_row) : bool :=
  if bool_decide (po_metric a ≠ po_metric b) then collate (po_metric a) (po_metric b)
  else if bool_decide (po_labels_key a ≠ po_labels_key b) then collate (po_labels_key a) (po_labels_key b)
  else (po_observed b <? po_observed a)%Z.
Definition sql_latest_metrics (deviceID : string) (db : DB) : list MetricPoint :=
  scanPoint <$> distinct_on series_row None (select_rows (λ r, bool_decide (po_device r = deviceID)) by_series_row (rows_of (db_observations db))).
Definition pg_LatestMetrics (deviceID : string) : ST PGStore error (list MetricPoint) :=
  list_query "latest metrics" (λ db, Ok (sql_latest_metrics deviceID db)).
End server.

(** ** The same pages *)

Section listing.
Context {R T : Type} `{PgServerOk} (Hcollate : collate = str_lt).
Context (f : R → T) (rkey : R → Time * string) (key : T → Time * string) (Hkey : ∀ r, key (f r) = rkey r).

Lemma ordered_filter (p : T → bool) l : ordered key l → ordered key (filter (λ x, p x = true) l).
Proof.
  induction 1 as [|x l Hs IH Hx]; [constructor|]. rewrite filter_cons. case_decide; [|done]. constructor; [done|].
  apply Forall_forall. intros y [_ Hy]%list_elem_of_filter. rewrite Forall_forall in Hx. by apply Hx.
Qed.

Lemma NoDup_keys_filter {X} (k : X → Time * string) (P : X → Prop) `{∀ x, Decision (P x)} l : NoDup (k <$> l) → NoDup (k <$> filter P l).
Proof.
  induction l as [|x l IH]; [done|]. rewrite fmap_cons, filter_cons. intros [Hx Hl]%NoDup_cons. case_decide; [|by apply IH].
  rewrite fmap_cons. apply NoDup_cons. split; [|by apply IH]. intros (y & Hy & [_ Hin]%list_elem_of_filter)%list_elem_of_fmap.
  apply Hx, list_elem_of_fmap. eauto.
Qed.

(** Selecting and ordering on the server is filtering and sorting the items, when the filter of
    the query is the filter of the listing and the cursor's. *)
Lemma listing_same (p : R → bool) (q cur : T → bool) rows items :
  items ≡ₚ f <$> rows → NoDup (key <$> items) → Forall (λ r, p r = q (f r) && cur (f r)) rows →
  f <$> select_rows p (pg_newest rkey) rows = filter (λ x, cur x = true) (sort_stable (newest_first key) (filter (λ x, q x = true) items)).
Proof using Hcollate Hkey H0.
  intros Hitems Hnd Hp. eapply (StronglySorted_unique_strong (λ a b, beyond (key a) (key b) = true)).
  - intros x y _ _ Hxy Hyx. pose proof (beyond_trans _ _ _ Hxy Hyx) as Hc. by rewrite beyond_irrefl in Hc.
  - unfold select_rows.
    assert (pg_newest rkey = newest_first rkey) as -> by (unfold pg_newest; by rewrite Hcollate).
    assert (ordered rkey (sort_stable (newest_first rkey) (filter (λ r, p r = true) (scan rows)))) as Ho.
    { apply sort_newest_ordered. rewrite scan_perm. apply NoDup_keys_filter. rewrite Hitems, <-list_fmap_compose in Hnd.
      erewrite list_fmap_ext; [exact Hnd|]. intros i r _. simpl. by rewrite Hkey. }
    clear -Ho Hkey. induction Ho as [|r l Hs IH Hr]; [constructor|]. rewrite fmap_cons. constructor; [done|].
    apply Forall_fmap. eapply Forall_impl; [exact Hr|]. intros r' Hr'. simpl. by rewrite !Hkey.
  - apply ordered_filter, sort_newest_ordered. by apply NoDup_keys_filter.
  - unfold select_rows. rewrite !sort_stable_perm, scan_perm, Hitems. rewrite list_filter_filter.
    rewrite (filtered_rows f p (λ x, cur x = true ∧ q x = true)); [done|].
    eapply Forall_impl; [exact Hp|]. intros r ->. simpl. rewrite andb_true_iff. tauto.
Qed.
End listing.

Lemma where_add_true {R} given (c : R → bool) w r : where_sql (where_add given c w) r = where_sql w r && (negb given || c r).
Proof.
  unfold where_add, where_sql. destruct given; simpl; [|by rewrite andb_true_r]. rewrite forallb_app. simpl. by rewrite andb_true_r.
Qed.

(** The cursor's condition is the one of the in-memory listing. *)
Lemma row_before_beyond `{PgServer} c k : collate = str_lt → exact_time c.1 → row_before c k = beyond c k.
Proof. unfold exact_time. intros Hc Ht. unfold row_before, beyond, Before. by rewrite Hc, Ht. Qed.

Lemma cut_page_pageOf `{CursorCodec} {T} (key : T → Time * string) p c (items l : list T) :
  DecodeCursor (pg_Cursor p) = Ok c →
  l = filter (λ it, negb (bool_decide (pg_Cursor p ≠ "") && negb (beyond c (key it))) = true) items →
  cut_page key (clampLimit (pg_Limit p)) (take (Z.to_nat (clampLimit (pg_Limit p) + 1)) l) = pageOf items key p.
Proof. intros Hc ->. unfold pageOf. by rewrite Hc. Qed.

(** A page read on its own, once the cursor is decoded. *)
Lemma page_run `{CursorCodec} {T} name (key : T → Time * string) p c (rows : Time * string → DB → list T) s :
  calm (pg_net s) → DecodeCursor (pg_Cursor p) = Ok c →
  ((c' ← ST_lift (DecodeCursor (pg_Cursor p));
    out ← autocommit name (query (rows c')); ST_lift (cut_page key (clampLimit (pg_Limit p)) out)) s).1
  = cut_page key (clampLimit (pg_Limit p)) (rows c (pg_db s)).
Proof.
  intros Hcalm Hc. destruct (autocommit_run name (query (rows c)) s Hcalm) as (net & _ & Hrun). unfold query in Hrun at 2.
  unfold mbind, ST_bind, ST_lift. by rewrite Hc, Hrun.
Qed.

Lemma severities_from_rank min s : Severity_Valid min = true → (s ∈ severitiesFrom min ↔ (Rank min ≤ Rank s)%Z).
Proof.
  unfold Severity_Valid. intros Hv%Z.ltb_lt. unfold severitiesFrom. rewrite list_elem_of_filter. split; [tauto|]. intros Hr. split; [done|].
  revert Hr. unfold Rank at 2. rewrite !elem_of_cons.
  intros Hr. repeat case_bool_decide; subst; try tauto. lia.
Qed.

Lemma events_where_matches `{PgServer} f p c r :
  collate = str_lt → exact_time (ef_Since f) → exact_time (ef_Until f) → exact_time c.1 →
  (ef_MinSeverity f = "" ∨ Severity_Valid (ef_MinSeverity f) = true) →
  where_sql (events_where f p c) r
  = event_matches f (event_of_row r) && negb (bool_decide (pg_Cursor p ≠ "") && negb (beyond c (event_key (event_of_row r)))).
Proof.
  intros Hcol Hs Hu Hc Hsev. unfold events_where. rewrite !where_add_true. unfold exact_time in *. rewrite row_before_beyond, Hs, Hu by done.
  unfold event_matches, Before. simpl.
  replace (bool_decide (ef_MinSeverity f ≠ "") && (Rank (pe_severity r) <? Rank (ef_MinSeverity f))%Z)
    with (negb (negb (bool_decide (ef_MinSeverity f ≠ "")) || bool_decide (pe_severity r ∈ severitiesFrom (ef_MinSeverity f)))).
  2: { destruct (bool_decide_reflect (ef_MinSeverity f ≠ "")) as [Hne|]; [|done]. simpl. destruct Hsev as [?|Hv]; [done|].
       rewrite <-bool_decide_not. apply eq_bool_prop_intro. rewrite !Is_true_true, bool_decide_eq_true, severities_from_rank, Z.ltb_lt by done. lia. }
  rewrite !bool_decide_not, Z.leb_antisym.
  repeat match goal with |- context [bool_decide ?P] => destruct (bool_decide P); simpl end; try done;
    repeat match goal with |- context [IsZero ?t] => destruct (IsZero t); simpl end; try done;
    repeat match goal with |- context [(?a <? ?b)%Z] => destruct (a <? b)%Z; simpl end; try done; by destruct (beyond _ _).
Qed.


(** The same of the alerts and of the automation requests with their results. *)
Theorem pg_alert_page_same `{PgServerOk, CursorCodec} f p s ms c :
  collate = str_lt → calm (pg_net s) → alert_of_row <$> db_alerts (pg_db s) = ms_alerts ms → NoDup (pa_open_event <$> db_alerts (pg_db s)) →
  DecodeCursor (pg_Cursor p) = Ok c → exact_time c.1 → (pg_ListAlerts f p s).1 = ListAlerts f p ms.
Proof.
  intros Hcol Hcalm Hal Hnd Hc Hct. unfold pg_ListAlerts, ListAlerts.
  etrans; [by apply (page_run "list alerts" alert_key p c
    (λ c db, alert_of_row <$> page_rows (alerts_where f p c) alert_row_key (clampLimit (pg_Limit p)) (db_alerts db)))|]. unfold page_rows.
  rewrite fmap_take. eapply cut_page_pageOf; [done|]. apply listing_same; [done|done|by rewrite Hal| |].
  - rewrite <-Hal, <-list_fmap_compose. apply (NoDup_fmap_1 snd). by rewrite <-list_fmap_compose.
  - apply Forall_forall. intros r _. unfold alerts_where. rewrite !where_add_true, row_before_beyond by done. unfold alert_matches. simpl.
    rewrite !bool_decide_not. destruct (af_Status f) as [st|]; unfold where_sql; simpl; rewrite ?andb_true_r, ?bool_decide_not;
      repeat match goal with |- context [bool_decide ?P] => destruct (bool_decide P); simpl end; try done; by destruct (beyond _ _).
Qed.

Lemma view_of_same db ms r :
  auto_same db ms → view_of_rows (r, db_results db !! pr_id r) = MkAutomationView (scanAutomation r) (ms_autoRes ms !! rq_RequestID (scanAutomation r)).
Proof.
  intros Hsame. unfold view_of_rows. simpl. f_equal. rewrite (same_result_lookup _ _ Hsame).
  destruct (db_results db !! pr_id r) as [x|] eqn:Hx; [|done]. simpl. unfold result_of_row. by rewrite (au_result_ids _ _ Hsame _ _ Hx).
Qed.

Theorem pg_automation_page_same `{PgServerOk, CursorCodec} f p s ms c :
  collate = str_lt → calm (pg_net s) → auto_same (pg_db s) ms → DecodeCursor (pg_Cursor p) = Ok c → exact_time c.1 →
  (pg_ListAutomation f p s).1 = ListAutomation f p ms.
Proof.
  intros Hcol Hcalm Hsame Hc Hct. unfold pg_ListAutomation, ListAutomation.
  etrans; [by apply (page_run "list automation" view_key p c
    (λ c db, view_of_rows <$> page_rows (automation_where f p c) request_row_key (clampLimit (pg_Limit p)) (left_join db)))|]. unfold page_rows.
  rewrite fmap_take. eapply cut_page_pageOf; [done|].
  replace ((λ r, MkAutomationView r (ms_autoRes ms !! rq_RequestID r)) <$> filter (λ r, request_matches f r = true) (requests_in_order ms))
    with (filter (λ v, request_matches f (vw_Request v) = true) ((λ r, MkAutomationView r (ms_autoRes ms !! rq_RequestID r)) <$> requests_in_order ms)).
  2: { symmetry. apply (filtered_rows _ (request_matches f)). by apply Forall_forall. }
  apply (listing_same Hcol view_of_rows request_row_key view_key ltac:(done) _ (λ v, request_matches f (vw_Request v))).
  - rewrite (same_requests _ _ Hsame). unfold left_join. rewrite <-!list_fmap_compose. apply reflexive_eq, list_fmap_ext. intros i r _. simpl.
    symmetry. by apply view_of_same.
  - rewrite <-list_fmap_compose. apply (NoDup_fmap_1 snd). rewrite <-list_fmap_compose, (same_requests _ _ Hsame), <-list_fmap_compose. unfold rows_of.
    rewrite <-list_fmap_compose. erewrite list_fmap_ext; [apply NoDup_fst_map_to_list|]. intros i [id r] Hr. simpl.
    apply list_elem_of_lookup_2, elem_of_map_to_list in Hr. by rewrite (au_ids _ _ Hsame _ _ Hr).
  - apply Forall_forall. intros [r x] _. unfold automation_where. rewrite !where_add_true, row_before_beyond by done. unfold request_matches. simpl.
    rewrite !bool_decide_not. destruct (uf_Status f) as [st|]; unfold where_sql; simpl; rewrite ?andb_true_r, ?bool_decide_not;
      repeat match goal with |- context [bool_decide ?P] => destruct (bool_decide P); simpl end; try done; by destruct (beyond _ _).
Qed.

(** * The device mirror and the current states agree with the in-memory store *)

(** ** Devices *)

Record devices_same (db : DB) (ms : MemStore) : Prop := {
  ds_view : device_of_row <$> db_devices db = ms_devices ms;
  ds_ids : map_Forall (λ id r, pd_id r = id) (db_devices db);
}.

(** A registered device has not been seen by the one who registers it. *)
Definition exact_device (d : Device) : Prop := exact_map (d_Attributes d) ∧ d_LastSeen d = time_zero.

Lemma upsert_same db ms d :
  devices_same db ms → exact_device d →
  devices_same (db <| db_devices := upsert_device (db_devices db) d |>) (UpsertDevices [d] ms).
Proof.
  intros [Hv Hids] [Ha%decode_js Hl]. constructor; simpl.
  - unfold upsert_device. rewrite fmap_insert, <-Hv, lookup_fmap.
    destruct (db_devices db !! d_ID d) as [old|]; simpl; f_equal; unfold device_of_row; simpl; rewrite Ha; destruct d; simpl in *; by rewrite ?Hl.
  - unfold upsert_device. apply map_Forall_insert_2; [|done]. by destruct (db_devices db !! d_ID d).
Qed.

Lemma upserts_same ds db ms :
  devices_same db ms → Forall exact_device ds →
  devices_same (db <| db_devices := foldl upsert_device (db_devices db) ds |>) (UpsertDevices ds ms).
Proof.
  revert db ms. induction ds as [|d ds IH]; intros db ms Hs Hds; [by destruct db, ms|]. apply Forall_cons in Hds as [Hd Hds].
  specialize (IH _ _ (upsert_same _ _ _ Hs Hd) Hds). destruct db, ms. exact IH.
Qed.

Lemma attributes_same db ms id attrs :
  devices_same db ms → js attrs ≠ ∅ →
  devices_same (db <| db_devices := alter (merge_attributes attrs) id (db_devices db) |>) (UpdateDeviceAttributes id attrs ms).
Proof.
  intros [Hv Hids] Hne. unfold UpdateDeviceAttributes. rewrite <-Hv, lookup_fmap.
  destruct (db_devices db !! id) as [r|] eqn:Hr; simpl.
  - rewrite (alter_present _ _ r) by done. constructor; simpl.
    + rewrite fmap_insert, Hv. f_equal. unfold merge_attributes, device_of_row. simpl. f_equal. rewrite entries_decode. unfold decodeLabels.
      rewrite bool_decide_eq_false_2; [done|]. by intros ?%map_positive_l.
    + apply map_Forall_insert_2; [|done]. simpl. by apply (Hids _ _ Hr).
  - constructor; simpl; by rewrite alter_id by (intros ? ?; congruence).
Qed.

(** Rows with distinct text keys, in the order of the keys. *)
Lemma select_by_text `{PgServerOk} {R V} (f : R → V) (rkey : R → string) (key : V → string) (m : gmap string R) :
  collate = str_lt → (∀ r, key (f r) = rkey r) → map_Forall (λ k r, rkey r = k) m →
  f <$> select_rows (λ _, true) (λ a b, collate (rkey a) (rkey b)) (rows_of m)
  = sort_stable (λ a b, str_lt (key a) (key b)) (map_to_list (f <$> m)).*2.
Proof.
  intros Hc Hk Hm. rewrite rows_of_fmap. unfold select_rows. rewrite Hc.
  assert (filter (λ _ : R, true = true) (scan (rows_of m)) = scan (rows_of m)) as ->.
  { induction (scan (rows_of m)) as [|r l IH]; [done|]. rewrite filter_cons. rewrite decide_True by done. by rewrite IH. }
  assert (NoDup (rkey <$> rows_of m)) as Hnd.
  { unfold rows_of. rewrite <-list_fmap_compose. erewrite list_fmap_ext; [apply NoDup_fst_map_to_list|]. intros i [k r] Hr. simpl.
    apply list_elem_of_lookup_2, elem_of_map_to_list in Hr. by apply Hm in Hr. }
  eapply (StronglySorted_unique_strong (λ a b, str_lt (key a) (key b) = true)).
  - intros x y _ _ Hxy Hyx. apply str_lt_asym in Hxy. congruence.
  - assert (StronglySorted (λ a b, str_lt (rkey a) (rkey b) = true) (sort_stable (λ a b, str_lt (rkey a) (rkey b)) (scan (rows_of m)))) as Hs.
    { apply (sort_stable_strict rkey); [intros ??; apply str_lt_asym|intros ???; apply str_lt_trans|intros x y Hx Hy; by apply str_lt_total|by rewrite scan_perm]. }
    clear -Hs Hk. induction Hs as [|r l Hs IH Hr]; [constructor|]. rewrite fmap_cons. constructor; [done|]. apply Forall_fmap.
    eapply Forall_impl; [exact Hr|]. intros r' Hr'. simpl. by rewrite !Hk.
  - apply (sort_stable_strict key); [intros ??; apply str_lt_asym|intros ???; apply str_lt_trans|intros x y Hx Hy; by apply str_lt_total|].
    rewrite <-list_fmap_compose. erewrite list_fmap_ext; [exact Hnd|]. intros i r _. simpl. by rewrite Hk.
  - by rewrite !sort_stable_perm, scan_perm.
Qed.

(** ** Calls as data *)

Inductive device_op :=
| DUpsert (ds : list Device)
| DAttributes (id : string) (attrs : smap).

Definition device_op_exact (op : device_op) : Prop :=
  match op with DUpsert ds => Forall exact_device ds | DAttributes _ attrs => js attrs ≠ ∅ end.
Definition run_device_pg (op : device_op) : ST PGStore error unit :=
  match op with DUpsert ds => pg_UpsertDevices ds | DAttributes id attrs => pg_UpdateDeviceAttributes id attrs end.
Definition run_device_mem (op : device_op) : MemStore → MemStore :=
  match op with DUpsert ds => UpsertDevices ds | DAttributes id attrs => UpdateDeviceAttributes id attrs end.

Lemma device_call_same op s ms :
  calm (pg_net s) → devices_same (pg_db s) ms → device_op_exact op →
  ∃ s', run_device_pg op s = (Ok tt, s') ∧ calm (pg_net s') ∧ devices_same (pg_db s') (run_device_mem op ms).
Proof.
  intros Hc Hs Hop. destruct op as [ds|id attrs]; cbn [run_device_pg run_device_mem].
  - destruct (autocommit_run "upsert devices" (λ db, (Ok tt, db <| db_devices := foldl upsert_device (db_devices db) ds |>)) s Hc) as (net & Hn & Hrun).
    eexists. split; [exact Hrun|]. split; [done|]. by apply upserts_same.
  - destruct (autocommit_run "update device attributes" (λ db, (Ok tt, db <| db_devices := alter (merge_attributes attrs) id (db_devices db) |>)) s Hc)
      as (net & Hn & Hrun).
    eexists. split; [exact Hrun|]. split; [done|]. by apply attributes_same.
Qed.

(** The device mirror is the same in both stores: after any registrations and attribute updates,
    [ListDevices] gives the same devices in the same order, when text is ordered bytewise. *)
Theorem device_mirrors_agree `{PgServerOk} ops s ms :
  collate = str_lt → calm (pg_net s) → devices_same (pg_db s) ms → Forall device_op_exact ops →
  ∃ s', ST_foldl (λ _ op, run_device_pg op) tt ops s = (Ok tt, s') ∧
    (pg_ListDevices s').1 = Ok (ListDevices (foldl (λ m op, run_device_mem op m) ms ops)).
Proof.
  intros Hcol. revert s ms. induction ops as [|op ops IH]; intros s ms Hc Hs Hops; cbn [ST_foldl foldl].
  - exists s. split; [done|]. destruct (autocommit_run "list devices" (query (λ db,
      device_of_row <$> select_rows (λ _, true) (λ a b, collate (pd_id a) (pd_id b)) (rows_of (db_devices db)))) s Hc) as (net & _ & Hrun).
    unfold pg_ListDevices. rewrite Hrun. unfold query. cbn [fst]. f_equal. unfold ListDevices. rewrite <-(ds_view _ _ Hs).
    apply (select_by_text device_of_row pd_id d_ID); [done|done|apply Hs].
  - apply Forall_cons in Hops as [Hop Hops]. destruct (device_call_same op s ms Hc Hs Hop) as (s1 & Hrun & Hc1 & Hs1).
    rewrite (ST_bind_Ok _ _ _ _ _ Hrun). by apply IH.
Qed.

(** ** States *)

(** [ListStates], which the stale sweeper reads, is the same in both stores. *)
Theorem state_listings_agree `{PgServerOk} s ms :
  collate = str_lt → calm (pg_net s) → pg_ok (pg_db s) (pg_seq s) → state_of_row <$> db_states (pg_db s) = ms_states ms →
  (pg_ListStates s).1 = Ok (mem_ListStates ms).
Proof.
  intros Hcol Hc Hok Hv. destruct (autocommit_run "list states" (query sql_list_states) s Hc) as (net & _ & Hrun).
  unfold pg_ListStates. rewrite Hrun. unfold query, sql_list_states. cbn [fst]. f_equal. unfold mem_ListStates. rewrite <-Hv.
  apply (select_by_text state_of_row ps_key sr_Key); [done|done|apply Hok].
Qed.
