(* ===== verification/PgExample.v ===== *)
(** * The PostgreSQL store on concrete inputs *)

From S2P Require Import Prelude GoLib GoFloat Domain Store Inventory MemStore MemStoreFacts AutoStore AutoStoreFacts PgDB PgStore PgAgree PgThms PgAuto PgAutoThms PgReader.

(** A server that scans newest first and orders text bytewise. *)
#[local] Instance ex_server : PgServer := {| scan A := reverse; collate := str_lt |}.
#[local] Instance ex_server_ok : PgServerOk.
Proof.
  constructor; simpl.
  - intros A l. by rewrite reverse_Permutation.
  - apply str_lt_asym.
  - apply str_lt_trans.
  - intros x y Hne. destruct (str_lt x y) eqn:Hxy, (str_lt y x) eqn:Hyx; [by left|by left|by right|]. by destruct Hne; apply str_lt_total.
Qed.

Definition ok_trip : trip := MkTrip id Runs.
Definition conflict : error := EPg "40001" "ERROR: could not serialize access due to concurrent update (SQLSTATE 40001)".
Definition ex_pg (net : list trip) : PGStore := MkPGStore EmptyDB 0 net.

Definition ex_message : OutboxMessage := MkOutboxMessage 0 "events.device" "m1" "{}" None.
Definition ex_observation : Observation :=
  MkObservation "o1" "c1" "switch-01" "snmp" "cpu" (VFloat64 f_one) None 5000 6000 None.
Definition ex_opening : Event :=
  MkEvent "e1" "c1" "switch-01" "device.down" "critical" "down" None 7000 "o1" "rule" "alert-1" false.
Definition ex_state : StateRecord :=
  MkStateRecord "k1" "switch-01" "reachability" None StateSuspect 1 0 true 5000 0 5000 5000 "o1" 5000 "1".
Definition ex_ops : list tx_op :=
  [OpInsertObservation ex_observation; OpInsertObservation ex_observation; OpSamples "switch-01" "cpu" "" 0 9000;
   OpPutState ex_state; OpGetState "k1"; OpInsertEvent ex_opening; OpOpenAlert ex_opening; OpOpenAlert ex_opening;
   OpResolveAlert ex_opening; OpEnqueue ex_message].

(** The commit of the first attempt meets a conflict, another session queues a message before the
    second, and the second succeeds. *)
Definition ex_peer : DB * Z → DB * Z := λ '(db, seq),
  (db <| db_outbox := db_outbox db ++ [row_of_message (seq + 1) ex_message] |>, (seq + 1)%Z).
Definition ex_conflicting : list trip := [ok_trip; ok_trip; MkTrip id (Fails conflict); ok_trip; MkTrip ex_peer Runs].


Example ex_conflict_ids : pq_id <$> db_outbox (pg_db (pg_Do (run_ops [OpEnqueue ex_message]) (ex_pg ex_conflicting)).2) = [2%Z; 3%Z].
Proof. reflexivity. Qed.


Definition duplicate : error := EPg "23505" "ERROR: duplicate key value violates unique constraint (SQLSTATE 23505)".
Definition ex_refused : ST pgTx error unit := stmt (λ db, (Err duplicate, db)).

Lemma pg_Do_error_witness :
  ∃ cat e0, as_domain (classifyPG "transaction" duplicate) = Some cat ∧ classifyPG "transaction" duplicate = classifyPG "transaction" e0 ∧
    (∀ cat0, as_domain e0 = Some cat0 → classifyPG "transaction" duplicate = e0) ∧
    (∀ code text, e0 = EPg code text → (2 ≤ String.length code)%nat → (Retryable cat = true ↔ take_str 2 code ∉ permanent_classes)).
Proof. apply (pg_Do_error ex_refused (ex_pg []) (classifyPG "transaction" duplicate) (ex_pg [])); reflexivity. Defined.


(** ** The outbox *)

Definition ex_queued : PGStore := (pg_Do (run_ops [OpEnqueue ex_message; OpEnqueue ex_message]) (ex_pg [])).2.
(** A publisher that records what it accepts. *)
Definition ex_publish (batch : list OutboxMessage) (sent : list Z) : option error * list Z := (None, sent ++ (ob_ID <$> batch)).

Lemma pg_outbox_no_loss_witness :
  let s' := (pg_DrainOutbox 10 (λ _, false) ex_publish [] ex_queued).2 in
  ∃ db0, rtc (peer_step (pg_net ex_queued)) (pg_db ex_queued) db0 ∧
    (pg_db s' = db0 ∧ 2%Z = 0%Z ∧ (None = None (A:=error) → [1%Z; 2%Z] = []) ∨
     ∃ rows, rows ≠ [] ∧ Forall (λ q, q ∈ db_outbox db0 ∧ pq_published q = false ∧ false = false) rows ∧
       ex_publish (message_of_row <$> rows) [] = (None, [1%Z; 2%Z]) ∧ pg_db s' = sql_mark (pq_id <$> rows) db0 ∧
       (2%Z = Z.of_nat (length rows) ∧ None = None (A:=error) ∨ 2%Z = 0%Z ∧ is_Some (None (A:=error)))).
Proof.
  intros s'. apply (pg_outbox_no_loss 10 (λ _, false) ex_publish [] ex_queued 2 None [1%Z; 2%Z] s'). vm_compute. reflexivity.
Defined.

(** ** Automation *)

Lemma auto_same_empty : auto_same EmptyDB NewMemStore.
Proof.
  constructor; simpl; try done.
  - apply NewMemStore_ok.
  - intros id. by rewrite lookup_empty in *; intros [].
Qed.

Definition ex_auto_request : AutomationRequest :=
  MkAutomationRequest "r1" "c1" "p1" "e1" "alert-1" "switch-01" "restart" "eth0" None "down" "policy" false AutomationPending 1000 1000 "".
Definition ex_auto_result : AutomationResult := MkAutomationResult "r1" "c1" AutomationSucceeded false "done" None 2000 3000.
Definition ex_calls : list auto_op :=
  [UInsert ex_auto_request [ex_message]; UInsert ex_auto_request [ex_message]; UDue 5000 60000 10; UClaim "r1" 5000 60000; UClaim "r1" 6000 60000;
   UComplete ex_auto_result [ex_message]; UComplete ex_auto_result [ex_message]; UHistory "p1" "switch-01" "eth0" 1000; UGet "r1"; UFiring "alert-1"].


(** What the calls answer. *)
Example ex_calls_answers :
  (λ r, match r with Ok (AnsBool b) => Some b | _ => None end) <$> (run_calls ex_calls (ex_pg [])).1
  = [Some true; Some false; None; Some true; Some false; Some true; Some false; None; None; Some false].
Proof. reflexivity. Qed.

(** [CompleteAutomation] promises [false] when the request was already completed. Its first
    attempt meets a conflict when it commits; before the second, another worker completes the
    request; the second attempt inserts nothing, yet the call answers [true], because the variable
    still holds what the first attempt set. *)
Definition ex_other_result : AutomationResult := MkAutomationResult "r1" "c1" AutomationFailed false "other worker" None 2000 3000.
Definition ex_requested : PGStore := (pg_InsertAutomationRequest ex_auto_request [] (ex_pg [])).2.
Definition ex_overtake : DB * Z → DB * Z := λ '(db, seq),
  (pg_db (pg_CompleteAutomation ex_other_result [] (MkPGStore db seq [])).2, seq).
Definition ex_overtaken : PGStore :=
  MkPGStore (pg_db ex_requested) 0 [ok_trip; ok_trip; ok_trip; MkTrip id (Fails conflict); ok_trip; MkTrip ex_overtake Runs].

Theorem complete_answers_stale_true :
  (pg_CompleteAutomation ex_auto_result [] ex_overtaken).1 = Ok true ∧
  (result_of_row <$> db_results (pg_db (pg_CompleteAutomation ex_auto_result [] ex_overtaken).2) !! "r1") = Some ex_other_result.
Proof. split; reflexivity. Qed.

(** An error that the server reports while it executes a list query comes back without a
    category, and counts as final; the same error of an update is worth a retry. *)
Theorem list_error_uncategorised :
  let s := ex_pg [MkTrip id (Breaks (EPg "57P01" "FATAL: terminating connection due to administrator command (SQLSTATE 57P01)"))] in
  (∃ e, (pg_DueAutomation 0 0 10 s).1 = Err e ∧ as_domain e = None ∧ IsRetryable (Some e) = false) ∧
  (∃ e, (pg_ClaimAutomation "r1" 0 0 s).1 = Err e ∧ IsRetryable (Some e) = true).
Proof. simpl. split; eexists; [split_and!; reflexivity|split; reflexivity]. Qed.

(** ** Listings *)

Definition ex_events : list tx_op := [OpInsertEvent ex_opening; OpInsertEvent (ex_event "e2" 9000); OpInsertEvent (ex_event "e3" 8000)].
Definition ex_pg_events : PGStore := (pg_Do (run_ops ex_events) (ex_pg [])).2.
Definition ex_mem_events : MemStore := (Do (run_ops ex_events) NewMemStore).2.
Lemma ex_mem_events_ok : store_ok ex_mem_events.
Proof.
  destruct (mem_ops_meet ex_events (MkMemTx NewMemStore []) NewMemStore_ok) as (rs & t & Hrun & _ & _ & Hok).
  assert (ex_mem_events = tx_s t) as ->; [|done]. unfold ex_mem_events, Do, MemStore_store, mem_Do. cbn [ms_failNext NewMemStore].
  by rewrite Hrun.
Qed.


(** An event opens an alert once on PostgreSQL, where it is the primary key; in memory it opens
    another after the first was resolved. *)
Definition ex_reopen : list tx_op := [OpOpenAlert ex_opening; OpResolveAlert ex_opening; OpOpenAlert ex_opening].

Theorem reopened_alert_differs :
  (pg_Do (run_ops ex_reopen) (ex_pg [])).1 = Ok [RBool true; RBool true; RBool false] ∧
  (Do (run_ops ex_reopen) NewMemStore).1 = Ok [RBool true; RBool true; RBool true].
Proof. split; reflexivity. Qed.
