(* ===== verification/StoreTest.v ===== *)
(** * The contract suite of the stores
    (src/internal/persistence/storetest/suite.go, automation.go, reader.go)

    The suite that both implementations of the store must pass, as programs over any store. A
    failed check ends a case with an error; workers that a case starts concurrently take their
    turns one after the other. Both stores pass. *)

From S2P Require Import Prelude GoLib GoFloat Domain Store Inventory MemStore AutoStore AutoStoreFacts PgDB PgStore PgAuto PgReader.

(** ** What the suite needs of a store *)

Class SuiteStore (X T : Type) `{TxOps T, AutoOps X} := {
  su_Do {A} : ST T error A → ST X error A;
  su_UpsertDevices : list Device → ST X error unit;
  su_UpdateDeviceAttributes : string → smap → ST X error unit;
  su_ListDevices : ST X error (list Device);
  su_Latest : string → string → smap → ST X error (option Observation);
  su_ListStates : ST X error (list StateRecord);
  su_DrainOutbox {P} : Z → (list OutboxMessage → P → option error * P) → P → X → (Z * option error) * P * X;
  su_ListEvents : EventFilter → Page → ST X error (list Event * string);
  su_ListAlerts : AlertFilter → Page → ST X error (list Alert * string);
  su_ListAutomation : AutomationFilter → Page → ST X error (list AutomationView * string);
  su_Metrics : string → string → Time → Time → Z → ST X error (list MetricPoint);
  su_LatestMetrics : string → ST X error (list MetricPoint);
  su_DeviceStates : string → ST X error (list StateRecord);
}.

(** ** Checks *)

Definition check {X} (msg : string) (b : bool) : ST X error unit := if b then mret tt else ST_fail (EText msg).
(** [v, _ := op()]: the zero value [d] when [op] fails. *)
Definition val {X A} (d : A) (m : ST X error A) : ST X error A := λ s,
  match m s with (Ok a, s) => (Ok a, s) | (Err _, s) => (Ok d, s) end.
Definition ignore {X A} (m : ST X error A) : ST X error unit := λ s, (Ok tt, (m s).2).
(** The error of a call that is expected to fail. *)
Definition failure {X A} (m : ST X error A) : ST X error (option error) := λ s,
  match m s with (Ok _, s) => (Ok None, s) | (Err e, s) => (Ok (Some e), s) end.
Fixpoint each {X A} (l : list A) (f : A → ST X error unit) : ST X error unit :=
  match l with [] => mret tt | x :: l => _ ← f x; each l f end.

#[local] Notation "a == b" := (bool_decide (a = b)) (at level 70, only parsing).
Definition at_ {A} (l : list A) (i : nat) (p : A → bool) : bool := match l !! i with Some x => p x | None => false end.
Definition found {A} (o : option A) (p : A → bool) : bool := match o with Some x => p x | None => false end.

(** ** Fixtures *)

Definition t0 : Time := 63921182400000000000.
Definition after (d : Duration) : Time := time_Add t0 d.
Definition iface (n : string) : smap := Some {["interface" := n]}.

Definition obs (id : string) : Observation :=
  MkObservation id ("c-" +:+ id) "sw1" "snmp" "network.interface.operational" (VBool true) (iface "Gi0/1") t0 (after Second)
    (Some {["site" := "lab"]}).
Definition event (id key : string) (resolves : bool) : Event :=
  MkEvent id "c" "sw1" "interface.down" SeverityWarning "down" (iface "Gi0/1") t0 "o" "iface" key resolves.
Definition state_at (key dev def : string) (st : HealthState) : StateRecord :=
  StateRecord0 <| sr_Key := key |> <| sr_DeviceID := dev |> <| sr_DefinitionID := def |> <| sr_State := st |>
    <| sr_LastObservedAt := t0 |> <| sr_LastSeenAt := t0 |> <| sr_LastTransitionAt := t0 |>.
Definition req (id : string) (at_ : Time) : AutomationRequest :=
  MkAutomationRequest id "corr" "p1" "e1" "alert-1" "sw1" "restart_service" "svc" (Some {["service" := "x"]}) "because" "policy" true
    AutomationPending at_ at_ "".
Definition outboxMsg (id : string) : OutboxMessage := MkOutboxMessage 0 "automation.request" id id None.
Definition accept : list OutboxMessage → list OutboxMessage → option error * list OutboxMessage := λ batch _, (None, batch).

#[local] Instance eta_Event : Eta Event := λ e,
  MkEvent (ev_EventID e) (ev_CorrelationID e) (ev_DeviceID e) (ev_Type e) (ev_Severity e) (ev_Message e) (ev_Labels e)
    (ev_OccurredAt e) (ev_ObservationID e) (ev_Source e) (ev_AlertKey e) (ev_Resolves e).

Section suite.
Context `{SuiteStore X T}.

(** Drain and keep what the publisher was last given. *)
Definition drain (limit : Z) : ST X error (Z * list OutboxMessage) := λ s,
  let '(n, err, got, s) := su_DrainOutbox limit accept [] s in
  match err with Some e => (Err e, s) | None => (Ok (n, got), s) end.
Definition insert_obs (o : Observation) : ST X error unit := ignore (su_Do (InsertObservation o)).

(** ** The store (suite.go) *)

Definition ObservationInsertIsIdempotent : ST X error unit :=
  each [true; false; false] (λ want, su_Do (got ← InsertObservation (obs "o1"); check "inserted" (got == want))).

Definition boom : error := EText "boom".
Definition ErrorRollsBackEverything : ST X error unit :=
  err ← failure (su_Do (
    _ ← InsertObservation (obs "o1");
    _ ← PutState (state_at "k" "sw1" "d" StateUp);
    _ ← InsertEvent (event "e1" "k" false);
    _ ← OpenAlert (event "e1" "k" false);
    _ ← Enqueue (MkOutboxMessage 0 "s" "m" "x" None);
    ST_fail (A:=unit) boom));
  _ ← check "expected the handler error" (bool_decide (err ≠ None));
  states ← val [] su_ListStates;
  _ ← check "state survived a rolled-back transaction" (length states == 0);
  '(n, _) ← val (0%Z, []) (drain 10);
  _ ← check "outbox message survived a rolled-back transaction" (n == 0%Z);
  su_Do (
    ins ← val false (InsertObservation (obs "o1"));
    _ ← check "observation survived rollback" ins;
    ins ← val false (InsertEvent (event "e1" "k" false));
    _ ← check "event survived rollback" ins;
    opened ← val false (OpenAlert (event "e1" "k" false));
    check "alert survived rollback" opened).

Definition rec : StateRecord :=
  MkStateRecord "iface/sw1/interface=Gi0/1" "sw1" "iface" (iface "Gi0/1") StateSuspect 2 1 true t0 (after Minute)
    (after (2 * Minute)) (after (3 * Minute)) "o9" (after (4 * Minute)) "true".
Definition StateRoundTrip : ST X error unit :=
  _ ← su_Do (got ← val None (GetState (sr_Key rec)); _ ← check "unknown key must return nil" (got == None); PutState rec);
  got ← val None (su_Do (val None (GetState (sr_Key rec))));
  _ ← check "round trip mismatch" (found got (λ g,
    (sr_State g == sr_State rec) && (sr_Failures g == 2%Z) && (sr_Successes g == 1%Z) && sr_Breached g && (mread (sr_Labels g) "interface" == "Gi0/1")
    && (sr_BadSince g == sr_BadSince rec) && (sr_GoodSince g == sr_GoodSince rec) && (sr_LastSeenAt g == sr_LastSeenAt rec)
    && (sr_LastObservedAt g == sr_LastObservedAt rec) && (sr_LastTransitionAt g == sr_LastTransitionAt rec)
    && (sr_LastObservationID g == "o9") && (sr_LastValue g == "true")));
  _ ← ignore (su_Do (PutState (rec <| sr_State := StateDown |> <| sr_Failures := 3%Z |>)));
  list_ ← val [] su_ListStates;
  check "ListStates" ((length list_ == 1) && at_ list_ 0 (λ r, sr_State r == StateDown)).

Definition EventsAndAlertsLifecycle : ST X error unit :=
  su_Do (
    ins ← val false (InsertEvent (event "e1" "k" false));
    dup ← val false (InsertEvent (event "e1" "k" false));
    _ ← check "event idempotency" (ins && negb dup);
    opened ← val false (OpenAlert (event "e1" "k" false));
    _ ← check "first open should open" opened;
    opened ← val false (OpenAlert (event "e2" "k" false));
    _ ← check "a second opening event for a firing alert must not open another" (negb opened);
    r ← val false (ResolveAlert (event "e3" "other" true));
    _ ← check "resolving an unknown alert must be a no-op" (negb r);
    r ← val false (ResolveAlert (event "e3" "k" true));
    _ ← check "resolve should close the firing alert" r;
    r ← val false (ResolveAlert (event "e4" "k" true));
    _ ← check "resolving twice must be a no-op" (negb r);
    opened ← val false (OpenAlert (event "e5" "k" false));
    check "after resolution the alert can fire again" opened).

Definition sample_obs (id : string) (at_ : Time) (v : value) (dev : string) : Observation :=
  (obs id) <| o_Value := v |> <| o_ObservedAt := at_ |> <| o_DeviceID := dev |>.
Definition SamplesWindow : ST X error unit :=
  _ ← ignore (su_Do (
    _ ← each [("a", 0%Z, true); ("b", 1%Z, false); ("c", 2%Z, true); ("d", 3%Z, false)] (λ '(id, i, v),
      ignore (InsertObservation (sample_obs id (after (i * Minute)) (VBool v) "sw1")));
    _ ← ignore (InsertObservation (sample_obs "z" (after Minute) (VBool true) "other-device"));
    ignore (InsertObservation ((sample_obs "n" (after (30 * Second)) (VFloat64 (f_dyadic 1 (-1))) "sw1") <| o_Metric := "other.metric" |>))));
  su_Do (
    let key := LabelsKey (iface "Gi0/1") in
    got ← Samples "sw1" "network.interface.operational" key t0 (after (3 * Minute));
    _ ← check "samples" ((length got == 3) && at_ got 0 (λ s, (sm_At s == after Minute) && (sm_Bool s == Some false) && f_eq (sm_Num s) f_zero));
    _ ← check "ordering/values" (at_ got 1 (λ s, f_eq (sm_Num s) f_one));
    capped ← val [] (Samples "sw1" "network.interface.operational" key (after (- Hour)) (after Minute));
    check "upper bound must be inclusive and enforced" (length capped == 2)).

Definition latest_obs (id : string) (at_ : Time) (v : value) (labels : smap) : Observation :=
  (obs id) <| o_ObservedAt := at_ |> <| o_Value := v |> <| o_Labels := labels |>.
Definition LatestObservation : ST X error unit :=
  let m := "network.interface.operational" in
  _ ← insert_obs (latest_obs "a" t0 (VBool true) (iface "Gi0/1"));
  _ ← insert_obs (latest_obs "b" (after Minute) (VBool false) (iface "Gi0/1"));
  _ ← insert_obs (latest_obs "c" (after (2 * Minute)) (VBool true) (iface "Gi0/2"));
  got ← su_Latest "sw1" m (iface "Gi0/1");
  _ ← check "labelled latest" (found got (λ o, (o_ObservationID o == "b") && (o_Value o == VBool false)
        && (mread (o_Labels o) "interface" == "Gi0/1") && (o_ObservedAt o == after Minute)));
  any ← val None (su_Latest "sw1" m None);
  _ ← check "nil labels match any series" (found any (λ o, o_ObservationID o == "c"));
  none ← val None (su_Latest "sw1" m (Some ∅));
  _ ← check "empty (non-nil) labels means the unlabelled series" (none == None);
  none ← val None (su_Latest "sw1" "no.such.metric" None);
  _ ← check "unknown metric" (none == None);
  _ ← insert_obs (latest_obs "n" t0 (VFloat64 (f_dyadic 85 (-1))) (Some ∅));
  _ ← insert_obs ((latest_obs "s" t0 (VString "switch-01") None) <| o_Metric := "system.name" |>);
  n ← val None (su_Latest "sw1" "system.name" None);
  check "string value" (found n (λ o, o_Value o == VString "switch-01")).

Definition TransitionInsertIsIdempotent : ST X error unit :=
  each [0; 1] (λ _, su_Do (InsertTransition (MkTransition "t1" "k" "sw1" "d" None StateUp StateSuspect t0 "o" "c"))).

Definition suite_device : Device :=
  MkDevice "sw1" "sw1" "x" DeviceSwitch "" "" "" "" ["core"] [] "" true time_zero (MkCollectionSpec "snmp" "p" 0) (Some {["a" := "b"]}).
Definition DevicesAndTouch : ST X error unit :=
  _ ← su_UpsertDevices [suite_device];
  _ ← ignore (su_Do (TouchDevice "sw1" t0));
  _ ← ignore (su_Do (TouchDevice "sw1" (after (- Hour))));
  _ ← ignore (su_Do (TouchDevice "unknown" t0));
  _ ← su_UpsertDevices [suite_device <| d_Hostname := "renamed" |>];
  _ ← su_UpdateDeviceAttributes "sw1" (Some {["observed.sys_name" := "sw1-real"; "a" := "changed"]});
  _ ← ignore (su_UpdateDeviceAttributes "unknown-device" (Some {["x" := "y"]}));
  list_ ← su_ListDevices;
  check "device round trip" ((length list_ == 1) && at_ list_ 0 (λ d,
    (d_Hostname d == "renamed") && (d_LastSeen d == t0) && at_ (d_Tags d) 0 (λ t, t == "core") && (mread (d_Attributes d) "a" == "changed")
    && (mread (d_Attributes d) "observed.sys_name" == "sw1-real") && (cs_Profile (d_Collection d) == "p") && (d_DeviceType d == DeviceSwitch))).

Definition nats_down : error := EText "nats down".
Definition OutboxDelivery : ST X error unit :=
  _ ← each ["a"; "b"; "c"] (λ id, ignore (su_Do (Enqueue (MkOutboxMessage 0 ("s." +:+ id) id id (Some {["h" := id]})))));
  _ ← (λ s, let '(n, err, _, s) := su_DrainOutbox 10 (λ _ p, (Some nats_down, p)) tt s in
            check "failed publish must keep messages queued" ((n == 0%Z) && bool_decide (err ≠ None)) s);
  '(n, first) ← drain 2;
  _ ← check "first drain" ((n == 2%Z) && at_ first 0 (λ m, (ob_MsgID m == "a") && (mread (ob_Headers m) "h" == "a") && (ob_Payload m == "a"))
        && at_ first 1 (λ m, ob_MsgID m == "b"));
  '(n, rest) ← val (0%Z, []) (drain 10);
  _ ← check "published messages must not be delivered again" ((n == 1%Z) && at_ rest 0 (λ m, ob_MsgID m == "c"));
  '(n, rest) ← val (0%Z, []) (drain 10);
  check "empty outbox" ((n == 0%Z) && (length rest == 0)).

Definition ConcurrentStateUpdatesSerialisePerKey : ST X error unit :=
  _ ← each (seq 0 12) (λ _, su_Do (
    r ← GetState "k";
    let r := default (state_at "k" "sw1" "d" StateUp) r in
    PutState (r <| sr_Failures := (sr_Failures r + 1)%Z |>)));
  list_ ← val [] su_ListStates;
  check "lost updates" ((length list_ == 1) && at_ list_ 0 (λ r, sr_Failures r == 12%Z)).

Definition Run : list (string * ST X error unit) :=
  [("ObservationInsertIsIdempotent", ObservationInsertIsIdempotent); ("ErrorRollsBackEverything", ErrorRollsBackEverything);
   ("StateRoundTrip", StateRoundTrip); ("EventsAndAlertsLifecycle", EventsAndAlertsLifecycle); ("SamplesWindow", SamplesWindow);
   ("LatestObservation", LatestObservation); ("TransitionInsertIsIdempotent", TransitionInsertIsIdempotent);
   ("DevicesAndTouch", DevicesAndTouch); ("OutboxDelivery", OutboxDelivery);
   ("ConcurrentStateUpdatesSerialisePerKey", ConcurrentStateUpdatesSerialisePerKey)].

(** ** Automation (automation.go) *)

Definition InsertIsIdempotentAndEnqueuesOnce : ST X error unit :=
  _ ← each [true; false; false] (λ want, got ← InsertAutomationRequest (req "r1" t0) [outboxMsg "r1"]; check "insert" (got == want));
  '(_, m) ← val (0%Z, []) (drain 10);
  _ ← check "a duplicate insert must not enqueue a second notification" (length m == 1);
  '(r, res) ← GetAutomation "r1";
  _ ← check "get" (found r (λ r, (mread (rq_Params r) "service" == "x") && (rq_Status r == AutomationPending) && (rq_NotBefore r == t0) && rq_DryRun r)
        && match res with None => true | Some _ => false end);
  '(r, _) ← val (None, None) (GetAutomation "missing");
  check "unknown id" (match r with None => true | Some _ => false end).

Definition due_request (id : string) (st : AutomationStatus) (nb : Time) : ST X error unit :=
  ignore (InsertAutomationRequest ((req id t0) <| rq_Status := st |> <| rq_NotBefore := nb |>) []).
Definition DueSelection : ST X error unit :=
  _ ← due_request "future" AutomationPending (after Hour);
  _ ← due_request "ready" AutomationPending (after (- Minute));
  _ ← due_request "approved" AutomationApproved (after Hour);
  _ ← due_request "waiting" AutomationAwaitingApproval (after (- Minute));
  _ ← due_request "done" AutomationSucceeded (after (- Minute));
  due ← DueAutomation t0 (5 * Minute) 10;
  let got : gset string := list_to_set (rq_RequestID <$> due) in
  _ ← check "ready and approved only" ((size got == 2) && bool_decide ("ready" ∈ got) && bool_decide ("approved" ∈ got));
  lim ← val [] (DueAutomation t0 (5 * Minute) 1);
  check "limit not honoured" (length lim == 1).

Fixpoint count_wins (n : nat) : ST X error nat :=
  match n with
  | O => mret 0
  | S n => ClaimAutomation "r1" t0 Minute ≫= λ ok : bool, count_wins n ≫= λ wins : nat, mret (if ok then S wins else wins)
  end.
Definition ClaimIsExclusiveAndLeaseExpires : ST X error unit :=
  _ ← ignore (InsertAutomationRequest (req "r1" t0) []);
  wins ← count_wins 12;
  _ ← check "exactly one worker may claim a request" (wins == 1);
  due ← val [] (DueAutomation (after (30 * Second)) Minute 10);
  _ ← check "a freshly claimed request is not due" (length due == 0);
  let later := after (2 * Minute) in
  due ← val [] (DueAutomation later Minute 10);
  _ ← check "stale claim must be recoverable" (length due == 1);
  ok ← val false (ClaimAutomation "r1" later Minute);
  _ ← check "re-claim after lease expiry" ok;
  ok ← val false (ClaimAutomation "missing" t0 Minute);
  check "unknown request" (negb ok).

Definition suite_result : AutomationResult :=
  MkAutomationResult "r1" "corr" AutomationDryRun true "would restart" (Some {["k" := "v"]}) t0 (after Second).
(** The zero result names its request only; its empty status is none of the constants, and no
    store looks at it before it misses the request. *)
Definition ghost_result : AutomationResult := MkAutomationResult "ghost" "" AutomationPending false "" None time_zero time_zero.
Definition CompleteRecordsResultOnceAndNotifies : ST X error unit :=
  _ ← ignore (InsertAutomationRequest (req "r1" t0) []);
  ok ← CompleteAutomation suite_result [outboxMsg "res-1"];
  _ ← check "complete" ok;
  again ← val false (CompleteAutomation suite_result [outboxMsg "res-1-dup"]);
  _ ← check "completing twice must be a no-op" (negb again);
  '(r, got) ← val (None, None) (GetAutomation "r1");
  _ ← check "recorded" (found r (λ r, rq_Status r == AutomationDryRun) && found got (λ g, (rs_Message g == "would restart")
        && (mread (rs_Details g) "k" == "v") && (rs_FinishedAt g == rs_FinishedAt suite_result) && rs_DryRun g));
  '(_, m) ← val (0%Z, []) (drain 10);
  _ ← check "exactly one result notification expected" ((ob_MsgID <$> m) == ["res-1"]);
  err ← failure (CompleteAutomation ghost_result []);
  check "result for an unknown request must be an error" (bool_decide (err ≠ None)).

Definition ApprovalFlow : ST X error unit :=
  _ ← ignore (InsertAutomationRequest ((req "r1" t0) <| rq_Status := AutomationAwaitingApproval |>) []);
  ok ← val false (ApproveAutomation "missing" "alice");
  _ ← check "unknown" (negb ok);
  old ← val [] (AwaitingApprovalBefore (after (- Hour)));
  _ ← check "not yet old enough" (length old == 0);
  old ← val [] (AwaitingApprovalBefore (after Hour));
  _ ← check "should be listed once past the cutoff" (length old == 1);
  ok ← val false (ApproveAutomation "r1" "alice");
  _ ← check "approve" ok;
  ok ← val false (ApproveAutomation "r1" "bob");
  _ ← check "approving twice must not succeed" (negb ok);
  '(got, _) ← val (None, None) (GetAutomation "r1");
  _ ← check "approver" (found got (λ r, (rq_Status r == AutomationApproved) && (rq_ApprovedBy r == "alice")));
  ok ← val false (SetAutomationStatus "r1" [AutomationPending] AutomationDenied);
  _ ← check "status guard must apply" (negb ok);
  ok ← val false (SetAutomationStatus "r1" [AutomationApproved; AutomationPending] AutomationDenied);
  check "status change" ok.

Definition past_request (id : string) (st : AutomationStatus) (created executed_at : Time) (target alert : string) : ST X error unit :=
  _ ← ignore (InsertAutomationRequest ((req id created) <| rq_Target := target |> <| rq_AlertKey := alert |>) []);
  ignore (CompleteAutomation (MkAutomationResult id "corr" st false "m" None executed_at executed_at) []).
Definition HistoryAndAttempts : ST X error unit :=
  let mk (id : string) (st : AutomationStatus) (at_ : Time) (target alert : string) := past_request id st at_ at_ target alert in
  _ ← mk "old" AutomationSucceeded (after (- 2 * Hour)) "svc" "alert-1";
  _ ← mk "recent" AutomationDryRun (after (- 10 * Minute)) "svc" "alert-1";
  _ ← mk "denied" AutomationDenied (after (- 5 * Minute)) "svc" "alert-1";
  _ ← mk "other-target" AutomationSucceeded (after (- 5 * Minute)) "other" "alert-1";
  _ ← mk "other-alert" AutomationFailed (after (- 5 * Minute)) "svc" "alert-2";
  _ ← past_request "late" AutomationSucceeded (after (- 3 * Hour)) (after (- Minute)) "svc" "alert-1";
  h ← AutomationHistory "p1" "sw1" "svc" (after (- 30 * Minute));
  _ ← check "history" (length h == 3);
  n ← val 0%Z (AttemptsForAlert "p1" "alert-1");
  _ ← check "attempts for alert-1" (n == 4%Z);
  n ← val 0%Z (AttemptsForAlert "p2" "alert-1");
  check "attempts are per policy" (n == 0%Z).

Definition AlertFiring_case : ST X error unit :=
  f ← val false (AlertFiring_ "k");
  _ ← check "no alert yet" (negb f);
  _ ← ignore (su_Do (_ ← ignore (InsertEvent (event "e1" "k" false)); OpenAlert (event "e1" "k" false)));
  f ← val false (AlertFiring_ "k");
  _ ← check "alert is firing" f;
  _ ← ignore (su_Do (ResolveAlert (event "e2" "k" true)));
  f ← val false (AlertFiring_ "k");
  check "alert resolved" (negb f).

Definition RunAutomation : list (string * ST X error unit) :=
  [("InsertIsIdempotentAndEnqueuesOnce", InsertIsIdempotentAndEnqueuesOnce); ("DueSelection", DueSelection);
   ("ClaimIsExclusiveAndLeaseExpires", ClaimIsExclusiveAndLeaseExpires);
   ("CompleteRecordsResultOnceAndNotifies", CompleteRecordsResultOnceAndNotifies); ("ApprovalFlow", ApprovalFlow);
   ("HistoryAndAttempts", HistoryAndAttempts); ("AlertFiring", AlertFiring_case)].

(** ** The read side (reader.go) *)

Definition every_event : EventFilter := MkEventFilter "" "" "" time_zero time_zero.

(** [fmt.Sprintf("evt-%03d", i)]. *)
Definition pad3 (i : nat) : string := (if (i <? 10)%nat then "00" else if (i <? 100)%nat then "0" else "") +:+ pretty i.

(** Follow the cursors: the ids in order and the number of pages, [fuel] pages at most. *)
Fixpoint read_pages (fuel : nat) (cursor : string) : ST X error (list string * nat) :=
  match fuel with
  | O => ST_fail (EText "too many pages")
  | S fuel =>
      '(items, next) ← su_ListEvents every_event (MkPage 10 cursor);
      if next == "" then mret (ev_EventID <$> items, 1)
      else '(ids, pages) ← read_pages fuel next; mret ((ev_EventID <$> items) ++ ids, S pages)
  end.
Definition EventPagination : ST X error unit :=
  _ ← ignore (su_Do (each (seq 0 47) (λ i,
    ignore (InsertEvent ((event ("evt-" +:+ pad3 i) "" false) <| ev_OccurredAt := after (Z.of_nat (i / 4) * Minute) |>)))));
  '(ids, pages) ← read_pages 48 "";
  _ ← check "no gaps or duplicates" (bool_decide (NoDup ids) && (length ids == 47) && (pages == 5));
  '(first, _) ← val ([], "") (su_ListEvents every_event (MkPage 3 ""));
  _ ← check "newest first, ties broken by id descending" (at_ first 0 (λ e, ev_EventID e == "evt-046") && at_ first 1 (λ e, ev_EventID e == "evt-045"));
  err ← failure (su_ListEvents every_event (MkPage 0 "not-a-cursor"));
  check "a bad cursor is a validation error" (CategoryOf err == CategoryValidation).

Definition filter_event (id dev typ : string) (sev : Severity) (at_ : Time) : ST X error unit :=
  ignore (su_Do (InsertEvent ((event id "" false) <| ev_DeviceID := dev |> <| ev_Type := typ |> <| ev_Severity := sev |> <| ev_OccurredAt := at_ |>))).
Definition EventFilters : ST X error unit :=
  _ ← filter_event "a" "sw1" "interface.down" SeverityWarning t0;
  _ ← filter_event "b" "sw1" "device.down" SeverityCritical (after Minute);
  _ ← filter_event "c" "sw2" "interface.down" SeverityInfo (after (2 * Minute));
  each [(MkEventFilter "sw1" "" "" time_zero time_zero, "ba"); (MkEventFilter "" "interface.down" "" time_zero time_zero, "ca");
        (MkEventFilter "" "" SeverityWarning time_zero time_zero, "ba"); (MkEventFilter "" "" "" (after Minute) time_zero, "cb");
        (MkEventFilter "" "" "" time_zero (after Minute), "a"); (MkEventFilter "sw1" "" SeverityCritical time_zero time_zero, "b");
        (MkEventFilter "nope" "" "" time_zero time_zero, "")]
    (λ '(f, want), '(items, _) ← su_ListEvents f (MkPage 0 ""); check "filter" (String.concat "" (ev_EventID <$> items) == want)).

Definition any_alert : AlertFilter := MkAlertFilter None "".
Definition AlertListing : ST X error unit :=
  _ ← ignore (su_Do (
    _ ← each [(0%Z, "e0", "k1"); (1%Z, "e1", "k2"); (2%Z, "e2", "k3")] (λ '(i, id, key),
      let e := (event id key false) <| ev_OccurredAt := after (i * Minute) |> in
      let e := if i == 2%Z then e <| ev_DeviceID := "sw2" |> else e in
      _ ← ignore (InsertEvent e); _ ← OpenAlert e; mret tt);
    ResolveAlert (event "r" "k1" true)));
  '(all, _) ← val ([], "") (su_ListAlerts any_alert (MkPage 0 ""));
  _ ← check "newest first" ((length all == 3) && at_ all 0 (λ a, al_AlertKey a == "k3"));
  '(firing_, _) ← val ([], "") (su_ListAlerts (MkAlertFilter (Some AlertFiring) "") (MkPage 0 ""));
  '(resolved, _) ← val ([], "") (su_ListAlerts (MkAlertFilter (Some AlertResolved) "") (MkPage 0 ""));
  _ ← check "by status" ((length firing_ == 2) && (length resolved == 1) && at_ resolved 0 (λ a,
        (al_AlertKey a == "k1") && negb (IsZero (al_ResolvedAt a)) && (mread (al_Labels a) "interface" == "Gi0/1")));
  '(d, _) ← val ([], "") (su_ListAlerts (MkAlertFilter None "sw2") (MkPage 0 ""));
  _ ← check "by device" (length d == 1);
  '(p1, next) ← val ([], "") (su_ListAlerts any_alert (MkPage 2 ""));
  '(p2, next2) ← val ([], "") (su_ListAlerts any_alert (MkPage 2 next));
  check "pages" ((length p1 == 2) && bool_decide (next ≠ "") && (length p2 == 1) && (next2 == "") && at_ p2 0 (λ a, al_AlertKey a == "k1")).

Definition any_request : AutomationFilter := MkAutomationFilter None "" "".
Definition by_id_ (id : string) (vs : list AutomationView) : option AutomationView := head (filter (λ v, rq_RequestID (vw_Request v) = id) vs).
Definition AutomationListingJoinsResults : ST X error unit :=
  _ ← each [("r0", 0%Z); ("r1", 1%Z); ("r2", 2%Z)] (λ '(id, i),
    let r := req id (after (i * Minute)) in
    ignore (InsertAutomationRequest (if i == 2%Z then r <| rq_PolicyID := "p2" |> <| rq_DeviceID := "sw2" |> else r) []));
  _ ← ignore (CompleteAutomation (MkAutomationResult "r1" "corr" AutomationDryRun true "would do it" (Some {["k" := "v"]}) t0 (after Second)) []);
  '(all, _) ← su_ListAutomation any_request (MkPage 0 "");
  _ ← check "all" ((length all == 3) && at_ all 0 (λ v, rq_RequestID (vw_Request v) == "r2"));
  _ ← check "joined" (found (by_id_ "r0" all) (λ v, match vw_Result v with None => true | Some _ => false end)
        && found (by_id_ "r1" all) (λ v, found (vw_Result v) (λ x, (rs_Message x == "would do it") && (mread (rs_Details x) "k" == "v"))
             && (rq_Status (vw_Request v) == AutomationDryRun) && (mread (rq_Params (vw_Request v)) "service" == "x")));
  '(d, _) ← val ([], "") (su_ListAutomation (MkAutomationFilter None "sw2" "") (MkPage 0 ""));
  _ ← check "device filter" (length d == 1);
  '(d, _) ← val ([], "") (su_ListAutomation (MkAutomationFilter None "" "p2") (MkPage 0 ""));
  _ ← check "policy filter" (length d == 1);
  '(d, _) ← val ([], "") (su_ListAutomation (MkAutomationFilter (Some AutomationDryRun) "" "") (MkPage 0 ""));
  _ ← check "status filter" ((length d == 1) && at_ d 0 (λ v, rq_RequestID (vw_Request v) == "r1"));
  '(p1, next) ← val ([], "") (su_ListAutomation any_request (MkPage 2 ""));
  '(p2, _) ← val ([], "") (su_ListAutomation any_request (MkPage 2 next));
  check "pagination" ((length p1 == 2) && (length p2 == 1) && at_ p2 0 (λ v, rq_RequestID (vw_Request v) == "r0")).

Definition put_metric (id metric : string) (at_ : Time) (v : value) (labels : smap) : ST X error unit :=
  insert_obs ((obs id) <| o_Metric := metric |> <| o_ObservedAt := at_ |> <| o_Value := v |> <| o_Labels := labels |>).
Definition tenth : float64 := f_div f_one (f_of_int 10).
Definition point_for (key : string) (l : list MetricPoint) : option MetricPoint :=
  last (filter (λ p, pt_Metric p +:+ "|" +:+ LabelsKey (pt_Labels p) = key) l).
Definition MetricsAndLatest : ST X error unit :=
  let cpu := "system.cpu.utilization" in let m := "network.interface.operational" in
  _ ← each (seq 0 5) (λ i, put_metric ("cpu" +:+ pretty i) cpu (after (Z.of_nat i * Minute)) (VFloat64 (f_mul tenth (f_of_int (Z.of_nat i)))) None);
  _ ← put_metric "if1a" m t0 (VBool true) (iface "Gi0/1");
  _ ← put_metric "if1b" m (after Minute) (VBool false) (iface "Gi0/1");
  _ ← put_metric "if2a" m t0 (VBool true) (iface "Gi0/2");
  _ ← put_metric "name" "system.name" t0 (VString "switch-01") None;
  _ ← put_metric "other" cpu t0 (VFloat64 (f_div (f_of_int 99) (f_of_int 100))) None;
  _ ← ignore (su_Do (mret tt));
  pts ← su_Metrics "sw1" cpu time_zero time_zero 3;
  _ ← check "newest first, limited" ((length pts == 3) && at_ pts 0 (λ p, pt_ObservationID p == "cpu4") && at_ pts 2 (λ p, pt_ObservationID p == "cpu2"));
  pts ← val [] (su_Metrics "sw1" cpu (after Minute) (after (3 * Minute)) 100);
  _ ← check "window" ((length pts == 3) || (length pts == 2));
  latest ← su_LatestMetrics "sw1";
  _ ← check "one point per series" (length latest == 4);
  _ ← check "latest per series" (found (point_for "network.interface.operational|interface=Gi0/1" latest) (λ p,
        (pt_Value p == VBool false) && (pt_ObservationID p == "if1b")));
  _ ← check "string value" (found (point_for "system.name|" latest) (λ p, pt_Value p == VString "switch-01"));
  pts ← val [] (su_LatestMetrics "nobody");
  check "unknown device" (length pts == 0).

Definition DeviceStates_case : ST X error unit :=
  _ ← ignore (su_Do (each [state_at "a/sw1/" "sw1" "a" StateUp; state_at "b/sw1/x" "sw1" "b" StateDown; state_at "a/sw2/" "sw2" "a" StateUp] PutState));
  got ← su_DeviceStates "sw1";
  check "states of a device" ((length got == 2) && at_ got 0 (λ r, sr_DefinitionID r == "a") && at_ got 1 (λ r, sr_State r == StateDown)).

Definition RunReader : list (string * ST X error unit) :=
  [("EventPaginationHasNoGapsOrDuplicatesEvenWithTimestampTies", EventPagination); ("EventFilters", EventFilters);
   ("AlertListing", AlertListing); ("AutomationListingJoinsResults", AutomationListingJoinsResults);
   ("MetricsAndLatest", MetricsAndLatest); ("DeviceStates", DeviceStates_case)].

(** Every case runs on a fresh store; the names of those that fail, with their errors. *)
Definition failing (fresh : X) (cases : list (string * ST X error unit)) : list (string * error) :=
  omap (λ c, match (c.2 fresh).1 with Ok _ => None | Err e => Some (c.1, e) end) cases.
Definition contract_suite : list (string * ST X error unit) := Run ++ RunAutomation ++ RunReader.
End suite.

(** * Both stores pass the contract suite *)

(** ** The stores *)

Definition pure_read {X A} (f : X → A) : ST X error A := λ s, (Ok (f s), s).
Definition read_res {X A} (f : X → res A) : ST X error A := λ s, (f s, s).

#[export] Instance MemStore_suite `{CursorCodec} : SuiteStore MemStore memTx := {|
  su_Do A fn := mem_Do None fn;
  su_UpsertDevices ds s := (Ok tt, UpsertDevices ds s);
  su_UpdateDeviceAttributes id attrs s := (Ok tt, UpdateDeviceAttributes id attrs s);
  su_ListDevices := pure_read ListDevices;
  su_Latest d m labels := pure_read (Latest d m labels);
  su_ListStates := pure_read mem_ListStates;
  su_DrainOutbox P := mem_DrainOutbox;
  su_ListEvents f p := read_res (ListEvents f p);
  su_ListAlerts f p := read_res (ListAlerts f p);
  su_ListAutomation f p := read_res (ListAutomation f p);
  su_Metrics d m since until limit := pure_read (Metrics d m since until limit);
  su_LatestMetrics d := pure_read (LatestMetrics d);
  su_DeviceStates d := pure_read (DeviceStates d);
|}.

(** No other relay holds rows. *)
#[export] Instance PGStore_suite `{PgServer, CursorCodec} : SuiteStore PGStore pgTx := {|
  su_Do A fn := pg_Do fn;
  su_UpsertDevices := pg_UpsertDevices;
  su_UpdateDeviceAttributes := pg_UpdateDeviceAttributes;
  su_ListDevices := pg_ListDevices;
  su_Latest := pg_Latest;
  su_ListStates := pg_ListStates;
  su_DrainOutbox P limit := pg_DrainOutbox limit (λ _, false);
  su_ListEvents := pg_ListEvents;
  su_ListAlerts := pg_ListAlerts;
  su_ListAutomation := pg_ListAutomation;
  su_Metrics := pg_Metrics;
  su_LatestMetrics := pg_LatestMetrics;
  su_DeviceStates := pg_DeviceStates;
|}.

(** ** Parameters to run with *)

(** A cursor as a decimal number, a bar and the id. *)
Definition digit (a : ascii) : option Z :=
  let n := Z.of_N (N_of_ascii a) in if (48 <=? n)%Z && (n <=? 57)%Z then Some (n - 48)%Z else None.
Fixpoint decimal (acc : Z) (s : string) : option (Z * string) :=
  match s with
  | String a s =>
      match digit a with
      | Some d => decimal (10 * acc + d)%Z s
      | None => if bool_decide (a = "|"%char) then Some (acc, s) else None
      end
  | EmptyString => None
  end.
Definition suite_codec : CursorCodec := {|
  cursor_Marshal c := pretty (Z.to_N c.1) +:+ "|" +:+ c.2;
  cursor_Unmarshal := decimal 0;
  b64_Encode s := s;
  b64_Decode s := Some s;
|}.

(** Two servers: one scans in the order of the keys, one the other way round. *)
Definition forward_server : PgServer := {| scan A l := l; collate := str_lt |}.
Definition backward_server : PgServer := {| scan A := reverse; collate := str_lt |}.

(** Both stores pass the whole contract suite, every case on a fresh store: the in-memory
    store, and the PostgreSQL store whichever way the server scans its tables. *)
Theorem both_stores_pass_the_suite :
  failing NewMemStore (contract_suite (H1:=MemStore_suite (H:=suite_codec))) = [] ∧
  failing (MkPGStore EmptyDB 0 []) (contract_suite (H1:=PGStore_suite (H:=forward_server) (H0:=suite_codec))) = [] ∧
  failing (MkPGStore EmptyDB 0 []) (contract_suite (H1:=PGStore_suite (H:=backward_server) (H0:=suite_codec))) = [].
Proof. split_and!; vm_compute; reflexivity. Qed.
